(** * ExclusionParser: a shallow embedding of the exclusion-list parser,
      data model, writer and pattern matcher, with the properties of its
      specification.

    Sources embedded here:
      - include/ExclusionTypes.h   (data model, getOrCreateScope, merge, counts)
      - include/ExclusionParser.h  (ParserConfig, ParseResult)
      - src/ExclusionParser.cpp    (line classifiers, parseStream, parseFile)
      - src/ExclusionWriter.cpp    (writeToStream and the per-kind emitters)
      - src/ExclusionData.cpp      (toggleDirectionToString, PatternMatcher)

    Conventions.  [std::string] is [string]; positions and sizes ([size_t])
    are [nat], and [std::string::npos] is [None] in an [option nat].
    [std::unordered_map<std::string,V>] is [gmap string V]; its iteration
    order, which C++ leaves unspecified, is a parameter [unordered_iter] of
    the development, only known to enumerate the map.  [std::optional<int>] is
    [option Z]. *)

From Stdlib Require Import Ascii String ZArith Lia.
From stdpp Require Import gmap strings list fin_maps pretty sorting.

Local Open Scope nat_scope.

(* ===================================================================== *)
(** * std::string primitives                                              *)
(* ===================================================================== *)

Module StdString.

Fixpoint drop (n : nat) (s : string) : string :=
  match n, s with
  | 0, _ => s
  | S _, EmptyString => EmptyString
  | S n', String _ s' => drop n' s'
  end.

Fixpoint take (n : nat) (s : string) : string :=
  match n, s with
  | 0, _ => EmptyString
  | S _, EmptyString => EmptyString
  | S n', String c s' => String c (take n' s')
  end.

(** [s.substr(pos, count)]: at most [count] characters from [pos].  The
    C++ function throws when [pos > s.size()]; every call site of the
    embedded code has [pos <= s.size()], and the model returns the empty
    string outside that range. *)
Definition substr (s : string) (pos count : nat) : string :=
  take count (drop pos s).

(** [s.substr(pos)]: the suffix from [pos]. *)
Definition substr_from (s : string) (pos : nat) : string := drop pos s.

Fixpoint index_char (c : ascii) (s : string) : option nat :=
  match s with
  | EmptyString => None
  | String d s' =>
      if Ascii.eqb d c then Some 0
      else match index_char c s' with
           | Some i => Some (S i)
           | None => None
           end
  end.

(** [s.find(c, pos)]. *)
Definition find_char (s : string) (c : ascii) (pos : nat) : option nat :=
  match index_char c (drop pos s) with
  | Some i => Some (pos + i)
  | None => None
  end.

(** Whether [s] begins with [p]. *)
Fixpoint is_prefix (p s : string) : bool :=
  match p, s with
  | EmptyString, _ => true
  | String _ _, EmptyString => false
  | String a p', String b s' => Ascii.eqb a b && is_prefix p' s'
  end.

Fixpoint index_str (p s : string) : option nat :=
  if is_prefix p s then Some 0
  else match s with
       | EmptyString => None
       | String _ s' =>
           match index_str p s' with
           | Some i => Some (S i)
           | None => None
           end
       end.

(** [s.find(p, pos)] for a string [p]. *)
Definition find_str (s p : string) (pos : nat) : option nat :=
  if pos <=? String.length s then
    match index_str p (drop pos s) with
    | Some i => Some (pos + i)
    | None => None
    end
  else None.

(** [s.find(p) == 0]. *)
Definition find_is_0 (s p : string) : bool :=
  match find_str s p 0 with
  | Some 0 => true
  | _ => false
  end.

(** [s.find(p) != npos]. *)
Definition find_found (s p : string) : bool :=
  match find_str s p 0 with
  | Some _ => true
  | None => false
  end.

(** [s.rfind(c)]: the last position of [c]. *)
Fixpoint rfind_char (s : string) (c : ascii) : option nat :=
  match s with
  | EmptyString => None
  | String d s' =>
      match rfind_char s' c with
      | Some i => Some (S i)
      | None => if Ascii.eqb d c then Some 0 else None
      end
  end.

Fixpoint mem_char (c : ascii) (set : string) : bool :=
  match set with
  | EmptyString => false
  | String d set' => Ascii.eqb d c || mem_char c set'
  end.

Fixpoint all_chars (P : ascii → bool) (s : string) : bool :=
  match s with
  | EmptyString => true
  | String c s' => P c && all_chars P s'
  end.

(** [s.find_first_not_of(set)]. *)
Fixpoint find_first_not_of (s set : string) : option nat :=
  match s with
  | EmptyString => None
  | String d s' =>
      if mem_char d set then
        match find_first_not_of s' set with
        | Some i => Some (S i)
        | None => None
        end
      else Some 0
  end.

(** [s.find_last_not_of(set)]. *)
Fixpoint find_last_not_of (s set : string) : option nat :=
  match s with
  | EmptyString => None
  | String d s' =>
      match find_last_not_of s' set with
      | Some i => Some (S i)
      | None => if mem_char d set then None else Some 0
      end
  end.

(** [s.front()] and [s.back()]; [None] on the empty string, where the C++
    calls have no defined behaviour. *)
Definition front (s : string) : option ascii :=
  match s with
  | EmptyString => None
  | String c _ => Some c
  end.

Fixpoint back (s : string) : option ascii :=
  match s with
  | EmptyString => None
  | String c EmptyString => Some c
  | String _ s' => back s'
  end.

Definition is_char (o : option ascii) (c : ascii) : bool :=
  match o with
  | Some d => Ascii.eqb d c
  | None => false
  end.

(** [std::isspace] and [std::isdigit] in the "C" locale. *)
Definition isspace (c : ascii) : bool :=
  mem_char c (String " " (String "009" (String "010" (String "011"
             (String "012" (String "013" EmptyString)))))).

Definition isdigit (c : ascii) : bool :=
  (48 <=? nat_of_ascii c) && (nat_of_ascii c <=? 57).

(** [stream >> word] on a [std::istringstream]: skip leading white space,
    then read up to the next white space.  Returns the word (empty when
    the stream is exhausted) and the rest of the stream. *)
Fixpoint skip_ws (s : string) : string :=
  match s with
  | EmptyString => EmptyString
  | String c s' => if isspace c then skip_ws s' else s
  end.

Fixpoint span_word (s : string) : string * string :=
  match s with
  | EmptyString => (EmptyString, EmptyString)
  | String c s' =>
      if isspace c then (EmptyString, s)
      else let '(w, r) := span_word s' in (String c w, r)
  end.

Definition read_word (stream : string) : string * string :=
  span_word (skip_ws stream).

(** [std::getline] repeated to the end of the stream: the lines between
    newline characters; a final line without a newline is still read,
    and nothing is read after a final newline. *)
Fixpoint getlines (s : string) : list string :=
  match s with
  | EmptyString => []
  | String c s' =>
      if Ascii.eqb c "010" then EmptyString :: getlines s'
      else match getlines s' with
           | [] => [String c EmptyString]
           | l :: ls => String c l :: ls
           end
  end.

(** [std::to_string] on an unsigned size and on an [int]. *)
Definition to_string_N (n : N) : string := pretty n.
Definition to_string (n : nat) : string := to_string_N (N.of_nat n).
Definition to_string_int (z : Z) : string := pretty z.

(** [std::stoi(s)]: optional white space, optional sign, decimal digits;
    [None] stands for the two exceptions ([invalid_argument] when there
    is no digit, [out_of_range] outside the 32-bit [int]). *)
Fixpoint digits_value (acc : Z) (s : string) : Z :=
  match s with
  | EmptyString => acc
  | String c s' =>
      if isdigit c
      then digits_value (acc * 10 + Z.of_nat (nat_of_ascii c - 48)) s'
      else acc
  end.

Definition stoi (s : string) : option Z :=
  let s1 := skip_ws s in
  let '(neg, s2) :=
    match s1 with
    | String "-" r => (true, r)
    | String "+" r => (false, r)
    | _ => (false, s1)
    end in
  match s2 with
  | String c _ =>
      if isdigit c then
        let v := digits_value 0 s2 in
        let v := if neg then (- v)%Z else v in
        if ((-2147483648 <=? v) && (v <=? 2147483647))%Z then Some v
        else None
      else None
  | EmptyString => None
  end.

End StdString.

Import StdString.

(** Positions that may be [npos], the greatest [size_t]. *)
Definition npos_min (a b : option nat) : option nat :=
  match a, b with
  | Some x, Some y => Some (Nat.min x y)
  | Some x, None => Some x
  | None, Some y => Some y
  | None, None => None
  end.

Definition npos_ltb (a b : option nat) : bool :=
  match a, b with
  | Some x, Some y => x <? y
  | Some _, None => true
  | None, _ => false
  end.

(* ===================================================================== *)
(** * Data model (ExclusionTypes.h)                                       *)
(* ===================================================================== *)

Inductive ExclusionType := BLOCK | TOGGLE | FSM | CONDITION.

Inductive ToggleDirection := ZERO_TO_ONE | ONE_TO_ZERO | BOTH.

Record BlockExclusion := mkBlock {
  blockId : string;
  block_checksum : string;
  sourceCode : string;
  block_annotation : string
}.

Record ToggleExclusion := mkToggle {
  direction : ToggleDirection;
  signalName : string;
  bitIndex : option Z;
  netDescription : string;
  toggle_annotation : string
}.

Record FsmExclusion := mkFsm {
  fsmName : string;
  fsm_checksum : string;
  fromState : string;
  toState : string;
  transitionId : string;
  fsm_annotation : string;
  isTransition : bool
}.

(** The two constructors of [FsmExclusion]. *)
Definition FsmExclusion_state (name cs annot : string) : FsmExclusion :=
  mkFsm name cs "" "" "" annot false.

Definition FsmExclusion_transition (name from to transId annot : string)
  : FsmExclusion :=
  mkFsm name "" from to transId annot true.

Record ConditionExclusion := mkCondition {
  conditionId : string;
  cond_checksum : string;
  expression : string;
  parameters : string;
  coverage : string;
  cond_annotation : string
}.

Record ExclusionScope := mkScope {
  scopeName : string;
  scope_checksum : string;
  isModule : bool;
  blockExclusions : gmap string BlockExclusion;
  toggleExclusions : gmap string (list ToggleExclusion);
  fsmExclusions : gmap string (list FsmExclusion);
  conditionExclusions : gmap string ConditionExclusion
}.

Definition ExclusionScope_new (name cs : string) (module : bool)
  : ExclusionScope :=
  mkScope name cs module ∅ ∅ ∅ ∅.

Definition set_blockExclusions (f : gmap string BlockExclusion → gmap string BlockExclusion)
    (s : ExclusionScope) : ExclusionScope :=
  mkScope (scopeName s) (scope_checksum s) (isModule s)
          (f (blockExclusions s)) (toggleExclusions s) (fsmExclusions s)
          (conditionExclusions s).

Definition set_toggleExclusions
    (f : gmap string (list ToggleExclusion) → gmap string (list ToggleExclusion))
    (s : ExclusionScope) : ExclusionScope :=
  mkScope (scopeName s) (scope_checksum s) (isModule s)
          (blockExclusions s) (f (toggleExclusions s)) (fsmExclusions s)
          (conditionExclusions s).

Definition set_fsmExclusions
    (f : gmap string (list FsmExclusion) → gmap string (list FsmExclusion))
    (s : ExclusionScope) : ExclusionScope :=
  mkScope (scopeName s) (scope_checksum s) (isModule s)
          (blockExclusions s) (toggleExclusions s) (f (fsmExclusions s))
          (conditionExclusions s).

Definition set_conditionExclusions
    (f : gmap string ConditionExclusion → gmap string ConditionExclusion)
    (s : ExclusionScope) : ExclusionScope :=
  mkScope (scopeName s) (scope_checksum s) (isModule s)
          (blockExclusions s) (toggleExclusions s) (fsmExclusions s)
          (f (conditionExclusions s)).

(** [m[k].push_back(x)] on a map of vectors: [operator[]] creates the empty
    vector when the key is absent. *)
Definition push_back_at {A} (k : string) (x : A) (m : gmap string (list A))
  : gmap string (list A) :=
  <[k := default [] (m !! k) ++ [x]]> m.

Definition addBlockExclusion (e : BlockExclusion) : ExclusionScope → ExclusionScope :=
  set_blockExclusions (<[blockId e := e]>).

Definition addToggleExclusion (e : ToggleExclusion) : ExclusionScope → ExclusionScope :=
  set_toggleExclusions (push_back_at (signalName e) e).

Definition addFsmExclusion (e : FsmExclusion) : ExclusionScope → ExclusionScope :=
  set_fsmExclusions (push_back_at (fsmName e) e).

Definition addConditionExclusion (e : ConditionExclusion) : ExclusionScope → ExclusionScope :=
  set_conditionExclusions (<[conditionId e := e]>).

Record ExclusionData := mkData {
  fileName : string;
  generatedBy : string;
  formatVersion : string;
  generationDate : string;
  exclusionMode : string;
  scopes : gmap string ExclusionScope
}.

Definition ExclusionData_new (filename : string) : ExclusionData :=
  mkData filename "" "" "" "" ∅.

Definition set_scopes (f : gmap string ExclusionScope → gmap string ExclusionScope)
    (d : ExclusionData) : ExclusionData :=
  mkData (fileName d) (generatedBy d) (formatVersion d) (generationDate d)
         (exclusionMode d) (f (scopes d)).

Definition set_fileName (v : string) (d : ExclusionData) : ExclusionData :=
  mkData v (generatedBy d) (formatVersion d) (generationDate d)
         (exclusionMode d) (scopes d).

Definition set_generatedBy (v : string) (d : ExclusionData) : ExclusionData :=
  mkData (fileName d) v (formatVersion d) (generationDate d)
         (exclusionMode d) (scopes d).

Definition set_formatVersion (v : string) (d : ExclusionData) : ExclusionData :=
  mkData (fileName d) (generatedBy d) v (generationDate d)
         (exclusionMode d) (scopes d).

Definition set_generationDate (v : string) (d : ExclusionData) : ExclusionData :=
  mkData (fileName d) (generatedBy d) (formatVersion d) v
         (exclusionMode d) (scopes d).

Definition set_exclusionMode (v : string) (d : ExclusionData) : ExclusionData :=
  mkData (fileName d) (generatedBy d) (formatVersion d) (generationDate d)
         v (scopes d).

(** [ExclusionData::getOrCreateScope]: the database after the call and the
    scope the returned reference designates, which lives in the slot
    [scopeName] of [scopes]. *)
Definition getOrCreateScope (name checksum : string) (module : bool)
    (d : ExclusionData) : ExclusionData * ExclusionScope :=
  match scopes d !! name with
  | Some s => (d, s)
  | None =>
      let s := ExclusionScope_new name checksum module in
      (set_scopes (<[name := s]>) d, s)
  end.

(** A mutation through the reference returned by [getOrCreateScope]. *)
Definition update_scope (name : string) (f : ExclusionScope → ExclusionScope)
    (d : ExclusionData) : ExclusionData :=
  set_scopes (alter f name) d.

(* ===================================================================== *)
(** * Parser (ExclusionParser.h, ExclusionParser.cpp)                     *)
(* ===================================================================== *)

Record ParserConfig := mkParserConfig {
  strictMode : bool;
  validateChecksums : bool;
  preserveComments : bool;
  mergeOnLoad : bool;
  maxFileSize : N
}.

(** [ParserConfig::ParserConfig()]: 100 MB ceiling by default. *)
Definition ParserConfig_default : ParserConfig :=
  mkParserConfig false true true false (100 * 1024 * 1024)%N.

(** [std::unordered_map<ExclusionType, size_t>], only ever accessed with
    [operator[]], which reads an absent key as zero. *)
Record TypeCounts := mkCounts {
  n_block : nat;
  n_toggle : nat;
  n_fsm : nat;
  n_condition : nat
}.

Definition count_of (t : ExclusionType) (c : TypeCounts) : nat :=
  match t with
  | BLOCK => n_block c
  | TOGGLE => n_toggle c
  | FSM => n_fsm c
  | CONDITION => n_condition c
  end.

Definition count_add (t : ExclusionType) (k : nat) (c : TypeCounts) : TypeCounts :=
  match t with
  | BLOCK => mkCounts (n_block c + k) (n_toggle c) (n_fsm c) (n_condition c)
  | TOGGLE => mkCounts (n_block c) (n_toggle c + k) (n_fsm c) (n_condition c)
  | FSM => mkCounts (n_block c) (n_toggle c) (n_fsm c + k) (n_condition c)
  | CONDITION => mkCounts (n_block c) (n_toggle c) (n_fsm c) (n_condition c + k)
  end.

Record ParseResult := mkParseResult {
  success : bool;
  errorMessage : string;
  linesProcessed : nat;
  exclusionsParsed : nat;
  warnings : list string;
  exclusionCounts : TypeCounts
}.

Definition ParseResult_new : ParseResult :=
  mkParseResult false "" 0 0 [] (mkCounts 0 0 0 0).

Definition set_success (b : bool) (r : ParseResult) : ParseResult :=
  mkParseResult b (errorMessage r) (linesProcessed r) (exclusionsParsed r)
                (warnings r) (exclusionCounts r).

Definition set_errorMessage (m : string) (r : ParseResult) : ParseResult :=
  mkParseResult (success r) m (linesProcessed r) (exclusionsParsed r)
                (warnings r) (exclusionCounts r).

Definition incr_linesProcessed (r : ParseResult) : ParseResult :=
  mkParseResult (success r) (errorMessage r) (S (linesProcessed r))
                (exclusionsParsed r) (warnings r) (exclusionCounts r).

Definition push_warning (w : string) (r : ParseResult) : ParseResult :=
  mkParseResult (success r) (errorMessage r) (linesProcessed r)
                (exclusionsParsed r) (warnings r ++ [w]) (exclusionCounts r).

(** [result.exclusionsParsed++; result.exclusionCounts[t]++]. *)
Definition count_exclusion (t : ExclusionType) (r : ParseResult) : ParseResult :=
  mkParseResult (success r) (errorMessage r) (linesProcessed r)
                (S (exclusionsParsed r)) (warnings r)
                (count_add t 1 (exclusionCounts r)).

(** The members of [class ExclusionParser].  [dataManager_] shares the
    object [data_] points to at every point of the code and is not kept
    apart; [debugMode_] only controls console output. *)
Record Parser := mkParser {
  data_ : ExclusionData;
  config_ : ParserConfig;
  lastResult_ : ParseResult;
  currentScope_ : string;
  currentChecksum_ : string;
  currentIsModule_ : bool;
  pendingAnnotation_ : string;
  currentLineNumber_ : nat
}.

(** [ExclusionParser::ExclusionParser()]. *)
Definition Parser_new : Parser :=
  mkParser (ExclusionData_new "") ParserConfig_default ParseResult_new
           "" "" false "" 0.

Definition set_data (f : ExclusionData → ExclusionData) (p : Parser) : Parser :=
  mkParser (f (data_ p)) (config_ p) (lastResult_ p) (currentScope_ p)
           (currentChecksum_ p) (currentIsModule_ p) (pendingAnnotation_ p)
           (currentLineNumber_ p).

Definition setConfig (c : ParserConfig) (p : Parser) : Parser :=
  mkParser (data_ p) c (lastResult_ p) (currentScope_ p)
           (currentChecksum_ p) (currentIsModule_ p) (pendingAnnotation_ p)
           (currentLineNumber_ p).

Definition set_lastResult (f : ParseResult → ParseResult) (p : Parser) : Parser :=
  mkParser (data_ p) (config_ p) (f (lastResult_ p)) (currentScope_ p)
           (currentChecksum_ p) (currentIsModule_ p) (pendingAnnotation_ p)
           (currentLineNumber_ p).

Definition set_currentScope (name : string) (module : bool) (p : Parser) : Parser :=
  mkParser (data_ p) (config_ p) (lastResult_ p) name
           (currentChecksum_ p) module (pendingAnnotation_ p)
           (currentLineNumber_ p).

Definition set_currentChecksum (cs : string) (p : Parser) : Parser :=
  mkParser (data_ p) (config_ p) (lastResult_ p) (currentScope_ p)
           cs (currentIsModule_ p) (pendingAnnotation_ p)
           (currentLineNumber_ p).

Definition set_pendingAnnotation (a : string) (p : Parser) : Parser :=
  mkParser (data_ p) (config_ p) (lastResult_ p) (currentScope_ p)
           (currentChecksum_ p) (currentIsModule_ p) a
           (currentLineNumber_ p).

Definition incr_lineNumber (p : Parser) : Parser :=
  mkParser (data_ p) (config_ p) (lastResult_ p) (currentScope_ p)
           (currentChecksum_ p) (currentIsModule_ p) (pendingAnnotation_ p)
           (S (currentLineNumber_ p)).

(** [ExclusionParser::resetState]. *)
Definition resetState (p : Parser) : Parser :=
  mkParser (data_ p) (config_ p) (lastResult_ p) "" "" false "" 0.

(** [ExclusionParser::addWarning]: the warning goes to [lastResult_]. *)
Definition addWarning (w : string) : Parser → Parser :=
  set_lastResult (push_warning w).

(** [ExclusionParser::createError]. *)
Definition createError (message : string) (p : Parser) : string :=
  "Line " +:+ to_string (currentLineNumber_ p) +:+ ": " +:+ message.

(** [ExclusionParser::trim]. *)
Definition trim_set : string :=
  String " " (String "009" (String "013" (String "010" EmptyString))).

Definition trim (str : string) : string :=
  match find_first_not_of str trim_set with
  | None => ""
  | Some start =>
      match find_last_not_of str trim_set with
      | Some e => substr str start (e - start + 1)
      | None => ""
      end
  end.

(** [ExclusionParser::isComment]. *)
Definition isComment (line : string) : bool :=
  find_is_0 line "//"
  || find_is_0 line "==================================================".

(** [ExclusionParser::extractQuotedString]. *)
Definition extractQuotedString (line : string) (startPos : nat) : string * nat :=
  match find_char line "034" startPos with
  | None => ("", String.length line)
  | Some quoteStart =>
      match find_char line "034" (quoteStart + 1) with
      | None => ("", String.length line)
      | Some quoteEnd =>
          (substr line (quoteStart + 1) (quoteEnd - quoteStart - 1),
           quoteEnd + 1)
      end
  end.

(** [ExclusionParser::validateChecksum]. *)
Fixpoint all_digit_or_space (s : string) : bool :=
  match s with
  | EmptyString => true
  | String c s' =>
      if negb (isdigit c) && negb (Ascii.eqb c " ") then false
      else all_digit_or_space s'
  end.

Definition validateChecksum (checksum : string) : bool :=
  match checksum with
  | EmptyString => false
  | _ => all_digit_or_space checksum
  end.

(** The text after the first colon, trimmed, when the line has a colon
    that is not its last character:
    [pos = line.find(':'); if (pos != npos && pos + 1 < line.length())
     ... trim(line.substr(pos + 1))]. *)
Definition after_colon (line : string) : option string :=
  match find_char line ":" 0 with
  | Some pos =>
      if pos + 1 <? String.length line
      then Some (trim (substr_from line (pos + 1)))
      else None
  | None => None
  end.

(** "Remove quotes if present":
    [if (s.front() == '"' && s.back() == '"') s = s.substr(1, s.length() - 2)].
    On the one-character string [s.length() - 2] wraps around to the
    greatest [size_t], and [substr(1, ...)] is then the (empty) suffix. *)
Definition strip_quotes (s : string) : string :=
  if is_char (front s) "034" && is_char (back s) "034" then
    if 2 <=? String.length s then substr s 1 (String.length s - 2)
    else substr_from s 1
  else s.

(** [ExclusionParser::parseHeader]. *)
Definition parseHeader (line : string) (p : Parser) : bool * Parser :=
  if find_found line "Generated By User:" then
    (true, match after_colon line with
           | Some v => set_data (set_generatedBy v) p
           | None => p
           end)
  else if find_found line "Format Version:" then
    (true, match after_colon line with
           | Some v => set_data (set_formatVersion v) p
           | None => p
           end)
  else if find_found line "Date:" then
    (true, match after_colon line with
           | Some v => set_data (set_generationDate v) p
           | None => p
           end)
  else if find_found line "ExclMode:" then
    (true, match after_colon line with
           | Some v => set_data (set_exclusionMode v) p
           | None => p
           end)
  else (false, p).

(** The lines [parseHeader] accepts: one of the four field names occurs
    somewhere in the line. *)
Definition isHeaderLine (line : string) : bool :=
  find_found line "Generated By User:" || find_found line "Format Version:"
  || find_found line "Date:" || find_found line "ExclMode:".

(** [ExclusionParser::parseChecksum]. *)
Definition parseChecksum (line : string) (p : Parser) : bool * Parser :=
  if find_is_0 line "CHECKSUM:" then
    (true, match after_colon line with
           | Some v =>
               let cs := strip_quotes v in
               let p := set_currentChecksum cs p in
               if validateChecksums (config_ p) && negb (validateChecksum cs)
               then addWarning ("Invalid checksum format: " +:+ cs) p
               else p
           | None => p
           end)
  else (false, p).

(** [ExclusionParser::parseScope]. *)
Definition parseScope (line : string) (p : Parser) : bool * Parser :=
  if find_is_0 line "INSTANCE:" then
    (true, match after_colon line with
           | Some name =>
               let p := set_currentScope name false p in
               set_data (λ d, (getOrCreateScope name (currentChecksum_ p) false d).1) p
           | None => p
           end)
  else if find_is_0 line "MODULE:" then
    (true, match after_colon line with
           | Some name =>
               let p := set_currentScope name true p in
               set_data (λ d, (getOrCreateScope name (currentChecksum_ p) true d).1) p
           | None => p
           end)
  else (false, p).

(** [ExclusionParser::parseAnnotation]. *)
Definition parseAnnotation (line : string) (p : Parser) : bool * Parser :=
  if find_is_0 line "ANNOTATION:" then
    (true, match after_colon line with
           | Some v => set_pendingAnnotation (strip_quotes v) p
           | None => p
           end)
  else if find_is_0 line "ANNOTATION_BEGIN:" then
    (true, match after_colon line with
           | Some v => set_pendingAnnotation (strip_quotes v) p
           | None => p
           end)
  else if find_is_0 line "ANNOTATION_END" then (true, p)
  else (false, p).

(** The common tail of the five exclusion parsers:
    [if (!currentScope_.empty()) { auto& scope = data_->getOrCreateScope(...);
       scope.addXExclusion(X(..., pendingAnnotation_));
       pendingAnnotation_.clear(); }]. *)
Definition add_to_current_scope
    (add : string → ExclusionScope → ExclusionScope) (p : Parser) : Parser :=
  match currentScope_ p with
  | EmptyString => p
  | name =>
      let d := (getOrCreateScope name (currentChecksum_ p)
                                 (currentIsModule_ p) (data_ p)).1 in
      let d := update_scope name (add (pendingAnnotation_ p)) d in
      set_pendingAnnotation "" (set_data (λ _, d) p)
  end.

(** The position [line.find(word) + word.length()], where [word] was read
    from the line itself and is therefore found. *)
Definition pos_after (line word : string) : nat :=
  match find_str line word 0 with
  | Some i => i + String.length word
  | None => String.length line
  end.

(** The record the body of [parseBlockExclusion] builds from the line
    and the pending annotation. *)
Definition blockOfLine (line annot : string) : BlockExclusion :=
  let '(keyword, iss) := read_word line in
  let '(blockId, _) := read_word iss in
  let '(checksum, pos1) := extractQuotedString line (pos_after line blockId) in
  let '(sourceCode, pos2) := extractQuotedString line pos1 in
  mkBlock blockId checksum sourceCode annot.

(** [ExclusionParser::parseBlockExclusion]. *)
Definition parseBlockExclusion (line : string) (p : Parser) : bool * Parser :=
  if find_is_0 line "Block " then
    (true, add_to_current_scope
             (λ annot, addBlockExclusion (blockOfLine line annot)) p)
  else (false, p).

(** The second half of the body of [parseToggleExclusion], after the
    directional token: the signal name up to the first space or bracket,
    the bit index when the bracket comes first, and the quoted net
    description. *)
Definition toggleSignal (remaining : string) : string * option Z * string :=
  let spacePos := find_char remaining " " 0 in
  let bracketPos := find_char remaining "[" 0 in
  let endPos :=
    match npos_min spacePos bracketPos with
    | Some e => e
    | None => String.length remaining
    end in
  let signalName := substr remaining 0 endPos in
  let '(bitIndex, remaining) :=
    match bracketPos with
    | Some b =>
        if npos_ltb bracketPos spacePos then
          match find_char remaining "]" b with
          | Some closeBracket =>
              (stoi (substr remaining (b + 1) (closeBracket - b - 1)),
               substr_from remaining (closeBracket + 1))
          | None => (None, remaining)
          end
        else (None, substr_from remaining endPos)
    | None => (None, substr_from remaining endPos)
    end in
  let '(netDescription, _) := extractQuotedString remaining 0 in
  (signalName, bitIndex, netDescription).

(** The record the body of [parseToggleExclusion] builds. *)
Definition toggleOfLine (line annot : string) : ToggleExclusion :=
  let remaining := trim (substr_from line 7) in
  let '(direction, remaining) :=
    if find_is_0 remaining "0to1 " then (ZERO_TO_ONE, substr_from remaining 5)
    else if find_is_0 remaining "1to0 " then (ONE_TO_ZERO, substr_from remaining 5)
    else (BOTH, remaining) in
  let '(signalName, bitIndex, netDescription) := toggleSignal remaining in
  mkToggle direction signalName bitIndex netDescription annot.

(** [ExclusionParser::parseToggleExclusion]. *)
Definition parseToggleExclusion (line : string) (p : Parser) : bool * Parser :=
  if find_is_0 line "Toggle " then
    (true, add_to_current_scope
             (λ annot, addToggleExclusion (toggleOfLine line annot)) p)
  else (false, p).

(** The record the body of [parseFsmExclusion] builds. *)
Definition fsmOfLine (line annot : string) : FsmExclusion :=
  let '(keyword, iss) := read_word line in
  let '(fsmName, _) := read_word iss in
  let '(checksum, _) := extractQuotedString line (pos_after line fsmName) in
  FsmExclusion_state fsmName checksum annot.

(** [ExclusionParser::parseFsmExclusion]. *)
Definition parseFsmExclusion (line : string) (p : Parser) : bool * Parser :=
  if find_is_0 line "Fsm " then
    (true, add_to_current_scope
             (λ annot, addFsmExclusion (fsmOfLine line annot)) p)
  else (false, p).

(** The record the body of [parseConditionExclusion] builds.
    [remaining.front()] and [remaining.back()] on an empty [remaining] have
    no defined behaviour in C++; the model takes neither for a
    parenthesis. *)
Definition conditionOfLine (line annot : string) : ConditionExclusion :=
  let '(keyword, iss) := read_word line in
  let '(conditionId, _) := read_word iss in
  let pos := pos_after line conditionId in
  let '(checksum, pos1) := extractQuotedString line pos in
  let '(expr, pos2) := extractQuotedString line pos1 in
  let '(expression, parameters) :=
    match rfind_char expr " " with
    | Some lastSpace => (substr expr 0 lastSpace, substr_from expr (lastSpace + 1))
    | None => (expr, "")
    end in
  let remaining := trim (substr_from line pos2) in
  let coverage :=
    if is_char (front remaining) "(" && is_char (back remaining) ")"
    then if 2 <=? String.length remaining
         then substr remaining 1 (String.length remaining - 2)
         else substr_from remaining 1
    else "" in
  mkCondition conditionId checksum expression parameters coverage annot.

(** [ExclusionParser::parseConditionExclusion]. *)
Definition parseConditionExclusion (line : string) (p : Parser) : bool * Parser :=
  if find_is_0 line "Condition " then
    (true, add_to_current_scope
             (λ annot, addConditionExclusion (conditionOfLine line annot)) p)
  else (false, p).

(** The record the body of [parseTransition] builds; [None] on the two
    paths that [return false]. *)
Definition transitionOfLine (line : string) : option (string → FsmExclusion) :=
  let remaining := substr_from line 11 in
  match find_str remaining "->" 0 with
  | None => None
  | Some arrowPos =>
      let fromState := trim (substr remaining 0 arrowPos) in
      match find_char remaining " " arrowPos with
      | None => None
      | Some spacePos =>
          let toState :=
            trim (substr remaining (arrowPos + 2) (spacePos - arrowPos - 2)) in
          let '(transId, _) := extractQuotedString remaining spacePos in
          Some (FsmExclusion_transition "transition" fromState toState transId)
      end
  end.

(** [ExclusionParser::parseTransition]. *)
Definition parseTransition (line : string) (p : Parser) : bool * Parser :=
  if find_is_0 line "Transition " then
    match transitionOfLine line with
    | Some fsm => (true, add_to_current_scope (λ annot, addFsmExclusion (fsm annot)) p)
    | None => (false, p)
    end
  else (false, p).

(** The exclusion lines by their keyword: [Block], [Toggle], [Fsm],
    [Condition], and [Transition] with its arrow and a space after it. *)
Definition exclusionLineKind (line : string) : option ExclusionType :=
  if is_prefix "Block " line then Some BLOCK
  else if is_prefix "Toggle " line then Some TOGGLE
  else if is_prefix "Fsm " line then Some FSM
  else if is_prefix "Condition " line then Some CONDITION
  else if is_prefix "Transition " line then
    match find_str (substr_from line 11) "->" 0 with
    | Some arrowPos =>
        match find_char (substr_from line 11) " " arrowPos with
        | Some _ => Some FSM
        | None => None
        end
    | None => None
    end
  else None.

(** The classifier chain of [parseStream]: the first parser that accepts
    the line wins; the five exclusion parsers are counted in the result. *)
Definition classify (line : string) (p : Parser) (result : ParseResult)
  : bool * Parser * ParseResult :=
  let '(b, p1) := parseHeader line p in
  if b then (true, p1, result) else
  let '(b, p1) := parseChecksum line p in
  if b then (true, p1, result) else
  let '(b, p1) := parseScope line p in
  if b then (true, p1, result) else
  let '(b, p1) := parseAnnotation line p in
  if b then (true, p1, result) else
  let '(b, p1) := parseBlockExclusion line p in
  if b then (true, p1, count_exclusion BLOCK result) else
  let '(b, p1) := parseToggleExclusion line p in
  if b then (true, p1, count_exclusion TOGGLE result) else
  let '(b, p1) := parseFsmExclusion line p in
  if b then (true, p1, count_exclusion FSM result) else
  let '(b, p1) := parseConditionExclusion line p in
  if b then (true, p1, count_exclusion CONDITION result) else
  let '(b, p1) := parseTransition line p in
  if b then (true, p1, count_exclusion FSM result) else
  (false, p, result).

(** What one turn of the [while (std::getline(stream, line))] loop does:
    either the loop goes on, or the function returns (strict mode). *)
Inductive LoopStep :=
| Continue (p : Parser) (result : ParseResult)
| Return (p : Parser) (result : ParseResult).

Definition parseLine (raw : string) (p : Parser) (result : ParseResult) : LoopStep :=
  let p := incr_lineNumber p in
  let result := incr_linesProcessed result in
  let line := trim raw in
  match line with
  | EmptyString => Continue p result
  | _ =>
      if isComment line then Continue p result
      else
        let '(parsed, p, result) := classify line p result in
        if parsed then Continue p result
        else
          let warning := "Unrecognized line format at line " +:+
                         to_string (currentLineNumber_ p) +:+ ": " +:+ line in
          let result := push_warning warning result in
          if strictMode (config_ p) then
            Return p (set_errorMessage
                        (createError ("Unrecognized line format: " +:+ line) p)
                        result)
          else Continue p result
  end.

(** The loop of [parseStream] over the lines of the stream.  No call inside
    the [try] block throws (every [substr] is in range and [stoi] is caught
    where it is called), so the [catch] clause has no counterpart here. *)
Fixpoint parseLines (lines : list string) (p : Parser) (result : ParseResult)
  : Parser * ParseResult :=
  match lines with
  | [] =>
      let result := set_success true result in
      (set_lastResult (λ _, result) p, result)
  | raw :: rest =>
      match parseLine raw p result with
      | Continue p result => parseLines rest p result
      | Return p result => (p, result)
      end
  end.

(** [ExclusionParser::parseStream], the stream given by its contents. *)
Definition parseStream (content : string) (p : Parser) : Parser * ParseResult :=
  parseLines (getlines content) p ParseResult_new.

(** [ExclusionParser::parseString]. *)
Definition parseString (content : string) (p : Parser) : Parser * ParseResult :=
  parseStream content (resetState p).

(** The file system as [FileUtils] and [std::ifstream] see it. *)
Record FileSystem := mkFileSystem {
  fileExists : string → bool;
  getFileSize : string → N;
  open_file : string → option string
}.

(** [ExclusionParser::parseFile]. *)
Definition parseFile (fs : FileSystem) (filename : string) (p : Parser)
  : Parser * ParseResult :=
  let result := ParseResult_new in
  let p := resetState p in
  if negb (fileExists fs filename) then
    (p, set_errorMessage ("File does not exist: " +:+ filename) result)
  else
    let fileSize := getFileSize fs filename in
    if (maxFileSize (config_ p) <? fileSize)%N then
      (p, set_errorMessage
            ("File too large: " +:+ to_string_N fileSize +:+ " bytes (max: " +:+
             to_string_N (maxFileSize (config_ p)) +:+ ")") result)
    else
      match open_file fs filename with
      | None => (p, set_errorMessage ("Cannot open file: " +:+ filename) result)
      | Some content =>
          let p :=
            if negb (mergeOnLoad (config_ p))
            then set_data (λ _, ExclusionData_new filename) p
            else p in
          let p := set_data (set_fileName filename) p in
          parseStream content p
      end.

(** Test documents are written with a back-quote where the file has a
    double quote. *)
Definition dq (s : string) : string :=
  string_rec (λ _, string) EmptyString
    (λ c _ r, String (if Ascii.eqb c "`" then "034"%char else c) r) s.

(** The record kinds of a scope, read back from a database. *)
Definition lookup_scope (name : string) (p : Parser) : option ExclusionScope :=
  scopes (data_ p) !! name.

Definition lookup_block (scope id : string) (p : Parser) : option BlockExclusion :=
  s ← lookup_scope scope p; blockExclusions s !! id.

Definition lookup_condition (scope id : string) (p : Parser) : option ConditionExclusion :=
  s ← lookup_scope scope p; conditionExclusions s !! id.

Definition lookup_toggles (scope signal : string) (p : Parser) : list ToggleExclusion :=
  default [] (s ← lookup_scope scope p; toggleExclusions s !! signal).

Definition lookup_fsms (scope name : string) (p : Parser) : list FsmExclusion :=
  default [] (s ← lookup_scope scope p; fsmExclusions s !! name).

(* ===================================================================== *)
(** * What the C++ library leaves to the implementation                   *)
(* ===================================================================== *)

(** The iteration order of [std::unordered_map] (some enumeration of the
    entries), [std::hash<std::string>] (a 64-bit [size_t]) and the local
    time as [std::put_time] prints it in the header. *)
Class Platform := {
  unordered_iter : ∀ {V : Type}, gmap string V → list (string * V);
  unordered_iter_perm :
    ∀ (V : Type) (m : gmap string V), unordered_iter m ≡ₚ map_to_list m;
  std_hash : string → N;
  local_time_text : string;
  local_time_text_one_line : index_char "010" local_time_text = None;
  local_time_text_ends :
    match back local_time_text with
    | Some c => mem_char c trim_set
    | None => true
    end = false
}.

(* ===================================================================== *)
(** * Aggregates and merge (ExclusionTypes.h)                             *)
(* ===================================================================== *)

Section Aggregates.
Context `{Platform}.

(** [for (const auto& pair : m) total += pair.second.size();] *)
Definition add_sizes {A} (m : gmap string (list A)) (total : nat) : nat :=
  foldl (λ total kv, total + length kv.2) total (unordered_iter m).

(** [ExclusionScope::getTotalExclusionCount]. *)
Definition Scope_getTotalExclusionCount (s : ExclusionScope) : nat :=
  let total := size (blockExclusions s) + size (conditionExclusions s) in
  let total := add_sizes (toggleExclusions s) total in
  add_sizes (fsmExclusions s) total.

(** [ExclusionData::getScopeCount]. *)
Definition getScopeCount (d : ExclusionData) : nat := size (scopes d).

(** [ExclusionData::getTotalExclusionCount]. *)
Definition getTotalExclusionCount (d : ExclusionData) : nat :=
  foldl (λ total kv, total + Scope_getTotalExclusionCount kv.2) 0
        (unordered_iter (scopes d)).

(** The body of the loop of [getExclusionCountsByType] for one scope,
    also the one [writeToStream] runs on its result. *)
Definition add_scope_counts (s : ExclusionScope) (c : TypeCounts) : TypeCounts :=
  let c := count_add BLOCK (size (blockExclusions s)) c in
  let c := count_add CONDITION (size (conditionExclusions s)) c in
  let c := foldl (λ c kv, count_add TOGGLE (length kv.2) c) c
                 (unordered_iter (toggleExclusions s)) in
  foldl (λ c kv, count_add FSM (length kv.2) c) c
        (unordered_iter (fsmExclusions s)).

(** [ExclusionData::getExclusionCountsByType]. *)
Definition getExclusionCountsByType (d : ExclusionData) : TypeCounts :=
  foldl (λ c kv, add_scope_counts kv.2 c) (mkCounts 0 0 0 0)
        (unordered_iter (scopes d)).

(** The record-level branch of [ExclusionData::merge]: [scope] of the
    other database merged into [existingScope] of this one. *)
Definition merge_scope (overwriteExisting : bool)
    (scope existingScope : ExclusionScope) : ExclusionScope :=
  let existingScope :=
    foldl (λ ex kv,
             if overwriteExisting
                || bool_decide (blockExclusions ex !! kv.1 = None)
             then set_blockExclusions (<[kv.1 := kv.2]>) ex
             else ex)
          existingScope (unordered_iter (blockExclusions scope)) in
  let existingScope :=
    foldl (λ ex kv, foldl (λ ex toggle, addToggleExclusion toggle ex) ex kv.2)
          existingScope (unordered_iter (toggleExclusions scope)) in
  let existingScope :=
    foldl (λ ex kv, foldl (λ ex fsm, addFsmExclusion fsm ex) ex kv.2)
          existingScope (unordered_iter (fsmExclusions scope)) in
  foldl (λ ex kv,
           if overwriteExisting
              || bool_decide (conditionExclusions ex !! kv.1 = None)
           then set_conditionExclusions (<[kv.1 := kv.2]>) ex
           else ex)
        existingScope (unordered_iter (conditionExclusions scope)).

(** One turn of the loop of [merge] over the scopes of the other
    database. *)
Definition merge_one (overwriteExisting : bool) (d : ExclusionData)
    (kv : string * ExclusionScope) : ExclusionData :=
  match scopes d !! kv.1 with
  | None => set_scopes (<[kv.1 := kv.2]>) d
  | Some existingScope =>
      if overwriteExisting then set_scopes (<[kv.1 := kv.2]>) d
      else set_scopes (<[kv.1 := merge_scope overwriteExisting kv.2 existingScope]>) d
  end.

(** [ExclusionData::merge]: [other] merged into [self]. *)
Definition merge (other : ExclusionData) (overwriteExisting : bool)
    (self : ExclusionData) : ExclusionData :=
  foldl (merge_one overwriteExisting) self (unordered_iter (scopes other)).

(** The number of toggle records and of FSM records of a database, as
    [getExclusionCountsByType] reports them. *)
Definition toggleCount (d : ExclusionData) : nat :=
  count_of TOGGLE (getExclusionCountsByType d).

Definition fsmCount (d : ExclusionData) : nat :=
  count_of FSM (getExclusionCountsByType d).

End Aggregates.

(* ===================================================================== *)
(** * Writer (ExclusionWriter.h, ExclusionWriter.cpp, ExclusionData.cpp)  *)
(* ===================================================================== *)

Record WriterConfig := mkWriterConfig {
  includeComments : bool;
  includeAnnotations : bool;
  sortExclusions : bool;
  generateChecksums : bool;
  preserveOrder : bool;
  indentation : string;
  lineEnding : string;
  compactFormat : bool
}.

(** [WriterConfig::WriterConfig()]. *)
Definition WriterConfig_default : WriterConfig :=
  mkWriterConfig true true false true true "" (String "010" EmptyString) false.

Record WriteResult := mkWriteResult {
  w_success : bool;
  w_errorMessage : string;
  linesWritten : nat;
  exclusionsWritten : nat;
  scopesWritten : nat;
  w_warnings : list string;
  w_exclusionCounts : TypeCounts
}.

(** [toggleDirectionToString]. *)
Definition toggleDirectionToString (d : ToggleDirection) : string :=
  match d with
  | ZERO_TO_ONE => "0to1"
  | ONE_TO_ZERO => "1to0"
  | BOTH => ""
  end.

(** [ExclusionWriter::escapeString]: every double quote gets a backslash
    in front. *)
Fixpoint escapeString (str : string) : string :=
  match str with
  | EmptyString => EmptyString
  | String c s' =>
      if Ascii.eqb c "034" then String "\" (String "034" (escapeString s'))
      else String c (escapeString s')
  end.

(** The double quote as a string. *)
Definition QUOTE : string := String "034" EmptyString.

(** An output stream: the text written so far and the count of lines the
    writer keeps next to it. *)
Definition Stream : Type := string * nat.

Section Writer.
Context `{Platform}.
Variable config_ : WriterConfig.

(** [ExclusionWriter::writeLine], one line more in the count. *)
Definition writeLine (line : string) (out : Stream) : Stream :=
  (out.1 +:+ indentation config_ +:+ line +:+ lineEnding config_, S out.2).

(** [ExclusionWriter::writeHeader]. *)
Definition writeHeader (data : ExclusionData) (out : Stream) : Stream :=
  let out := writeLine "//==================================================" out in
  let out := writeLine "// This file contains the Excluded objects" out in
  let out :=
    match generatedBy data with
    | EmptyString => writeLine "// Generated By User: ExclusionCoverageParser" out
    | g => writeLine ("// Generated By User: " +:+ g) out
    end in
  let out :=
    match formatVersion data with
    | EmptyString => writeLine "// Format Version: 2" out
    | v => writeLine ("// Format Version: " +:+ v) out
    end in
  let dateStr :=
    match generationDate data with
    | EmptyString => local_time_text
    | d => d
    end in
  let out := writeLine ("// Date: " +:+ dateStr) out in
  let out :=
    match exclusionMode data with
    | EmptyString => writeLine "// ExclMode: default" out
    | m => writeLine ("// ExclMode: " +:+ m) out
    end in
  writeLine "//==================================================" out.

(** [ExclusionWriter::writeAnnotation]. *)
Definition writeAnnotation (annotation : string) (out : Stream) : Stream :=
  match annotation with
  | EmptyString => out
  | _ => writeLine ("ANNOTATION: " +:+ QUOTE +:+ escapeString annotation +:+ QUOTE) out
  end.

(** [if (config_.includeAnnotations && !x.annotation.empty())
      linesWritten += writeAnnotation(stream, x.annotation);] *)
Definition writeAnnotationIfAny (annotation : string) (out : Stream) : Stream :=
  if includeAnnotations config_ && negb (String.eqb annotation "")
  then writeAnnotation annotation out
  else out.

(** [ExclusionWriter::writeChecksum]. *)
Definition writeChecksum (checksum : string) (out : Stream) : Stream :=
  writeLine ("CHECKSUM: " +:+ QUOTE +:+ checksum +:+ QUOTE) out.

(** The keys of a container in the order the writer visits them: the
    iteration order, sorted with [std::sort] when [sortExclusions]. *)
Definition keyOrder {V} (m : gmap string V) : list string :=
  let order := (unordered_iter m).*1 in
  if sortExclusions config_ then merge_sort String.le order else order.

Definition blockLine (blockId : string) (block : BlockExclusion) : string :=
  "Block " +:+ blockId +:+ " " +:+ QUOTE +:+ block_checksum block +:+ QUOTE
  +:+ " " +:+ QUOTE +:+ escapeString (sourceCode block) +:+ QUOTE.

(** [ExclusionWriter::writeBlockExclusions]. *)
Definition writeBlockExclusions (scope : ExclusionScope) (out : Stream) : Stream :=
  foldl (λ out blockId,
           match blockExclusions scope !! blockId with
           | Some block =>
               let out := writeAnnotationIfAny (block_annotation block) out in
               writeLine (blockLine blockId block) out
           | None => out
           end)
        out (keyOrder (blockExclusions scope)).

Definition toggleLine (toggle : ToggleExclusion) : string :=
  let line := "Toggle " in
  let dir := toggleDirectionToString (direction toggle) in
  let line :=
    match dir with
    | EmptyString => line
    | _ => line +:+ dir +:+ " "
    end in
  let line := line +:+ signalName toggle in
  let line :=
    match bitIndex toggle with
    | Some i => line +:+ " [" +:+ to_string_int i +:+ "]"
    | None => line
    end in
  line +:+ " " +:+ QUOTE +:+ escapeString (netDescription toggle) +:+ QUOTE.

(** [ExclusionWriter::writeToggleExclusions]. *)
Definition writeToggleExclusions (scope : ExclusionScope) (out : Stream) : Stream :=
  foldl (λ out signalName,
           foldl (λ out toggle,
                    let out := writeAnnotationIfAny (toggle_annotation toggle) out in
                    writeLine (toggleLine toggle) out)
                 out (default [] (toggleExclusions scope !! signalName)))
        out (keyOrder (toggleExclusions scope)).

Definition fsmLine (fsm : FsmExclusion) : string :=
  if isTransition fsm then
    "Transition " +:+ fromState fsm +:+ "->" +:+ toState fsm +:+ " "
    +:+ QUOTE +:+ transitionId fsm +:+ QUOTE
  else
    "Fsm " +:+ fsmName fsm +:+ " " +:+ QUOTE +:+ fsm_checksum fsm +:+ QUOTE.

(** [ExclusionWriter::writeFsmExclusions]. *)
Definition writeFsmExclusions (scope : ExclusionScope) (out : Stream) : Stream :=
  foldl (λ out fsmName,
           foldl (λ out fsm,
                    let out := writeAnnotationIfAny (fsm_annotation fsm) out in
                    writeLine (fsmLine fsm) out)
                 out (default [] (fsmExclusions scope !! fsmName)))
        out (keyOrder (fsmExclusions scope)).

Definition conditionLine (condId : string) (condition : ConditionExclusion) : string :=
  let line := "Condition " +:+ condId +:+ " " +:+ QUOTE +:+ cond_checksum condition
              +:+ QUOTE +:+ " " +:+ QUOTE +:+ escapeString (expression condition) in
  let line :=
    match parameters condition with
    | EmptyString => line
    | ps => line +:+ " " +:+ ps
    end in
  let line := line +:+ QUOTE in
  match coverage condition with
  | EmptyString => line
  | cov => line +:+ " (" +:+ cov +:+ ")"
  end.

(** [ExclusionWriter::writeConditionExclusions]. *)
Definition writeConditionExclusions (scope : ExclusionScope) (out : Stream) : Stream :=
  foldl (λ out condId,
           match conditionExclusions scope !! condId with
           | Some condition =>
               let out := writeAnnotationIfAny (cond_annotation condition) out in
               writeLine (conditionLine condId condition) out
           | None => out
           end)
        out (keyOrder (conditionExclusions scope)).

(** [hash ^= std::hash<std::string>{}(key) + 0x9e3779b9 + (hash << 6)
     + (hash >> 2)] on a 64-bit [size_t]. *)
Definition hash_combine (hash : N) (key : string) : N :=
  N.lxor hash
    ((std_hash key + 2654435769 + N.shiftl hash 6 + N.shiftr hash 2)
     mod 2 ^ 64)%N.

(** [ExclusionWriter::generateScopeChecksum]. *)
Definition generateScopeChecksum (scope : ExclusionScope) : string :=
  let hash := foldl (λ h kv, hash_combine h kv.1) 0%N
                    (unordered_iter (blockExclusions scope)) in
  let hash := foldl (λ h kv, hash_combine h kv.1) hash
                    (unordered_iter (toggleExclusions scope)) in
  pretty hash.

(** [ExclusionWriter::writeScope]. *)
Definition writeScope (scopeName : string) (scope : ExclusionScope)
    (out : Stream) : Stream :=
  let out :=
    match scope_checksum scope with
    | EmptyString =>
        if generateChecksums config_
        then writeChecksum (generateScopeChecksum scope) out
        else out
    | cs => writeChecksum cs out
    end in
  let scopeType := if isModule scope then "MODULE:" else "INSTANCE:" in
  let out := writeLine (scopeType +:+ scopeName) out in
  let out := writeBlockExclusions scope out in
  let out := writeToggleExclusions scope out in
  let out := writeFsmExclusions scope out in
  writeConditionExclusions scope out.

(** [ExclusionWriter::writeToStream]: the text written to the (initially
    empty) stream and the result.  Nothing in the [try] block throws. *)
Definition writeToStream (data : ExclusionData) : string * WriteResult :=
  let out : Stream := ("", 0) in
  let out := if includeComments config_ then writeHeader data out else out in
  let '(out, scopesW, exclW, counts) :=
    foldl (λ '(out, scopesW, exclW, counts) scopeName,
             match scopes data !! scopeName with
             | Some scope =>
                 (writeScope scopeName scope out, S scopesW,
                  exclW + Scope_getTotalExclusionCount scope,
                  add_scope_counts scope counts)
             | None => (out, scopesW, exclW, counts)
             end)
          (out, 0, 0, mkCounts 0 0 0 0) (keyOrder (scopes data)) in
  (out.1, mkWriteResult true "" out.2 exclW scopesW [] counts).

(** [ExclusionWriter::writeToString]. *)
Definition writeToString (data : ExclusionData) : string :=
  (writeToStream data).1.

End Writer.

(* ===================================================================== *)
(** * PatternMatcher (ExclusionData.cpp)                                  *)
(* ===================================================================== *)

Module PatternMatcher.

(** The character class [[-[\]{}()+.,\^$|#\s]] of [specialChars]. *)
Definition is_special (c : ascii) : bool :=
  mem_char c "-[]{}()+.,^$|#" || isspace c.

(** [std::regex_replace(regexPattern, specialChars, R"(\$&)")]: a
    backslash in front of every character of the class. *)
Fixpoint escape_special (s : string) : string :=
  match s with
  | EmptyString => EmptyString
  | String c s' =>
      if is_special c then String "\" (String c (escape_special s'))
      else String c (escape_special s')
  end.

(** The part of the ECMAScript grammar of [std::regex] that the escaped
    pattern can fall in: characters (plain or identity-escaped), each with
    at most one quantifier [*] or [?], possibly lazy ([*?], [??]). *)
Inductive Token := TChar (c : ascii) | TStar | TOpt.

Inductive Quant := One | Star | Opt.

Inductive Compiled :=
| Regex (r : list (ascii * Quant))
| RegexError     (* the constructor throws [std::regex_error] *)
| Unmodelled.    (* outside the fragment modelled here *)

Definition is_alnum (c : ascii) : bool :=
  let n := nat_of_ascii c in
  ((48 <=? n) && (n <=? 57)) || ((65 <=? n) && (n <=? 90))
  || ((97 <=? n) && (n <=? 122)) || (n =? 95).

(** Tokens of a pattern; [None] where a backslash starts something other
    than an identity escape, [Some None] where it ends the pattern. *)
Fixpoint tokenize (s : string) : option (option (list Token)) :=
  match s with
  | EmptyString => Some (Some [])
  | String c s1 =>
      if Ascii.eqb c "\" then
        match s1 with
        | EmptyString => Some None
        | String e s2 =>
            if is_alnum e then None
            else match tokenize s2 with
                 | Some (Some ts) => Some (Some (TChar e :: ts))
                 | r => r
                 end
        end
      else
        let t := if Ascii.eqb c "*" then TStar
                 else if Ascii.eqb c "?" then TOpt else TChar c in
        match tokenize s1 with
        | Some (Some ts) => Some (Some (t :: ts))
        | r => r
        end
  end.

Definition compiled_cons (a : ascii * Quant) (r : Compiled) : Compiled :=
  match r with
  | Regex l => Regex (a :: l)
  | e => e
  end.

Definition is_quant (t : Token) : bool :=
  match t with
  | TChar _ => false
  | _ => true
  end.

(** After a quantifier: a [?] makes it lazy (the same full matches); any
    further quantifier is outside the fragment. *)
Definition second_quant_ok (ts : list Token) : bool :=
  match ts with
  | TStar :: _ => false
  | TOpt :: t :: _ => negb (is_quant t)
  | _ => true
  end.

Fixpoint parse_terms (ts : list Token) : Compiled :=
  match ts with
  | [] => Regex []
  | TChar c :: TStar :: ts2 =>
      if second_quant_ok ts2
      then compiled_cons (c, Star)
             (parse_terms match ts2 with TOpt :: ts' => ts' | _ => ts2 end)
      else Unmodelled
  | TChar c :: TOpt :: ts2 =>
      if second_quant_ok ts2
      then compiled_cons (c, Opt)
             (parse_terms match ts2 with TOpt :: ts' => ts' | _ => ts2 end)
      else Unmodelled
  | TChar c :: ts1 => compiled_cons (c, One) (parse_terms ts1)
  | _ => RegexError
  end.

(** [std::regex regex(regexPattern, flags)]. *)
Definition compile (regexPattern : string) : Compiled :=
  match tokenize regexPattern with
  | None => Unmodelled
  | Some None => RegexError
  | Some (Some ts) => parse_terms ts
  end.

Definition to_lower (c : ascii) : ascii :=
  let n := nat_of_ascii c in
  if (65 <=? n) && (n <=? 90) then ascii_of_nat (n + 32) else c.

Definition char_eq (caseSensitive : bool) (a b : ascii) : bool :=
  if caseSensitive then Ascii.eqb a b
  else Ascii.eqb (to_lower a) (to_lower b).

(** [std::regex_match(str, regex)]: the whole of [str] against the
    sequence of quantified characters. *)
Fixpoint regex_match (cs : bool) (r : list (ascii * Quant)) (str : string) : bool :=
  match r with
  | [] => match str with EmptyString => true | _ => false end
  | (c, One) :: r' =>
      match str with
      | String d str' => char_eq cs c d && regex_match cs r' str'
      | EmptyString => false
      end
  | (c, Opt) :: r' =>
      regex_match cs r' str
      || match str with
         | String d str' => char_eq cs c d && regex_match cs r' str'
         | EmptyString => false
         end
  | (c, Star) :: r' =>
      (fix star (s : string) : bool :=
         regex_match cs r' s
         || match s with
            | String d s' => char_eq cs c d && star s'
            | EmptyString => false
            end) str
  end.

(** [PatternMatcher::matches].  The two calls
    [std::regex_replace(regexPattern, std::regex("\\*"), ".*")] and
    [std::regex_replace(regexPattern, std::regex("\\?"), ".")] return the
    rewritten string, and the code drops it: [regexPattern] still holds
    the pattern escaped by the first replacement when the regular
    expression is built from it.  A [std::regex_error] is caught and
    gives [false].  [None] outside the modelled fragment of the regular
    expression grammar. *)
Definition matches (pattern str : string) (caseSensitive : bool) : option bool :=
  let regexPattern := escape_special pattern in
  (* the results of the two wildcard replacements are discarded *)
  match compile regexPattern with
  | Regex r => Some (regex_match caseSensitive r str)
  | RegexError => Some false
  | Unmodelled => None
  end.

End PatternMatcher.

Section DataManager.
Context `{Platform}.

(** [ExclusionDataManager::findScopesMatching]; [None] where the pattern
    is outside the modelled fragment. *)
Definition findScopesMatching (pattern : string) (data : ExclusionData)
  : option (list string) :=
  foldl (λ acc kv,
           ms ← acc;
           b ← PatternMatcher.matches pattern kv.1 true;
           Some (if b : bool then ms ++ [kv.1] else ms))
        (Some []) (unordered_iter (scopes data)).

End DataManager.

(** The implementation choices used to run the model on examples: the
    maps are visited in the order of [map_to_list]. *)
Program Definition reference_platform : Platform :=
  {| unordered_iter := λ V m, map_to_list m;
     std_hash := λ s, N.of_nat (String.length s);
     local_time_text := "Thu Oct 30 12:00:00 2025" |}.
Next Obligation. reflexivity. Qed.
Next Obligation. reflexivity. Qed.
Next Obligation. reflexivity. Qed.

(* ===================================================================== *)
(** * Vocabulary of the properties                                        *)
(* ===================================================================== *)

(** "Every character of the string is a decimal digit or a space". *)
Definition digits_and_spaces (s : string) : Prop :=
  ∀ c, In c (list_ascii_of_string s) → isdigit c = true ∨ c = " "%char.

(** The sum of a measure over the values of a map, whatever the order. *)
Definition msum {V : Type} (f : V → nat) (m : gmap string V) : nat :=
  sum_list_with (λ kv, f kv.2) (map_to_list m).

(** The number of records in a map of vectors. *)
Definition records {A : Type} (m : gmap string (list A)) : nat :=
  msum length m.

(** The records of each kind in a database, counted scope by scope. *)
Definition blockTotal (d : ExclusionData) : nat :=
  msum (λ s, size (blockExclusions s)) (scopes d).

Definition toggleTotal (d : ExclusionData) : nat :=
  msum (λ s, records (toggleExclusions s)) (scopes d).

Definition fsmTotal (d : ExclusionData) : nat :=
  msum (λ s, records (fsmExclusions s)) (scopes d).

Definition conditionTotal (d : ExclusionData) : nat :=
  msum (λ s, size (conditionExclusions s)) (scopes d).

(** ** Shapes of strings *)

Definition no_char (c : ascii) (s : string) : bool :=
  all_chars (λ d, negb (Ascii.eqb d c)) s.

(** No double quote; no newline. *)
Definition no_quote : string → bool := no_char "034".
Definition one_line : string → bool := no_char "010".

(** Only characters that [trim] removes. *)
Definition all_trim_chars (s : string) : bool :=
  all_chars (λ c, mem_char c trim_set) s.

Definition not_trim_char (o : option ascii) : bool :=
  match o with
  | Some c => negb (mem_char c trim_set)
  | None => false
  end.

(** Not empty, and neither the first nor the last character is one that
    [trim] removes. *)
Definition trimmed (s : string) : bool :=
  not_trim_char (front s) && not_trim_char (back s).

(** Empty or [trimmed]: the strings [trim] returns. *)
Definition trim_fixed (s : string) : bool :=
  String.eqb s "" || trimmed s.

Definition no_space (s : string) : bool :=
  all_chars (λ c, negb (isspace c)) s.

(** A word as [stream >> word] reads it, without a double quote. *)
Definition is_token (s : string) : bool :=
  negb (String.eqb s "") && no_space s && no_quote s.

(** ** Shapes of lines *)

(** A line [kw k "body"post]: the keyword, a token, a quoted string. *)
Definition keyed_line (kw k body post : string) : string :=
  kw +:+ String " " (k +:+ String " " (String "034" (body +:+ String "034" post))).

(** The quoted text of a Condition line and what follows it. *)
Definition cond_quoted (c : ConditionExclusion) : string :=
  expression c +:+
  match parameters c with
  | EmptyString => EmptyString
  | ps => String " " ps
  end.

Definition cond_trailer (c : ConditionExclusion) : string :=
  match coverage c with
  | EmptyString => EmptyString
  | cov => String " " (String "(" (cov +:+ String ")" EmptyString))
  end.

(** The parts of a Toggle line around the signal name. *)
Definition toggle_dirpart (t : ToggleExclusion) : string :=
  match direction t with
  | ZERO_TO_ONE => "0to1 "
  | ONE_TO_ZERO => "1to0 "
  | BOTH => ""
  end.

Definition toggle_bitpart (t : ToggleExclusion) : string :=
  match bitIndex t with
  | Some i => "[" +:+ to_string_int i +:+ "] "
  | None => ""
  end.

Definition toggle_rest (t : ToggleExclusion) : string :=
  String " " (toggle_bitpart t +:+
              String "034" (netDescription t +:+ String "034" EmptyString)).

(** A signal name the Toggle parser reads back whole: it does not start
    with white space and has no space, bracket or double quote; without a
    directional token in front, it is not itself one. *)
Definition wf_signal (t : ToggleExclusion) : bool :=
  not_trim_char (front (signalName t))
  && no_char " " (signalName t) && no_char "[" (signalName t)
  && no_quote (signalName t)
  && match direction t with
     | BOTH => negb (String.eqb (signalName t) "0to1")
               && negb (String.eqb (signalName t) "1to0")
     | _ => true
     end.

(** The text of an [ANNOTATION:] line as the writer emits it. *)
Definition annotationLine (text : string) : string :=
  "ANNOTATION: " +:+ QUOTE +:+ text +:+ QUOTE.

(* ===================================================================== *)
(** * The written text, line by line                                      *)
(* ===================================================================== *)

(** The lines the writer emits. *)
Inductive Item :=
| IComment (line : string)
| IChecksum (checksum : string)
| IScope (module : bool) (name : string)
| IAnnotation (text : string)
| IBlock (blockId : string) (block : BlockExclusion)
| IToggle (toggle : ToggleExclusion)
| IFsm (fsm : FsmExclusion)
| ICondition (condId : string) (condition : ConditionExclusion).

Definition checksumLine (checksum : string) : string :=
  "CHECKSUM: " +:+ QUOTE +:+ checksum +:+ QUOTE.

Definition scopeLine (module : bool) (name : string) : string :=
  (if module then "MODULE:" else "INSTANCE:") +:+ name.

Definition item_line (it : Item) : string :=
  match it with
  | IComment line => line
  | IChecksum cs => checksumLine cs
  | IScope m n => scopeLine m n
  | IAnnotation a => annotationLine a
  | IBlock k b => blockLine k b
  | IToggle t => toggleLine t
  | IFsm f => fsmLine f
  | ICondition k c => conditionLine k c
  end.

Section Items.
Context `{Platform}.
Variable config_ : WriterConfig.

Definition annotation_items (a : string) : list Item :=
  if includeAnnotations config_ && negb (String.eqb a "")
  then [IAnnotation (escapeString a)] else [].

Definition block_items (scope : ExclusionScope) : list Item :=
  flat_map (λ k, match blockExclusions scope !! k with
                 | Some b => annotation_items (block_annotation b) ++ [IBlock k b]
                 | None => []
                 end)
           (keyOrder config_ (blockExclusions scope)).

Definition toggle_items (scope : ExclusionScope) : list Item :=
  flat_map (λ k, flat_map (λ t, annotation_items (toggle_annotation t) ++ [IToggle t])
                          (default [] (toggleExclusions scope !! k)))
           (keyOrder config_ (toggleExclusions scope)).

Definition fsm_items (scope : ExclusionScope) : list Item :=
  flat_map (λ k, flat_map (λ f, annotation_items (fsm_annotation f) ++ [IFsm f])
                          (default [] (fsmExclusions scope !! k)))
           (keyOrder config_ (fsmExclusions scope)).

Definition condition_items (scope : ExclusionScope) : list Item :=
  flat_map (λ k, match conditionExclusions scope !! k with
                 | Some c => annotation_items (cond_annotation c) ++ [ICondition k c]
                 | None => []
                 end)
           (keyOrder config_ (conditionExclusions scope)).

Definition checksum_items (scope : ExclusionScope) : list Item :=
  match scope_checksum scope with
  | EmptyString =>
      if generateChecksums config_
      then [IChecksum (generateScopeChecksum scope)] else []
  | cs => [IChecksum cs]
  end.

Definition scope_items (name : string) (scope : ExclusionScope) : list Item :=
  checksum_items scope ++ [IScope (isModule scope) name]
  ++ block_items scope ++ toggle_items scope ++ fsm_items scope
  ++ condition_items scope.

Definition header_items (data : ExclusionData) : list Item :=
  [ IComment "//==================================================";
    IComment "// This file contains the Excluded objects";
    IComment match generatedBy data with
             | EmptyString => "// Generated By User: ExclusionCoverageParser"
             | g => "// Generated By User: " +:+ g
             end;
    IComment match formatVersion data with
             | EmptyString => "// Format Version: 2"
             | v => "// Format Version: " +:+ v
             end;
    IComment ("// Date: " +:+ match generationDate data with
                              | EmptyString => local_time_text
                              | d => d
                              end);
    IComment match exclusionMode data with
             | EmptyString => "// ExclMode: default"
             | m => "// ExclMode: " +:+ m
             end;
    IComment "//==================================================" ].

Definition data_items (data : ExclusionData) : list Item :=
  (if includeComments config_ then header_items data else [])
  ++ flat_map (λ name, match scopes data !! name with
                       | Some scope => scope_items name scope
                       | None => []
                       end)
              (keyOrder config_ (scopes data)).

(** A line as it stands in the text, and the text of a list of lines. *)
Definition render (it : Item) : string :=
  indentation config_ +:+ item_line it +:+ lineEnding config_.

Definition render_all (its : list Item) : string :=
  foldr (λ it text, render it +:+ text) "" its.

Definition emit (its : list Item) (out : Stream) : Stream :=
  (out.1 +:+ render_all its, out.2 + length its).

End Items.

(** What the loop of [parseStream] does with each line of the writer. *)
Definition item_step (it : Item) (s : Parser * ParseResult) : Parser * ParseResult :=
  let p := incr_lineNumber s.1 in
  let r := incr_linesProcessed s.2 in
  match it with
  | IComment _ => (p, r)
  | IChecksum cs => ((parseChecksum (checksumLine cs) p).2, r)
  | IScope m n =>
      (set_data (λ d, (getOrCreateScope n (currentChecksum_ p) m d).1)
                (set_currentScope n m p), r)
  | IAnnotation a => (set_pendingAnnotation a p, r)
  | IBlock k b =>
      (add_to_current_scope
         (λ annot, addBlockExclusion
                     (mkBlock k (block_checksum b) (sourceCode b) annot)) p,
       count_exclusion BLOCK r)
  | IToggle t =>
      (add_to_current_scope
         (λ annot, addToggleExclusion
                     (mkToggle (direction t) (signalName t) None
                               (netDescription t) annot)) p,
       count_exclusion TOGGLE r)
  | IFsm f =>
      (add_to_current_scope
         (λ annot, addFsmExclusion
                     (if isTransition f
                      then FsmExclusion_transition "transition" (fromState f)
                             (toState f) (transitionId f) annot
                      else FsmExclusion_state (fsmName f) (fsm_checksum f) annot)) p,
       count_exclusion FSM r)
  | ICondition k c =>
      (add_to_current_scope
         (λ annot, addConditionExclusion
                     (mkCondition k (cond_checksum c) (expression c)
                                  (parameters c) (coverage c) annot)) p,
       count_exclusion CONDITION r)
  end.

(** ** Well-formed databases *)

(** A line that stays one line and is not taken for a header field. *)
Definition line_ok (l : string) : bool :=
  one_line l && negb (isHeaderLine l).

Definition no_arrow (s : string) : bool :=
  match index_str "->" s with
  | None => true
  | Some _ => false
  end.

(** What each kind of line must satisfy to be read back as written. *)
Definition wf_item (it : Item) : bool :=
  match it with
  | IComment l => is_prefix "//" l && trimmed l && one_line l
  | IChecksum cs => line_ok (checksumLine cs)
  | IScope m n => trimmed n && line_ok (scopeLine m n)
  | IAnnotation a => line_ok (annotationLine a)
  | IBlock k b =>
      is_token k && no_quote (block_checksum b) && no_quote (sourceCode b)
      && line_ok (blockLine k b)
  | IToggle t =>
      wf_signal t && no_quote (netDescription t) && line_ok (toggleLine t)
  | IFsm f =>
      line_ok (fsmLine f)
      && if isTransition f
         then no_arrow (fromState f) && trim_fixed (fromState f)
              && no_char " " (toState f) && trim_fixed (toState f)
              && no_quote (transitionId f)
         else is_token (fsmName f) && no_quote (fsm_checksum f)
  | ICondition k c =>
      is_token k && no_quote (cond_checksum c) && no_quote (expression c)
      && no_quote (parameters c) && no_char " " (parameters c)
      && (negb (String.eqb (parameters c) "") || no_char " " (expression c))
      && line_ok (conditionLine k c)
  end.

(** An annotation the format can carry: no double quote in it (the writer
    escapes them and the parser does not undo it). *)
Definition annotation_ok (a : string) : bool :=
  no_quote a && line_ok (annotationLine a).

Definition gmap_all {V : Type} (P : string → V → bool) (m : gmap string V) : bool :=
  forallb (λ kv, P kv.1 kv.2) (map_to_list m).

Definition nonempty {A : Type} (l : list A) : bool :=
  match l with
  | [] => false
  | _ => true
  end.

Definition wf_block (k : string) (b : BlockExclusion) : bool :=
  String.eqb (blockId b) k && wf_item (IBlock k b)
  && annotation_ok (block_annotation b).

Definition wf_toggle (k : string) (t : ToggleExclusion) : bool :=
  String.eqb (signalName t) k && wf_item (IToggle t)
  && annotation_ok (toggle_annotation t).

(** A state record has no transition fields; a transition record is filed
    under ["transition"] and has no checksum. *)
Definition wf_fsm (k : string) (f : FsmExclusion) : bool :=
  String.eqb (fsmName f) k && wf_item (IFsm f)
  && annotation_ok (fsm_annotation f)
  && if isTransition f
     then String.eqb k "transition" && String.eqb (fsm_checksum f) ""
     else String.eqb (fromState f) "" && String.eqb (toState f) ""
          && String.eqb (transitionId f) "".

Definition wf_condition (k : string) (c : ConditionExclusion) : bool :=
  String.eqb (conditionId c) k && wf_item (ICondition k c)
  && annotation_ok (cond_annotation c).

Definition wf_scope (n : string) (s : ExclusionScope) : bool :=
  String.eqb (scopeName s) n
  && wf_item (IScope (isModule s) n)
  && wf_item (IChecksum (scope_checksum s))
  && gmap_all wf_block (blockExclusions s)
  && gmap_all (λ k l, nonempty l && forallb (wf_toggle k) l) (toggleExclusions s)
  && gmap_all (λ k l, nonempty l && forallb (wf_fsm k) l) (fsmExclusions s)
  && gmap_all wf_condition (conditionExclusions s).

(** A header field as [parseHeader] stores it: on one line, trimmed. *)
Definition header_field_ok (v : string) : bool :=
  one_line v && trim_fixed v.

Definition wf_data (d : ExclusionData) : bool :=
  header_field_ok (generatedBy d) && header_field_ok (formatVersion d)
  && header_field_ok (generationDate d) && header_field_ok (exclusionMode d)
  && gmap_all wf_scope (scopes d).

(** The writer configurations under which lines stay apart and [trim]
    gives their text back: white space for indentation, and a newline,
    possibly after a carriage return, as line ending. *)
Definition wf_config (c : WriterConfig) : Prop :=
  includeAnnotations c = true
  ∧ all_trim_chars (indentation c) = true ∧ one_line (indentation c) = true
  ∧ ∃ e, lineEnding c = e +:+ String "010" ""
         ∧ all_trim_chars e = true ∧ one_line e = true.

(** A scope as it comes back from the text: the toggle records without
    their bit index, and the checksum that was buffered when the scope
    line was read. *)
Definition clear_bitIndex (t : ToggleExclusion) : ToggleExclusion :=
  mkToggle (direction t) (signalName t) None (netDescription t)
           (toggle_annotation t).

Definition reparsed (cs : string) (s : ExclusionScope) : ExclusionScope :=
  mkScope (scopeName s) cs (isModule s) (blockExclusions s)
          (map clear_bitIndex <$> toggleExclusions s)
          (fsmExclusions s) (conditionExclusions s).

(** The loop of [parseStream] over a list of written lines. *)
Definition run (its : list Item) (s : Parser * ParseResult) : Parser * ParseResult :=
  foldl (λ s it, item_step it s) s its.

(** A scope stored under its name. *)
Definition put_scope (name : string) (s : ExclusionScope) (d : ExclusionData)
  : ExclusionData :=
  set_scopes (<[name := s]>) d.

(** The parser between two records of the scope [name]: that scope is
    current, no annotation is pending, and the database is [d]. *)
Definition at_scope (s : Parser * ParseResult) (name : string)
    (d : ExclusionData) : Prop :=
  currentScope_ s.1 = name ∧ pendingAnnotation_ s.1 = "" ∧ data_ s.1 = d.

(** What the lines of one key of each container add to the current scope
    when they are read back. *)
Definition upd_block (sc : ExclusionScope) (k : string) (cur : ExclusionScope)
  : ExclusionScope :=
  match blockExclusions sc !! k with
  | Some b => addBlockExclusion b cur
  | None => cur
  end.

Definition upd_toggles (sc : ExclusionScope) (k : string) (cur : ExclusionScope)
  : ExclusionScope :=
  foldl (λ cur t, addToggleExclusion (clear_bitIndex t) cur) cur
        (default [] (toggleExclusions sc !! k)).

Definition upd_fsms (sc : ExclusionScope) (k : string) (cur : ExclusionScope)
  : ExclusionScope :=
  foldl (λ cur f, addFsmExclusion f cur) cur
        (default [] (fsmExclusions sc !! k)).

Definition upd_condition (sc : ExclusionScope) (k : string) (cur : ExclusionScope)
  : ExclusionScope :=
  match conditionExclusions sc !! k with
  | Some c => addConditionExclusion c cur
  | None => cur
  end.

(** ** Databases with the same records *)

(** [d'] has the scopes of [d] whose names are in [names], each with the
    records of [reparsed], and no other scope. *)
Definition scopes_read (d : ExclusionData) (names : list string)
    (d' : ExclusionData) : Prop :=
  ∀ name,
    (name ∈ names →
       ∃ cs sc, scopes d !! name = Some sc
                ∧ scopes d' !! name = Some (reparsed cs sc))
    ∧ (name ∉ names → scopes d' !! name = None).

(** [d'] has the scopes of [d], each with the records of [reparsed]. *)
Definition same_records (d d' : ExclusionData) : Prop :=
  ∀ name,
    match scopes d !! name with
    | Some sc => ∃ cs, scopes d' !! name = Some (reparsed cs sc)
    | None => scopes d' !! name = None
    end.

(** ** A document with records of the four kinds *)

Definition sample_document : string :=
  dq "CHECKSUM: `12345`
INSTANCE:tb.dut
ANNOTATION: `reviewed`
Block 161 `1104666086` `do_db_reg_update = 1'b0;`
Toggle 1to0 next_duty_cycle `net next_duty_cycle`
Toggle bus[3] `net bus`
Fsm state `85815111`
Transition SND_RD_ADDR1->IDLE `11->0`
Condition 2 `2940925445` `(a && b) 1 -1` (1 `01`)
CHECKSUM: `678`
MODULE:fifo
Block 7 `99` `x <= y;`".

Definition sample_database : ExclusionData :=
  data_ (parseString sample_document Parser_new).1.

(** ** Databases that only grow *)

(** [s'] has what [s] has: the same name, checksum and kind, every block
    and condition identifier of [s], and for every signal and FSM of [s]
    its records with possibly more behind them. *)
Definition scope_extends (s s' : ExclusionScope) : Prop :=
  scopeName s' = scopeName s ∧ scope_checksum s' = scope_checksum s
  ∧ isModule s' = isModule s
  ∧ (∀ k, is_Some (blockExclusions s !! k) → is_Some (blockExclusions s' !! k))
  ∧ (∀ k l, toggleExclusions s !! k = Some l →
       ∃ l', toggleExclusions s' !! k = Some (l ++ l'))
  ∧ (∀ k l, fsmExclusions s !! k = Some l →
       ∃ l', fsmExclusions s' !! k = Some (l ++ l'))
  ∧ (∀ k, is_Some (conditionExclusions s !! k) →
       is_Some (conditionExclusions s' !! k)).

Definition data_extends (d d' : ExclusionData) : Prop :=
  ∀ n s, scopes d !! n = Some s →
    ∃ s', scopes d' !! n = Some s' ∧ scope_extends s s'.

(** What a classifier may do to the parser: the configuration and the line
    number stay, the database only grows. *)
Definition parser_step (p q : Parser) : Prop :=
  config_ q = config_ p ∧ currentLineNumber_ q = currentLineNumber_ p
  ∧ data_extends (data_ p) (data_ q).

(** The sum of the four per-kind counters of a result. *)
Definition counts_total (c : TypeCounts) : nat :=
  n_block c + n_toggle c + n_fsm c + n_condition c.

(** The four ways an exclusion line adds a record to the current scope. *)
Definition add_kind (add : string → ExclusionScope → ExclusionScope)
    (k : ExclusionType) : Prop :=
  match k with
  | BLOCK => ∃ b, add = λ a, addBlockExclusion (b a)
  | TOGGLE => ∃ t, add = λ a, addToggleExclusion (t a)
  | FSM => ∃ f, add = λ a, addFsmExclusion (f a)
  | CONDITION => ∃ c, add = λ a, addConditionExclusion (c a)
  end.

(** ** The parser without its last result *)

(** The parser with [lastResult_] blanked: what is left is everything the
    parse loop reads. *)
Definition forget_lastResult (p : Parser) : Parser :=
  set_lastResult (λ _, ParseResult_new) p.

Definition forget_step (s : LoopStep) : LoopStep :=
  match s with
  | Continue p r => Continue (forget_lastResult p) r
  | Return p r => Return (forget_lastResult p) r
  end.

(** A platform that walks a hash map the other way round and hashes
    differently, at the same moment. *)
Program Definition reversed_platform : Platform :=
  {| unordered_iter := λ V m, reverse (map_to_list m);
     std_hash := λ s, (7 + N.of_nat (String.length s))%N;
     local_time_text := "Thu Oct 30 12:00:00 2025" |}.
Next Obligation. intros V m. apply reverse_Permutation. Qed.
Next Obligation. reflexivity. Qed.
Next Obligation. reflexivity. Qed.

(** ** The loop of [escapeString] *)

(** [s.replace(pos, 1, str)]. *)
Definition replace1 (s : string) (pos : nat) (str : string) : string :=
  take pos s +:+ str +:+ drop (pos + 1) s.

(** The [while] loop of [ExclusionWriter::escapeString] as it is written:
    find the next double quote from [pos], put a backslash and a quote in
    its place, go on two characters further.  [None] when the turns run
    out. *)
Fixpoint escapeString_loop (turns : nat) (escaped : string) (pos : nat)
  : option string :=
  match turns with
  | 0 => None
  | S turns =>
      match find_char escaped "034" pos with
      | None => Some escaped
      | Some q =>
          escapeString_loop turns
            (replace1 escaped q (String "\" (String "034" ""))) (q + 2)
      end
  end.

(* ===================================================================== *)
(** * ExclusionData.cpp: conversions and the data manager                 *)
(* ===================================================================== *)

(** [stringToToggleDirection]. *)
Definition stringToToggleDirection (str : string) : ToggleDirection :=
  if String.eqb str "0to1" then ZERO_TO_ONE
  else if String.eqb str "1to0" then ONE_TO_ZERO
  else BOTH.

(** [exclusionTypeToString]. *)
Definition exclusionTypeToString (t : ExclusionType) : string :=
  match t with
  | BLOCK => "Block"
  | TOGGLE => "Toggle"
  | FSM => "FSM"
  | CONDITION => "Condition"
  end.

Definition ExclusionType_eqb (a b : ExclusionType) : bool :=
  match a, b with
  | BLOCK, BLOCK | TOGGLE, TOGGLE | FSM, FSM | CONDITION, CONDITION => true
  | _, _ => false
  end.

(** [struct SearchCriteria]: every filter is optional. *)
Record SearchCriteria := mkCriteria {
  c_type : option ExclusionType;
  c_scopeName : option string;
  c_annotation : option string;
  c_signalName : option string;
  c_isModule : option bool
}.

Definition SearchCriteria_new : SearchCriteria :=
  mkCriteria None None None None None.

(** [if (filter.has_value()) if (text.find(filter.value()) == npos) continue;]:
    whether [text] gets through. *)
Definition passes (filter : option string) (text : string) : bool :=
  match filter with
  | Some f => find_found text f
  | None => true
  end.

(** [!criteria.type.has_value() || criteria.type.value() == t]. *)
Definition wants (criteria : SearchCriteria) (t : ExclusionType) : bool :=
  match c_type criteria with
  | Some t' => ExclusionType_eqb t' t
  | None => true
  end.

(** [struct ExclusionStatistics]. *)
Record ExclusionStatistics := mkStats {
  totalScopes : nat;
  moduleScopes : nat;
  instanceScopes : nat;
  totalExclusions : nat;
  exclusionsByType : TypeCounts;
  exclusionsByScope : gmap string nat;
  annotatedExclusions : nat
}.

Definition ExclusionStatistics_new : ExclusionStatistics :=
  mkStats 0 0 0 0 (mkCounts 0 0 0 0) ∅ 0.

(** [if (!annotation.empty()) stats.annotatedExclusions++]. *)
Definition count_annotated (annotation : string) (n : nat) : nat :=
  match annotation with
  | EmptyString => n
  | _ => S n
  end.

Section DataManagerQueries.
Context `{Platform}.

(** The body of the loop of [ExclusionDataManager::search] for a scope that
    got through the scope filters: the hits of each kind are appended to
    the results. *)
Definition search_scope (criteria : SearchCriteria) (scopeName : string)
    (scope : ExclusionScope) (results : list (string * ExclusionType))
  : list (string * ExclusionType) :=
  let results :=
    if wants criteria BLOCK then
      foldl (λ results kv,
               if passes (c_annotation criteria) (block_annotation kv.2)
               then results ++ [(scopeName, BLOCK)] else results)
            results (unordered_iter (blockExclusions scope))
    else results in
  let results :=
    if wants criteria TOGGLE then
      foldl (λ results kv,
               if passes (c_signalName criteria) kv.1 then
                 foldl (λ results toggle,
                          if passes (c_annotation criteria) (toggle_annotation toggle)
                          then results ++ [(scopeName, TOGGLE)] else results)
                       results kv.2
               else results)
            results (unordered_iter (toggleExclusions scope))
    else results in
  let results :=
    if wants criteria FSM then
      foldl (λ results kv,
               foldl (λ results fsm,
                        if passes (c_annotation criteria) (fsm_annotation fsm)
                        then results ++ [(scopeName, FSM)] else results)
                     results kv.2)
            results (unordered_iter (fsmExclusions scope))
    else results in
  if wants criteria CONDITION then
    foldl (λ results kv,
             if passes (c_annotation criteria) (cond_annotation kv.2)
             then results ++ [(scopeName, CONDITION)] else results)
          results (unordered_iter (conditionExclusions scope))
  else results.

(** Whether a scope gets through the two scope filters. *)
Definition scope_passes (criteria : SearchCriteria) (scopeName : string)
    (scope : ExclusionScope) : bool :=
  passes (c_scopeName criteria) scopeName
  && match c_isModule criteria with
     | Some m => Bool.eqb (isModule scope) m
     | None => true
     end.

(** [ExclusionDataManager::search]. *)
Definition search (criteria : SearchCriteria) (data : ExclusionData)
  : list (string * ExclusionType) :=
  foldl (λ results kv,
           if scope_passes criteria kv.1 kv.2
           then search_scope criteria kv.1 kv.2 results
           else results)
        [] (unordered_iter (scopes data)).

(** [ExclusionDataManager::findScope]. *)
Definition findScope (scopeName : string) (data : ExclusionData)
  : option ExclusionScope :=
  scopes data !! scopeName.

(** The annotated records of one scope, as the four loops of
    [getStatistics] count them. *)
Definition count_annotated_scope (scope : ExclusionScope) (n : nat) : nat :=
  let n := foldl (λ n kv, count_annotated (block_annotation kv.2) n) n
                 (unordered_iter (blockExclusions scope)) in
  let n := foldl (λ n kv, foldl (λ n t, count_annotated (toggle_annotation t) n)
                               n kv.2)
                 n (unordered_iter (toggleExclusions scope)) in
  let n := foldl (λ n kv, foldl (λ n f, count_annotated (fsm_annotation f) n)
                               n kv.2)
                 n (unordered_iter (fsmExclusions scope)) in
  foldl (λ n kv, count_annotated (cond_annotation kv.2) n) n
        (unordered_iter (conditionExclusions scope)).

(** [ExclusionDataManager::getStatistics]. *)
Definition getStatistics (data : ExclusionData) : ExclusionStatistics :=
  let stats := mkStats (size (scopes data)) 0 0 0 (mkCounts 0 0 0 0) ∅ 0 in
  let stats :=
    foldl (λ stats kv,
             let scopeExclusions := Scope_getTotalExclusionCount kv.2 in
             mkStats (totalScopes stats)
                     (if isModule kv.2 then S (moduleScopes stats)
                      else moduleScopes stats)
                     (if isModule kv.2 then instanceScopes stats
                      else S (instanceScopes stats))
                     (totalExclusions stats + scopeExclusions)
                     (exclusionsByType stats)
                     (<[kv.1 := scopeExclusions]> (exclusionsByScope stats))
                     (count_annotated_scope kv.2 (annotatedExclusions stats)))
          stats (unordered_iter (scopes data)) in
  mkStats (totalScopes stats) (moduleScopes stats) (instanceScopes stats)
          (totalExclusions stats) (getExclusionCountsByType data)
          (exclusionsByScope stats) (annotatedExclusions stats).

End DataManagerQueries.

(** The number of hits of one kind that [search] finds in a scope. *)
Definition hit (b : bool) : nat := if b then 1 else 0.

Definition kind_hits (criteria : SearchCriteria) (scope : ExclusionScope)
    (t : ExclusionType) : nat :=
  if wants criteria t then
    match t with
    | BLOCK =>
        sum_list_with
          (λ kv, hit (passes (c_annotation criteria) (block_annotation kv.2)))
          (map_to_list (blockExclusions scope))
    | TOGGLE =>
        sum_list_with
          (λ kv, if passes (c_signalName criteria) kv.1
                 then sum_list_with
                        (λ t, hit (passes (c_annotation criteria)
                                          (toggle_annotation t))) kv.2
                 else 0)
          (map_to_list (toggleExclusions scope))
    | FSM =>
        sum_list_with
          (λ kv, sum_list_with
                   (λ f, hit (passes (c_annotation criteria) (fsm_annotation f)))
                   kv.2)
          (map_to_list (fsmExclusions scope))
    | CONDITION =>
        sum_list_with
          (λ kv, hit (passes (c_annotation criteria) (cond_annotation kv.2)))
          (map_to_list (conditionExclusions scope))
    end
  else 0.

(** The hits of a scope, in the order [search] appends them. *)
Definition scope_hits (criteria : SearchCriteria) (scopeName : string)
    (scope : ExclusionScope) : list (string * ExclusionType) :=
  replicate (kind_hits criteria scope BLOCK) (scopeName, BLOCK)
  ++ replicate (kind_hits criteria scope TOGGLE) (scopeName, TOGGLE)
  ++ replicate (kind_hits criteria scope FSM) (scopeName, FSM)
  ++ replicate (kind_hits criteria scope CONDITION) (scopeName, CONDITION).

Section DataManagerUpdates.
Context `{Platform}.

(** The [while] loop of [removeExclusions] over the blocks of a scope:
    every block whose annotation has [a] in it is erased. *)
Definition erase_annotated_blocks (a : string)
    (blocks : gmap string BlockExclusion) : gmap string BlockExclusion :=
  filter (λ kv, find_found (block_annotation kv.2) a = false) blocks.

(** [ExclusionDataManager::removeExclusions]: the database after the call
    and the count it returns.  The matches are searched first; only a
    [BLOCK] match with an annotation criterion erases anything. *)
Definition removeExclusions (criteria : SearchCriteria) (data : ExclusionData)
  : ExclusionData * nat :=
  foldl (λ '(d, removedCount) '(scopeName, type),
           match scopes d !! scopeName with
           | Some scope =>
               match type, c_annotation criteria with
               | BLOCK, Some a =>
                   let kept := erase_annotated_blocks a (blockExclusions scope) in
                   (set_scopes
                      (<[scopeName := set_blockExclusions (λ _, kept) scope]>) d,
                    removedCount + (size (blockExclusions scope) - size kept))
               | _, _ => (d, removedCount)
               end
           | None => (d, removedCount)
           end)
        (data, 0) (search criteria data).

End DataManagerUpdates.

(** [s'] is [s] with some of its blocks taken away and nothing else
    changed. *)
Definition scope_less_blocks (s s' : ExclusionScope) : Prop :=
  scopeName s' = scopeName s ∧ scope_checksum s' = scope_checksum s
  ∧ isModule s' = isModule s
  ∧ blockExclusions s' ⊆ blockExclusions s
  ∧ toggleExclusions s' = toggleExclusions s
  ∧ fsmExclusions s' = fsmExclusions s
  ∧ conditionExclusions s' = conditionExclusions s.

Definition data_less_blocks (d d' : ExclusionData) : Prop :=
  ∀ n, match scopes d !! n with
       | Some s => ∃ s', scopes d' !! n = Some s' ∧ scope_less_blocks s s'
       | None => scopes d' !! n = None
       end.

(** No block of scope [n] of [d] has [a] in its annotation. *)
Definition no_annotated_block (a n : string) (d : ExclusionData) : Prop :=
  ∀ s id b, scopes d !! n = Some s → blockExclusions s !! id = Some b →
            find_found (block_annotation b) a = false.

Section DataManagerDuplicates.
Context `{Platform}.

(** The first loop of [findPotentialDuplicates]: the names of the scopes
    under their checksum, for the scopes that have one. *)
Definition checksumToScopes (data : ExclusionData) : gmap string (list string) :=
  foldl (λ m kv,
           match scope_checksum kv.2 with
           | EmptyString => m
           | checksum => push_back_at checksum kv.1 m
           end)
        ∅ (unordered_iter (scopes data)).

(** [ExclusionDataManager::findPotentialDuplicates]. *)
Definition findPotentialDuplicates (data : ExclusionData)
  : gmap string (list string) :=
  foldl (λ duplicates kv,
           if 1 <? length kv.2 then <[kv.1 := kv.2]> duplicates
           else duplicates)
        ∅ (unordered_iter (checksumToScopes data)).

End DataManagerDuplicates.

(** The scope of the entry [kv] has the checksum [c]. *)
Definition has_checksum (c : string) (kv : string * ExclusionScope) : Prop :=
  scope_checksum kv.2 = c.

#[global] Instance has_checksum_dec c kv : Decision (has_checksum c kv).
Proof. unfold has_checksum. apply _. Defined.

(* ===================================================================== *)
(** * File names (namespace FileUtils, ExclusionParser.cpp)               *)
(* ===================================================================== *)

(** [std::max] of two positions that may be [npos], the greatest
    [size_t]. *)
Definition npos_max (a b : option nat) : option nat :=
  match a, b with
  | Some x, Some y => Some (Nat.max x y)
  | _, _ => None
  end.

(** [FileUtils::getFileExtension]. *)
Definition getFileExtension (filename : string) : string :=
  match rfind_char filename "." with
  | None => ""
  | Some dotPos => substr_from filename (dotPos + 1)
  end.

(** [FileUtils::getBaseName]. *)
Definition getBaseName (filename : string) : string :=
  let slashPos := rfind_char filename "/" in
  let backslashPos := rfind_char filename "\" in
  let lastSeparator := npos_max slashPos backslashPos in
  let baseName :=
    match lastSeparator with
    | None => filename
    | Some p => substr_from filename (p + 1)
    end in
  match rfind_char baseName "." with
  | Some dotPos => substr baseName 0 dotPos
  | None => baseName
  end.

(* ===================================================================== *)
(** * Quick validation (ExclusionParser.cpp)                              *)
(* ===================================================================== *)

(** The loop of [validateFile]: at most [i] more lines are read, and the
    first one with a header marker ends it. *)
Fixpoint validate_lines (i : nat) (lines : list string) : bool :=
  match i, lines with
  | S i', line :: rest =>
      let line := trim line in
      if find_found line "This file contains the Excluded objects"
         || find_found line "Format Version:"
      then true
      else validate_lines i' rest
  | _, _ => false
  end.

(** [ExclusionParser::validateFile]. *)
Definition validateFile (fs : FileSystem) (filename : string) : bool :=
  if negb (fileExists fs filename) then false
  else match open_file fs filename with
       | None => false
       | Some content => validate_lines 20 (getlines content)
       end.

(* ===================================================================== *)
(** * Parsing several files (ExclusionParser.cpp)                         *)
(* ===================================================================== *)

(** [combinedResult.exclusionCounts[type] += count] for every entry of the
    counts of a file. *)
Definition counts_plus (a b : TypeCounts) : TypeCounts :=
  mkCounts (n_block a + n_block b) (n_toggle a + n_toggle b)
           (n_fsm a + n_fsm b) (n_condition a + n_condition b).

(** The result of a file added to the combined result. *)
Definition combine_result (combinedResult result : ParseResult) : ParseResult :=
  mkParseResult (success combinedResult) (errorMessage combinedResult)
                (linesProcessed combinedResult + linesProcessed result)
                (exclusionsParsed combinedResult + exclusionsParsed result)
                (warnings combinedResult ++ warnings result)
                (counts_plus (exclusionCounts combinedResult)
                             (exclusionCounts result)).

(** The loop of [parseFiles]. *)
Fixpoint parseFiles_loop (fs : FileSystem) (filenames : list string)
    (continueOnError : bool) (p : Parser) (combinedResult : ParseResult)
  : Parser * ParseResult :=
  match filenames with
  | [] => (p, set_success true combinedResult)
  | filename :: rest =>
      let '(p, result) := parseFile fs filename p in
      let combinedResult := combine_result combinedResult result in
      if negb (success result) then
        if negb continueOnError then
          (p, set_errorMessage
                ("Failed to parse " +:+ filename +:+ ": " +:+ errorMessage result)
                (set_success false combinedResult))
        else
          parseFiles_loop fs rest continueOnError p
            (push_warning
               ("Failed to parse " +:+ filename +:+ ": " +:+ errorMessage result)
               combinedResult)
      else parseFiles_loop fs rest continueOnError p combinedResult
  end.

(** [ExclusionParser::parseFiles]. *)
Definition parseFiles (fs : FileSystem) (filenames : list string)
    (continueOnError : bool) (p : Parser) : Parser * ParseResult :=
  parseFiles_loop fs filenames continueOnError p ParseResult_new.

(* ===================================================================== *)
(** * Preview (ExclusionWriter.cpp)                                       *)
(* ===================================================================== *)

(** A [std::istringstream]: what is left to read and its two state bits. *)
Record IStream := mkIStream {
  is_rest : string;
  is_eof : bool;
  is_fail : bool
}.

(** The characters before the first newline and what follows it, if there
    is a newline. *)
Fixpoint split_newline (s : string) : option (string * string) :=
  match s with
  | EmptyString => None
  | String c s' =>
      if Ascii.eqb c "010" then Some (EmptyString, s')
      else match split_newline s' with
           | Some (l, r) => Some (String c l, r)
           | None => None
           end
  end.

(** [std::getline(iss, line)]: the stream after the call, the line, and
    the stream as a condition.  On a stream that is not good the call
    sets [failbit]; reading to the end of the input sets [eofbit]; a call
    that extracts nothing sets [failbit]. *)
Definition getline (iss : IStream) (line : string) : IStream * string * bool :=
  if is_eof iss || is_fail iss then
    (mkIStream (is_rest iss) (is_eof iss) true, line, false)
  else
    match split_newline (is_rest iss) with
    | Some (l, r) => (mkIStream r false false, l, true)
    | None =>
        match is_rest iss with
        | EmptyString => (mkIStream "" true true, "", false)
        | l => (mkIStream "" true false, l, true)
        end
    end.

(** The [while] loop of [preview], with a bound on its turns: [getline] is
    called before the count is compared. *)
Fixpoint preview_loop (turns maxLines : nat) (iss : IStream) (line : string)
    (lineCount : nat) (preview : string) : option (IStream * nat * string) :=
  match turns with
  | 0 => None
  | S turns' =>
      let '(iss, line, ok) := getline iss line in
      if ok && (lineCount <? maxLines) then
        preview_loop turns' maxLines iss line (S lineCount)
                     (preview +:+ line +:+ String "010" "")
      else Some (iss, lineCount, preview)
  end.

(** The body of [preview] on the text of the writer. *)
Definition preview_text (fullOutput : string) (maxLines : nat) : option string :=
  match preview_loop (S maxLines) maxLines (mkIStream fullOutput false false)
                     "" 0 "" with
  | Some (iss, lineCount, preview) =>
      if lineCount =? maxLines then
        let '(iss, _, _) := getline iss "" in
        if negb (is_eof iss) then
          Some (preview +:+ "... (truncated, " +:+ to_string lineCount
                +:+ " lines shown)" +:+ String "010" "")
        else Some preview
      else Some preview
  | None => None
  end.

(** [ExclusionWriter::preview]. *)
Definition preview `{Platform} (config_ : WriterConfig) (data : ExclusionData)
    (maxLines : nat) : option string :=
  preview_text (writeToString config_ data) maxLines.

(** A text made of whole lines. *)
Definition text_of_lines (lines : list string) : string :=
  foldr (λ l text, l +:+ String "010" text) "" lines.

(* ===================================================================== *)
(** * Writing files (ExclusionWriter.cpp)                                 *)
(* ===================================================================== *)

(** [WriteResult::WriteResult()]. *)
Definition WriteResult_new : WriteResult :=
  mkWriteResult false "" 0 0 0 [] (mkCounts 0 0 0 0).

(** [std::find(types.begin(), types.end(), t) != types.end()]. *)
Definition has_type (t : ExclusionType) (types : list ExclusionType) : bool :=
  existsb (ExclusionType_eqb t) types.

(** The body of the loop of [writeFilteredByType]: the kinds that were not
    asked for are cleared. *)
Definition clear_unwanted (types : list ExclusionType) (scope : ExclusionScope)
  : ExclusionScope :=
  mkScope (scopeName scope) (scope_checksum scope) (isModule scope)
          (if has_type BLOCK types then blockExclusions scope else ∅)
          (if has_type TOGGLE types then toggleExclusions scope else ∅)
          (if has_type FSM types then fsmExclusions scope else ∅)
          (if has_type CONDITION types then conditionExclusions scope else ∅).

(** The file name of [writeMultipleFiles] for the index [i]: the index
    goes before the last dot of the base name, or at its end. *)
Definition indexed_filename (baseFilename : string) (i : nat) : string :=
  match rfind_char baseFilename "." with
  | Some dotPos =>
      take dotPos baseFilename +:+ ("_" +:+ to_string i)
      +:+ drop dotPos baseFilename
  | None => baseFilename +:+ ("_" +:+ to_string i)
  end.

(** The result of one file added to the combined result of
    [writeMultipleFiles]. *)
Definition combine_written (combinedResult result : WriteResult) : WriteResult :=
  mkWriteResult (w_success combinedResult) (w_errorMessage combinedResult)
                (linesWritten combinedResult + linesWritten result)
                (exclusionsWritten combinedResult + exclusionsWritten result)
                (scopesWritten combinedResult + scopesWritten result)
                (w_warnings combinedResult ++ w_warnings result)
                (counts_plus (w_exclusionCounts combinedResult)
                             (w_exclusionCounts result)).

Section WriterFiles.
Context `{Platform}.
Variable config_ : WriterConfig.

(** Which files [std::ofstream] can open for writing. *)
Variable can_create : string → bool.

(** [ExclusionWriter::writeFile]: the text of the file, if it was created,
    and the result. *)
Definition writeFile (filename : string) (data : ExclusionData)
  : option string * WriteResult :=
  if negb (can_create filename) then
    (None, mkWriteResult false ("Cannot create file: " +:+ filename) 0 0 0 []
                         (mkCounts 0 0 0 0))
  else
    let '(text, result) := writeToStream config_ data in
    (Some text, result).

(** [ExclusionWriter::writeScopes]. *)
Definition writeScopes (filename : string) (data : ExclusionData)
    (scopeNames : list string) : option string * WriteResult :=
  let filteredScopes :=
    foldl (λ m scopeName,
             match scopes data !! scopeName with
             | Some scope => <[scopeName := scope]> m
             | None => m
             end)
          ∅ scopeNames in
  writeFile filename (set_scopes (λ _, filteredScopes) data).

(** [ExclusionWriter::writeFilteredByType]. *)
Definition writeFilteredByType (filename : string) (data : ExclusionData)
    (types : list ExclusionType) : option string * WriteResult :=
  writeFile filename (set_scopes (fmap (clear_unwanted types)) data).

(** The loop of [writeMultipleFiles] from the index [i]; [files] are the
    files created so far, with their text. *)
Fixpoint writeMultipleFiles_loop (baseFilename : string)
    (dataList : list ExclusionData) (i : nat) (files : list (string * string))
    (combinedResult : WriteResult) : list (string * string) * WriteResult :=
  match dataList with
  | [] =>
      (files,
       mkWriteResult true (w_errorMessage combinedResult)
                     (linesWritten combinedResult)
                     (exclusionsWritten combinedResult)
                     (scopesWritten combinedResult) (w_warnings combinedResult)
                     (w_exclusionCounts combinedResult))
  | data :: rest =>
      let filename := indexed_filename baseFilename i in
      let '(written, result) := writeFile filename data in
      let files :=
        match written with
        | Some text => files ++ [(filename, text)]
        | None => files
        end in
      let combinedResult := combine_written combinedResult result in
      if negb (w_success result) then
        (files,
         mkWriteResult false
                       ("Failed to write " +:+ filename +:+ ": "
                        +:+ w_errorMessage result)
                       (linesWritten combinedResult)
                       (exclusionsWritten combinedResult)
                       (scopesWritten combinedResult) (w_warnings combinedResult)
                       (w_exclusionCounts combinedResult))
      else writeMultipleFiles_loop baseFilename rest (S i) files combinedResult
  end.

(** [ExclusionWriter::writeMultipleFiles]. *)
Definition writeMultipleFiles (baseFilename : string)
    (dataList : list ExclusionData) : list (string * string) * WriteResult :=
  writeMultipleFiles_loop baseFilename dataList 0 [] WriteResult_new.

End WriterFiles.

(* ===================================================================== *)
(** * ExclusionFormatter (ExclusionWriter.cpp)                            *)
(* ===================================================================== *)

(** The annotation line and a newline put before [result], when the
    annotation is asked for and there is one. *)
Definition with_annotation (includeAnnotation : bool) (annotation result : string)
  : string :=
  if includeAnnotation then
    match annotation with
    | EmptyString => result
    | _ => "ANNOTATION: " +:+ QUOTE +:+ annotation +:+ QUOTE
           +:+ String "010" "" +:+ result
    end
  else result.

(** [ExclusionFormatter::formatBlock]. *)
Definition formatBlock (block : BlockExclusion) (includeAnnotation : bool)
  : string :=
  let result := "Block " +:+ blockId block +:+ " " +:+ QUOTE
                +:+ block_checksum block +:+ QUOTE +:+ " " +:+ QUOTE
                +:+ sourceCode block +:+ QUOTE in
  with_annotation includeAnnotation (block_annotation block) result.

(** [ExclusionFormatter::formatToggle]. *)
Definition formatToggle (toggle : ToggleExclusion) (includeAnnotation : bool)
  : string :=
  let result := "Toggle " in
  let dir := toggleDirectionToString (direction toggle) in
  let result :=
    match dir with
    | EmptyString => result
    | _ => result +:+ dir +:+ " "
    end in
  let result := result +:+ signalName toggle in
  let result :=
    match bitIndex toggle with
    | Some i => result +:+ " [" +:+ to_string_int i +:+ "]"
    | None => result
    end in
  let result := result +:+ " " +:+ QUOTE +:+ netDescription toggle +:+ QUOTE in
  with_annotation includeAnnotation (toggle_annotation toggle) result.

(** [ExclusionFormatter::formatFsm]. *)
Definition formatFsm (fsm : FsmExclusion) (includeAnnotation : bool) : string :=
  let result :=
    if isTransition fsm then
      "Transition " +:+ fromState fsm +:+ "->" +:+ toState fsm +:+ " "
      +:+ QUOTE +:+ transitionId fsm +:+ QUOTE
    else
      "Fsm " +:+ fsmName fsm +:+ " " +:+ QUOTE +:+ fsm_checksum fsm +:+ QUOTE in
  with_annotation includeAnnotation (fsm_annotation fsm) result.

(** [ExclusionFormatter::formatCondition]. *)
Definition formatCondition (condition : ConditionExclusion)
    (includeAnnotation : bool) : string :=
  let result := "Condition " +:+ conditionId condition +:+ " " +:+ QUOTE
                +:+ cond_checksum condition +:+ QUOTE +:+ " " +:+ QUOTE
                +:+ expression condition in
  let result :=
    match parameters condition with
    | EmptyString => result
    | ps => result +:+ " " +:+ ps
    end in
  let result := result +:+ QUOTE in
  let result :=
    match coverage condition with
    | EmptyString => result
    | cov => result +:+ " (" +:+ cov +:+ ")"
    end in
  with_annotation includeAnnotation (cond_annotation condition) result.

(** ** A document with a double quote inside an annotation *)

Definition quoted_annotation_document : string :=
  dq "INSTANCE:top
ANNOTATION: `say `hi``
Block 1 `11` `a = 1;`".

(** ** Lines that get through *)

(** One turn of the loop of [parseStream] on a line that is blank, a
    comment or accepted by a classifier, with the state after it; [None]
    for a line that no classifier accepts. *)
Definition acceptLine (raw : string) (p : Parser) (result : ParseResult)
  : option (Parser * ParseResult) :=
  let p := incr_lineNumber p in
  let result := incr_linesProcessed result in
  let line := trim raw in
  match line with
  | EmptyString => Some (p, result)
  | _ =>
      if isComment line then Some (p, result)
      else
        let '(parsed, p, result) := classify line p result in
        if parsed then Some (p, result) else None
  end.

(** The loop over lines that all get through, with the state after the
    last of them. *)
Fixpoint acceptLines (lines : list string) (p : Parser) (result : ParseResult)
  : option (Parser * ParseResult) :=
  match lines with
  | [] => Some (p, result)
  | raw :: rest =>
      match acceptLine raw p result with
      | Some (p, result) => acceptLines rest p result
      | None => None
      end
  end.

(* ===================================================================== *)
(** * Properties                                                          *)
(* ===================================================================== *)

(** ** Scope creation *)

(** C8.  A second [getOrCreateScope] with the same name returns the scope
    the first call returned and leaves the database as the first call left
    it, whatever checksum and module flag it is given: the stored checksum
    and [isModule] are those of the scope that was there before the two
    calls, or those of the first call when it created the scope. *)
Theorem getOrCreateScope_idempotent
    (d : ExclusionData) (name cs1 cs2 : string) (m1 m2 : bool) :
  let r1 := getOrCreateScope name cs1 m1 d in
  let r2 := getOrCreateScope name cs2 m2 r1.1 in
  r2.1 = r1.1 ∧ r2.2 = r1.2 ∧
  scopes r2.1 !! name = Some r1.2 ∧
  scope_checksum r2.2 =
    match scopes d !! name with Some s => scope_checksum s | None => cs1 end ∧
  isModule r2.2 =
    match scopes d !! name with Some s => isModule s | None => m1 end.
Proof.
  unfold getOrCreateScope.
  destruct (scopes d !! name) as [s|] eqn:Hd; cbn.
  - rewrite Hd. cbn. repeat split; assumption.
  - rewrite !lookup_insert_eq. cbn. repeat split; apply lookup_insert_eq.
Qed.

(** ** Pattern matching *)

(** C3 (the code at the inputs of the claim).  The two wildcard
    replacements are computed and thrown away, so the regular expression
    is built from the escaped pattern itself: in ["tb\.*\.core"] the star
    repeats the escaped dot, in ["a?c"] the question mark makes the [a]
    optional.  The matcher rejects all four pairs, among them the two the
    specification says it accepts. *)
Theorem matches_wildcards_not_translated :
  PatternMatcher.matches "tb.*.core" "tb.cpu0.core" true = Some false ∧
  PatternMatcher.matches "tb.*.core" "tb.cpu0.io" true = Some false ∧
  PatternMatcher.matches "a?c" "abc" true = Some false ∧
  PatternMatcher.matches "a?c" "abcc" true = Some false ∧
  PatternMatcher.matches "tb.*.core" "tb...core" true = Some true ∧
  PatternMatcher.matches "a?c" "c" true = Some true.
Proof. repeat split; reflexivity. Qed.

(** ** Single lines *)

(** C2 (the code at the input of the claim).  The quoted text is split at
    its last space, so the expression keeps the first parameter and
    [parameters] is only ["-1"]. *)
Theorem parseCondition_scenario_B :
  let p := (parseString
              (dq "INSTANCE:top
Condition 2 `111` `(a && b) 1 -1` (1 `01`)") Parser_new).1 in
  lookup_condition "top" "2" p =
    Some (mkCondition "2" "111" "(a && b) 1" "-1" (dq "1 `01`") "").
Proof. vm_compute. reflexivity. Qed.

(** C4 (the code at the inputs of the claim).  Without a directional token
    the direction is [BOTH]; the bracketed index is read only when the
    bracket comes before the first space, that is when it touches the
    signal name, so [sig [3]] gets no bit index and [sig[3]] gets 3. *)
Theorem parseToggle_bit_index :
  let parse line :=
    lookup_toggles "top" "sig"
      (parseString ("INSTANCE:top" +:+ String "010" line) Parser_new).1 in
  parse (dq "Toggle sig [3] `desc`") = [mkToggle BOTH "sig" None "desc" ""] ∧
  parse (dq "Toggle sig `desc`") = [mkToggle BOTH "sig" None "desc" ""] ∧
  parse (dq "Toggle sig[3] `desc`") = [mkToggle BOTH "sig" (Some 3%Z) "desc" ""].
Proof. vm_compute. auto. Qed.

(** ** Files *)

(** C6.  A file that exists and is larger than the configured maximum
    (100 MB in the default configuration) is refused: the result has
    [success = false] and an error message, nothing was read, and the
    database of the parser is the one it had before the call. *)
Theorem parseFile_oversize (fs : FileSystem) (filename : string) (p : Parser) :
  fileExists fs filename = true →
  (maxFileSize (config_ p) < getFileSize fs filename)%N →
  let r := parseFile fs filename p in
  success r.2 = false ∧ errorMessage r.2 ≠ "" ∧
  linesProcessed r.2 = 0 ∧ exclusionsParsed r.2 = 0 ∧
  data_ r.1 = data_ p ∧ size (scopes (data_ r.1)) = size (scopes (data_ p)) ∧
  config_ r.1 = config_ p ∧
  maxFileSize ParserConfig_default = (100 * 1024 * 1024)%N.
Proof.
  intros Hex Hsize. unfold parseFile. rewrite Hex. cbn [negb].
  cbn [resetState config_].
  apply N.ltb_lt in Hsize. rewrite Hsize. cbn.
  repeat split; try reflexivity. discriminate.
Qed.

Lemma parseFile_oversize_witness :
  let fs := mkFileSystem (λ _, true) (λ _, 104857601%N) (λ _, Some "INSTANCE:top") in
  let r := parseFile fs "big.el" Parser_new in
  success r.2 = false ∧ errorMessage r.2 ≠ "" ∧
  linesProcessed r.2 = 0 ∧ exclusionsParsed r.2 = 0 ∧
  data_ r.1 = data_ Parser_new ∧
  size (scopes (data_ r.1)) = size (scopes (data_ Parser_new)) ∧
  config_ r.1 = config_ Parser_new ∧
  maxFileSize ParserConfig_default = (100 * 1024 * 1024)%N.
Proof.
  apply (parseFile_oversize
           (mkFileSystem (λ _, true) (λ _, 104857601%N) (λ _, Some "INSTANCE:top"))
           "big.el" Parser_new).
  - reflexivity.
  - reflexivity.
Defined.

(* ===================================================================== *)
(** * Lemmas on the string primitives                                     *)
(* ===================================================================== *)

Section StringLemmas.

Local Arguments String.append !_ _ / : simpl nomatch.

Lemma app_empty_r (s : string) : s +:+ "" = s.
Proof. induction s as [|c s IH]; simpl; [reflexivity | now rewrite IH]. Qed.

Lemma app_assoc_str (a b c : string) : (a +:+ b) +:+ c = a +:+ (b +:+ c).
Proof. induction a as [|x a IH]; simpl; [reflexivity | now rewrite IH]. Qed.

Lemma length_app_str (a b : string) :
  String.length (a +:+ b) = String.length a + String.length b.
Proof. induction a as [|x a IH]; simpl; [reflexivity | now rewrite IH]. Qed.

Lemma drop_0 (s : string) : drop 0 s = s.
Proof. now destruct s. Qed.

Lemma drop_app_plus (a b : string) (n : nat) :
  drop (String.length a + n) (a +:+ b) = drop n b.
Proof. induction a as [|x a IH]; simpl; [reflexivity | apply IH]. Qed.

Lemma drop_app_length (a b : string) : drop (String.length a) (a +:+ b) = b.
Proof.
  rewrite <- (Nat.add_0_r (String.length a)), drop_app_plus. apply drop_0.
Qed.

Lemma drop_app_le (a b : string) (n : nat) :
  n ≤ String.length a → drop n (a +:+ b) = drop n a +:+ b.
Proof.
  revert n. induction a as [|x a IH]; intros [|n] Hn; simpl in *;
    try reflexivity; try lia.
  apply IH. lia.
Qed.

Lemma drop_all (s : string) (n : nat) : String.length s ≤ n → drop n s = "".
Proof.
  revert n. induction s as [|x s IH]; intros [|n] Hn; simpl in *;
    try reflexivity; try lia.
  apply IH. lia.
Qed.

Lemma length_drop (s : string) (n : nat) :
  String.length (drop n s) = String.length s - n.
Proof.
  revert n. induction s as [|x s IH]; intros [|n]; simpl; try reflexivity.
  apply IH.
Qed.

Lemma take_app_length (a b : string) : take (String.length a) (a +:+ b) = a.
Proof. induction a as [|x a IH]; simpl; [now destruct b | now rewrite IH]. Qed.

Lemma take_all (s : string) (n : nat) : String.length s ≤ n → take n s = s.
Proof.
  revert n. induction s as [|x s IH]; intros [|n] Hn; simpl in *;
    try reflexivity; try lia.
  rewrite IH; [reflexivity | lia].
Qed.

Lemma take_drop (s : string) (n : nat) : take n s +:+ drop n s = s.
Proof.
  revert n. induction s as [|x s IH]; intros [|n]; simpl; try reflexivity.
  now rewrite IH.
Qed.

(** ** Prefixes and [find] *)

Lemma is_prefix_app (p r : string) : is_prefix p (p +:+ r) = true.
Proof.
  induction p as [|x p IH]; simpl; [reflexivity|].
  now rewrite Ascii.eqb_refl, IH.
Qed.

Lemma is_prefix_split (p s : string) :
  is_prefix p s = true → s = p +:+ drop (String.length p) s.
Proof.
  revert s. induction p as [|x p IH]; intros s Hp; simpl.
  - reflexivity.
  - destruct s as [|y s]; simpl in Hp; [discriminate|].
    apply andb_true_iff in Hp as [Hxy Hp]. apply Ascii.eqb_eq in Hxy as ->.
    simpl. f_equal. now apply IH.
Qed.

Lemma index_str_0 (p s : string) :
  index_str p s = Some 0 ↔ is_prefix p s = true.
Proof.
  destruct s as [|y s]; simpl; destruct (is_prefix p _) eqn:E; try easy.
  destruct (index_str p s); easy.
Qed.

Lemma find_is_0_prefix (s p : string) : find_is_0 s p = is_prefix p s.
Proof.
  unfold find_is_0, find_str. simpl.
  destruct (is_prefix p s) eqn:E.
  - apply index_str_0 in E. now rewrite E.
  - destruct (index_str p s) as [[|i]|] eqn:Ei; try reflexivity.
    apply index_str_0 in Ei. congruence.
Qed.

Lemma index_char_app (c : ascii) (a b : string) :
  index_char c (a +:+ b) =
    match index_char c a with
    | Some i => Some i
    | None =>
        match index_char c b with
        | Some j => Some (String.length a + j)
        | None => None
        end
    end.
Proof.
  induction a as [|x a IH]; simpl.
  - now destruct (index_char c b).
  - destruct (Ascii.eqb x c); [reflexivity|]. rewrite IH.
    destruct (index_char c a); [reflexivity|]. now destruct (index_char c b).
Qed.

Lemma index_char_none (c : ascii) (s : string) :
  all_chars (λ d, negb (Ascii.eqb d c)) s = true → index_char c s = None.
Proof.
  induction s as [|x s IH]; simpl; [reflexivity|].
  intros [Hx Hs]%andb_true_iff. apply negb_true_iff in Hx. rewrite Hx.
  now rewrite IH.
Qed.

Lemma all_chars_app (P : ascii → bool) (a b : string) :
  all_chars P (a +:+ b) = all_chars P a && all_chars P b.
Proof.
  induction a as [|x a IH]; simpl; [reflexivity|].
  now rewrite IH, andb_assoc.
Qed.

Lemma all_chars_impl (P Q : ascii → bool) (s : string) :
  (∀ c, P c = true → Q c = true) → all_chars P s = true → all_chars Q s = true.
Proof.
  intros HPQ. induction s as [|x s IH]; simpl; [reflexivity|].
  intros [Hx Hs]%andb_true_iff. rewrite (HPQ _ Hx). now apply IH.
Qed.

Lemma all_chars_drop (P : ascii → bool) (s : string) (n : nat) :
  all_chars P s = true → all_chars P (drop n s) = true.
Proof.
  revert n. induction s as [|x s IH]; intros [|n]; simpl; try easy.
  intros [_ Hs]%andb_true_iff. now apply IH.
Qed.

End StringLemmas.

(* ===================================================================== *)
(** * The classifier chain                                                *)
(* ===================================================================== *)

Section Classifiers.

Local Arguments String.append !_ _ / : simpl nomatch.

Lemma parseHeader_not_header (line : string) (p : Parser) :
  isHeaderLine line = false → parseHeader line p = (false, p).
Proof.
  unfold isHeaderLine, parseHeader. intros Hh.
  destruct (find_found line "Generated By User:"); [discriminate Hh|].
  destruct (find_found line "Format Version:"); [discriminate Hh|].
  destruct (find_found line "Date:"); [discriminate Hh|].
  destruct (find_found line "ExclMode:"); [discriminate Hh|].
  reflexivity.
Qed.

Lemma add_to_current_scope_no_scope
    (add : string → ExclusionScope → ExclusionScope) (p : Parser) :
  currentScope_ p = "" → add_to_current_scope add p = p.
Proof. unfold add_to_current_scope. now intros ->. Qed.

(** A line that begins with [kw], rewritten with its keyword in front. *)
Lemma prefix_shape (kw line : string) :
  is_prefix kw line = true → ∃ r, line = kw +:+ r.
Proof. intros Hp. eexists. now apply is_prefix_split. Qed.

(** The classifiers before the exclusion parsers test a prefix that no
    exclusion keyword shares. *)
Ltac other_prefix :=
  rewrite ?find_is_0_prefix; simpl; reflexivity.

Lemma classify_exclusion_no_scope (line : string) (p : Parser)
    (result : ParseResult) (k : ExclusionType) :
  currentScope_ p = "" →
  isHeaderLine line = false →
  exclusionLineKind line = Some k →
  classify line p result = (true, p, count_exclusion k result).
Proof.
  intros Hscope Hhead Hkind. unfold classify.
  rewrite (parseHeader_not_header _ _ Hhead).
  unfold exclusionLineKind in Hkind.
  unfold parseChecksum, parseScope, parseAnnotation, parseBlockExclusion,
    parseToggleExclusion, parseFsmExclusion, parseConditionExclusion,
    parseTransition.
  rewrite !find_is_0_prefix.
  destruct (is_prefix "Block " line) eqn:Hb.
  { destruct (prefix_shape _ _ Hb) as [r ->]. simpl.
    rewrite add_to_current_scope_no_scope by assumption. congruence. }
  destruct (is_prefix "Toggle " line) eqn:Ht.
  { destruct (prefix_shape _ _ Ht) as [r ->]. simpl.
    rewrite add_to_current_scope_no_scope by assumption. congruence. }
  destruct (is_prefix "Fsm " line) eqn:Hf.
  { destruct (prefix_shape _ _ Hf) as [r ->]. simpl.
    rewrite add_to_current_scope_no_scope by assumption. congruence. }
  destruct (is_prefix "Condition " line) eqn:Hc.
  { destruct (prefix_shape _ _ Hc) as [r ->]. simpl.
    rewrite add_to_current_scope_no_scope by assumption. congruence. }
  destruct (is_prefix "Transition " line) eqn:Htr; [|discriminate].
  destruct (prefix_shape _ _ Htr) as [r Hr].
  unfold transitionOfLine.
  destruct (find_str (substr_from line 11) "->" 0) as [arrowPos|]; [|discriminate].
  destruct (find_char (substr_from line 11) " " arrowPos) as [spacePos|];
    [|discriminate].
  destruct (extractQuotedString (substr_from line 11) spacePos) as [transId pos].
  subst line. simpl.
  rewrite add_to_current_scope_no_scope by assumption. congruence.
Qed.

Lemma exclusion_line_not_empty (line : string) (k : ExclusionType) :
  exclusionLineKind line = Some k → line ≠ "" ∧ isComment line = false.
Proof.
  unfold exclusionLineKind, isComment. rewrite !find_is_0_prefix.
  destruct (is_prefix "Block " line) eqn:Hb.
  { destruct (prefix_shape _ _ Hb) as [r ->]. now split. }
  destruct (is_prefix "Toggle " line) eqn:Ht.
  { destruct (prefix_shape _ _ Ht) as [r ->]. now split. }
  destruct (is_prefix "Fsm " line) eqn:Hf.
  { destruct (prefix_shape _ _ Hf) as [r ->]. now split. }
  destruct (is_prefix "Condition " line) eqn:Hc.
  { destruct (prefix_shape _ _ Hc) as [r ->]. now split. }
  destruct (is_prefix "Transition " line) eqn:Htr; [|discriminate].
  destruct (prefix_shape _ _ Htr) as [r ->]. now split.
Qed.

End Classifiers.

(** C10, as the claim states it, fails for an exclusion line with a header
    field name in it: the line is taken for a header line, it is not
    counted, and the date of the database is overwritten. *)
Lemma exclusion_line_taken_for_header :
  let raw := dq "Block 1 `11` `Date: x`" in
  exclusionLineKind (trim raw) = Some BLOCK
  ∧ currentScope_ Parser_new = ""
  ∧ match parseLine raw Parser_new ParseResult_new with
    | Continue p' result' =>
        exclusionsParsed result' = 0
        ∧ count_of BLOCK (exclusionCounts result') = 0
        ∧ generationDate (data_ Parser_new) = ""
        ∧ generationDate (data_ p') = dq "x`"
    | Return _ _ => False
    end.
Proof. vm_compute. repeat split; reflexivity. Qed.

(** C10, amended.  An exclusion line with no header field name in it, met
    while no scope is current, is still taken as parsed: the loop goes on,
    the line is counted in [exclusionsParsed] and in the count of its kind,
    no warning is added, and neither the database nor the pending
    annotation changes. *)
Theorem exclusion_line_without_scope (raw : string) (p : Parser)
    (result : ParseResult) (k : ExclusionType) :
  currentScope_ p = "" →
  isHeaderLine (trim raw) = false →
  exclusionLineKind (trim raw) = Some k →
  ∃ p' result',
    parseLine raw p result = Continue p' result' ∧
    exclusionsParsed result' = S (exclusionsParsed result) ∧
    count_of k (exclusionCounts result') = S (count_of k (exclusionCounts result)) ∧
    warnings result' = warnings result ∧
    warnings (lastResult_ p') = warnings (lastResult_ p) ∧
    data_ p' = data_ p ∧
    pendingAnnotation_ p' = pendingAnnotation_ p ∧
    currentScope_ p' = "".
Proof.
  intros Hscope Hhead Hkind.
  destruct (exclusion_line_not_empty _ _ Hkind) as [Hne Hcomment].
  exists (incr_lineNumber p), (count_exclusion k (incr_linesProcessed result)).
  split.
  - unfold parseLine. destruct (trim raw) as [|c t] eqn:Ht; [congruence|].
    rewrite Hcomment.
    rewrite (classify_exclusion_no_scope _ (incr_lineNumber p) _ k);
      [reflexivity | assumption..].
  - destruct k; simpl; repeat split; try assumption; lia.
Qed.

Lemma exclusion_line_without_scope_witness :
  ∃ p' result',
    parseLine (dq "  Block 161 `1104666086` `x = 1'b0;`")
              (set_pendingAnnotation "kept" Parser_new) ParseResult_new
      = Continue p' result' ∧
    exclusionsParsed result' = S (exclusionsParsed ParseResult_new) ∧
    count_of BLOCK (exclusionCounts result')
      = S (count_of BLOCK (exclusionCounts ParseResult_new)) ∧
    warnings result' = warnings ParseResult_new ∧
    warnings (lastResult_ p')
      = warnings (lastResult_ (set_pendingAnnotation "kept" Parser_new)) ∧
    data_ p' = data_ (set_pendingAnnotation "kept" Parser_new) ∧
    pendingAnnotation_ p'
      = pendingAnnotation_ (set_pendingAnnotation "kept" Parser_new) ∧
    currentScope_ p' = "".
Proof.
  apply (exclusion_line_without_scope
           (dq "  Block 161 `1104666086` `x = 1'b0;`")
           (set_pendingAnnotation "kept" Parser_new) ParseResult_new BLOCK);
    reflexivity.
Defined.

(* ===================================================================== *)
(** * Checksum validation                                                 *)
(* ===================================================================== *)

Lemma all_digit_or_space_spec (s : string) :
  all_digit_or_space s = true ↔ digits_and_spaces s.
Proof.
  unfold digits_and_spaces. induction s as [|x s IH]; simpl.
  - split; [intros _ c [] | reflexivity].
  - destruct (isdigit x) eqn:Hd; simpl.
    + rewrite IH. split.
      * intros Hs c [<-|Hc]; [now left | now apply Hs].
      * intros Hs c Hc. apply Hs. now right.
    + destruct (Ascii.eqb x " ") eqn:Hsp; simpl.
      * apply Ascii.eqb_eq in Hsp as ->. rewrite IH. split.
        -- intros Hs c [<-|Hc]; [now right | now apply Hs].
        -- intros Hs c Hc. apply Hs. now right.
      * split; [discriminate|]. intros Hs.
        destruct (Hs x (or_introl eq_refl)) as [Hx | ->].
        -- congruence.
        -- discriminate Hsp.
Qed.

(** C9 as stated fails on the empty string: all of its (no) characters are
    digits or spaces, and [validateChecksum] rejects it. *)
Lemma validateChecksum_rejects_empty :
  ¬ (validateChecksum "" = true ↔ digits_and_spaces "").
Proof.
  intros [_ Hacc]. discriminate Hacc. intros c [].
Qed.

Section ChecksumLine.

Local Arguments String.append !_ _ / : simpl nomatch.

Lemma classify_checksum (line : string) (p : Parser) (result : ParseResult) :
  is_prefix "CHECKSUM:" line = true →
  isHeaderLine line = false →
  classify line p result = (true, (parseChecksum line p).2, result).
Proof.
  intros Hp Hh. unfold classify. rewrite (parseHeader_not_header _ _ Hh).
  unfold parseChecksum. rewrite find_is_0_prefix, Hp. reflexivity.
Qed.

Lemma checksum_line_not_empty (line : string) :
  is_prefix "CHECKSUM:" line = true → line ≠ "" ∧ isComment line = false.
Proof.
  intros Hp. destruct (prefix_shape _ _ Hp) as [r ->].
  unfold isComment. rewrite !find_is_0_prefix. now split.
Qed.

End ChecksumLine.

(** A line with a header field name in it is accepted by the first
    classifier; the result of the parse is not touched. *)
Lemma classify_header (line : string) (p : Parser) (result : ParseResult) :
  isHeaderLine line = true → ∃ q, classify line p result = (true, q, result).
Proof.
  unfold isHeaderLine, classify, parseHeader. intros Hh.
  destruct (find_found line "Generated By User:"); [eexists; reflexivity|].
  destruct (find_found line "Format Version:"); [eexists; reflexivity|].
  destruct (find_found line "Date:"); [eexists; reflexivity|].
  destruct (find_found line "ExclMode:"); [eexists; reflexivity|].
  discriminate Hh.
Qed.

(** C9, amended.  [validateChecksum] accepts a string exactly when it is
    not empty and each of its characters is a digit or a space.  A
    [CHECKSUM:] line never stops the parse, whatever its text and also in
    strict mode: the loop goes on to the next line, with the success flag
    and the error message of the result as they were. *)
Theorem validateChecksum_nonempty_digits_spaces :
  (∀ s, validateChecksum s = true ↔ s ≠ "" ∧ digits_and_spaces s) ∧
  (∀ raw p result,
     is_prefix "CHECKSUM:" (trim raw) = true →
     ∃ p' result',
       parseLine raw p result = Continue p' result' ∧
       success result' = success result ∧
       errorMessage result' = errorMessage result ∧
       linesProcessed result' = S (linesProcessed result)).
Proof.
  split.
  - intros s. destruct s as [|x s].
    + split; [discriminate | now intros [[] _]].
    + change (validateChecksum (String x s)) with (all_digit_or_space (String x s)).
      rewrite all_digit_or_space_spec. split; [now split | now intros [_ ?]].
  - intros raw p result Hp.
    destruct (checksum_line_not_empty _ Hp) as [Hne Hcomment].
    assert (Hstep : ∀ q r',
               classify (trim raw) (incr_lineNumber p)
                        (incr_linesProcessed result) = (true, q, r') →
               parseLine raw p result = Continue q r').
    { intros q r' Hc. unfold parseLine. rewrite Hcomment, Hc.
      destruct (trim raw); [congruence | reflexivity]. }
    destruct (isHeaderLine (trim raw)) eqn:Hh.
    + destruct (classify_header (trim raw) (incr_lineNumber p)
                  (incr_linesProcessed result) Hh) as [q Hq].
      exists q, (incr_linesProcessed result).
      split; [now apply Hstep | now repeat split].
    + exists (parseChecksum (trim raw) (incr_lineNumber p)).2,
             (incr_linesProcessed result).
      split; [|now repeat split].
      apply Hstep. now apply classify_checksum.
Qed.

Lemma validateChecksum_nonempty_digits_spaces_witness :
  ∃ p' result',
    parseLine (dq "CHECKSUM: `12ab`")
              (setConfig (mkParserConfig true true true false 1024%N) Parser_new)
              ParseResult_new
      = Continue p' result' ∧
    success result' = success ParseResult_new ∧
    errorMessage result' = errorMessage ParseResult_new ∧
    linesProcessed result' = S (linesProcessed ParseResult_new).
Proof.
  apply (proj2 validateChecksum_nonempty_digits_spaces
           (dq "CHECKSUM: `12ab`")
           (setConfig (mkParserConfig true true true false 1024%N) Parser_new)
           ParseResult_new).
  reflexivity.
Defined.

(* ===================================================================== *)
(** * Counting over unordered maps                                        *)
(* ===================================================================== *)

Section Measures.
Context {V : Type} (f : V → nat).

Lemma msum_empty : msum f (∅ : gmap string V) = 0.
Proof. unfold msum. now rewrite map_to_list_empty. Qed.

Lemma msum_insert_None (m : gmap string V) (k : string) (v : V) :
  m !! k = None → msum f (<[k := v]> m) = f v + msum f m.
Proof.
  intros Hk. unfold msum. now rewrite (map_to_list_insert m k v Hk).
Qed.

Lemma msum_delete (m : gmap string V) (k : string) (v : V) :
  m !! k = Some v → msum f m = f v + msum f (delete k m).
Proof.
  intros Hk. unfold msum. now rewrite <- (map_to_list_delete m k v Hk).
Qed.

(** Overwriting a key replaces its share of the sum. *)
Lemma msum_insert (m : gmap string V) (k : string) (v : V) :
  msum f (<[k := v]> m) + from_option f 0 (m !! k) = msum f m + f v.
Proof.
  destruct (m !! k) as [v0|] eqn:Hk; simpl.
  - rewrite <- insert_delete_eq.
    rewrite msum_insert_None by apply lookup_delete_eq.
    rewrite (msum_delete m k v0 Hk). lia.
  - rewrite (msum_insert_None m k v Hk). lia.
Qed.

(** A [foldl] that adds the measure of each visited entry. *)
Lemma foldl_add_measure {S : Type} (g : S → nat) (step : S → string * V → S)
    (l : list (string * V)) (s : S) :
  (∀ s kv, g (step s kv) = g s + f kv.2) →
  g (foldl step s l) = g s + sum_list_with (λ kv, f kv.2) l.
Proof.
  intros Hstep. revert s. induction l as [|kv l IH]; intros s; simpl.
  - lia.
  - rewrite IH, Hstep. lia.
Qed.

Lemma foldl_keep_measure {S X : Type} (g : S → nat) (step : S → X → S)
    (l : list X) (s : S) :
  (∀ s x, g (step s x) = g s) → g (foldl step s l) = g s.
Proof.
  intros Hstep. revert s. induction l as [|x l IH]; intros s; simpl;
    [reflexivity | now rewrite IH, Hstep].
Qed.

Lemma sum_unordered_iter `{Platform} (m : gmap string V) :
  sum_list_with (λ kv, f kv.2) (unordered_iter m) = msum f m.
Proof. unfold msum. now rewrite unordered_iter_perm. Qed.

End Measures.

Lemma records_push_back {A : Type} (k : string) (x : A) (m : gmap string (list A)) :
  records (push_back_at k x m) = S (records m).
Proof.
  unfold records, push_back_at.
  pose proof (msum_insert length m k (default [] (m !! k) ++ [x])) as Hins.
  rewrite length_app in Hins. simpl in Hins.
  destruct (m !! k) as [l|]; simpl in *; lia.
Qed.

Section AggregateLemmas.
Context `{Platform}.

Lemma foldl_count_add (t : ExclusionType) {A : Type}
    (l : list (string * list A)) (c : TypeCounts) :
  foldl (λ c kv, count_add t (length kv.2) c) c l =
  count_add t (sum_list_with (λ kv, length kv.2) l) c.
Proof.
  revert c. induction l as [|kv l IH]; intros c; simpl.
  - destruct t, c; simpl; f_equal; lia.
  - rewrite IH. destruct t, c; simpl; f_equal; lia.
Qed.

Lemma add_scope_counts_spec (s : ExclusionScope) (c : TypeCounts) :
  add_scope_counts s c =
  mkCounts (n_block c + size (blockExclusions s))
           (n_toggle c + records (toggleExclusions s))
           (n_fsm c + records (fsmExclusions s))
           (n_condition c + size (conditionExclusions s)).
Proof.
  unfold add_scope_counts. rewrite !foldl_count_add, !sum_unordered_iter.
  reflexivity.
Qed.

Lemma foldl_add_scope_counts (l : list (string * ExclusionScope)) (c : TypeCounts) :
  foldl (λ c kv, add_scope_counts kv.2 c) c l =
  mkCounts
    (n_block c + sum_list_with (λ kv, size (blockExclusions kv.2)) l)
    (n_toggle c + sum_list_with (λ kv, records (toggleExclusions kv.2)) l)
    (n_fsm c + sum_list_with (λ kv, records (fsmExclusions kv.2)) l)
    (n_condition c + sum_list_with (λ kv, size (conditionExclusions kv.2)) l).
Proof.
  revert c. induction l as [|kv l IH]; intros c; simpl.
  - destruct c; simpl; f_equal; lia.
  - rewrite IH, add_scope_counts_spec. simpl. f_equal; lia.
Qed.

(** [getExclusionCountsByType] does not depend on the iteration order. *)
Lemma getExclusionCountsByType_spec (d : ExclusionData) :
  getExclusionCountsByType d =
  mkCounts (blockTotal d) (toggleTotal d) (fsmTotal d) (conditionTotal d).
Proof.
  unfold getExclusionCountsByType. rewrite foldl_add_scope_counts.
  rewrite (sum_unordered_iter (λ s, size (blockExclusions s))).
  rewrite (sum_unordered_iter (λ s, records (toggleExclusions s))).
  rewrite (sum_unordered_iter (λ s, records (fsmExclusions s))).
  rewrite (sum_unordered_iter (λ s, size (conditionExclusions s))).
  reflexivity.
Qed.

Lemma foldl_sum {V : Type} (f : V → nat) (l : list (string * V)) (total : nat) :
  foldl (λ total kv, total + f kv.2) total l =
  total + sum_list_with (λ kv, f kv.2) l.
Proof.
  revert total. induction l as [|kv l IH]; intros total; simpl; [lia|].
  rewrite IH. lia.
Qed.

Lemma add_sizes_spec {A : Type} (m : gmap string (list A)) (total : nat) :
  add_sizes m total = total + records m.
Proof.
  unfold add_sizes. rewrite (foldl_sum length). now rewrite sum_unordered_iter.
Qed.

Lemma Scope_getTotalExclusionCount_spec (s : ExclusionScope) :
  Scope_getTotalExclusionCount s =
  size (blockExclusions s) + size (conditionExclusions s)
  + records (toggleExclusions s) + records (fsmExclusions s).
Proof. unfold Scope_getTotalExclusionCount. now rewrite !add_sizes_spec. Qed.

Lemma msum_plus {V : Type} (f g : V → nat) (m : gmap string V) :
  msum (λ v, f v + g v) m = msum f m + msum g m.
Proof.
  unfold msum. induction (map_to_list m) as [|kv l IH]; simpl; [reflexivity|].
  rewrite IH. lia.
Qed.

Lemma msum_ext {V : Type} (f g : V → nat) (m : gmap string V) :
  (∀ v, f v = g v) → msum f m = msum g m.
Proof.
  intros Hfg. unfold msum.
  induction (map_to_list m) as [|kv l IH]; simpl; [reflexivity|].
  now rewrite IH, Hfg.
Qed.

(** [getTotalExclusionCount] is the sum of the four per-kind counts. *)
Lemma getTotalExclusionCount_spec (d : ExclusionData) :
  getTotalExclusionCount d =
  blockTotal d + conditionTotal d + toggleTotal d + fsmTotal d.
Proof.
  unfold getTotalExclusionCount.
  rewrite (foldl_sum Scope_getTotalExclusionCount), sum_unordered_iter. simpl.
  rewrite (msum_ext _ _ _ Scope_getTotalExclusionCount_spec).
  unfold blockTotal, conditionTotal, toggleTotal, fsmTotal.
  now rewrite !msum_plus.
Qed.

End AggregateLemmas.

(* ===================================================================== *)
(** * Merge                                                               *)
(* ===================================================================== *)

Lemma foldl_keep {S X R : Type} (g : S → R) (step : S → X → S)
    (l : list X) (s : S) :
  (∀ s x, g (step s x) = g s) → g (foldl step s l) = g s.
Proof.
  intros Hstep. revert s. induction l as [|x l IH]; intros s; simpl;
    [reflexivity | now rewrite IH, Hstep].
Qed.

Lemma foldl_preserve {S X : Type} (P : S → Prop) (step : S → X → S)
    (l : list X) (s : S) :
  (∀ s x, P s → P (step s x)) → P s → P (foldl step s l).
Proof.
  intros Hstep. revert s. induction l as [|x l IH]; intros s Hs; simpl;
    [assumption | apply IH, Hstep, Hs].
Qed.

Section MergeLemmas.
Context `{Platform}.

Lemma addToggles_records (l : list ToggleExclusion) (ex : ExclusionScope) :
  records (toggleExclusions (foldl (λ ex t, addToggleExclusion t ex) ex l))
  = records (toggleExclusions ex) + length l.
Proof.
  revert ex. induction l as [|t l IH]; intros ex; simpl; [lia|].
  rewrite IH. unfold addToggleExclusion. simpl.
  rewrite records_push_back. lia.
Qed.

Lemma addFsms_records (l : list FsmExclusion) (ex : ExclusionScope) :
  records (fsmExclusions (foldl (λ ex t, addFsmExclusion t ex) ex l))
  = records (fsmExclusions ex) + length l.
Proof.
  revert ex. induction l as [|t l IH]; intros ex; simpl; [lia|].
  rewrite IH. unfold addFsmExclusion. simpl.
  rewrite records_push_back. lia.
Qed.

(** The record-level merge appends every toggle record of the other
    scope. *)
Lemma merge_scope_toggle_records (ow : bool) (sc ex : ExclusionScope) :
  records (toggleExclusions (merge_scope ow sc ex))
  = records (toggleExclusions ex) + records (toggleExclusions sc).
Proof.
  unfold merge_scope.
  rewrite (foldl_keep toggleExclusions)
    by (intros s kv; now destruct (_ || _)).
  rewrite (foldl_keep toggleExclusions)
    by (intros s kv; now apply (foldl_keep toggleExclusions)).
  rewrite (foldl_add_measure length (λ ex, records (toggleExclusions ex)))
    by (intros s kv; apply addToggles_records).
  rewrite sum_unordered_iter.
  rewrite (foldl_keep toggleExclusions)
    by (intros s kv; now destruct (_ || _)).
  reflexivity.
Qed.

(** ... and every FSM record. *)
Lemma merge_scope_fsm_records (ow : bool) (sc ex : ExclusionScope) :
  records (fsmExclusions (merge_scope ow sc ex))
  = records (fsmExclusions ex) + records (fsmExclusions sc).
Proof.
  unfold merge_scope.
  rewrite (foldl_keep fsmExclusions)
    by (intros s kv; now destruct (_ || _)).
  rewrite (foldl_add_measure length (λ ex, records (fsmExclusions ex)))
    by (intros s kv; apply addFsms_records).
  rewrite sum_unordered_iter.
  rewrite (foldl_keep fsmExclusions)
    by (intros s kv; now apply (foldl_keep fsmExclusions)).
  rewrite (foldl_keep fsmExclusions)
    by (intros s kv; now destruct (_ || _)).
  reflexivity.
Qed.

(** Without [overwriteExisting] a block of the existing scope stays. *)
Lemma merge_scope_keeps_block (sc ex : ExclusionScope) (id : string)
    (b : BlockExclusion) :
  blockExclusions ex !! id = Some b →
  blockExclusions (merge_scope false sc ex) !! id = Some b.
Proof.
  intros Hb. unfold merge_scope.
  rewrite (foldl_keep blockExclusions)
    by (intros s kv; now destruct (_ || _)).
  rewrite (foldl_keep blockExclusions)
    by (intros s kv; now apply (foldl_keep blockExclusions)).
  rewrite (foldl_keep blockExclusions)
    by (intros s kv; now apply (foldl_keep blockExclusions)).
  apply (foldl_preserve (λ ex, blockExclusions ex !! id = Some b));
    [|assumption].
  intros s kv Hs. simpl. case_bool_decide as Hnone; [|assumption].
  simpl. rewrite lookup_insert_ne; [assumption | congruence].
Qed.

Lemma merge_scope_keeps_condition (sc ex : ExclusionScope) (id : string)
    (c : ConditionExclusion) :
  conditionExclusions ex !! id = Some c →
  conditionExclusions (merge_scope false sc ex) !! id = Some c.
Proof.
  intros Hc. unfold merge_scope.
  apply (foldl_preserve (λ ex, conditionExclusions ex !! id = Some c)).
  { intros s kv Hs. simpl. case_bool_decide as Hnone; [|assumption].
    simpl. rewrite lookup_insert_ne; [assumption | congruence]. }
  rewrite (foldl_keep conditionExclusions)
    by (intros s kv; now apply (foldl_keep conditionExclusions)).
  rewrite (foldl_keep conditionExclusions)
    by (intros s kv; now apply (foldl_keep conditionExclusions)).
  rewrite (foldl_keep conditionExclusions)
    by (intros s kv; now destruct (_ || _)).
  assumption.
Qed.

(** A measure that the record-level merge adds up is added up by the
    whole merge. *)
Lemma merge_adds (f : ExclusionScope → nat) (A B : ExclusionData) :
  (∀ sc ex, f (merge_scope false sc ex) = f ex + f sc) →
  msum f (scopes (merge B false A)) = msum f (scopes A) + msum f (scopes B).
Proof.
  intros Hf. unfold merge.
  rewrite (foldl_add_measure f (λ d, msum f (scopes d))).
  - now rewrite sum_unordered_iter.
  - intros d kv. unfold merge_one.
    destruct (scopes d !! kv.1) as [ex|] eqn:Hex; simpl.
    + pose proof (msum_insert f (scopes d) kv.1 (merge_scope false kv.2 ex)) as Hins.
      rewrite Hex, Hf in Hins. simpl in Hins. lia.
    + rewrite msum_insert_None by assumption. lia.
Qed.

Lemma merge_keeps (P : ExclusionScope → Prop) (A B : ExclusionData) (n : string) :
  (∀ sc ex, P ex → P (merge_scope false sc ex)) →
  (∃ s, scopes A !! n = Some s ∧ P s) →
  ∃ s', scopes (merge B false A) !! n = Some s' ∧ P s'.
Proof.
  intros HP. unfold merge.
  apply (foldl_preserve (λ d, ∃ s, scopes d !! n = Some s ∧ P s)).
  intros d kv (s & Hs & HPs). unfold merge_one.
  destruct (decide (kv.1 = n)) as [->|Hne].
  - rewrite Hs. simpl. rewrite lookup_insert_eq. eauto.
  - destruct (scopes d !! kv.1); simpl; rewrite lookup_insert_ne by assumption;
      eauto.
Qed.

End MergeLemmas.

(** C5.  After [A.merge(B, false)] every Block and every Condition record
    of A, in particular one whose id collides with a record of B in the
    same scope, is still in A as it was; and the count of toggle records
    and the count of FSM records of A have each grown by the count of B. *)
Theorem merge_monotone `{Platform} (A B : ExclusionData) :
  let A' := merge B false A in
  (∀ n s id b,
     scopes A !! n = Some s → blockExclusions s !! id = Some b →
     ∃ s', scopes A' !! n = Some s' ∧ blockExclusions s' !! id = Some b) ∧
  (∀ n s id c,
     scopes A !! n = Some s → conditionExclusions s !! id = Some c →
     ∃ s', scopes A' !! n = Some s' ∧ conditionExclusions s' !! id = Some c) ∧
  toggleCount A' = toggleCount A + toggleCount B ∧
  fsmCount A' = fsmCount A + fsmCount B.
Proof.
  intros A'. subst A'. repeat split.
  - intros n s id b Hs Hb.
    apply (merge_keeps (λ s, blockExclusions s !! id = Some b)); [|eauto].
    intros sc ex. apply merge_scope_keeps_block.
  - intros n s id c Hs Hc.
    apply (merge_keeps (λ s, conditionExclusions s !! id = Some c)); [|eauto].
    intros sc ex. apply merge_scope_keeps_condition.
  - unfold toggleCount. rewrite !getExclusionCountsByType_spec. simpl.
    apply (merge_adds (λ s, records (toggleExclusions s))).
    intros sc ex. apply merge_scope_toggle_records.
  - unfold fsmCount. rewrite !getExclusionCountsByType_spec. simpl.
    apply (merge_adds (λ s, records (fsmExclusions s))).
    intros sc ex. apply merge_scope_fsm_records.
Qed.

(* ===================================================================== *)
(** * Lemmas on trimming, words and quoted strings                        *)
(* ===================================================================== *)

Section ScanLemmas.

Local Arguments String.append !_ _ / : simpl nomatch.

Lemma find_first_not_of_skip (ws s set : string) :
  all_chars (λ c, mem_char c set) ws = true →
  find_first_not_of (ws +:+ s) set =
    match find_first_not_of s set with
    | Some i => Some (String.length ws + i)
    | None => None
    end.
Proof.
  induction ws as [|x ws IH]; simpl.
  - intros _. now destruct (find_first_not_of s set).
  - intros [Hx Hws]%andb_true_iff. rewrite Hx, (IH Hws).
    now destruct (find_first_not_of s set).
Qed.

Lemma find_first_not_of_out (c : ascii) (s set : string) :
  mem_char c set = false → find_first_not_of (String c s) set = Some 0.
Proof. intros Hc. simpl. now rewrite Hc. Qed.

Lemma find_last_not_of_app (a b set : string) :
  find_last_not_of (a +:+ b) set =
    match find_last_not_of b set with
    | Some i => Some (String.length a + i)
    | None => find_last_not_of a set
    end.
Proof.
  induction a as [|x a IH]; simpl.
  - now destruct (find_last_not_of b set).
  - rewrite IH. now destruct (find_last_not_of b set).
Qed.

Lemma find_last_not_of_all (ws set : string) :
  all_chars (λ c, mem_char c set) ws = true → find_last_not_of ws set = None.
Proof.
  induction ws as [|x ws IH]; simpl; [reflexivity|].
  intros [Hx Hws]%andb_true_iff. now rewrite (IH Hws), Hx.
Qed.

Lemma find_last_not_of_back (s set : string) (d : ascii) :
  back s = Some d → mem_char d set = false →
  find_last_not_of s set = Some (String.length s - 1).
Proof.
  induction s as [|x s IH]; simpl; [discriminate|].
  destruct s as [|y s].
  - intros [= ->] Hd. simpl. now rewrite Hd.
  - intros Hb Hd. rewrite (IH Hb Hd). simpl. now rewrite Nat.sub_0_r.
Qed.

Lemma trimmed_inv (s : string) :
  trimmed s = true →
  ∃ c r d, s = String c r ∧ mem_char c trim_set = false
           ∧ back s = Some d ∧ mem_char d trim_set = false.
Proof.
  unfold trimmed. destruct s as [|c r]; [discriminate|].
  destruct (back (String c r)) as [d|] eqn:Hb; simpl.
  - intros [Hc Hd]%andb_true_iff. exists c, r, d.
    repeat split; try reflexivity; now apply negb_true_iff.
  - now rewrite andb_false_r.
Qed.

(** [trim] strips the white space around a trimmed core, and nothing
    else. *)
Lemma trim_core (ws1 core ws2 : string) :
  all_trim_chars ws1 = true → all_trim_chars ws2 = true →
  trimmed core = true →
  trim (ws1 +:+ core +:+ ws2) = core.
Proof.
  intros H1 H2 (c & r & d & -> & Hc & Hb & Hd)%trimmed_inv.
  unfold trim. rewrite (find_first_not_of_skip _ _ _ H1).
  change (String c r +:+ ws2) with (String c (r +:+ ws2)).
  rewrite (find_first_not_of_out _ _ _ Hc).
  rewrite find_last_not_of_app.
  change (String c (r +:+ ws2)) with (String c r +:+ ws2).
  rewrite find_last_not_of_app, (find_last_not_of_all _ _ H2).
  rewrite (find_last_not_of_back _ _ _ Hb Hd).
  unfold substr. rewrite drop_app_plus. simpl drop.
  replace (_ - _ + 1) with (String.length (String c r)) by (simpl; lia).
  apply (take_app_length (String c r) ws2).
Qed.

Lemma trim_trimmed (s : string) : trimmed s = true → trim s = s.
Proof.
  intros Hs. pose proof (trim_core "" s "" eq_refl eq_refl Hs) as Ht.
  simpl in Ht. now rewrite app_empty_r in Ht.
Qed.

Lemma trim_fixed_trim (s : string) : trim_fixed s = true → trim s = s.
Proof.
  unfold trim_fixed. intros [He|Ht]%orb_true_iff.
  - apply String.eqb_eq in He as ->. reflexivity.
  - now apply trim_trimmed.
Qed.

Lemma back_app_char (s : string) (c : ascii) :
  back (s +:+ String c "") = Some c.
Proof.
  induction s as [|x s IH]; simpl; [reflexivity|].
  rewrite IH. destruct (s +:+ String c "") eqn:E; [|reflexivity].
  destruct s; discriminate.
Qed.

Lemma back_app (a b : string) : b ≠ "" → back (a +:+ b) = back b.
Proof.
  intros Hb. induction a as [|x a IH]; simpl; [reflexivity|].
  rewrite IH. destruct (a +:+ b) eqn:E; [|reflexivity].
  destruct a; [simpl in E; congruence | discriminate].
Qed.

(** ** Words *)

Lemma skip_ws_word (c : ascii) (s : string) :
  isspace c = false → skip_ws (String c s) = String c s.
Proof. intros Hc. simpl. now rewrite Hc. Qed.

Lemma span_word_app (w r : string) :
  no_space w = true → span_word (w +:+ String " " r) = (w, String " " r).
Proof.
  induction w as [|x w IH]; simpl; [reflexivity|].
  intros [Hx Hw]%andb_true_iff. apply negb_true_iff in Hx.
  now rewrite Hx, (IH Hw).
Qed.

Lemma read_word_after_space (w r : string) :
  w ≠ "" → no_space w = true →
  read_word (String " " (w +:+ String " " r)) = (w, String " " r).
Proof.
  intros Hne Hw. unfold read_word. simpl.
  destruct w as [|x w]; [congruence|].
  pose proof Hw as [Hx _]%andb_true_iff. apply negb_true_iff in Hx.
  change (String x w +:+ String " " r) with (String x (w +:+ String " " r)).
  rewrite (skip_ws_word _ _ Hx).
  now apply (span_word_app (String x w)).
Qed.

(** ** Finding a word that is known to occur *)

Lemma index_str_app_bound (p a r : string) :
  ∃ i, index_str p (a +:+ p +:+ r) = Some i ∧ i ≤ String.length a.
Proof.
  induction a as [|x a (i & Hi & Hle)]; simpl.
  - exists 0. split; [|lia]. apply index_str_0, is_prefix_app.
  - destruct (is_prefix p (String x (a +:+ p +:+ r))).
    + exists 0. split; [reflexivity | lia].
    + rewrite Hi. exists (S i). split; [reflexivity | lia].
Qed.

Lemma pos_after_bound (a w r : string) :
  String.length w ≤ pos_after (a +:+ w +:+ r) w
  ∧ pos_after (a +:+ w +:+ r) w ≤ String.length a + String.length w.
Proof.
  unfold pos_after, find_str. simpl.
  destruct (index_str_app_bound w a r) as (i & -> & Hle). lia.
Qed.

(** ** Quoted strings *)

Lemma find_char_from (c : ascii) (pre rest : string) (pos : nat) :
  pos ≤ String.length pre →
  no_char c (drop pos pre) = true →
  find_char (pre +:+ String c rest) c pos = Some (String.length pre).
Proof.
  intros Hpos Hno. unfold find_char.
  rewrite (drop_app_le _ _ _ Hpos), index_char_app.
  rewrite (index_char_none _ _ Hno). simpl. rewrite Ascii.eqb_refl.
  rewrite length_drop. f_equal. lia.
Qed.

Lemma extractQuotedString_shape (line pre body post : string) (pos : nat) :
  line = pre +:+ String "034" (body +:+ String "034" post) →
  pos ≤ String.length pre →
  no_quote (drop pos pre) = true →
  no_quote body = true →
  extractQuotedString line pos
  = (body, String.length pre + String.length body + 2).
Proof.
  intros -> Hpos Hpre Hbody. unfold extractQuotedString.
  rewrite (find_char_from _ _ _ _ Hpos Hpre).
  change (pre +:+ String "034" (body +:+ String "034" post))
    with (pre +:+ String "034" "" +:+ (body +:+ String "034" post)).
  rewrite <- (app_assoc_str pre), <- app_assoc_str.
  rewrite (find_char_from "034" ((pre +:+ String "034" "") +:+ body) post
             (String.length pre + 1)).
  - rewrite !length_app_str. simpl String.length.
    unfold substr. rewrite app_assoc_str.
    replace (String.length pre + 1) with (String.length (pre +:+ String "034" ""))
      by (rewrite length_app_str; reflexivity).
    rewrite drop_app_length.
    replace (_ - _ - 1) with (String.length body)
      by (rewrite length_app_str; simpl; lia).
    rewrite take_app_length. f_equal. rewrite length_app_str. simpl. lia.
  - rewrite !length_app_str. simpl. lia.
  - replace (String.length pre + 1) with (String.length (pre +:+ String "034" ""))
      by (rewrite length_app_str; reflexivity).
    now rewrite drop_app_length.
Qed.

Lemma escapeString_no_quote (s : string) :
  no_quote s = true → escapeString s = s.
Proof.
  induction s as [|x s IH]; simpl; [reflexivity|].
  intros [Hx Hs]%andb_true_iff. apply negb_true_iff in Hx.
  now rewrite Hx, (IH Hs).
Qed.

End ScanLemmas.

(* ===================================================================== *)
(** * Reading back the lines the writer emits                             *)
(* ===================================================================== *)

Section LineShapes.

Local Arguments String.append !_ _ / : simpl nomatch.

Lemma no_char_app (c : ascii) (a b : string) :
  no_char c (a +:+ b) = no_char c a && no_char c b.
Proof. apply all_chars_app. Qed.

Lemma is_token_inv (k : string) :
  is_token k = true → k ≠ "" ∧ no_space k = true ∧ no_quote k = true.
Proof.
  unfold is_token. intros [[Hne Hsp]%andb_true_iff Hq]%andb_true_iff.
  repeat split; try assumption.
  intros ->. discriminate Hne.
Qed.

Lemma keyed_line_words (kw k body post : string) :
  is_token kw = true → is_token k = true →
  ∃ iss, read_word (keyed_line kw k body post) = (kw, iss)
         ∧ (read_word iss).1 = k.
Proof.
  intros (Hkw & Hkws & _)%is_token_inv (Hk & Hks & _)%is_token_inv.
  exists (String " " (k +:+ String " " (String "034" (body +:+ String "034" post)))).
  split.
  - unfold keyed_line, read_word. destruct kw as [|x kw]; [congruence|].
    pose proof Hkws as [Hx _]%andb_true_iff. apply negb_true_iff in Hx.
    change (String x kw +:+ ?r) with (String x (kw +:+ r)).
    rewrite (skip_ws_word _ _ Hx).
    now apply (span_word_app (String x kw)).
  - now rewrite read_word_after_space.
Qed.

Lemma keyed_line_first_quoted (kw k body post : string) :
  is_token kw = true → is_token k = true → no_quote body = true →
  extractQuotedString (keyed_line kw k body post)
                      (pos_after (keyed_line kw k body post) k)
  = (body, String.length kw + String.length k + String.length body + 4).
Proof.
  intros (Hkw & Hkws & Hkwq)%is_token_inv (Hk & Hks & Hkq)%is_token_inv Hb.
  set (pre := (kw +:+ String " " "") +:+ k +:+ String " " "").
  assert (Hline : keyed_line kw k body post
                  = pre +:+ String "034" (body +:+ String "034" post)).
  { unfold keyed_line, pre. rewrite !app_assoc_str. reflexivity. }
  assert (Hpre : no_quote pre = true).
  { unfold pre, no_quote. rewrite !no_char_app.
    fold no_quote. now rewrite Hkwq, Hkq. }
  assert (Hlen : String.length pre = String.length kw + String.length k + 2).
  { unfold pre. rewrite !length_app_str. simpl. lia. }
  rewrite (extractQuotedString_shape _ pre body post _ Hline).
  - f_equal. lia.
  - destruct (pos_after_bound (kw +:+ String " " "") k
                (String " " (String "034" (body +:+ String "034" post))))
      as [_ Hle].
    replace ((kw +:+ String " " "") +:+ k +:+ _)
      with (keyed_line kw k body post) in Hle
      by (unfold keyed_line; rewrite !app_assoc_str; reflexivity).
    rewrite length_app_str in Hle. simpl in Hle. lia.
  - now apply all_chars_drop.
  - assumption.
Qed.

(** The next quoted string, one space after position [length pre]. *)
Lemma next_quoted (line pre body post : string) (pos : nat) :
  line = pre +:+ String " " (String "034" (body +:+ String "034" post)) →
  pos = String.length pre →
  no_quote body = true →
  extractQuotedString line pos
  = (body, String.length pre + String.length body + 3).
Proof.
  intros -> -> Hb.
  rewrite (extractQuotedString_shape _ (pre +:+ String " " "") body post).
  - rewrite length_app_str. simpl. f_equal. lia.
  - now rewrite app_assoc_str.
  - rewrite length_app_str. lia.
  - now rewrite drop_app_length.
  - assumption.
Qed.

End LineShapes.

Section RecordsOfLines.

Local Arguments String.append !_ _ / : simpl nomatch.

(** Appends nested to the right, literal characters in front. *)
Ltac norm_app := repeat first [rewrite app_assoc_str | progress simpl].
Ltac norm_len := repeat first [rewrite length_app_str | progress simpl].

Lemma blockLine_shape (k : string) (b : BlockExclusion) :
  no_quote (sourceCode b) = true →
  blockLine k b
  = keyed_line "Block" k (block_checksum b)
      (String " " (String "034" (sourceCode b +:+ String "034" ""))).
Proof.
  intros Hs. unfold blockLine. now rewrite (escapeString_no_quote _ Hs).
Qed.

(** A Block line of the writer is read back as the record it was written
    from. *)
Lemma blockOfLine_blockLine (k annot : string) (b : BlockExclusion) :
  is_token k = true →
  no_quote (block_checksum b) = true →
  no_quote (sourceCode b) = true →
  blockOfLine (blockLine k b) annot
  = mkBlock k (block_checksum b) (sourceCode b) annot.
Proof.
  intros Hk Hcs Hsrc. rewrite (blockLine_shape _ _ Hsrc). unfold blockOfLine.
  destruct (keyed_line_words "Block" k (block_checksum b)
              (String " " (String "034" (sourceCode b +:+ String "034" "")))
              eq_refl Hk) as (iss & -> & Hword).
  destruct (read_word iss) as [w r]. simpl in Hword. subst w.
  rewrite (keyed_line_first_quoted "Block" _ _ _ eq_refl Hk Hcs).
  rewrite (next_quoted _
             ("Block" +:+ String " " (k +:+ String " " (String "034"
                (block_checksum b +:+ String "034" ""))))
             (sourceCode b) "").
  - reflexivity.
  - unfold keyed_line. norm_app. reflexivity.
  - norm_len. lia.
  - assumption.
Qed.

Lemma fsmOfLine_fsmLine (annot : string) (f : FsmExclusion) :
  isTransition f = false →
  is_token (fsmName f) = true →
  no_quote (fsm_checksum f) = true →
  fsmOfLine (fsmLine f) annot
  = FsmExclusion_state (fsmName f) (fsm_checksum f) annot.
Proof.
  intros Htr Hk Hcs. unfold fsmLine. rewrite Htr.
  change ("Fsm " +:+ fsmName f +:+ " " +:+ QUOTE +:+ fsm_checksum f +:+ QUOTE)
    with (keyed_line "Fsm" (fsmName f) (fsm_checksum f) "").
  unfold fsmOfLine.
  destruct (keyed_line_words "Fsm" (fsmName f) (fsm_checksum f) "" eq_refl Hk)
    as (iss & -> & Hword).
  destruct (read_word iss) as [w r]. simpl in Hword. subst w.
  now rewrite (keyed_line_first_quoted "Fsm" _ _ _ eq_refl Hk Hcs).
Qed.

Lemma rfind_char_none (c : ascii) (s : string) :
  no_char c s = true → rfind_char s c = None.
Proof.
  induction s as [|x s IH]; simpl; [reflexivity|].
  intros [Hx Hs]%andb_true_iff. apply negb_true_iff in Hx.
  now rewrite (IH Hs), Hx.
Qed.

Lemma rfind_char_last (c : ascii) (a b : string) :
  no_char c b = true → rfind_char (a +:+ String c b) c = Some (String.length a).
Proof.
  intros Hb. induction a as [|x a IH]; simpl.
  - now rewrite (rfind_char_none _ _ Hb), Ascii.eqb_refl.
  - now rewrite IH.
Qed.

Lemma conditionLine_shape (k : string) (c : ConditionExclusion) :
  no_quote (expression c) = true →
  conditionLine k c
  = keyed_line "Condition" k (cond_checksum c)
      (String " " (String "034" (cond_quoted c +:+ String "034" (cond_trailer c)))).
Proof.
  intros He. unfold conditionLine, cond_quoted, cond_trailer, keyed_line.
  rewrite (escapeString_no_quote _ He).
  destruct (parameters c), (coverage c); norm_app; rewrite ?app_empty_r;
    reflexivity.
Qed.

(** The quoted text of a Condition line splits back into the expression
    and the parameters. *)
Lemma cond_quoted_split (c : ConditionExclusion) :
  no_char " " (parameters c) = true →
  (parameters c = "" → no_char " " (expression c) = true) →
  match rfind_char (cond_quoted c) " " with
  | Some lastSpace =>
      (substr (cond_quoted c) 0 lastSpace,
       substr_from (cond_quoted c) (lastSpace + 1))
  | None => (cond_quoted c, "")
  end = (expression c, parameters c).
Proof.
  intros Hps He. unfold cond_quoted.
  destruct (parameters c) as [|x ps] eqn:Hp.
  - rewrite app_empty_r, (rfind_char_none _ _ (He eq_refl)). reflexivity.
  - rewrite (rfind_char_last _ _ _ Hps).
    unfold substr, substr_from. simpl drop at 1.
    rewrite take_app_length, drop_app_plus. reflexivity.
Qed.

(** The parenthesized trailer is read back as the coverage. *)
Lemma cond_trailer_coverage (c : ConditionExclusion) :
  (let remaining := trim (cond_trailer c) in
   if is_char (front remaining) "(" && is_char (back remaining) ")"
   then if 2 <=? String.length remaining
        then substr remaining 1 (String.length remaining - 2)
        else substr_from remaining 1
   else "") = coverage c.
Proof.
  unfold cond_trailer. destruct (coverage c) as [|x cov]; [reflexivity|].
  set (core := String "(" (String x cov +:+ String ")" "")).
  assert (Hback : back core = Some ")"%char)
    by apply (back_app_char (String "(" (String x cov))).
  assert (Htrim : trim (String " " core) = core).
  { assert (Hcore : trimmed core = true)
      by (unfold trimmed; now rewrite Hback).
    pose proof (trim_core (String " " "") core "" eq_refl eq_refl Hcore) as Ht.
    now rewrite app_empty_r in Ht. }
  cbv zeta. rewrite Htrim, Hback. unfold core at 1. simpl front.
  simpl is_char. cbv iota.
  replace (2 <=? String.length core) with true
    by (unfold core; simpl; reflexivity).
  unfold substr, core. simpl drop. simpl String.length.
  rewrite length_app_str. simpl String.length.
  replace (_ - 2) with (String.length (String x cov)) by (simpl; lia).
  simpl andb. cbv iota.
  apply (take_app_length (String x cov) (String ")" "")).
Qed.

(** A Condition line of the writer is read back as the record it was
    written from. *)
Lemma conditionOfLine_conditionLine (k annot : string) (c : ConditionExclusion) :
  is_token k = true →
  no_quote (cond_checksum c) = true →
  no_quote (expression c) = true →
  no_quote (parameters c) = true →
  no_char " " (parameters c) = true →
  (parameters c = "" → no_char " " (expression c) = true) →
  conditionOfLine (conditionLine k c) annot
  = mkCondition k (cond_checksum c) (expression c) (parameters c)
                (coverage c) annot.
Proof.
  intros Hk Hcs He Hpq Hps Hes. rewrite (conditionLine_shape _ _ He).
  unfold conditionOfLine.
  destruct (keyed_line_words "Condition" k (cond_checksum c)
              (String " " (String "034"
                 (cond_quoted c +:+ String "034" (cond_trailer c))))
              eq_refl Hk) as (iss & -> & Hword).
  destruct (read_word iss) as [w r]. simpl in Hword. subst w.
  rewrite (keyed_line_first_quoted "Condition" _ _ _ eq_refl Hk Hcs).
  assert (Hq : no_quote (cond_quoted c) = true).
  { unfold cond_quoted, no_quote. rewrite no_char_app. fold no_quote.
    rewrite He. destruct (parameters c); [reflexivity | exact Hpq]. }
  set (pre := "Condition" +:+ String " " (k +:+ String " " (String "034"
                (cond_checksum c +:+ String "034" "")))).
  assert (Hline : keyed_line "Condition" k (cond_checksum c)
            (String " " (String "034"
               (cond_quoted c +:+ String "034" (cond_trailer c))))
          = pre +:+ String " " (String "034"
               (cond_quoted c +:+ String "034" (cond_trailer c)))).
  { unfold keyed_line, pre. norm_app. reflexivity. }
  rewrite (next_quoted _ pre (cond_quoted c) (cond_trailer c) _ Hline);
    [| unfold pre; norm_len; lia | assumption].
  rewrite (cond_quoted_split c Hps Hes).
  assert (Hdrop : substr_from
            (keyed_line "Condition" k (cond_checksum c)
               (String " " (String "034"
                  (cond_quoted c +:+ String "034" (cond_trailer c)))))
            (String.length pre + String.length (cond_quoted c) + 3)
          = cond_trailer c).
  { rewrite Hline. unfold substr_from.
    replace (pre +:+ String " " (String "034"
               (cond_quoted c +:+ String "034" (cond_trailer c))))
      with ((pre +:+ String " " (String "034" (cond_quoted c +:+ String "034" "")))
            +:+ cond_trailer c)
      by (norm_app; reflexivity).
    replace (String.length pre + String.length (cond_quoted c) + 3)
      with (String.length (pre +:+ String " " (String "034"
                                 (cond_quoted c +:+ String "034" ""))))
      by (norm_len; lia).
    apply drop_app_length. }
  rewrite Hdrop.
  pose proof (cond_trailer_coverage c) as Hcov. cbv zeta in Hcov.
  rewrite Hcov. reflexivity.
Qed.

(** ** Decimal numbers have only digits *)

Lemma pretty_N_go_chars (P : ascii → bool) (x : N) (s : string) :
  (∀ d, P (pretty_N_char d) = true) → all_chars P s = true →
  all_chars P (pretty_N_go x s) = true.
Proof.
  intros HP. revert s. induction (N.lt_wf_0 x) as [x _ IH]; intros s Hs.
  destruct (decide (x = 0)%N) as [->|Hx].
  - now rewrite pretty_N_go_0.
  - rewrite pretty_N_go_step by lia. apply IH.
    + apply N.div_lt; lia.
    + simpl. now rewrite HP, Hs.
Qed.

Lemma pretty_N_chars (P : ascii → bool) (x : N) :
  (∀ d, P (pretty_N_char d) = true) → all_chars P (pretty x) = true.
Proof.
  intros HP. unfold pretty, pretty_N. destruct (decide (x = 0)%N).
  - simpl. now rewrite (HP 0%N : P "0"%char = true).
  - now apply pretty_N_go_chars.
Qed.

Lemma pretty_Z_chars (P : ascii → bool) (z : Z) :
  P "-"%char = true → (∀ d, P (pretty_N_char d) = true) →
  all_chars P (pretty z) = true.
Proof.
  intros Hm HP. destruct z as [|x|x]; unfold pretty, pretty_Z.
  - simpl. now rewrite (HP 0%N : P "0"%char = true).
  - now apply (pretty_N_chars P (N.pos x)).
  - change ("-" +:+ pretty x) with (String "-" (pretty (N.pos x))).
    simpl. now rewrite Hm, (pretty_N_chars P (N.pos x)).
Qed.

Lemma digit_char_cases (P : ascii → bool) :
  P "0"%char = true → P "1"%char = true → P "2"%char = true →
  P "3"%char = true → P "4"%char = true → P "5"%char = true →
  P "6"%char = true → P "7"%char = true → P "8"%char = true →
  P "9"%char = true → ∀ d, P (pretty_N_char d) = true.
Proof.
  intros. unfold pretty_N_char. repeat case_match; assumption.
Qed.

Lemma to_string_int_no_quote (z : Z) : no_quote (to_string_int z) = true.
Proof.
  apply pretty_Z_chars; [reflexivity|].
  apply (digit_char_cases (λ d, negb (Ascii.eqb d "034"))); reflexivity.
Qed.

(** ** Toggle lines *)

Lemma toggleLine_shape (t : ToggleExclusion) :
  no_quote (netDescription t) = true →
  toggleLine t = "Toggle " +:+ toggle_dirpart t +:+ signalName t +:+ toggle_rest t.
Proof.
  intros Hd. unfold toggleLine, toggle_dirpart, toggle_rest, toggle_bitpart.
  rewrite (escapeString_no_quote _ Hd).
  destruct (direction t), (bitIndex t); norm_app; reflexivity.
Qed.

Lemma toggle_bitpart_no_quote (t : ToggleExclusion) :
  no_quote (toggle_bitpart t) = true.
Proof.
  unfold toggle_bitpart. destruct (bitIndex t) as [i|]; [|reflexivity].
  change ("[" +:+ to_string_int i +:+ "] ")
    with (String "[" (to_string_int i +:+ "] ")).
  pose proof (to_string_int_no_quote i) as Hi.
  unfold no_quote, no_char in *. simpl. now rewrite all_chars_app, Hi.
Qed.

Lemma toggleSignal_shape (sig bp desc : string) :
  no_char " " sig = true → no_char "[" sig = true →
  no_quote bp = true → no_quote desc = true →
  toggleSignal (sig +:+ String " " (bp +:+ String "034" (desc +:+ String "034" "")))
  = (sig, None, desc).
Proof.
  intros Hsp Hbr Hbp Hdesc.
  set (tail := bp +:+ String "034" (desc +:+ String "034" "")).
  assert (Hspace : find_char (sig +:+ String " " tail) " " 0
                   = Some (String.length sig)).
  { apply find_char_from; [lia | exact Hsp]. }
  assert (Hquoted : extractQuotedString (String " " tail) 0
                    = (desc, String.length (String " " bp) + String.length desc + 2)).
  { apply (extractQuotedString_shape _ (String " " bp) desc "");
      [reflexivity | lia | exact Hbp | exact Hdesc]. }
  assert (Hname : substr (sig +:+ String " " tail) 0 (String.length sig) = sig)
    by apply take_app_length.
  assert (Hrest : substr_from (sig +:+ String " " tail) (String.length sig)
                  = String " " tail)
    by apply drop_app_length.
  assert (Hbracket :
            find_char (sig +:+ String " " tail) "[" 0 = None
            ∨ ∃ j, find_char (sig +:+ String " " tail) "[" 0
                   = Some (String.length sig + S j)).
  { unfold find_char. simpl drop.
    rewrite index_char_app, (index_char_none _ _ Hbr). simpl index_char.
    destruct (index_char "[" tail) as [j|]; [right; now exists j | now left]. }
  unfold toggleSignal. rewrite Hspace.
  destruct Hbracket as [-> | [j ->]]; simpl npos_min; simpl npos_ltb;
    cbv beta iota.
  - now rewrite Hname, Hrest, Hquoted.
  - rewrite Nat.min_l by lia.
    replace (_ <? _) with false by (symmetry; apply Nat.ltb_ge; lia).
    now rewrite Hname, Hrest, Hquoted.
Qed.

Lemma front_app (a b : string) : a ≠ "" → front (a +:+ b) = front a.
Proof. destruct a; [congruence | reflexivity]. Qed.

Local Opaque Ascii.eqb.

Lemma is_prefix_word (w sig r : string) :
  no_char " " w = true → no_char " " sig = true →
  is_prefix (w +:+ String " " "") (sig +:+ String " " r) = true → sig = w.
Proof.
  revert sig. induction w as [|x w IH]; intros sig Hw Hsig; simpl.
  - destruct sig as [|y sig]; [reflexivity|]. simpl.
    apply andb_true_iff in Hsig as [Hy _]. apply negb_true_iff in Hy.
    rewrite Ascii.eqb_sym, Hy. discriminate.
  - apply andb_true_iff in Hw as [Hx Hw]. apply negb_true_iff in Hx.
    destruct sig as [|y sig]; simpl.
    + rewrite Hx. discriminate.
    + apply andb_true_iff in Hsig as [_ Hsig].
      intros [Hxy Hp]%andb_true_iff. apply Ascii.eqb_eq in Hxy as ->.
      f_equal. now apply IH.
Qed.

Local Transparent Ascii.eqb.

Lemma wf_signal_inv (t : ToggleExclusion) :
  wf_signal t = true →
  signalName t ≠ "" ∧ not_trim_char (front (signalName t)) = true
  ∧ no_char " " (signalName t) = true ∧ no_char "[" (signalName t) = true
  ∧ no_quote (signalName t) = true
  ∧ (direction t = BOTH → signalName t ≠ "0to1" ∧ signalName t ≠ "1to0").
Proof.
  unfold wf_signal.
  intros [[[[Hf Hsp]%andb_true_iff Hbr]%andb_true_iff Hq]%andb_true_iff Hd]%andb_true_iff.
  repeat split; try assumption.
  - intros E. rewrite E in Hf. discriminate Hf.
  - rewrite H in Hd. apply andb_true_iff in Hd as [Hd _].
    intros E. rewrite E in Hd. discriminate Hd.
  - rewrite H in Hd. apply andb_true_iff in Hd as [_ Hd].
    intros E. rewrite E in Hd. discriminate Hd.
Qed.

(** A Toggle line of the writer is read back as the record it was written
    from, except for the bit index: the writer puts a space before the
    bracket, and the parser stops the signal name at that space. *)
Lemma toggleOfLine_toggleLine (annot : string) (t : ToggleExclusion) :
  wf_signal t = true →
  no_quote (netDescription t) = true →
  toggleOfLine (toggleLine t) annot
  = mkToggle (direction t) (signalName t) None (netDescription t) annot.
Proof.
  intros (Hne & Hfront & Hsp & Hbr & Hq & Hdir)%wf_signal_inv Hdesc.
  rewrite (toggleLine_shape _ Hdesc). unfold toggleOfLine.
  set (R := signalName t +:+ toggle_rest t).
  assert (Hback : back (toggle_dirpart t +:+ R) = Some "034"%char).
  { replace (toggle_dirpart t +:+ R)
      with ((toggle_dirpart t +:+ signalName t +:+ String " "
               (toggle_bitpart t +:+ String "034" (netDescription t)))
            +:+ String "034" "")
      by (unfold R, toggle_rest; norm_app; reflexivity).
    apply back_app_char. }
  assert (Htrim : trim (substr_from ("Toggle " +:+ toggle_dirpart t +:+ R) 7)
                  = toggle_dirpart t +:+ R).
  { change (substr_from ("Toggle " +:+ toggle_dirpart t +:+ R) 7)
      with (toggle_dirpart t +:+ R).
    apply trim_trimmed. unfold trimmed. rewrite Hback.
    unfold toggle_dirpart. destruct (direction t); try reflexivity.
    simpl. unfold R. rewrite (front_app _ _ Hne), Hfront. reflexivity. }
  rewrite Htrim.
  assert (Hsig : toggleSignal R = (signalName t, None, netDescription t)).
  { apply toggleSignal_shape; try assumption. apply toggle_bitpart_no_quote. }
  rewrite !find_is_0_prefix.
  unfold toggle_dirpart in *. destruct (direction t) eqn:Hd.
  - change (is_prefix "0to1 " ("0to1 " +:+ R)) with true. cbv iota.
    change (substr_from ("0to1 " +:+ R) 5) with R. now rewrite Hsig.
  - change (is_prefix "0to1 " ("1to0 " +:+ R)) with false.
    change (is_prefix "1to0 " ("1to0 " +:+ R)) with true. cbv iota.
    change (substr_from ("1to0 " +:+ R) 5) with R. now rewrite Hsig.
  - change ("" +:+ R) with R.
    destruct (Hdir eq_refl) as [H01 H10].
    destruct (is_prefix "0to1 " R) eqn:E1.
    { apply (is_prefix_word "0to1") in E1; [congruence | reflexivity | assumption]. }
    destruct (is_prefix "1to0 " R) eqn:E2.
    { apply (is_prefix_word "1to0") in E2; [congruence | reflexivity | assumption]. }
    now rewrite Hsig.
Qed.

(** ** Transition lines *)

Local Opaque Ascii.eqb.

Lemma index_str_arrow (from r : string) :
  index_str "->" from = None →
  index_str "->" (from +:+ String "-" (String ">" r)) = Some (String.length from).
Proof.
  induction from as [|x f IH]; [reflexivity|].
  intros Hfrom. simpl in Hfrom.
  destruct (Ascii.eqb "-" x && match f with
                               | "" => false
                               | String b s' => Ascii.eqb ">" b && true
                               end) eqn:Hp; [discriminate|].
  destruct (index_str "->" f) eqn:Hf; [discriminate|].
  change (String x f +:+ ?t) with (String x (f +:+ t)).
  cbn [index_str is_prefix].
  replace (Ascii.eqb "-" x
           && match f +:+ String "-" (String ">" r) with
              | "" => false
              | String b s' => Ascii.eqb ">" b && true
              end) with false.
  - now rewrite IH.
  - destruct (Ascii.eqb "-" x); [|reflexivity].
    destruct f as [|y f']; [reflexivity|]. simpl in *. now rewrite Hp.
Qed.

Local Transparent Ascii.eqb.

(** A Transition line of the writer is read back as the record it was
    written from. *)
Lemma transitionOfLine_fsmLine (f : FsmExclusion) :
  isTransition f = true →
  index_str "->" (fromState f) = None →
  trim_fixed (fromState f) = true →
  no_char " " (toState f) = true →
  trim_fixed (toState f) = true →
  no_quote (transitionId f) = true →
  transitionOfLine (fsmLine f)
  = Some (FsmExclusion_transition "transition" (fromState f) (toState f)
            (transitionId f)).
Proof.
  intros Htr Harrow Hfrom Hsp Hto Hid. unfold fsmLine. rewrite Htr.
  unfold transitionOfLine.
  set (quoted := String "034" (transitionId f +:+ String "034" "")).
  set (remaining := fromState f +:+ String "-" (String ">"
                      (toState f +:+ String " " quoted))).
  change (substr_from ("Transition " +:+ fromState f +:+ "->" +:+ toState f
                       +:+ " " +:+ QUOTE +:+ transitionId f +:+ QUOTE) 11)
    with remaining.
  assert (Hfind : find_str remaining "->" 0 = Some (String.length (fromState f))).
  { unfold find_str. simpl. unfold remaining.
    now rewrite (index_str_arrow _ _ Harrow). }
  rewrite Hfind.
  assert (Hspace : find_char remaining " " (String.length (fromState f))
                   = Some (String.length (fromState f) + 2
                           + String.length (toState f))).
  { replace remaining
      with ((fromState f +:+ String "-" (String ">" (toState f)))
            +:+ String " " quoted)
      by (unfold remaining; norm_app; reflexivity).
    rewrite find_char_from.
    - f_equal. norm_len. lia.
    - norm_len. lia.
    - rewrite drop_app_length. exact Hsp. }
  rewrite Hspace.
  assert (Hf : substr remaining 0 (String.length (fromState f)) = fromState f)
    by apply take_app_length.
  assert (Ht : substr remaining (String.length (fromState f) + 2)
                 (String.length (fromState f) + 2 + String.length (toState f)
                  - String.length (fromState f) - 2)
               = toState f).
  { unfold substr, remaining. rewrite drop_app_plus. simpl drop.
    replace (_ - _ - 2) with (String.length (toState f)) by lia.
    apply take_app_length. }
  rewrite Hf, Ht, (trim_fixed_trim _ Hfrom), (trim_fixed_trim _ Hto).
  rewrite (extractQuotedString_shape remaining
             (fromState f +:+ String "-" (String ">" (toState f +:+ String " " "")))
             (transitionId f) "").
  - reflexivity.
  - unfold remaining, quoted. norm_app. reflexivity.
  - norm_len. lia.
  - replace (fromState f +:+ String "-" (String ">" (toState f +:+ String " " "")))
      with ((fromState f +:+ String "-" (String ">" (toState f))) +:+ String " " "")
      by (norm_app; reflexivity).
    replace (String.length (fromState f) + 2 + String.length (toState f))
      with (String.length (fromState f +:+ String "-" (String ">" (toState f))))
      by (norm_len; lia).
    now rewrite drop_app_length.
  - assumption.
Qed.

End RecordsOfLines.

(* ===================================================================== *)
(** * One line through the loop of [parseStream]                          *)
(* ===================================================================== *)

Section LineSteps.

Local Arguments String.append !_ _ / : simpl nomatch.

(** The tests of the other keywords fail on a line [Ht : line = kw +:+ t]. *)
Ltac kill_prefix Ht :=
  repeat match goal with
         | |- context [is_prefix ?kw ?l] =>
             let H := fresh in
             assert (H : is_prefix kw l = false) by (rewrite Ht; reflexivity);
             rewrite H; clear H
         end.

Lemma parseLine_classified (raw : string) (p p' : Parser) (r r' : ParseResult) :
  trim raw ≠ "" → isComment (trim raw) = false →
  classify (trim raw) (incr_lineNumber p) (incr_linesProcessed r) = (true, p', r') →
  parseLine raw p r = Continue p' r'.
Proof.
  intros Hne Hcomment Hclass. unfold parseLine. rewrite Hcomment, Hclass.
  destruct (trim raw); [congruence | reflexivity].
Qed.

Lemma parseLine_comment (raw : string) (p : Parser) (r : ParseResult) :
  is_prefix "//" (trim raw) = true →
  parseLine raw p r = Continue (incr_lineNumber p) (incr_linesProcessed r).
Proof.
  intros Hp. unfold parseLine, isComment. rewrite find_is_0_prefix, Hp.
  destruct (trim raw); reflexivity.
Qed.

(** What the chain does with a line, by the keyword the line starts with
    (and given that it is not taken for a header field). *)
Lemma classify_when_checksum (line : string) (p : Parser) (r : ParseResult) :
  is_prefix "CHECKSUM:" line = true → isHeaderLine line = false →
  classify line p r = (true, (parseChecksum line p).2, r).
Proof. apply classify_checksum. Qed.

Lemma classify_when_scope (line : string) (p : Parser) (r : ParseResult) :
  is_prefix "INSTANCE:" line || is_prefix "MODULE:" line = true →
  isHeaderLine line = false →
  classify line p r = (true, (parseScope line p).2, r).
Proof.
  intros Hp Hh. unfold classify. rewrite (parseHeader_not_header _ _ Hh).
  unfold parseChecksum, parseScope. rewrite !find_is_0_prefix.
  apply orb_true_iff in Hp as [Hp|Hp].
  - destruct (prefix_shape _ _ Hp) as [t ->]. reflexivity.
  - destruct (prefix_shape _ _ Hp) as [t ->]. reflexivity.
Qed.

Lemma classify_when_annotation (line : string) (p : Parser) (r : ParseResult) :
  is_prefix "ANNOTATION:" line = true → isHeaderLine line = false →
  classify line p r = (true, (parseAnnotation line p).2, r).
Proof.
  intros Hp Hh. unfold classify. rewrite (parseHeader_not_header _ _ Hh).
  unfold parseChecksum, parseScope, parseAnnotation. rewrite !find_is_0_prefix.
  destruct (prefix_shape _ _ Hp) as [t ->]. reflexivity.
Qed.

Lemma classify_when_block (line : string) (p : Parser) (r : ParseResult) :
  is_prefix "Block " line = true → isHeaderLine line = false →
  classify line p r
  = (true, add_to_current_scope
             (λ annot, addBlockExclusion (blockOfLine line annot)) p,
     count_exclusion BLOCK r).
Proof.
  intros Hp Hh. unfold classify. rewrite (parseHeader_not_header _ _ Hh).
  unfold parseChecksum, parseScope, parseAnnotation, parseBlockExclusion.
  rewrite !find_is_0_prefix, Hp.
  destruct (prefix_shape _ _ Hp) as [t Ht]. kill_prefix Ht. reflexivity.
Qed.

Lemma classify_when_toggle (line : string) (p : Parser) (r : ParseResult) :
  is_prefix "Toggle " line = true → isHeaderLine line = false →
  classify line p r
  = (true, add_to_current_scope
             (λ annot, addToggleExclusion (toggleOfLine line annot)) p,
     count_exclusion TOGGLE r).
Proof.
  intros Hp Hh. unfold classify. rewrite (parseHeader_not_header _ _ Hh).
  unfold parseChecksum, parseScope, parseAnnotation, parseBlockExclusion,
    parseToggleExclusion.
  rewrite !find_is_0_prefix, Hp.
  destruct (prefix_shape _ _ Hp) as [t Ht]. kill_prefix Ht. reflexivity.
Qed.

Lemma classify_when_fsm (line : string) (p : Parser) (r : ParseResult) :
  is_prefix "Fsm " line = true → isHeaderLine line = false →
  classify line p r
  = (true, add_to_current_scope
             (λ annot, addFsmExclusion (fsmOfLine line annot)) p,
     count_exclusion FSM r).
Proof.
  intros Hp Hh. unfold classify. rewrite (parseHeader_not_header _ _ Hh).
  unfold parseChecksum, parseScope, parseAnnotation, parseBlockExclusion,
    parseToggleExclusion, parseFsmExclusion.
  rewrite !find_is_0_prefix, Hp.
  destruct (prefix_shape _ _ Hp) as [t Ht]. kill_prefix Ht. reflexivity.
Qed.

Lemma classify_when_condition (line : string) (p : Parser) (r : ParseResult) :
  is_prefix "Condition " line = true → isHeaderLine line = false →
  classify line p r
  = (true, add_to_current_scope
             (λ annot, addConditionExclusion (conditionOfLine line annot)) p,
     count_exclusion CONDITION r).
Proof.
  intros Hp Hh. unfold classify. rewrite (parseHeader_not_header _ _ Hh).
  unfold parseChecksum, parseScope, parseAnnotation, parseBlockExclusion,
    parseToggleExclusion, parseFsmExclusion, parseConditionExclusion.
  rewrite !find_is_0_prefix, Hp.
  destruct (prefix_shape _ _ Hp) as [t Ht]. kill_prefix Ht. reflexivity.
Qed.

Lemma classify_when_transition (line : string) (p : Parser) (r : ParseResult)
    (fsm : string → FsmExclusion) :
  is_prefix "Transition " line = true → isHeaderLine line = false →
  transitionOfLine line = Some fsm →
  classify line p r
  = (true, add_to_current_scope (λ annot, addFsmExclusion (fsm annot)) p,
     count_exclusion FSM r).
Proof.
  intros Hp Hh Hfsm. unfold classify. rewrite (parseHeader_not_header _ _ Hh).
  unfold parseChecksum, parseScope, parseAnnotation, parseBlockExclusion,
    parseToggleExclusion, parseFsmExclusion, parseConditionExclusion,
    parseTransition.
  rewrite !find_is_0_prefix, Hp, Hfsm.
  destruct (prefix_shape _ _ Hp) as [t Ht]. kill_prefix Ht. reflexivity.
Qed.

End LineSteps.

(* ===================================================================== *)
(** * Annotations                                                         *)
(* ===================================================================== *)

Section Annotations.

Local Arguments String.append !_ _ / : simpl nomatch.

Lemma back_cons_app_char (c d : ascii) (a : string) :
  back (String c (a +:+ String d "")) = Some d.
Proof. exact (back_app_char (String c a) d). Qed.

Lemma strip_quotes_quoted (a : string) :
  strip_quotes (String "034" (a +:+ String "034" "")) = a.
Proof.
  unfold strip_quotes.
  rewrite back_cons_app_char. simpl front. simpl is_char.
  cbv iota. simpl String.length. rewrite length_app_str. simpl String.length.
  replace (2 <=? S (String.length a + 1)) with true
    by (symmetry; apply Nat.leb_le; lia).
  unfold substr. simpl drop.
  replace (S (String.length a + 1) - 2) with (String.length a) by lia.
  apply take_app_length.
Qed.

Lemma quoted_trimmed (a : string) :
  trimmed (String "034" (a +:+ String "034" "")) = true.
Proof.
  unfold trimmed. now rewrite back_cons_app_char.
Qed.

(** An [ANNOTATION:] line buffers its quoted text. *)
Lemma parseAnnotation_annotationLine (text : string) (p : Parser) :
  (parseAnnotation (annotationLine text) p).2 = set_pendingAnnotation text p.
Proof.
  unfold parseAnnotation. rewrite find_is_0_prefix.
  change (is_prefix "ANNOTATION:" (annotationLine text)) with true. cbv iota.
  unfold after_colon.
  change (find_char (annotationLine text) ":" 0) with (Some 10).
  cbv beta iota.
  change (10 + 1 <? String.length (annotationLine text)) with true. cbv iota.
  change (substr_from (annotationLine text) (10 + 1))
    with (String " " (String "034" (text +:+ String "034" ""))).
  pose proof (trim_core (String " " "") _ "" eq_refl eq_refl (quoted_trimmed text))
    as Ht.
  rewrite app_empty_r in Ht. simpl in Ht. rewrite Ht.
  now rewrite strip_quotes_quoted.
Qed.

Lemma annotationLine_trimmed (text : string) :
  trimmed (annotationLine text) = true.
Proof.
  unfold trimmed.
  replace (annotationLine text)
    with (("ANNOTATION: " +:+ QUOTE +:+ text) +:+ String "034" "")
    by (unfold annotationLine; rewrite !app_assoc_str; reflexivity).
  now rewrite back_app_char.
Qed.

Lemma parseLine_annotationLine (raw text : string) (p : Parser) (r : ParseResult) :
  trim raw = annotationLine text →
  isHeaderLine (annotationLine text) = false →
  parseLine raw p r
  = Continue (set_pendingAnnotation text (incr_lineNumber p))
             (incr_linesProcessed r).
Proof.
  intros Ht Hh. apply parseLine_classified; rewrite Ht.
  - discriminate.
  - unfold isComment. now rewrite !find_is_0_prefix.
  - rewrite classify_when_annotation by (assumption || reflexivity).
    now rewrite parseAnnotation_annotationLine.
Qed.

Lemma blockOfLine_annotation (line annot : string) :
  block_annotation (blockOfLine line annot) = annot
  ∧ blockId (blockOfLine line annot) = blockId (blockOfLine line "").
Proof.
  unfold blockOfLine. destruct (read_word line) as [kw iss].
  destruct (read_word iss) as [id rest].
  destruct (extractQuotedString line (pos_after line id)) as [cs pos1].
  destruct (extractQuotedString line pos1) as [src pos2]. now split.
Qed.

(** The state after an exclusion was added to the current scope. *)
Lemma add_to_current_scope_spec
    (add : string → ExclusionScope → ExclusionScope) (p : Parser) :
  currentScope_ p ≠ "" →
  let p' := add_to_current_scope add p in
  let s0 := default (ExclusionScope_new (currentScope_ p) (currentChecksum_ p)
                                        (currentIsModule_ p))
                    (scopes (data_ p) !! currentScope_ p) in
  data_ p' = set_scopes (<[currentScope_ p := add (pendingAnnotation_ p) s0]>)
                        (data_ p)
  ∧ pendingAnnotation_ p' = ""
  ∧ currentScope_ p' = currentScope_ p
  ∧ currentChecksum_ p' = currentChecksum_ p
  ∧ currentIsModule_ p' = currentIsModule_ p
  ∧ config_ p' = config_ p.
Proof.
  intros Hne. unfold add_to_current_scope.
  destruct (currentScope_ p) as [|c n] eqn:Hs; [congruence|].
  cbv zeta. repeat split; simpl; try assumption; try reflexivity.
  unfold update_scope, getOrCreateScope, set_scopes.
  destruct (scopes (data_ p) !! String c n) as [s|] eqn:Hl; simpl; f_equal.
  - apply map_eq. intros i. destruct (decide (String c n = i)) as [<-|Hi].
    + now rewrite lookup_alter_eq, lookup_insert_eq, Hl.
    + now rewrite lookup_alter_ne, lookup_insert_ne.
  - apply map_eq. intros i. destruct (decide (String c n = i)) as [<-|Hi].
    + now rewrite lookup_alter_eq, !lookup_insert_eq.
    + now rewrite lookup_alter_ne, !lookup_insert_ne.
Qed.

(** The text after the colon of a keyword line, as the classifiers take
    it. *)
Lemma after_colon_keyword (kw rest : string) :
  no_char ":" kw = true →
  after_colon (kw +:+ String ":" rest)
  = match rest with
    | EmptyString => None
    | _ => Some (trim rest)
    end.
Proof.
  intros Hkw. unfold after_colon.
  rewrite (find_char_from ":" kw rest 0) by (simpl drop; (lia || assumption)).
  rewrite length_app_str.
  destruct rest as [|c rest]; cbn [String.length].
  - assert ((String.length kw + 1 <? String.length kw + 1) = false) as ->
      by (apply Nat.ltb_ge; lia).
    reflexivity.
  - assert ((String.length kw + 1 <? String.length kw + S (S (String.length rest)))
            = true) as -> by (apply Nat.ltb_lt; lia).
    unfold substr_from. rewrite drop_app_plus. reflexivity.
Qed.

(** An [ANNOTATION:] line with its text in double quotes, after any white
    space, buffers the text. *)
Lemma parseAnnotation_quoted (ws text : string) (p : Parser) :
  all_trim_chars ws = true →
  (parseAnnotation ("ANNOTATION:" +:+ ws +:+ QUOTE +:+ text +:+ QUOTE) p).2
  = set_pendingAnnotation text p.
Proof.
  intros Hws. unfold parseAnnotation. rewrite find_is_0_prefix.
  change (is_prefix "ANNOTATION:"
            ("ANNOTATION:" +:+ ws +:+ QUOTE +:+ text +:+ QUOTE)) with true.
  cbv iota.
  change ("ANNOTATION:" +:+ ws +:+ QUOTE +:+ text +:+ QUOTE)
    with ("ANNOTATION" +:+ String ":" (ws +:+ QUOTE +:+ text +:+ QUOTE)).
  rewrite (after_colon_keyword "ANNOTATION" _ eq_refl).
  pose proof (trim_core ws _ "" Hws eq_refl (quoted_trimmed text)) as Ht.
  rewrite app_empty_r in Ht.
  change (String "034" (text +:+ String "034" ""))
    with (QUOTE +:+ text +:+ QUOTE) in Ht.
  destruct (ws +:+ QUOTE +:+ text +:+ QUOTE) as [|c t] eqn:Hrest.
  - exfalso. apply (f_equal String.length) in Hrest.
    rewrite !length_app_str in Hrest. unfold QUOTE in Hrest.
    cbn [String.length] in Hrest. lia.
  - cbn [snd]. rewrite Ht.
    change (QUOTE +:+ text +:+ QUOTE)
      with (String "034" (text +:+ String "034" "")).
    now rewrite strip_quotes_quoted.
Qed.

Lemma parseLine_annotation_quoted (raw ws text : string) (p : Parser)
    (r : ParseResult) :
  trim raw = "ANNOTATION:" +:+ ws +:+ QUOTE +:+ text +:+ QUOTE →
  all_trim_chars ws = true →
  isHeaderLine (trim raw) = false →
  parseLine raw p r
  = Continue (set_pendingAnnotation text (incr_lineNumber p))
             (incr_linesProcessed r).
Proof.
  intros Ht Hws Hh. apply parseLine_classified.
  - rewrite Ht. discriminate.
  - rewrite Ht. unfold isComment. now rewrite !find_is_0_prefix.
  - rewrite classify_when_annotation; [|now rewrite Ht | assumption].
    rewrite Ht. now rewrite parseAnnotation_quoted.
Qed.

End Annotations.

Lemma parseLine_block (raw : string) (p : Parser) (r : ParseResult) :
  is_prefix "Block " (trim raw) = true → isHeaderLine (trim raw) = false →
  parseLine raw p r
  = Continue (add_to_current_scope
                (λ annot, addBlockExclusion (blockOfLine (trim raw) annot))
                (incr_lineNumber p))
             (count_exclusion BLOCK (incr_linesProcessed r)).
Proof.
  intros Hp Hh.
  assert (Hk : exclusionLineKind (trim raw) = Some BLOCK)
    by (unfold exclusionLineKind; now rewrite Hp).
  destruct (exclusion_line_not_empty _ _ Hk) as [Hne Hc].
  apply parseLine_classified; try assumption.
  now apply classify_when_block.
Qed.

(** C7, as the claim states it, fails when a Block line has a header field
    name in it: the line is taken for a header line, the first Block has
    no record, and the annotation goes to the second Block. *)
Lemma annotation_goes_to_second_block :
  let p := (parseString "INSTANCE:top" Parser_new).1 in
  let p' := (parseLines [dq "ANNOTATION: `note`";
                         dq "Block 1 `11` `Date: x`";
                         dq "Block 2 `22` `b = 2;`"] p ParseResult_new).1 in
  lookup_block "top" "1" p' = None
  ∧ lookup_block "top" "2" p' = Some (mkBlock "2" "22" "b = 2;" "note")
  ∧ ¬ (∃ b1 b2, lookup_block "top" "1" p' = Some b1
                ∧ block_annotation b1 = "note"
                ∧ lookup_block "top" "2" p' = Some b2
                ∧ block_annotation b2 = "").
Proof.
  cbv zeta. split; [reflexivity|]. split; [reflexivity|].
  intros (b1 & b2 & H1 & _). vm_compute in H1. discriminate H1.
Qed.

(** C7, amended.  With a scope current, an [ANNOTATION:] line with its text
    in double quotes, followed by two Block lines with different
    identifiers, none of the three lines with a header field name in it,
    leaves two Block records in the scope: the first carries the quoted
    text of the annotation, the second has an empty annotation, and no
    annotation is pending afterwards. *)
Theorem annotation_attaches_to_first_block
    (p : Parser) (r : ParseResult) (l0 ws text l1 l2 : string) :
  currentScope_ p ≠ "" →
  trim l0 = "ANNOTATION:" +:+ ws +:+ QUOTE +:+ text +:+ QUOTE →
  all_trim_chars ws = true →
  isHeaderLine (trim l0) = false →
  is_prefix "Block " (trim l1) = true → isHeaderLine (trim l1) = false →
  is_prefix "Block " (trim l2) = true → isHeaderLine (trim l2) = false →
  blockId (blockOfLine (trim l1) "") ≠ blockId (blockOfLine (trim l2) "") →
  let p' := (parseLines [l0; l1; l2] p r).1 in
  let b1 := blockOfLine (trim l1) text in
  let b2 := blockOfLine (trim l2) "" in
  lookup_block (currentScope_ p) (blockId b1) p' = Some b1 ∧
  lookup_block (currentScope_ p) (blockId b2) p' = Some b2 ∧
  block_annotation b1 = text ∧ block_annotation b2 = "" ∧
  pendingAnnotation_ p' = "".
Proof.
  intros Hscope Ht0 Hws Hh0 Hp1 Hh1 Hp2 Hh2 Hids. cbv zeta.
  unfold parseLines.
  rewrite (parseLine_annotation_quoted _ _ _ _ _ Ht0 Hws Hh0).
  rewrite (parseLine_block l1 _ _ Hp1 Hh1), (parseLine_block l2 _ _ Hp2 Hh2).
  set (q1 := incr_lineNumber (set_pendingAnnotation text (incr_lineNumber p))).
  set (f1 := λ annot, addBlockExclusion (blockOfLine (trim l1) annot)).
  set (f2 := λ annot, addBlockExclusion (blockOfLine (trim l2) annot)).
  destruct (add_to_current_scope_spec f1 q1 Hscope)
    as (Hd1 & Ha1 & Hs1 & _ & _ & _).
  set (p1 := add_to_current_scope f1 q1) in *.
  assert (Hscope2 : currentScope_ (incr_lineNumber p1) ≠ "")
    by (simpl; now rewrite Hs1).
  destruct (add_to_current_scope_spec f2 (incr_lineNumber p1) Hscope2)
    as (Hd2 & Ha2 & Hs2 & _ & _ & _).
  set (p2 := add_to_current_scope f2 (incr_lineNumber p1)) in *.
  simpl in Hd1, Hd2, Ha2, Hs1, Hs2. rewrite Ha1, Hs1, Hd1 in Hd2.
  simpl in Hd2. rewrite lookup_insert_eq in Hd2. simpl in Hd2.
  destruct (blockOfLine_annotation (trim l1) text) as [Hann1 Hid1].
  destruct (blockOfLine_annotation (trim l2) "") as [Hann2 _].
  unfold lookup_block, lookup_scope. simpl. rewrite Hd2. simpl.
  rewrite !lookup_insert_eq. simpl.
  repeat split; try assumption.
  - rewrite lookup_insert_ne, lookup_insert_eq; [reflexivity|].
    rewrite Hid1. congruence.
  - apply lookup_insert_eq.
Qed.

Lemma annotation_attaches_to_first_block_witness :
  let p := (parseString "INSTANCE:top" Parser_new).1 in
  let p' := (parseLines [dq "ANNOTATION:   `note`";
                         dq "Block 1 `11` `a = 1;`";
                         dq "Block 2 `22` `b = 2;`"] p ParseResult_new).1 in
  lookup_block "top" "1" p' = Some (mkBlock "1" "11" "a = 1;" "note") ∧
  lookup_block "top" "2" p' = Some (mkBlock "2" "22" "b = 2;" "") ∧
  block_annotation (mkBlock "1" "11" "a = 1;" "note") = "note" ∧
  block_annotation (mkBlock "2" "22" "b = 2;" "") = "" ∧
  pendingAnnotation_ p' = "".
Proof.
  apply (annotation_attaches_to_first_block
           (parseString "INSTANCE:top" Parser_new).1 ParseResult_new
           (dq "ANNOTATION:   `note`") "   " "note"
           (dq "Block 1 `11` `a = 1;`") (dq "Block 2 `22` `b = 2;`"));
    try reflexivity; discriminate.
Defined.

(* ===================================================================== *)
(** * The writer, line by line                                            *)
(* ===================================================================== *)

Section WriterItems.
Context `{Platform}.
Variable cfg : WriterConfig.

Local Arguments String.append !_ _ / : simpl nomatch.

Lemma render_all_app (a b : list Item) :
  render_all cfg (a ++ b) = render_all cfg a +:+ render_all cfg b.
Proof.
  induction a as [|it a IH]; simpl; [reflexivity|].
  now rewrite IH, app_assoc_str.
Qed.

Lemma emit_nil (out : Stream) : emit cfg [] out = out.
Proof.
  destruct out as [text n]. unfold emit. simpl.
  now rewrite app_empty_r, Nat.add_0_r.
Qed.

Lemma emit_app (a b : list Item) (out : Stream) :
  emit cfg (a ++ b) out = emit cfg b (emit cfg a out).
Proof.
  unfold emit. simpl. rewrite render_all_app, length_app, app_assoc_str.
  f_equal. lia.
Qed.

Lemma writeLine_emit (it : Item) (out : Stream) :
  writeLine cfg (item_line it) out = emit cfg [it] out.
Proof.
  unfold writeLine, emit, render. simpl.
  rewrite app_empty_r. f_equal. lia.
Qed.

Lemma foldl_emit {X : Type} (step : Stream → X → Stream) (g : X → list Item)
    (l : list X) (out : Stream) :
  (∀ out x, step out x = emit cfg (g x) out) →
  foldl step out l = emit cfg (flat_map g l) out.
Proof.
  intros Hstep. revert out. induction l as [|x l IH]; intros out; simpl.
  - now rewrite emit_nil.
  - now rewrite IH, Hstep, emit_app.
Qed.

Lemma writeAnnotationIfAny_emit (a : string) (out : Stream) :
  writeAnnotationIfAny cfg a out = emit cfg (annotation_items cfg a) out.
Proof.
  unfold writeAnnotationIfAny, annotation_items, writeAnnotation.
  destruct (includeAnnotations cfg); simpl; [|now rewrite emit_nil].
  destruct a as [|c a]; simpl; [now rewrite emit_nil|].
  apply (writeLine_emit (IAnnotation (escapeString (String c a)))).
Qed.

Lemma writeBlockExclusions_emit (scope : ExclusionScope) (out : Stream) :
  writeBlockExclusions cfg scope out = emit cfg (block_items cfg scope) out.
Proof.
  unfold writeBlockExclusions, block_items. apply foldl_emit.
  intros o k. destruct (blockExclusions scope !! k) as [b|];
    [|now rewrite emit_nil].
  now rewrite emit_app, writeAnnotationIfAny_emit, (writeLine_emit (IBlock k b)).
Qed.

Lemma writeToggleExclusions_emit (scope : ExclusionScope) (out : Stream) :
  writeToggleExclusions cfg scope out = emit cfg (toggle_items cfg scope) out.
Proof.
  unfold writeToggleExclusions, toggle_items. apply foldl_emit.
  intros o k. apply foldl_emit. intros o' t.
  now rewrite emit_app, writeAnnotationIfAny_emit, (writeLine_emit (IToggle t)).
Qed.

Lemma writeFsmExclusions_emit (scope : ExclusionScope) (out : Stream) :
  writeFsmExclusions cfg scope out = emit cfg (fsm_items cfg scope) out.
Proof.
  unfold writeFsmExclusions, fsm_items. apply foldl_emit.
  intros o k. apply foldl_emit. intros o' f.
  now rewrite emit_app, writeAnnotationIfAny_emit, (writeLine_emit (IFsm f)).
Qed.

Lemma writeConditionExclusions_emit (scope : ExclusionScope) (out : Stream) :
  writeConditionExclusions cfg scope out
  = emit cfg (condition_items cfg scope) out.
Proof.
  unfold writeConditionExclusions, condition_items. apply foldl_emit.
  intros o k. destruct (conditionExclusions scope !! k) as [c|];
    [|now rewrite emit_nil].
  now rewrite emit_app, writeAnnotationIfAny_emit,
    (writeLine_emit (ICondition k c)).
Qed.

Lemma writeScope_emit (name : string) (scope : ExclusionScope) (out : Stream) :
  writeScope cfg name scope out = emit cfg (scope_items cfg name scope) out.
Proof.
  unfold writeScope, scope_items. rewrite !emit_app.
  rewrite writeConditionExclusions_emit, writeFsmExclusions_emit,
    writeToggleExclusions_emit, writeBlockExclusions_emit.
  do 4 f_equal.
  rewrite <- (writeLine_emit (IScope (isModule scope) name)).
  f_equal. unfold checksum_items, writeChecksum.
  destruct (scope_checksum scope) as [|c cs].
  - destruct (generateChecksums cfg); [|now rewrite emit_nil].
    apply (writeLine_emit (IChecksum (generateScopeChecksum scope))).
  - apply (writeLine_emit (IChecksum (String c cs))).
Qed.

Lemma writeHeader_emit (data : ExclusionData) (out : Stream) :
  writeHeader cfg data out = emit cfg (header_items data) out.
Proof.
  unfold writeHeader, header_items.
  repeat match goal with
         | |- context [emit cfg (?it :: ?its) ?o] =>
             lazymatch its with
             | [] => fail
             | _ => change (it :: its) with ([it] ++ its); rewrite emit_app
             end
         end.
  rewrite <- !writeLine_emit. simpl item_line.
  destruct (generatedBy data), (formatVersion data), (exclusionMode data);
    reflexivity.
Qed.

(** The text [writeToString] returns is the text of the lines of
    [data_items]. *)
Lemma writeToString_items (data : ExclusionData) :
  writeToString cfg data = render_all cfg (data_items cfg data).
Proof.
  unfold writeToString, writeToStream.
  set (out0 := if includeComments cfg then writeHeader cfg data ("", 0)
               else ("", 0)).
  set (step := λ '(out, scopesW, exclW, counts) scopeName,
         match scopes data !! scopeName with
         | Some scope =>
             (writeScope cfg scopeName scope out, S scopesW,
              exclW + Scope_getTotalExclusionCount scope,
              add_scope_counts scope counts)
         | None => (out, scopesW, exclW, counts)
         end).
  assert (Hfold : ∀ l st,
            (foldl step st l).1.1.1
            = foldl (λ out name, match scopes data !! name with
                                 | Some scope => writeScope cfg name scope out
                                 | None => out
                                 end) st.1.1.1 l).
  { induction l as [|n l IH]; intros [[[o a] b] c]; [reflexivity|].
    simpl foldl. rewrite IH. unfold step. now destruct (scopes data !! n). }
  specialize (Hfold (keyOrder cfg (scopes data)) (out0, 0, 0, mkCounts 0 0 0 0)).
  destruct (foldl step (out0, 0, 0, mkCounts 0 0 0 0) (keyOrder cfg (scopes data)))
    as [[[o a] b] c].
  simpl in Hfold. simpl. rewrite Hfold.
  rewrite (foldl_emit _ (λ name, match scopes data !! name with
                                 | Some scope => scope_items cfg name scope
                                 | None => []
                                 end)).
  - unfold data_items, out0. rewrite render_all_app.
    destruct (includeComments cfg); [|reflexivity].
    now rewrite writeHeader_emit.
  - intros o' n. destruct (scopes data !! n); [apply writeScope_emit|].
    now rewrite emit_nil.
Qed.

End WriterItems.

(* ===================================================================== *)
(** * Reading the written text back, line by line                         *)
(* ===================================================================== *)

Section ReadBack.

Local Arguments String.append !_ _ / : simpl nomatch.

Ltac norm_app := repeat first [rewrite app_assoc_str | progress simpl].

Lemma getlines_line (l rest : string) :
  one_line l = true →
  getlines (l +:+ String "010" rest) = l :: getlines rest.
Proof.
  induction l as [|c l IH]; simpl; [reflexivity|].
  intros [Hc Hl]%andb_true_iff. apply negb_true_iff in Hc.
  now rewrite Hc, (IH Hl).
Qed.

(** A line that ends with a given character. *)
Lemma trimmed_ends (c d : ascii) (body : string) :
  mem_char c trim_set = false → mem_char d trim_set = false →
  trimmed (String c (body +:+ String d "")) = true.
Proof.
  intros Hc Hd. unfold trimmed. rewrite back_cons_app_char.
  unfold front, not_trim_char. now rewrite Hc, Hd.
Qed.

Lemma line_ok_inv (l : string) :
  line_ok l = true → one_line l = true ∧ isHeaderLine l = false.
Proof.
  unfold line_ok. intros [Ho Hh]%andb_true_iff.
  now apply negb_true_iff in Hh.
Qed.

Lemma checksumLine_trimmed (cs : string) : trimmed (checksumLine cs) = true.
Proof.
  replace (checksumLine cs)
    with (String "C" (("HECKSUM: " +:+ QUOTE +:+ cs) +:+ String "034" ""))
    by (unfold checksumLine; norm_app; reflexivity).
  now apply trimmed_ends.
Qed.

Lemma scopeLine_trimmed (m : bool) (n : string) :
  trimmed n = true → trimmed (scopeLine m n) = true.
Proof.
  intros (c & r & d & -> & Hc & Hb & Hd)%trimmed_inv.
  unfold trimmed, scopeLine.
  rewrite back_app by discriminate. rewrite Hb.
  unfold not_trim_char at 2. rewrite Hd. now destruct m.
Qed.

Lemma blockLine_trimmed (k : string) (b : BlockExclusion) :
  trimmed (blockLine k b) = true.
Proof.
  replace (blockLine k b)
    with (String "B" (("lock " +:+ k +:+ " " +:+ QUOTE +:+ block_checksum b
                       +:+ QUOTE +:+ " " +:+ QUOTE +:+ escapeString (sourceCode b))
                      +:+ String "034" ""))
    by (unfold blockLine; norm_app; reflexivity).
  now apply trimmed_ends.
Qed.

Lemma toggleLine_trimmed (t : ToggleExclusion) : trimmed (toggleLine t) = true.
Proof.
  unfold toggleLine.
  destruct (toggleDirectionToString (direction t)), (bitIndex t);
    match goal with
    | |- trimmed (?x +:+ " " +:+ QUOTE +:+ ?d +:+ QUOTE) = true =>
        replace (x +:+ " " +:+ QUOTE +:+ d +:+ QUOTE)
          with (String "T" ((drop 1 x +:+ " " +:+ QUOTE +:+ d) +:+ String "034" ""))
          by (norm_app; reflexivity)
    end; now apply trimmed_ends.
Qed.

Lemma fsmLine_trimmed (f : FsmExclusion) : trimmed (fsmLine f) = true.
Proof.
  unfold fsmLine. destruct (isTransition f).
  - replace ("Transition " +:+ fromState f +:+ "->" +:+ toState f +:+ " "
             +:+ QUOTE +:+ transitionId f +:+ QUOTE)
      with (String "T" (("ransition " +:+ fromState f +:+ "->" +:+ toState f
                         +:+ " " +:+ QUOTE +:+ transitionId f)
                        +:+ String "034" ""))
      by (norm_app; reflexivity).
    now apply trimmed_ends.
  - replace ("Fsm " +:+ fsmName f +:+ " " +:+ QUOTE +:+ fsm_checksum f +:+ QUOTE)
      with (String "F" (("sm " +:+ fsmName f +:+ " " +:+ QUOTE +:+ fsm_checksum f)
                        +:+ String "034" ""))
      by (norm_app; reflexivity).
    now apply trimmed_ends.
Qed.

Lemma trimmed_snoc (x : string) (d : ascii) :
  not_trim_char (front x) = true → mem_char d trim_set = false →
  trimmed (x +:+ String d "") = true.
Proof.
  intros Hx Hd. unfold trimmed. rewrite back_app_char.
  destruct x as [|c x]; [discriminate|].
  unfold not_trim_char at 2. rewrite Hd.
  change (front (String c x +:+ String d "")) with (front (String c x)).
  now rewrite Hx.
Qed.

Lemma conditionLine_trimmed (k : string) (c : ConditionExclusion) :
  trimmed (conditionLine k c) = true.
Proof.
  unfold conditionLine.
  set (base := k +:+ " " +:+ QUOTE +:+ cond_checksum c +:+ QUOTE
               +:+ " " +:+ QUOTE +:+ escapeString (expression c)).
  assert (Hsnoc : ∀ l x d, l = x +:+ String d "" →
            not_trim_char (front x) = true → mem_char d trim_set = false →
            trimmed l = true)
    by (intros l x d ->; apply trimmed_snoc).
  destruct (parameters c) as [|y ps], (coverage c) as [|x cov].
  - apply (Hsnoc _ ("Condition " +:+ base) "034"%char); [|reflexivity..].
    unfold base; norm_app; reflexivity.
  - apply (Hsnoc _ ("Condition " +:+ base +:+ QUOTE +:+ " (" +:+ String x cov)
                 ")"%char); [|reflexivity..].
    unfold base; norm_app; reflexivity.
  - apply (Hsnoc _ ("Condition " +:+ base +:+ " " +:+ String y ps) "034"%char);
      [|reflexivity..].
    unfold base; norm_app; reflexivity.
  - apply (Hsnoc _ ("Condition " +:+ base +:+ " " +:+ String y ps +:+ QUOTE
                    +:+ " (" +:+ String x cov) ")"%char); [|reflexivity..].
    unfold base; norm_app; reflexivity.
Qed.

Lemma item_line_trimmed (it : Item) :
  wf_item it = true → trimmed (item_line it) = true.
Proof.
  destruct it as [l|cs|m n|a|k b|t|f|k c]; simpl; intros Hwf.
  - now apply andb_true_iff in Hwf as [[_ Ht]%andb_true_iff _].
  - apply checksumLine_trimmed.
  - apply andb_true_iff in Hwf as [Hn _]. now apply scopeLine_trimmed.
  - apply annotationLine_trimmed.
  - apply blockLine_trimmed.
  - apply toggleLine_trimmed.
  - apply fsmLine_trimmed.
  - apply conditionLine_trimmed.
Qed.

Lemma add_to_current_scope_ext
    (f g : string → ExclusionScope → ExclusionScope) (p : Parser) :
  (∀ a, f a = g a) → add_to_current_scope f p = add_to_current_scope g p.
Proof.
  intros Hfg. unfold add_to_current_scope.
  destruct (currentScope_ p); [reflexivity|]. now rewrite Hfg.
Qed.

(** A scope line makes its scope current and creates it when it is new. *)
Lemma parseScope_scopeLine (m : bool) (n : string) (p : Parser) :
  trimmed n = true →
  (parseScope (scopeLine m n) p).2
  = set_data (λ d, (getOrCreateScope n (currentChecksum_ p) m d).1)
             (set_currentScope n m p).
Proof.
  intros Hn. pose proof (trim_trimmed _ Hn) as Htrim.
  destruct n as [|c n]; [discriminate|].
  unfold parseScope, after_colon. rewrite !find_is_0_prefix.
  destruct m.
  - change (is_prefix "INSTANCE:" (scopeLine true (String c n))) with false.
    change (is_prefix "MODULE:" (scopeLine true (String c n))) with true.
    cbv iota.
    change (find_char (scopeLine true (String c n)) ":" 0) with (Some 6).
    cbv beta iota.
    change (6 + 1 <? String.length (scopeLine true (String c n))) with true.
    cbv iota.
    change (substr_from (scopeLine true (String c n)) (6 + 1)) with (String c n).
    now rewrite Htrim.
  - change (is_prefix "INSTANCE:" (scopeLine false (String c n))) with true.
    cbv iota.
    change (find_char (scopeLine false (String c n)) ":" 0) with (Some 8).
    cbv beta iota.
    change (8 + 1 <? String.length (scopeLine false (String c n))) with true.
    cbv iota.
    change (substr_from (scopeLine false (String c n)) (8 + 1)) with (String c n).
    now rewrite Htrim.
Qed.

(** Each well-formed line of the writer, indented and before its line
    ending, takes the loop of [parseStream] through [item_step]. *)
Lemma parse_item (ind e : string) (it : Item) (p : Parser) (r : ParseResult) :
  all_trim_chars ind = true → all_trim_chars e = true →
  wf_item it = true →
  parseLine (ind +:+ item_line it +:+ e) p r
  = Continue (item_step it (p, r)).1 (item_step it (p, r)).2.
Proof.
  intros Hind He Hwf.
  pose proof (trim_core ind _ e Hind He (item_line_trimmed _ Hwf)) as Htrim.
  destruct it as [l|cs|m n|a|k b|t|f|k c]; simpl in Hwf; simpl item_line in *.
  - (* comment *)
    apply andb_true_iff in Hwf as [[Hp _]%andb_true_iff _].
    apply parseLine_comment. now rewrite Htrim.
  - (* CHECKSUM *)
    apply line_ok_inv in Hwf as [_ Hh].
    apply parseLine_classified; rewrite Htrim.
    + discriminate.
    + unfold isComment. now rewrite !find_is_0_prefix.
    + now rewrite classify_when_checksum.
  - (* scope *)
    apply andb_true_iff in Hwf as [Hn [_ Hh]%line_ok_inv].
    apply parseLine_classified; rewrite Htrim.
    + now destruct m.
    + unfold isComment. rewrite !find_is_0_prefix. now destruct m.
    + rewrite classify_when_scope; [|now destruct m | assumption].
      now rewrite parseScope_scopeLine.
  - (* ANNOTATION *)
    apply line_ok_inv in Hwf as [_ Hh].
    now apply parseLine_annotationLine.
  - (* Block *)
    apply andb_true_iff in Hwf as [[[Hk Hcs]%andb_true_iff Hsrc]%andb_true_iff
                                     [_ Hh]%line_ok_inv].
    rewrite (parseLine_block _ _ _) by (now rewrite Htrim).
    rewrite Htrim. simpl. f_equal. apply add_to_current_scope_ext.
    intros a. now rewrite blockOfLine_blockLine.
  - (* Toggle *)
    apply andb_true_iff in Hwf as [[Hsig Hdesc]%andb_true_iff [_ Hh]%line_ok_inv].
    assert (Hp : is_prefix "Toggle " (toggleLine t) = true)
      by now rewrite (toggleLine_shape _ Hdesc).
    assert (Hk : exclusionLineKind (toggleLine t) = Some TOGGLE).
    { unfold exclusionLineKind. rewrite Hp.
      now rewrite (toggleLine_shape _ Hdesc). }
    destruct (exclusion_line_not_empty _ _ Hk) as [Hne Hc].
    apply parseLine_classified; rewrite Htrim; try assumption.
    rewrite classify_when_toggle by assumption. simpl. do 2 f_equal.
    apply add_to_current_scope_ext. intros a.
    now rewrite toggleOfLine_toggleLine.
  - (* Fsm and Transition *)
    apply andb_true_iff in Hwf as [[_ Hh]%line_ok_inv Hf].
    destruct (isTransition f) eqn:Htr.
    + apply andb_true_iff in Hf as [[[[Har Hfr]%andb_true_iff Hsp]%andb_true_iff
                                       Hto]%andb_true_iff Hid].
      assert (Harrow : index_str "->" (fromState f) = None)
        by (unfold no_arrow in Har; now destruct (index_str "->" (fromState f))).
      pose proof (transitionOfLine_fsmLine f Htr Harrow Hfr Hsp Hto Hid) as Hfsm.
      assert (Hp : is_prefix "Transition " (fsmLine f) = true)
        by (unfold fsmLine; now rewrite Htr).
      assert (Hne : fsmLine f ≠ "" ∧ isComment (fsmLine f) = false).
      { destruct (prefix_shape _ _ Hp) as [t ->]. split; [discriminate|].
        unfold isComment. now rewrite !find_is_0_prefix. }
      apply parseLine_classified; rewrite Htrim; try apply Hne.
      rewrite (classify_when_transition _ _ _ _ Hp Hh Hfsm). simpl.
      now rewrite Htr.
    + apply andb_true_iff in Hf as [Hk Hcs].
      assert (Hp : is_prefix "Fsm " (fsmLine f) = true)
        by (unfold fsmLine; now rewrite Htr).
      assert (Hne : fsmLine f ≠ "" ∧ isComment (fsmLine f) = false).
      { destruct (prefix_shape _ _ Hp) as [t ->]. split; [discriminate|].
        unfold isComment. now rewrite !find_is_0_prefix. }
      apply parseLine_classified; rewrite Htrim; try apply Hne.
      rewrite classify_when_fsm by assumption. simpl. rewrite Htr.
      do 2 f_equal. apply add_to_current_scope_ext. intros a.
      now rewrite fsmOfLine_fsmLine.
  - (* Condition *)
    apply andb_true_iff in Hwf as
      [[[[[[Hk Hcs]%andb_true_iff Hex]%andb_true_iff Hpq]%andb_true_iff
           Hps]%andb_true_iff Hes]%andb_true_iff [_ Hh]%line_ok_inv].
    assert (Hp : is_prefix "Condition " (conditionLine k c) = true)
      by now rewrite (conditionLine_shape _ _ Hex).
    assert (Hne : conditionLine k c ≠ "" ∧ isComment (conditionLine k c) = false).
    { destruct (prefix_shape _ _ Hp) as [t ->]. split; [discriminate|].
      unfold isComment. now rewrite !find_is_0_prefix. }
    apply parseLine_classified; rewrite Htrim; try apply Hne.
    rewrite classify_when_condition by assumption. simpl. do 2 f_equal.
    apply add_to_current_scope_ext. intros a.
    rewrite conditionOfLine_conditionLine; try assumption; [reflexivity|].
    intros Hempty. rewrite Hempty in Hes. exact Hes.
Qed.

Lemma wf_item_one_line (it : Item) :
  wf_item it = true → one_line (item_line it) = true.
Proof.
  destruct it as [l|cs|m n|a|k b|t|f|k c]; simpl; intros Hwf;
    repeat match type of Hwf with
           | _ && _ = true => apply andb_true_iff in Hwf as [Hwf ?]
           end;
    repeat match goal with
           | H : line_ok _ = true |- _ => apply line_ok_inv in H as [? ?]
           end;
    try assumption.
Qed.

Lemma getlines_render_all (cfg : WriterConfig) (e : string) (its : list Item) :
  lineEnding cfg = e +:+ String "010" "" →
  one_line (indentation cfg) = true → one_line e = true →
  Forall (λ it, wf_item it = true) its →
  getlines (render_all cfg its)
  = map (λ it, indentation cfg +:+ item_line it +:+ e) its.
Proof.
  intros Hle Hind He Hwf. induction Hwf as [|it its Hit _ IH]; [reflexivity|].
  simpl. unfold render at 1. rewrite Hle.
  replace ((indentation cfg +:+ item_line it +:+ e +:+ String "010" "")
           +:+ render_all cfg its)
    with ((indentation cfg +:+ item_line it +:+ e)
          +:+ String "010" (render_all cfg its))
    by (norm_app; reflexivity).
  rewrite getlines_line, IH; [reflexivity|].
  unfold one_line. rewrite !no_char_app. fold one_line.
  now rewrite Hind, He, (wf_item_one_line _ Hit).
Qed.

Lemma parseLines_items (ind e : string) (its : list Item)
    (p : Parser) (r : ParseResult) :
  all_trim_chars ind = true → all_trim_chars e = true →
  Forall (λ it, wf_item it = true) its →
  parseLines (map (λ it, ind +:+ item_line it +:+ e) its) p r
  = (set_lastResult (λ _, set_success true (run its (p, r)).2) (run its (p, r)).1,
     set_success true (run its (p, r)).2).
Proof.
  intros Hind He Hwf. revert p r.
  induction Hwf as [|it its Hit _ IH]; intros p r; [reflexivity|].
  simpl map. simpl parseLines. rewrite (parse_item _ _ _ _ _ Hind He Hit).
  unfold run. simpl foldl. destruct (item_step it (p, r)) as [p' r'].
  apply IH.
Qed.

(** Parsing the text written for [data] runs the loop over its lines. *)
Lemma parseString_writeToString `{Platform} (cfg : WriterConfig)
    (data : ExclusionData) (p : Parser) :
  wf_config cfg →
  Forall (λ it, wf_item it = true) (data_items cfg data) →
  let s := run (data_items cfg data) (resetState p, ParseResult_new) in
  parseString (writeToString cfg data) p
  = (set_lastResult (λ _, set_success true s.2) s.1, set_success true s.2).
Proof.
  intros (_ & Hind & Hind1 & e & Hle & He & He1) Hwf. cbv zeta.
  unfold parseString, parseStream.
  rewrite writeToString_items, (getlines_render_all _ e) by assumption.
  now apply parseLines_items.
Qed.

End ReadBack.

(* ===================================================================== *)
(** * The database rebuilt from the written lines                         *)
(* ===================================================================== *)

Section Rebuild.
Context `{Platform}.
Variable cfg : WriterConfig.
Hypothesis cfg_annotations : includeAnnotations cfg = true.

Lemma run_app (a b : list Item) (s : Parser * ParseResult) :
  run (a ++ b) s = run b (run a s).
Proof. unfold run. apply foldl_app. Qed.

Lemma put_scope_put (name : string) (s1 s2 : ExclusionScope) (d : ExclusionData) :
  put_scope name s2 (put_scope name s1 d) = put_scope name s2 d.
Proof.
  unfold put_scope, set_scopes. simpl. f_equal. apply insert_insert_eq.
Qed.

Lemma put_scope_lookup (name : string) (s : ExclusionScope) (d : ExclusionData) :
  scopes (put_scope name s d) !! name = Some s.
Proof. apply lookup_insert_eq. Qed.

(** One record, with the annotation line the writer puts before it. *)
Lemma run_annotated (a : string) (it : Item)
    (add : string → ExclusionScope → ExclusionScope)
    (s : Parser * ParseResult) (name : string) (cur tgt : ExclusionScope)
    (d0 : ExclusionData) :
  no_quote a = true →
  (∀ σ, (item_step it σ).1 = add_to_current_scope add (incr_lineNumber σ.1)) →
  add a cur = tgt →
  name ≠ "" →
  at_scope s name (put_scope name cur d0) →
  at_scope (run (annotation_items cfg a ++ [it]) s) name
           (put_scope name tgt d0).
Proof.
  intros Ha Hit <- Hname (Hs & Hp & Hd).
  assert (Hstep : ∀ σ, currentScope_ σ.1 = name → pendingAnnotation_ σ.1 = a →
            data_ σ.1 = put_scope name cur d0 →
            at_scope (item_step it σ) name (put_scope name (add a cur) d0)).
  { intros σ Hσs Hσp Hσd. unfold at_scope. rewrite Hit.
    assert (Hne : currentScope_ (incr_lineNumber σ.1) ≠ "")
      by (simpl; congruence).
    destruct (add_to_current_scope_spec add _ Hne) as (Hd' & Hp' & Hs' & _).
    simpl in Hd', Hs'. rewrite Hs', Hp', Hd', Hσs, Hσp, Hσd.
    rewrite put_scope_lookup. simpl.
    repeat split. apply put_scope_put. }
  unfold annotation_items. rewrite cfg_annotations. simpl andb.
  destruct a as [|c a].
  - simpl. now apply Hstep.
  - rewrite (escapeString_no_quote _ Ha). simpl negb. cbv iota.
    unfold run. simpl foldl. apply Hstep; simpl; trivial.
Qed.

(** The lines of several keys, or of several records of one key. *)
Lemma run_flat_map {X : Type} (g : X → list Item)
    (upd : X → ExclusionScope → ExclusionScope) (l : list X)
    (name : string) (d0 : ExclusionData) :
  (∀ x s cur, x ∈ l → at_scope s name (put_scope name cur d0) →
     at_scope (run (g x) s) name (put_scope name (upd x cur) d0)) →
  ∀ s cur, at_scope s name (put_scope name cur d0) →
  at_scope (run (flat_map g l) s) name
           (put_scope name (foldl (λ cur x, upd x cur) cur l) d0).
Proof.
  induction l as [|x l IH]; intros Hg s cur Hs; [exact Hs|].
  simpl. rewrite run_app. apply IH.
  - intros y s' cur' Hy. apply Hg. now right.
  - apply Hg; [now left | exact Hs].
Qed.

Lemma gmap_all_lookup {V : Type} (P : string → V → bool)
    (m : gmap string V) (k : string) (v : V) :
  gmap_all P m = true → m !! k = Some v → P k v = true.
Proof.
  unfold gmap_all. rewrite forallb_forall. intros Hall Hk.
  apply (Hall (k, v)). apply list_elem_of_In. now apply elem_of_map_to_list.
Qed.

Lemma annotation_ok_no_quote (a : string) :
  annotation_ok a = true → no_quote a = true.
Proof. unfold annotation_ok. now intros [? _]%andb_true_iff. Qed.

Lemma run_block_key (sc : ExclusionScope) (k name : string)
    (s : Parser * ParseResult) (cur : ExclusionScope) (d0 : ExclusionData) :
  gmap_all wf_block (blockExclusions sc) = true → name ≠ "" →
  at_scope s name (put_scope name cur d0) →
  at_scope (run match blockExclusions sc !! k with
                | Some b => annotation_items cfg (block_annotation b) ++ [IBlock k b]
                | None => []
                end s)
           name (put_scope name (upd_block sc k cur) d0).
Proof.
  intros Hall Hname Hs. unfold upd_block.
  destruct (blockExclusions sc !! k) as [b|] eqn:Hb; [|exact Hs].
  pose proof (gmap_all_lookup _ _ _ _ Hall Hb) as Hwf. unfold wf_block in Hwf.
  apply andb_true_iff in Hwf as [[Hid _]%andb_true_iff Hann].
  apply String.eqb_eq in Hid.
  apply (run_annotated (block_annotation b) (IBlock k b)
           (λ annot, addBlockExclusion
                       (mkBlock k (block_checksum b) (sourceCode b) annot))
           s name cur);
    try assumption.
  - now apply annotation_ok_no_quote.
  - reflexivity.
  - destruct b; simpl in *; now subst.
Qed.

Lemma run_condition_key (sc : ExclusionScope) (k name : string)
    (s : Parser * ParseResult) (cur : ExclusionScope) (d0 : ExclusionData) :
  gmap_all wf_condition (conditionExclusions sc) = true → name ≠ "" →
  at_scope s name (put_scope name cur d0) →
  at_scope (run match conditionExclusions sc !! k with
                | Some c => annotation_items cfg (cond_annotation c)
                            ++ [ICondition k c]
                | None => []
                end s)
           name (put_scope name (upd_condition sc k cur) d0).
Proof.
  intros Hall Hname Hs. unfold upd_condition.
  destruct (conditionExclusions sc !! k) as [c|] eqn:Hc; [|exact Hs].
  pose proof (gmap_all_lookup _ _ _ _ Hall Hc) as Hwf. unfold wf_condition in Hwf.
  apply andb_true_iff in Hwf as [[Hid _]%andb_true_iff Hann].
  apply String.eqb_eq in Hid.
  apply (run_annotated (cond_annotation c) (ICondition k c)
           (λ annot, addConditionExclusion
                       (mkCondition k (cond_checksum c) (expression c)
                                    (parameters c) (coverage c) annot))
           s name cur);
    try assumption.
  - now apply annotation_ok_no_quote.
  - reflexivity.
  - destruct c; simpl in *; now subst.
Qed.

Lemma run_toggle_key (sc : ExclusionScope) (k name : string)
    (s : Parser * ParseResult) (cur : ExclusionScope) (d0 : ExclusionData) :
  gmap_all (λ k l, nonempty l && forallb (wf_toggle k) l) (toggleExclusions sc)
    = true →
  name ≠ "" →
  at_scope s name (put_scope name cur d0) →
  at_scope (run (flat_map (λ t, annotation_items cfg (toggle_annotation t)
                                ++ [IToggle t])
                          (default [] (toggleExclusions sc !! k))) s)
           name (put_scope name (upd_toggles sc k cur) d0).
Proof.
  intros Hall Hname Hs. unfold upd_toggles.
  apply (run_flat_map _ (λ t, addToggleExclusion (clear_bitIndex t)));
    [|exact Hs].
  intros t s' cur' Ht Hs'.
  destruct (toggleExclusions sc !! k) as [l|] eqn:Hl; simpl in Ht;
    [|now apply elem_of_nil in Ht].
  pose proof (gmap_all_lookup _ _ _ _ Hall Hl) as Hwf. simpl in Hwf.
  apply andb_true_iff in Hwf as [_ Hwf]. rewrite forallb_forall in Hwf.
  apply list_elem_of_In in Ht. specialize (Hwf t Ht). unfold wf_toggle in Hwf.
  apply andb_true_iff in Hwf as [_ Hann].
  apply (run_annotated (toggle_annotation t) (IToggle t)
           (λ annot, addToggleExclusion
                       (mkToggle (direction t) (signalName t) None
                                 (netDescription t) annot))
           s' name cur');
    try assumption.
  - now apply annotation_ok_no_quote.
  - reflexivity.
  - reflexivity.
Qed.

(** A well-formed FSM record is the one its line is read back as. *)
Lemma wf_fsm_reparsed (k : string) (f : FsmExclusion) :
  wf_fsm k f = true →
  (if isTransition f
   then FsmExclusion_transition "transition" (fromState f) (toState f)
          (transitionId f) (fsm_annotation f)
   else FsmExclusion_state (fsmName f) (fsm_checksum f) (fsm_annotation f)) = f.
Proof.
  unfold wf_fsm. intros [[[Hid _]%andb_true_iff _]%andb_true_iff Hshape]%andb_true_iff.
  apply String.eqb_eq in Hid.
  destruct f as [nm cs from to tid ann tr]; simpl in *. destruct tr.
  - apply andb_true_iff in Hshape as [Hk Hcs].
    apply String.eqb_eq in Hk, Hcs. now subst.
  - apply andb_true_iff in Hshape as [[Hf Ht]%andb_true_iff Hi].
    apply String.eqb_eq in Hf, Ht, Hi. now subst.
Qed.

Lemma run_fsm_key (sc : ExclusionScope) (k name : string)
    (s : Parser * ParseResult) (cur : ExclusionScope) (d0 : ExclusionData) :
  gmap_all (λ k l, nonempty l && forallb (wf_fsm k) l) (fsmExclusions sc) = true →
  name ≠ "" →
  at_scope s name (put_scope name cur d0) →
  at_scope (run (flat_map (λ f, annotation_items cfg (fsm_annotation f) ++ [IFsm f])
                          (default [] (fsmExclusions sc !! k))) s)
           name (put_scope name (upd_fsms sc k cur) d0).
Proof.
  intros Hall Hname Hs. unfold upd_fsms.
  apply (run_flat_map _ (λ f, addFsmExclusion f)); [|exact Hs].
  intros f s' cur' Hf Hs'.
  destruct (fsmExclusions sc !! k) as [l|] eqn:Hl; simpl in Hf;
    [|now apply elem_of_nil in Hf].
  pose proof (gmap_all_lookup _ _ _ _ Hall Hl) as Hwf. simpl in Hwf.
  apply andb_true_iff in Hwf as [_ Hwf]. rewrite forallb_forall in Hwf.
  apply list_elem_of_In in Hf. specialize (Hwf f Hf).
  pose proof (wf_fsm_reparsed _ _ Hwf) as Hrec.
  unfold wf_fsm in Hwf.
  apply andb_true_iff in Hwf as [[_ Hann]%andb_true_iff _].
  apply (run_annotated (fsm_annotation f) (IFsm f)
           (λ annot, addFsmExclusion
                       (if isTransition f
                        then FsmExclusion_transition "transition" (fromState f)
                               (toState f) (transitionId f) annot
                        else FsmExclusion_state (fsmName f) (fsm_checksum f)
                               annot))
           s' name cur');
    try assumption.
  - now apply annotation_ok_no_quote.
  - reflexivity.
  - cbv beta. now rewrite Hrec.
Qed.

End Rebuild.

(* ===================================================================== *)
(** * Containers rebuilt key by key                                       *)
(* ===================================================================== *)

Section Containers.
Context {V : Type}.

(** Inserting the entries of [m] for the keys of [l], in any order. *)
Lemma foldl_insert_lookup (m : gmap string V) (l : list string)
    (acc : gmap string V) (i : string) :
  foldl (λ acc k, match m !! k with
                  | Some v => <[k := v]> acc
                  | None => acc
                  end) acc l !! i
  = match (if decide (i ∈ l) then m !! i else None) with
    | Some v => Some v
    | None => acc !! i
    end.
Proof.
  revert acc. induction l as [|k l IH]; intros acc.
  - destruct (decide (i ∈ [])) as [Hi|_]; [|reflexivity].
    now apply not_elem_of_nil in Hi.
  - cbn [foldl]. rewrite IH.
    destruct (decide (i ∈ l)) as [Hil|Hil];
      destruct (decide (i ∈ k :: l)) as [Hikl|Hikl].
    + destruct (m !! i) as [v|] eqn:Hi; [reflexivity|].
      destruct (decide (k = i)) as [->|Hki]; [now rewrite Hi|].
      destruct (m !! k); [now rewrite lookup_insert_ne | reflexivity].
    + exfalso. apply Hikl. now right.
    + apply elem_of_cons in Hikl as [->|?]; [|contradiction].
      destruct (m !! k); [now rewrite lookup_insert_eq | reflexivity].
    + assert (k ≠ i) by (intros ->; apply Hikl; now left).
      destruct (m !! k); [now rewrite lookup_insert_ne | reflexivity].
Qed.

Lemma keys_elem (m : gmap string V) (l : list string) (i : string) :
  l ≡ₚ (map_to_list m).*1 → i ∈ l ↔ is_Some (m !! i).
Proof.
  intros Hl. rewrite Hl, list_elem_of_fmap. split.
  - intros ([k v] & -> & Hkv). apply elem_of_map_to_list in Hkv. now exists v.
  - intros [v Hv]. exists (i, v). split; [reflexivity|].
    now apply elem_of_map_to_list.
Qed.

Lemma rebuild_map (m : gmap string V) (l : list string) :
  l ≡ₚ (map_to_list m).*1 →
  foldl (λ acc k, match m !! k with
                  | Some v => <[k := v]> acc
                  | None => acc
                  end) ∅ l = m.
Proof.
  intros Hl. apply map_eq. intros i. rewrite foldl_insert_lookup.
  destruct (decide (i ∈ l)) as [Hi|Hi].
  - destruct (m !! i); [reflexivity | apply lookup_empty].
  - rewrite lookup_empty. symmetry. apply eq_None_not_Some.
    intros Hs. apply Hi. now apply (keys_elem m).
Qed.

End Containers.

Section VectorContainers.
Context {A : Type}.

Lemma push_back_all (k : string) (xs : list A) (acc : gmap string (list A)) :
  xs ≠ [] →
  foldl (λ acc x, push_back_at k x acc) acc xs
  = <[k := default [] (acc !! k) ++ xs]> acc.
Proof.
  revert acc. induction xs as [|x xs IH]; intros acc Hne; [congruence|].
  destruct xs as [|y xs]; [reflexivity|].
  change (foldl (λ acc x, push_back_at k x acc) acc (x :: y :: xs))
    with (foldl (λ acc x, push_back_at k x acc) (push_back_at k x acc) (y :: xs)).
  rewrite IH by discriminate.
  unfold push_back_at. rewrite lookup_insert_eq. simpl.
  rewrite insert_insert_eq. now rewrite <- app_assoc.
Qed.

(** Appending the vectors of [m] for the keys of [l] to a map that has
    none of these keys. *)
Lemma foldl_append_lookup (m : gmap string (list A)) (g : A → A)
    (l : list string) (acc : gmap string (list A)) (i : string) :
  NoDup l → (∀ k, k ∈ l → acc !! k = None) →
  (∀ k v, m !! k = Some v → v ≠ []) →
  foldl (λ acc k, foldl (λ acc x, push_back_at k (g x) acc) acc
                        (default [] (m !! k))) acc l !! i
  = match (if decide (i ∈ l) then m !! i else None) with
    | Some v => Some (map g v)
    | None => acc !! i
    end.
Proof.
  intros Hnd Hfresh Hne. revert acc Hfresh.
  induction Hnd as [|k l Hk Hnd IH]; intros acc Hfresh.
  - destruct (decide (i ∈ [])) as [Hi|_]; [|reflexivity].
    now apply not_elem_of_nil in Hi.
  - cbn [foldl].
    assert (Hstep : foldl (λ acc x, push_back_at k (g x) acc) acc
                          (default [] (m !! k))
                    = match m !! k with
                      | Some v => <[k := map g v]> acc
                      | None => acc
                      end).
    { destruct (m !! k) as [v|] eqn:Hv; [|reflexivity]. simpl.
      rewrite <- (foldl_fmap (λ acc y, push_back_at k y acc) acc v g).
      rewrite push_back_all.
      - now rewrite (Hfresh k) by now left.
      - intros Hnil. apply fmap_nil_inv in Hnil. now apply (Hne k v). }
    rewrite Hstep, IH.
    + destruct (decide (i ∈ l)) as [Hil|Hil];
        destruct (decide (i ∈ k :: l)) as [Hikl|Hikl].
      * destruct (m !! i) as [v|] eqn:Hi; [reflexivity|].
        assert (k ≠ i) by (intros ->; contradiction).
        destruct (m !! k); [now rewrite lookup_insert_ne | reflexivity].
      * exfalso. apply Hikl. now right.
      * apply elem_of_cons in Hikl as [->|?]; [|contradiction].
        destruct (m !! k); [now rewrite lookup_insert_eq | reflexivity].
      * assert (k ≠ i) by (intros ->; apply Hikl; now left).
        destruct (m !! k); [now rewrite lookup_insert_ne | reflexivity].
    + intros k' Hk'. assert (k ≠ k') by (intros ->; contradiction).
      destruct (m !! k); [rewrite lookup_insert_ne by assumption|];
        apply Hfresh; now right.
Qed.

Lemma rebuild_vectors (m : gmap string (list A)) (g : A → A) (l : list string) :
  l ≡ₚ (map_to_list m).*1 →
  (∀ k v, m !! k = Some v → v ≠ []) →
  foldl (λ acc k, foldl (λ acc x, push_back_at k (g x) acc) acc
                        (default [] (m !! k))) ∅ l
  = map g <$> m.
Proof.
  intros Hl Hne. apply map_eq. intros i.
  rewrite foldl_append_lookup; try assumption.
  - rewrite lookup_fmap. destruct (decide (i ∈ l)) as [Hi|Hi].
    + destruct (m !! i); [reflexivity | apply lookup_empty].
    + rewrite lookup_empty. symmetry.
      assert (m !! i = None) as ->; [|reflexivity].
      apply eq_None_not_Some. intros Hs. apply Hi. now apply (keys_elem m).
  - rewrite Hl. apply NoDup_fst_map_to_list.
  - intros k _. apply lookup_empty.
Qed.

End VectorContainers.

(* ===================================================================== *)
(** * A scope read back                                                   *)
(* ===================================================================== *)

Lemma foldl_ext_in {S X : Type} (f g : S → X → S) (l : list X) (s : S) :
  (∀ s x, x ∈ l → f s x = g s x) → foldl f s l = foldl g s l.
Proof.
  revert s. induction l as [|x l IH]; intros s Hfg; [reflexivity|].
  cbn [foldl]. rewrite Hfg by now left.
  apply IH. intros s' y Hy. apply Hfg. now right.
Qed.

Section SetterFolds.
Context {X : Type}.

Lemma foldl_set_blockExclusions
    (F : X → gmap string BlockExclusion → gmap string BlockExclusion)
    (l : list X) (cur : ExclusionScope) :
  foldl (λ cur x, set_blockExclusions (F x) cur) cur l
  = set_blockExclusions (λ m, foldl (λ m x, F x m) m l) cur.
Proof.
  revert cur. induction l as [|x l IH]; intros cur; [now destruct cur|].
  cbn [foldl]. now rewrite IH.
Qed.

Lemma foldl_set_toggleExclusions
    (F : X → gmap string (list ToggleExclusion) → gmap string (list ToggleExclusion))
    (l : list X) (cur : ExclusionScope) :
  foldl (λ cur x, set_toggleExclusions (F x) cur) cur l
  = set_toggleExclusions (λ m, foldl (λ m x, F x m) m l) cur.
Proof.
  revert cur. induction l as [|x l IH]; intros cur; [now destruct cur|].
  cbn [foldl]. now rewrite IH.
Qed.

Lemma foldl_set_fsmExclusions
    (F : X → gmap string (list FsmExclusion) → gmap string (list FsmExclusion))
    (l : list X) (cur : ExclusionScope) :
  foldl (λ cur x, set_fsmExclusions (F x) cur) cur l
  = set_fsmExclusions (λ m, foldl (λ m x, F x m) m l) cur.
Proof.
  revert cur. induction l as [|x l IH]; intros cur; [now destruct cur|].
  cbn [foldl]. now rewrite IH.
Qed.

Lemma foldl_set_conditionExclusions
    (F : X → gmap string ConditionExclusion → gmap string ConditionExclusion)
    (l : list X) (cur : ExclusionScope) :
  foldl (λ cur x, set_conditionExclusions (F x) cur) cur l
  = set_conditionExclusions (λ m, foldl (λ m x, F x m) m l) cur.
Proof.
  revert cur. induction l as [|x l IH]; intros cur; [now destruct cur|].
  cbn [foldl]. now rewrite IH.
Qed.

End SetterFolds.

Section ScopeRebuild.
Context `{Platform}.
Variable cfg : WriterConfig.

Lemma keyOrder_perm {V : Type} (m : gmap string V) :
  keyOrder cfg m ≡ₚ (map_to_list m).*1.
Proof.
  unfold keyOrder. destruct (sortExclusions cfg).
  - rewrite merge_sort_Permutation. now rewrite unordered_iter_perm.
  - now rewrite unordered_iter_perm.
Qed.

Lemma keyOrder_elem {V : Type} (m : gmap string V) (k : string) :
  k ∈ keyOrder cfg m ↔ is_Some (m !! k).
Proof. apply keys_elem, keyOrder_perm. Qed.

Lemma forallb_elem {A : Type} (P : A → bool) (l : list A) (x : A) :
  forallb P l = true → x ∈ l → P x = true.
Proof.
  intros Hall Hx. rewrite forallb_forall in Hall.
  now apply Hall, list_elem_of_In.
Qed.

Lemma gmap_all_at {V : Type} (P : string → V → bool)
    (m : gmap string V) (k : string) (v : V) :
  gmap_all P m = true → m !! k = Some v → P k v = true.
Proof.
  intros Hall Hk. unfold gmap_all in Hall.
  apply (forallb_elem _ _ (k, v) Hall). now apply elem_of_map_to_list.
Qed.

Lemma rebuild_blocks (sc cur : ExclusionScope) :
  gmap_all wf_block (blockExclusions sc) = true →
  blockExclusions cur = ∅ →
  foldl (λ cur k, upd_block sc k cur) cur (keyOrder cfg (blockExclusions sc))
  = set_blockExclusions (λ _, blockExclusions sc) cur.
Proof.
  intros Hwf Hcur.
  rewrite (foldl_ext_in _
    (λ cur k, set_blockExclusions
                (λ m, match blockExclusions sc !! k with
                      | Some b => <[k := b]> m
                      | None => m
                      end) cur)).
  - rewrite foldl_set_blockExclusions. unfold set_blockExclusions.
    rewrite Hcur, rebuild_map by apply keyOrder_perm. reflexivity.
  - intros s k _. unfold upd_block.
    destruct (blockExclusions sc !! k) as [b|] eqn:Hb; [|now destruct s].
    apply (gmap_all_at _ _ _ _ Hwf) in Hb. unfold wf_block in Hb.
    apply andb_true_iff in Hb as [[Hid _]%andb_true_iff _].
    apply String.eqb_eq in Hid. unfold addBlockExclusion. now rewrite Hid.
Qed.

Lemma rebuild_conditions (sc cur : ExclusionScope) :
  gmap_all wf_condition (conditionExclusions sc) = true →
  conditionExclusions cur = ∅ →
  foldl (λ cur k, upd_condition sc k cur) cur
        (keyOrder cfg (conditionExclusions sc))
  = set_conditionExclusions (λ _, conditionExclusions sc) cur.
Proof.
  intros Hwf Hcur.
  rewrite (foldl_ext_in _
    (λ cur k, set_conditionExclusions
                (λ m, match conditionExclusions sc !! k with
                      | Some c => <[k := c]> m
                      | None => m
                      end) cur)).
  - rewrite foldl_set_conditionExclusions. unfold set_conditionExclusions.
    rewrite Hcur, rebuild_map by apply keyOrder_perm. reflexivity.
  - intros s k _. unfold upd_condition.
    destruct (conditionExclusions sc !! k) as [c|] eqn:Hc; [|now destruct s].
    apply (gmap_all_at _ _ _ _ Hwf) in Hc. unfold wf_condition in Hc.
    apply andb_true_iff in Hc as [[Hid _]%andb_true_iff _].
    apply String.eqb_eq in Hid. unfold addConditionExclusion. now rewrite Hid.
Qed.

Lemma vectors_nonempty {A : Type} (P : string → A → bool)
    (m : gmap string (list A)) :
  gmap_all (λ k l, nonempty l && forallb (P k) l) m = true →
  ∀ k v, m !! k = Some v → v ≠ [].
Proof.
  intros Hwf k v Hk. apply (gmap_all_at _ _ _ _ Hwf) in Hk.
  apply andb_true_iff in Hk as [Hne _]. now destruct v.
Qed.

Lemma vectors_at {A : Type} (P : string → A → bool)
    (m : gmap string (list A)) (k : string) (x : A) :
  gmap_all (λ k l, nonempty l && forallb (P k) l) m = true →
  x ∈ default [] (m !! k) → P k x = true.
Proof.
  intros Hwf Hx. destruct (m !! k) as [v|] eqn:Hk.
  - apply (gmap_all_at _ _ _ _ Hwf) in Hk.
    apply andb_true_iff in Hk as [_ Hall]. now apply (forallb_elem _ v).
  - now apply not_elem_of_nil in Hx.
Qed.

Lemma rebuild_toggles (sc cur : ExclusionScope) :
  gmap_all (λ k l, nonempty l && forallb (wf_toggle k) l) (toggleExclusions sc)
    = true →
  toggleExclusions cur = ∅ →
  foldl (λ cur k, upd_toggles sc k cur) cur (keyOrder cfg (toggleExclusions sc))
  = set_toggleExclusions (λ _, map clear_bitIndex <$> toggleExclusions sc) cur.
Proof.
  intros Hwf Hcur.
  rewrite (foldl_ext_in _
    (λ cur k, set_toggleExclusions
                (λ m, foldl (λ m t, push_back_at k (clear_bitIndex t) m) m
                            (default [] (toggleExclusions sc !! k))) cur)).
  - rewrite foldl_set_toggleExclusions. unfold set_toggleExclusions.
    rewrite Hcur, rebuild_vectors;
      [reflexivity | apply keyOrder_perm | now apply (vectors_nonempty wf_toggle)].
  - intros s k _. unfold upd_toggles, addToggleExclusion.
    rewrite foldl_set_toggleExclusions. unfold set_toggleExclusions. f_equal.
    apply foldl_ext_in. intros m t Ht.
    apply (vectors_at wf_toggle _ _ _ Hwf) in Ht. unfold wf_toggle in Ht.
    apply andb_true_iff in Ht as [[Hid _]%andb_true_iff _].
    apply String.eqb_eq in Hid. simpl. now rewrite Hid.
Qed.

Lemma rebuild_fsms (sc cur : ExclusionScope) :
  gmap_all (λ k l, nonempty l && forallb (wf_fsm k) l) (fsmExclusions sc)
    = true →
  fsmExclusions cur = ∅ →
  foldl (λ cur k, upd_fsms sc k cur) cur (keyOrder cfg (fsmExclusions sc))
  = set_fsmExclusions (λ _, fsmExclusions sc) cur.
Proof.
  intros Hwf Hcur.
  rewrite (foldl_ext_in _
    (λ cur k, set_fsmExclusions
                (λ m, foldl (λ m f, push_back_at k (id f) m) m
                            (default [] (fsmExclusions sc !! k))) cur)).
  - rewrite foldl_set_fsmExclusions. unfold set_fsmExclusions.
    rewrite Hcur, rebuild_vectors;
      [| apply keyOrder_perm | now apply (vectors_nonempty wf_fsm)].
    f_equal. rewrite <- (map_fmap_id (fsmExclusions sc)) at 2.
    apply map_fmap_ext. intros k v _. apply list_fmap_id.
  - intros s k _. unfold upd_fsms, addFsmExclusion.
    rewrite foldl_set_fsmExclusions. unfold set_fsmExclusions. f_equal.
    apply foldl_ext_in. intros m f Hf.
    apply (vectors_at wf_fsm _ _ _ Hwf) in Hf. unfold wf_fsm in Hf.
    apply andb_true_iff in Hf as [[[Hid _]%andb_true_iff _]%andb_true_iff _].
    apply String.eqb_eq in Hid. unfold id. now rewrite Hid.
Qed.

(** All the records of a scope, read back into a scope that was just
    created. *)
Lemma rebuild_scope (name cs : string) (sc : ExclusionScope) :
  wf_scope name sc = true →
  foldl (λ cur k, upd_condition sc k cur)
    (foldl (λ cur k, upd_fsms sc k cur)
       (foldl (λ cur k, upd_toggles sc k cur)
          (foldl (λ cur k, upd_block sc k cur)
             (ExclusionScope_new name cs (isModule sc))
             (keyOrder cfg (blockExclusions sc)))
          (keyOrder cfg (toggleExclusions sc)))
       (keyOrder cfg (fsmExclusions sc)))
    (keyOrder cfg (conditionExclusions sc))
  = reparsed cs sc.
Proof.
  unfold wf_scope. rewrite !andb_true_iff.
  intros [[[[[[Hn _] _] Hb] Ht] Hf] Hc]. apply String.eqb_eq in Hn.
  rewrite rebuild_blocks, rebuild_toggles, rebuild_fsms, rebuild_conditions
    by (assumption || reflexivity).
  unfold reparsed. simpl. now rewrite Hn.
Qed.

End ScopeRebuild.

(* ===================================================================== *)
(** * The scopes of a database read back                                  *)
(* ===================================================================== *)

Lemma trimmed_nonempty (s : string) : trimmed s = true → s ≠ "".
Proof. now intros Ht ->. Qed.

Lemma parseChecksum_frame (line : string) (p : Parser) :
  data_ (parseChecksum line p).2 = data_ p
  ∧ pendingAnnotation_ (parseChecksum line p).2 = pendingAnnotation_ p.
Proof.
  unfold parseChecksum.
  destruct (find_is_0 line "CHECKSUM:"); [|now split].
  destruct (after_colon line) as [v|]; [|now split].
  cbn [snd].
  now destruct (validateChecksums _ && negb (validateChecksum (strip_quotes v))).
Qed.

Section ReadScopes.
Context `{Platform}.
Variable cfg : WriterConfig.
Hypothesis cfg_annotations : includeAnnotations cfg = true.

Lemma run_checksum_items (sc : ExclusionScope) (s : Parser * ParseResult) :
  data_ (run (checksum_items cfg sc) s).1 = data_ s.1
  ∧ pendingAnnotation_ (run (checksum_items cfg sc) s).1 = pendingAnnotation_ s.1.
Proof.
  assert (Hone : ∀ cs,
    data_ (run [IChecksum cs] s).1 = data_ s.1
    ∧ pendingAnnotation_ (run [IChecksum cs] s).1 = pendingAnnotation_ s.1).
  { intros cs. unfold run. cbn [foldl item_step fst].
    apply (parseChecksum_frame (checksumLine cs) (incr_lineNumber s.1)). }
  unfold checksum_items. destruct (scope_checksum sc) as [|c r].
  - destruct (generateChecksums cfg); [apply Hone | now split].
  - apply Hone.
Qed.

Lemma run_scope_items (name : string) (sc : ExclusionScope)
    (s : Parser * ParseResult) :
  wf_scope name sc = true →
  pendingAnnotation_ s.1 = "" →
  scopes (data_ s.1) !! name = None →
  pendingAnnotation_ (run (scope_items cfg name sc) s).1 = ""
  ∧ ∃ cs, data_ (run (scope_items cfg name sc) s).1
          = put_scope name (reparsed cs sc) (data_ s.1).
Proof.
  intros Hwf Hpend Hfresh.
  pose proof Hwf as Hwf'. unfold wf_scope in Hwf'.
  rewrite !andb_true_iff in Hwf'.
  destruct Hwf' as [[[[[[_ Hsc] _] Hb] Ht] Hf] Hc].
  assert (Hname : name ≠ "").
  { cbn [wf_item] in Hsc. apply andb_true_iff in Hsc as [Hn _].
    now apply trimmed_nonempty. }
  unfold scope_items. rewrite !run_app.
  destruct (run_checksum_items sc s) as [Hd1 Hp1].
  set (s1 := run (checksum_items cfg sc) s) in *.
  set (cs := currentChecksum_ (incr_lineNumber s1.1)).
  assert (H2 : at_scope (run [IScope (isModule sc) name] s1) name
                 (put_scope name (ExclusionScope_new name cs (isModule sc))
                            (data_ s.1))).
  { unfold run, at_scope. cbn [foldl item_step fst]. repeat split.
    - cbn. now rewrite Hp1, Hpend.
    - cbn. unfold getOrCreateScope. rewrite Hd1, Hfresh. reflexivity. }
  set (s2 := run [IScope (isModule sc) name] s1) in *.
  pose proof (run_flat_map _ (upd_block sc)
                (keyOrder cfg (blockExclusions sc)) name (data_ s.1)
                (λ k σ cur _, run_block_key cfg cfg_annotations sc k name σ cur
                                (data_ s.1) Hb Hname) s2 _ H2) as H3.
  fold (block_items cfg sc) in H3.
  set (s3 := run (block_items cfg sc) s2) in *.
  pose proof (run_flat_map _ (upd_toggles sc)
                (keyOrder cfg (toggleExclusions sc)) name (data_ s.1)
                (λ k σ cur _, run_toggle_key cfg cfg_annotations sc k name σ cur
                                (data_ s.1) Ht Hname) s3 _ H3) as H4.
  fold (toggle_items cfg sc) in H4.
  set (s4 := run (toggle_items cfg sc) s3) in *.
  pose proof (run_flat_map _ (upd_fsms sc)
                (keyOrder cfg (fsmExclusions sc)) name (data_ s.1)
                (λ k σ cur _, run_fsm_key cfg cfg_annotations sc k name σ cur
                                (data_ s.1) Hf Hname) s4 _ H4) as H5.
  fold (fsm_items cfg sc) in H5.
  set (s5 := run (fsm_items cfg sc) s4) in *.
  pose proof (run_flat_map _ (upd_condition sc)
                (keyOrder cfg (conditionExclusions sc)) name (data_ s.1)
                (λ k σ cur _, run_condition_key cfg cfg_annotations sc k name σ cur
                                (data_ s.1) Hc Hname) s5 _ H5) as H6.
  fold (condition_items cfg sc) in H6.
  rewrite (rebuild_scope cfg name cs sc Hwf) in H6.
  destruct H6 as (_ & Hp6 & Hd6). split; [exact Hp6|]. now exists cs.
Qed.

Lemma run_scopes (D : ExclusionData) (l done : list string)
    (s : Parser * ParseResult) :
  gmap_all wf_scope (scopes D) = true →
  (∀ n, n ∈ l → is_Some (scopes D !! n)) →
  NoDup (done ++ l) →
  pendingAnnotation_ s.1 = "" →
  scopes_read D done (data_ s.1) →
  let s' := run (flat_map (λ name, match scopes D !! name with
                                   | Some scope => scope_items cfg name scope
                                   | None => []
                                   end) l) s in
  pendingAnnotation_ s'.1 = "" ∧ scopes_read D (done ++ l) (data_ s'.1).
Proof.
  intros Hwf. revert done s.
  induction l as [|name l IH]; intros done s Hl Hnd Hpend Hread; cbn zeta.
  - rewrite app_nil_r. now split.
  - cbn [flat_map]. rewrite run_app.
    destruct (Hl name) as [sc Hsc]; [now left|]. rewrite Hsc.
    assert (Hnew : name ∉ done).
    { intros Hin. apply NoDup_app in Hnd as (_ & Hdisj & _).
      apply (Hdisj name Hin). now left. }
    destruct (run_scope_items name sc s) as (Hp1 & cs & Hd1);
      [now apply (gmap_all_at _ _ _ _ Hwf) | assumption
      | now apply (Hread name) |].
    set (s1 := run (scope_items cfg name sc) s) in *.
    replace (done ++ name :: l) with ((done ++ [name]) ++ l)
      by now rewrite <- app_assoc.
    apply IH.
    + intros n Hn. apply Hl. now right.
    + now rewrite <- app_assoc.
    + exact Hp1.
    + rewrite Hd1. intros n. split.
      * intros [Hn| ->%list_elem_of_singleton]%elem_of_app.
        -- destruct (Hread n) as [Hin _].
           destruct (Hin Hn) as (cs' & sc' & Hsc' & Hn').
           exists cs', sc'. split; [assumption|].
           unfold put_scope. cbn. rewrite lookup_insert_ne; [assumption|].
           intros ->. contradiction.
        -- exists cs, sc. split; [assumption | apply put_scope_lookup].
      * intros Hn. unfold put_scope. cbn. rewrite lookup_insert_ne.
        -- apply (Hread n). intros Hin. apply Hn, elem_of_app. now left.
        -- intros ->. apply Hn, elem_of_app. right. now left.
Qed.

End ReadScopes.

(* ===================================================================== *)
(** * The written lines of a well-formed database                         *)
(* ===================================================================== *)

Section WrittenLines.
Local Arguments String.append !_ _ / : simpl nomatch.

Lemma index_str_absent (c : ascii) (p s : string) :
  no_char c s = true → index_str (String c p) s = None.
Proof.
  unfold no_char. induction s as [|x s IH]; intros Hs; [reflexivity|].
  cbn [all_chars] in Hs. apply andb_true_iff in Hs as [Hx Hs].
  apply negb_true_iff in Hx. cbn [index_str is_prefix].
  rewrite Ascii.eqb_sym, Hx. cbn [andb]. now rewrite IH.
Qed.

Lemma index_char_none_inv (c : ascii) (s : string) :
  index_char c s = None → no_char c s = true.
Proof.
  unfold no_char. induction s as [|x s IH]; [reflexivity|].
  cbn [index_char all_chars]. destruct (Ascii.eqb x c); [discriminate|].
  destruct (index_char c s); [discriminate|]. intros _. now rewrite IH.
Qed.

Lemma generated_checksum_wf (n : N) : wf_item (IChecksum (pretty n)) = true.
Proof.
  assert (Hno : ∀ c, (∀ d, negb (Ascii.eqb (pretty_N_char d) c) = true) →
                no_char c QUOTE = true →
                no_char c (pretty n +:+ QUOTE) = true).
  { intros c Hc Hq. rewrite no_char_app, Hq.
    unfold no_char. now rewrite pretty_N_chars. }
  cbn [wf_item]. unfold line_ok, checksumLine. apply andb_true_iff. split.
  - unfold one_line. rewrite 2!no_char_app.
    rewrite (Hno "010"%char);
      [reflexivity
      | apply (digit_char_cases (λ x, negb (Ascii.eqb x "010"))); reflexivity
      | reflexivity].
  - assert (HG : no_char "G" (pretty n +:+ QUOTE) = true)
      by (apply Hno; [apply (digit_char_cases (λ x, negb (Ascii.eqb x "G")))|];
          reflexivity).
    assert (HF : no_char "F" (pretty n +:+ QUOTE) = true)
      by (apply Hno; [apply (digit_char_cases (λ x, negb (Ascii.eqb x "F")))|];
          reflexivity).
    assert (HD : no_char "D" (pretty n +:+ QUOTE) = true)
      by (apply Hno; [apply (digit_char_cases (λ x, negb (Ascii.eqb x "D")))|];
          reflexivity).
    assert (HE : no_char "E" (pretty n +:+ QUOTE) = true)
      by (apply Hno; [apply (digit_char_cases (λ x, negb (Ascii.eqb x "E")))|];
          reflexivity).
    apply negb_true_iff. unfold isHeaderLine, find_found, find_str. simpl.
    rewrite (index_str_absent "G" _ _ HG), (index_str_absent "F" _ _ HF),
      (index_str_absent "D" _ _ HD), (index_str_absent "E" _ _ HE).
    reflexivity.
Qed.

Lemma comment_field_wf (pre v : string) :
  is_prefix "//" pre = true → one_line pre = true →
  v ≠ "" → one_line v = true → not_trim_char (back v) = true →
  wf_item (IComment (pre +:+ v)) = true.
Proof.
  intros Hpre Hone Hv Hv1 Hvb. cbn [wf_item].
  pose proof (is_prefix_split _ _ Hpre) as Hsplit.
  rewrite !andb_true_iff. repeat split.
  - rewrite Hsplit, app_assoc_str. apply is_prefix_app.
  - unfold trimmed. rewrite back_app, Hvb by assumption.
    rewrite front_app by (intros ->; discriminate).
    rewrite Hsplit. reflexivity.
  - unfold one_line in *. now rewrite no_char_app, Hone, Hv1.
Qed.

Lemma header_field_wf (pre v : string) (c : ascii) (r : string) :
  is_prefix "//" pre = true → one_line pre = true →
  header_field_ok v = true → v = String c r →
  wf_item (IComment (pre +:+ String c r)) = true.
Proof.
  intros Hpre Hone Hok Hv. rewrite <- Hv.
  unfold header_field_ok, trim_fixed in Hok.
  apply andb_true_iff in Hok as [Hv1 Ht].
  apply orb_true_iff in Ht as [He|Ht].
  { apply String.eqb_eq in He. congruence. }
  unfold trimmed in Ht. apply andb_true_iff in Ht as [_ Hb].
  apply comment_field_wf; try assumption. congruence.
Qed.

Lemma Forall_flat_map_in {X A : Type} (P : A → Prop) (g : X → list A)
    (l : list X) :
  (∀ x, x ∈ l → Forall P (g x)) → Forall P (flat_map g l).
Proof.
  induction l as [|x l IH]; intros Hg; [constructor|].
  cbn [flat_map]. apply Forall_app. split.
  - apply Hg. now left.
  - apply IH. intros y Hy. apply Hg. now right.
Qed.

End WrittenLines.

Section WrittenItems.
Context `{Platform}.
Variable cfg : WriterConfig.

Lemma local_time_text_wf :
  wf_item (IComment ("// Date: " +:+ local_time_text)) = true.
Proof.
  pose proof local_time_text_ends as Hend.
  apply comment_field_wf; try reflexivity.
  - intros He. rewrite He in Hend. discriminate.
  - apply index_char_none_inv, local_time_text_one_line.
  - revert Hend. unfold not_trim_char.
    destruct (back local_time_text); [now intros -> | discriminate].
Qed.

Lemma header_items_wf (D : ExclusionData) :
  wf_data D = true → Forall (λ it, wf_item it = true) (header_items D).
Proof.
  unfold wf_data. rewrite !andb_true_iff.
  intros [[[[Hg Hv] Hd] Hm] _]. unfold header_items.
  repeat apply Forall_cons_2; try apply Forall_nil_2; try reflexivity.
  - destruct (generatedBy D) eqn:E; [reflexivity|].
    now apply (header_field_wf _ (String a s)).
  - destruct (formatVersion D) eqn:E; [reflexivity|].
    now apply (header_field_wf _ (String a s)).
  - destruct (generationDate D) eqn:E; [apply local_time_text_wf|].
    now apply (header_field_wf _ (String a s)).
  - destruct (exclusionMode D) eqn:E; [reflexivity|].
    now apply (header_field_wf _ (String a s)).
Qed.

Lemma annotation_items_wf (a : string) :
  annotation_ok a = true →
  Forall (λ it, wf_item it = true) (annotation_items cfg a).
Proof.
  unfold annotation_ok. intros [Hq Hl]%andb_true_iff. unfold annotation_items.
  destruct (includeAnnotations cfg && negb (String.eqb a ""));
    [|apply Forall_nil_2].
  apply Forall_cons_2; [|apply Forall_nil_2].
  cbn [wf_item]. now rewrite escapeString_no_quote.
Qed.

Lemma annotated_item_wf (a : string) (it : Item) :
  annotation_ok a = true → wf_item it = true →
  Forall (λ it, wf_item it = true) (annotation_items cfg a ++ [it]).
Proof.
  intros Ha Hit. apply Forall_app. split; [now apply annotation_items_wf|].
  apply Forall_cons_2; [assumption | apply Forall_nil_2].
Qed.

Lemma scope_items_wf (name : string) (sc : ExclusionScope) :
  wf_scope name sc = true →
  Forall (λ it, wf_item it = true) (scope_items cfg name sc).
Proof.
  unfold wf_scope. rewrite !andb_true_iff.
  intros [[[[[[_ Hsc] Hcs] Hb] Ht] Hf] Hc].
  unfold scope_items. repeat (apply Forall_app; split).
  - unfold checksum_items. destruct (scope_checksum sc) eqn:E.
    + destruct (generateChecksums cfg); [|apply Forall_nil_2].
      apply Forall_cons_2; [|apply Forall_nil_2]. apply generated_checksum_wf.
    + apply Forall_cons_2; [assumption | apply Forall_nil_2].
  - apply Forall_cons_2; [assumption | apply Forall_nil_2].
  - apply Forall_flat_map_in. intros k _.
    destruct (blockExclusions sc !! k) as [b|] eqn:Hk; [|apply Forall_nil_2].
    apply (gmap_all_at _ _ _ _ Hb) in Hk. unfold wf_block in Hk.
    apply andb_true_iff in Hk as [[_ Hit]%andb_true_iff Ha].
    now apply annotated_item_wf.
  - apply Forall_flat_map_in. intros k _.
    apply Forall_flat_map_in. intros t Hin.
    apply (vectors_at wf_toggle _ _ _ Ht) in Hin. unfold wf_toggle in Hin.
    apply andb_true_iff in Hin as [[_ Hit]%andb_true_iff Ha].
    now apply annotated_item_wf.
  - apply Forall_flat_map_in. intros k _.
    apply Forall_flat_map_in. intros f Hin.
    apply (vectors_at wf_fsm _ _ _ Hf) in Hin. unfold wf_fsm in Hin.
    apply andb_true_iff in Hin as [[[_ Hit]%andb_true_iff Ha]%andb_true_iff _].
    now apply annotated_item_wf.
  - apply Forall_flat_map_in. intros k _.
    destruct (conditionExclusions sc !! k) as [c|] eqn:Hk; [|apply Forall_nil_2].
    apply (gmap_all_at _ _ _ _ Hc) in Hk. unfold wf_condition in Hk.
    apply andb_true_iff in Hk as [[_ Hit]%andb_true_iff Ha].
    now apply annotated_item_wf.
Qed.

Lemma data_items_wf (D : ExclusionData) :
  wf_data D = true → Forall (λ it, wf_item it = true) (data_items cfg D).
Proof.
  intros Hwf. unfold data_items. apply Forall_app. split.
  - destruct (includeComments cfg); [now apply header_items_wf | apply Forall_nil_2].
  - apply Forall_flat_map_in. intros name _.
    destruct (scopes D !! name) as [sc|] eqn:Hn; [|apply Forall_nil_2].
    apply scope_items_wf.
    unfold wf_data in Hwf. apply andb_true_iff in Hwf as [_ Hsc].
    now apply (gmap_all_at _ _ _ _ Hsc).
Qed.

End WrittenItems.

(* ===================================================================== *)
(** * Counting the records of two databases                               *)
(* ===================================================================== *)

Section Counting.

Lemma msum_related {V V' : Type} (f : V → nat) (f' : V' → nat)
    (m : gmap string V) (m' : gmap string V') :
  (∀ k, match m !! k with
        | Some v => ∃ v', m' !! k = Some v' ∧ f' v' = f v
        | None => m' !! k = None
        end) →
  msum f' m' = msum f m.
Proof.
  revert m'. induction m as [|i x m Hi _ IH] using map_first_key_ind;
    intros m' Hrel.
  - assert (m' = ∅) as ->.
    { apply map_empty. intros k. specialize (Hrel k).
      now rewrite lookup_empty in Hrel. }
    now rewrite !msum_empty.
  - pose proof (Hrel i) as Hi'. rewrite lookup_insert_eq in Hi'.
    destruct Hi' as (x' & Hx' & Hfx).
    rewrite (msum_delete f' m' i x' Hx'), msum_insert_None, Hfx by assumption.
    f_equal. apply IH. intros k. destruct (decide (k = i)) as [->|Hk].
    + rewrite Hi. apply lookup_delete_eq.
    + specialize (Hrel k). rewrite lookup_insert_ne in Hrel by congruence.
      now rewrite lookup_delete_ne by congruence.
Qed.

Lemma msum_one {V : Type} (m : gmap string V) : msum (λ _, 1) m = size m.
Proof.
  unfold msum. rewrite <- length_map_to_list.
  induction (map_to_list m) as [|kv l IH]; [reflexivity|].
  cbn. now rewrite IH.
Qed.

Lemma records_fmap {A : Type} (g : A → A) (m : gmap string (list A)) :
  records (map g <$> m) = records m.
Proof.
  apply msum_related. intros k. rewrite lookup_fmap.
  destruct (m !! k) as [v|]; [|reflexivity].
  exists (map g v). split; [reflexivity | apply length_map].
Qed.

Lemma same_records_measure (f : ExclusionScope → nat) (D D' : ExclusionData) :
  (∀ cs sc, f (reparsed cs sc) = f sc) →
  same_records D D' → msum f (scopes D') = msum f (scopes D).
Proof.
  intros Hf Hsame. apply msum_related. intros k. specialize (Hsame k).
  destruct (scopes D !! k) as [sc|]; [|assumption].
  destruct Hsame as [cs Hcs]. exists (reparsed cs sc). now split.
Qed.

Lemma same_records_counts `{Platform} (D D' : ExclusionData) :
  same_records D D' →
  getScopeCount D' = getScopeCount D
  ∧ getTotalExclusionCount D' = getTotalExclusionCount D
  ∧ getExclusionCountsByType D' = getExclusionCountsByType D.
Proof.
  intros Hsame.
  assert (Hb : blockTotal D' = blockTotal D)
    by now apply same_records_measure.
  assert (Hc : conditionTotal D' = conditionTotal D)
    by now apply same_records_measure.
  assert (Ht : toggleTotal D' = toggleTotal D).
  { apply same_records_measure; [|assumption].
    intros cs sc. apply records_fmap. }
  assert (Hf : fsmTotal D' = fsmTotal D)
    by now apply same_records_measure.
  repeat split.
  - unfold getScopeCount. rewrite <- !msum_one.
    now apply same_records_measure.
  - now rewrite !getTotalExclusionCount_spec, Hb, Hc, Ht, Hf.
  - now rewrite !getExclusionCountsByType_spec, Hb, Hc, Ht, Hf.
Qed.

End Counting.

(* ===================================================================== *)
(** * Round trip                                                          *)
(* ===================================================================== *)

Section RoundTrip.
Context `{Platform}.
Variable cfg : WriterConfig.
Hypothesis cfg_annotations : includeAnnotations cfg = true.

Lemma run_header_items (D : ExclusionData) (s : Parser * ParseResult) :
  data_ (run (header_items D) s).1 = data_ s.1
  ∧ pendingAnnotation_ (run (header_items D) s).1 = pendingAnnotation_ s.1.
Proof. unfold run, header_items. cbn [foldl item_step fst]. now split. Qed.

Lemma run_data_items (D : ExclusionData) (s : Parser * ParseResult) :
  wf_data D = true →
  pendingAnnotation_ s.1 = "" → scopes (data_ s.1) = ∅ →
  same_records D (data_ (run (data_items cfg D) s).1).
Proof.
  intros Hwf Hpend Hempty. unfold data_items. rewrite run_app.
  set (s0 := run (if includeComments cfg then header_items D else []) s).
  assert (Hs0 : data_ s0.1 = data_ s.1
                ∧ pendingAnnotation_ s0.1 = pendingAnnotation_ s.1).
  { subst s0. destruct (includeComments cfg);
      [apply run_header_items | now split]. }
  destruct Hs0 as [Hd0 Hp0].
  unfold wf_data in Hwf. apply andb_true_iff in Hwf as [_ Hsc].
  destruct (run_scopes cfg cfg_annotations D (keyOrder cfg (scopes D)) [] s0)
    as [_ Hread]; try assumption.
  - intros n. apply keyOrder_elem.
  - cbn [app]. rewrite keyOrder_perm. apply NoDup_fst_map_to_list.
  - now rewrite Hp0.
  - intros name. split; [now intros ?%not_elem_of_nil|].
    intros _. rewrite Hd0, Hempty. apply lookup_empty.
  - cbn [app] in Hread. intros name. destruct (Hread name) as [Hin Hout].
    destruct (scopes D !! name) as [sc|] eqn:Hn.
    + destruct Hin as (cs & sc' & Hsc' & Hd').
      { apply keyOrder_elem. now rewrite Hn. }
      exists cs. congruence.
    + apply Hout. intros Hk%keyOrder_elem. rewrite Hn in Hk.
      now destruct Hk.
Qed.

End RoundTrip.

(** The round trip on well-formed databases.  Take a database [D] with
    header fields on one line and trimmed, every record filed under its own
    identifier, and fields the line format can carry (no double quote among
    them), a writer configured with annotations enabled,
    white-space indentation and a newline as line ending, and a parser
    whose database has no scope yet.  Parsing the text the writer produces
    for [D] succeeds and gives a database with the same scope count, the
    same total exclusion count and the same counts per kind.  Every scope
    of [D] comes back under its name with the same module flag and with
    the same block, FSM and condition records (identifiers, checksums,
    annotations and all other fields); its toggle records come back with
    every field but the bit index, which is read back as absent. *)
Theorem write_parse_round_trip `{Platform} (cfg : WriterConfig)
    (D : ExclusionData) (p : Parser) :
  wf_config cfg → wf_data D = true → scopes (data_ p) = ∅ →
  let r := parseString (writeToString cfg D) p in
  let D' := data_ r.1 in
  success r.2 = true
  ∧ getScopeCount D' = getScopeCount D
  ∧ getTotalExclusionCount D' = getTotalExclusionCount D
  ∧ getExclusionCountsByType D' = getExclusionCountsByType D
  ∧ ∀ name sc, scopes D !! name = Some sc →
      ∃ sc', scopes D' !! name = Some sc'
             ∧ scopeName sc' = scopeName sc ∧ isModule sc' = isModule sc
             ∧ blockExclusions sc' = blockExclusions sc
             ∧ toggleExclusions sc' = map clear_bitIndex <$> toggleExclusions sc
             ∧ fsmExclusions sc' = fsmExclusions sc
             ∧ conditionExclusions sc' = conditionExclusions sc.
Proof.
  intros Hcfg Hwf Hempty. cbv zeta.
  rewrite (parseString_writeToString cfg D p Hcfg (data_items_wf cfg D Hwf)).
  cbv zeta. cbn [fst snd].
  set (s := run (data_items cfg D) (resetState p, ParseResult_new)).
  assert (Hsame : same_records D (data_ s.1)).
  { destruct Hcfg as [Hann _]. now apply run_data_items. }
  destruct (same_records_counts D (data_ s.1) Hsame) as (Hn & Ht & Hk).
  change (data_ (set_lastResult (λ _, set_success true s.2) s.1))
    with (data_ s.1).
  repeat split; try assumption.
  intros name sc Hsc. specialize (Hsame name). rewrite Hsc in Hsame.
  destruct Hsame as [cs Hcs]. exists (reparsed cs sc).
  repeat split. exact Hcs.
Qed.

Lemma write_parse_round_trip_witness :
  let r := parseString
             (writeToString (H := reference_platform) WriterConfig_default
                            sample_database) Parser_new in
  let D' := data_ r.1 in
  success r.2 = true
  ∧ getScopeCount D' = getScopeCount sample_database
  ∧ getTotalExclusionCount (H := reference_platform) D'
    = getTotalExclusionCount (H := reference_platform) sample_database
  ∧ getExclusionCountsByType (H := reference_platform) D'
    = getExclusionCountsByType (H := reference_platform) sample_database
  ∧ ∀ name sc, scopes sample_database !! name = Some sc →
      ∃ sc', scopes D' !! name = Some sc'
             ∧ scopeName sc' = scopeName sc ∧ isModule sc' = isModule sc
             ∧ blockExclusions sc' = blockExclusions sc
             ∧ toggleExclusions sc' = map clear_bitIndex <$> toggleExclusions sc
             ∧ fsmExclusions sc' = fsmExclusions sc
             ∧ conditionExclusions sc' = conditionExclusions sc.
Proof.
  apply (write_parse_round_trip (H := reference_platform) WriterConfig_default
           sample_database Parser_new).
  - repeat split; try reflexivity. exists "". repeat split; reflexivity.
  - vm_compute. reflexivity.
  - reflexivity.
Defined.

(* ===================================================================== *)
(** * The parse loop on arbitrary input                                   *)
(* ===================================================================== *)

Section ParseLoop.

Lemma classify_cases (line : string) (p : Parser) (r : ParseResult) :
  classify line p r = (false, p, r)
  ∨ (∃ q, classify line p r = (true, q, r)
          ∧ (q = (parseHeader line p).2 ∨ q = (parseChecksum line p).2
             ∨ q = (parseScope line p).2 ∨ q = (parseAnnotation line p).2))
  ∨ (∃ add k, classify line p r
              = (true, add_to_current_scope add p, count_exclusion k r)
              ∧ add_kind add k).
Proof.
  unfold classify.
  destruct (parseHeader line p) as [[] q1] eqn:E1.
  { right. left. exists q1. split; [reflexivity|]. left. reflexivity. }
  destruct (parseChecksum line p) as [[] q2] eqn:E2.
  { right. left. exists q2. split; [reflexivity|]. right. left. reflexivity. }
  destruct (parseScope line p) as [[] q3] eqn:E3.
  { right. left. exists q3. split; [reflexivity|]. right. right. left.
    reflexivity. }
  destruct (parseAnnotation line p) as [[] q4] eqn:E4.
  { right. left. exists q4. split; [reflexivity|]. right. right. right.
    reflexivity. }
  unfold parseBlockExclusion. destruct (find_is_0 line "Block ").
  { right. right. eexists _, BLOCK. split; [reflexivity|]. now eexists. }
  unfold parseToggleExclusion. destruct (find_is_0 line "Toggle ").
  { right. right. eexists _, TOGGLE. split; [reflexivity|]. now eexists. }
  unfold parseFsmExclusion. destruct (find_is_0 line "Fsm ").
  { right. right. eexists _, FSM. split; [reflexivity|]. now eexists. }
  unfold parseConditionExclusion. destruct (find_is_0 line "Condition ").
  { right. right. eexists _, CONDITION. split; [reflexivity|]. now eexists. }
  unfold parseTransition. destruct (find_is_0 line "Transition ").
  - destruct (transitionOfLine line) as [fsm|].
    + right. right. eexists _, FSM. split; [reflexivity|]. now eexists.
    + now left.
  - now left.
Qed.

(** *** [scope_extends] and [data_extends] *)

Lemma scope_extends_refl (s : ExclusionScope) : scope_extends s s.
Proof.
  repeat split; try tauto; intros k l Hl; exists []; now rewrite app_nil_r.
Qed.

Lemma scope_extends_trans (s1 s2 s3 : ExclusionScope) :
  scope_extends s1 s2 → scope_extends s2 s3 → scope_extends s1 s3.
Proof.
  intros (Hn1 & Hc1 & Hm1 & Hb1 & Ht1 & Hf1 & Hd1)
         (Hn2 & Hc2 & Hm2 & Hb2 & Ht2 & Hf2 & Hd2).
  repeat split; try congruence; auto.
  - intros k l Hl. destruct (Ht1 k l Hl) as [l1 H1].
    destruct (Ht2 k _ H1) as [l2 H2]. exists (l1 ++ l2).
    now rewrite app_assoc.
  - intros k l Hl. destruct (Hf1 k l Hl) as [l1 H1].
    destruct (Hf2 k _ H1) as [l2 H2]. exists (l1 ++ l2).
    now rewrite app_assoc.
Qed.

Lemma push_back_at_extends {A : Type} (k0 : string) (x : A)
    (m : gmap string (list A)) (k : string) (l : list A) :
  m !! k = Some l → ∃ l', push_back_at k0 x m !! k = Some (l ++ l').
Proof.
  intros Hl. unfold push_back_at. destruct (decide (k0 = k)) as [->|Hk].
  - rewrite lookup_insert_eq, Hl. now exists [x].
  - rewrite lookup_insert_ne by assumption. exists []. now rewrite app_nil_r.
Qed.

Lemma insert_keeps_keys {V : Type} (k0 : string) (x : V)
    (m : gmap string V) (k : string) :
  is_Some (m !! k) → is_Some (<[k0 := x]> m !! k).
Proof.
  intros Hk. destruct (decide (k0 = k)) as [->|Hne].
  - rewrite lookup_insert_eq. now eexists.
  - now rewrite lookup_insert_ne.
Qed.

Lemma add_kind_extends (add : string → ExclusionScope → ExclusionScope)
    (k : ExclusionType) (a : string) (s : ExclusionScope) :
  add_kind add k → scope_extends s (add a s).
Proof.
  destruct k; intros [x ->]; repeat split; cbn; try tauto;
    try (intros k l Hl; exists []; now rewrite app_nil_r);
    try (intros k l Hl; now apply push_back_at_extends);
    intros k Hk; now apply insert_keeps_keys.
Qed.

Lemma data_extends_refl (d : ExclusionData) : data_extends d d.
Proof. intros n s Hs. exists s. split; [assumption | apply scope_extends_refl]. Qed.

Lemma data_extends_trans (d1 d2 d3 : ExclusionData) :
  data_extends d1 d2 → data_extends d2 d3 → data_extends d1 d3.
Proof.
  intros H12 H23 n s Hs. destruct (H12 n s Hs) as (s2 & Hs2 & He2).
  destruct (H23 n s2 Hs2) as (s3 & Hs3 & He3). exists s3.
  split; [assumption | now apply (scope_extends_trans s s2 s3)].
Qed.

Lemma data_extends_scopes (d d' : ExclusionData) :
  scopes d' = scopes d → data_extends d d'.
Proof.
  intros Heq n s Hs. exists s. rewrite Heq.
  split; [assumption | apply scope_extends_refl].
Qed.

Lemma getOrCreateScope_extends (name cs : string) (m : bool) (d : ExclusionData) :
  data_extends d (getOrCreateScope name cs m d).1.
Proof.
  unfold getOrCreateScope. destruct (scopes d !! name) as [s|] eqn:Hn; cbn.
  - apply data_extends_refl.
  - intros n s Hs. exists s. cbn. rewrite lookup_insert_ne by congruence.
    split; [assumption | apply scope_extends_refl].
Qed.

Lemma update_scope_extends (name : string) (f : ExclusionScope → ExclusionScope)
    (d : ExclusionData) :
  (∀ s, scope_extends s (f s)) → data_extends d (update_scope name f d).
Proof.
  intros Hf n s Hs. unfold update_scope. cbn.
  destruct (decide (name = n)) as [->|Hne].
  - exists (f s). rewrite lookup_alter_eq, Hs. split; [reflexivity | apply Hf].
  - exists s. rewrite lookup_alter_ne by assumption.
    split; [assumption | apply scope_extends_refl].
Qed.

(** *** The classifiers one by one *)

Lemma parser_step_refl (p : Parser) : parser_step p p.
Proof. repeat split. apply data_extends_refl. Qed.

Lemma parseHeader_step (line : string) (p : Parser) :
  parser_step p (parseHeader line p).2.
Proof.
  unfold parseHeader.
  repeat (match goal with
          | |- context [if ?c then _ else _] => destruct c
          end);
    cbn [snd]; try apply parser_step_refl;
    (destruct (after_colon line); [|apply parser_step_refl]);
    repeat split; now apply data_extends_scopes.
Qed.

Lemma parseChecksum_step (line : string) (p : Parser) :
  parser_step p (parseChecksum line p).2.
Proof.
  unfold parseChecksum. destruct (find_is_0 line "CHECKSUM:");
    [|apply parser_step_refl].
  cbn [snd]. destruct (after_colon line) as [v|]; [|apply parser_step_refl].
  cbv zeta.
  destruct (validateChecksums _ && negb (validateChecksum (strip_quotes v)));
    repeat split; apply data_extends_refl.
Qed.

Lemma parseScope_step (line : string) (p : Parser) :
  parser_step p (parseScope line p).2.
Proof.
  unfold parseScope.
  repeat (match goal with
          | |- context [if ?c then _ else _] => destruct c
          end);
    cbn [snd]; try apply parser_step_refl;
    (destruct (after_colon line); [|apply parser_step_refl]);
    repeat split; cbn; apply getOrCreateScope_extends.
Qed.

Lemma parseAnnotation_step (line : string) (p : Parser) :
  parser_step p (parseAnnotation line p).2.
Proof.
  unfold parseAnnotation.
  repeat (match goal with
          | |- context [if ?c then _ else _] => destruct c
          end);
    cbn [snd]; try apply parser_step_refl;
    (destruct (after_colon line); [|apply parser_step_refl]);
    repeat split; apply data_extends_refl.
Qed.

Lemma add_to_current_scope_step
    (add : string → ExclusionScope → ExclusionScope) (k : ExclusionType)
    (p : Parser) :
  add_kind add k → parser_step p (add_to_current_scope add p).
Proof.
  intros Hk. unfold add_to_current_scope.
  destruct (currentScope_ p) as [|c n]; [apply parser_step_refl|].
  repeat split. cbn.
  eapply data_extends_trans; [apply getOrCreateScope_extends|].
  apply update_scope_extends. intros s. now apply (add_kind_extends add k).
Qed.

(** Every classifier keeps the configuration and the line number and only
    adds to the database; the result changes by one counted exclusion at
    most. *)
Lemma classify_step (line : string) (p : Parser) (r : ParseResult) :
  parser_step p (classify line p r).1.2
  ∧ ((classify line p r).2 = r
     ∨ ∃ k, (classify line p r).1.1 = true
            ∧ (classify line p r).2 = count_exclusion k r)
  ∧ ((classify line p r).1.1 = false → (classify line p r).1.2 = p).
Proof.
  destruct (classify_cases line p r)
    as [E | [(q & E & Hq) | (add & k & E & Hk)]]; rewrite E; cbn.
  - repeat split; [apply data_extends_refl | now left].
  - split; [|split; [now left | discriminate]].
    destruct Hq as [-> | [-> | [-> | ->]]];
      [apply parseHeader_step | apply parseChecksum_step
      | apply parseScope_step | apply parseAnnotation_step].
  - split; [now apply (add_to_current_scope_step add k)|].
    split; [right; now exists k | discriminate].
Qed.

Lemma counts_total_add (k : ExclusionType) (n : nat) (c : TypeCounts) :
  counts_total (count_add k n c) = counts_total c + n.
Proof. destruct k; unfold counts_total, count_add; cbn; lia. Qed.

(** One turn of the loop. *)
Lemma parseLine_step (raw : string) (p : Parser) (r : ParseResult) :
  match parseLine raw p r with
  | Continue p' r' =>
      config_ p' = config_ p
      ∧ currentLineNumber_ p' = S (currentLineNumber_ p)
      ∧ data_extends (data_ p) (data_ p')
      ∧ linesProcessed r' = S (linesProcessed r)
      ∧ success r' = success r ∧ errorMessage r' = errorMessage r
      ∧ (exclusionsParsed r = counts_total (exclusionCounts r) →
         exclusionsParsed r' = counts_total (exclusionCounts r'))
  | Return p' r' =>
      strictMode (config_ p) = true ∧ p' = incr_lineNumber p
      ∧ linesProcessed r' = S (linesProcessed r)
      ∧ success r' = success r
      ∧ errorMessage r'
        = "Line " +:+ to_string (S (currentLineNumber_ p))
          +:+ ": Unrecognized line format: " +:+ trim raw
      ∧ exclusionsParsed r' = exclusionsParsed r
      ∧ exclusionCounts r' = exclusionCounts r
      ∧ trim raw ≠ "" ∧ isComment (trim raw) = false
      ∧ (classify (trim raw) (incr_lineNumber p) (incr_linesProcessed r)).1.1
        = false
  end.
Proof.
  unfold parseLine. cbv zeta.
  destruct (trim raw) as [|c t] eqn:Ht.
  { repeat split; try reflexivity; [apply data_extends_refl | tauto]. }
  rewrite <- Ht.
  destruct (isComment (trim raw)) eqn:Hc.
  { repeat split; try reflexivity; [apply data_extends_refl | tauto]. }
  pose proof (classify_step (trim raw) (incr_lineNumber p)
                (incr_linesProcessed r)) as (Hstep & Hres & Hfalse).
  destruct (classify (trim raw) (incr_lineNumber p) (incr_linesProcessed r))
    as [[b q] r2] eqn:E.
  cbn [fst snd] in Hstep, Hres, Hfalse.
  destruct Hstep as (Hcfg & Hln & Hext). cbn in Hcfg, Hln, Hext.
  destruct b.
  - repeat split; try assumption.
    + destruct Hres as [-> | (k & _ & ->)]; reflexivity.
    + destruct Hres as [-> | (k & _ & ->)]; reflexivity.
    + destruct Hres as [-> | (k & _ & ->)]; reflexivity.
    + intros Hinv. destruct Hres as [-> | (k & _ & ->)]; cbn; [assumption|].
      rewrite counts_total_add, Hinv. lia.
  - rewrite (Hfalse eq_refl) in *.
    destruct Hres as [-> | (k & Hk & _)]; [|discriminate].
    cbn [config_ incr_lineNumber]. destruct (strictMode (config_ p)) eqn:Hs.
    + repeat split; try reflexivity; try assumption.
      rewrite Ht. discriminate.
    + repeat split; try reflexivity; try assumption. tauto.
Qed.

(** The whole loop, from any state. *)
Lemma parseLines_accounting (lines : list string) (p : Parser) (r0 : ParseResult) :
  let r := (parseLines lines p r0).2 in
  (exclusionsParsed r0 = counts_total (exclusionCounts r0) →
   exclusionsParsed r = counts_total (exclusionCounts r))
  ∧ linesProcessed r ≤ linesProcessed r0 + length lines
  ∧ (success r0 = false → success r = true →
     linesProcessed r = linesProcessed r0 + length lines)
  ∧ (strictMode (config_ p) = false →
     success r = true ∧ errorMessage r = errorMessage r0)
  ∧ data_extends (data_ p) (data_ (parseLines lines p r0).1).
Proof.
  cbv zeta. revert p r0. induction lines as [|raw rest IH]; intros p r0.
  - cbn. repeat split; try tauto; try lia. apply data_extends_refl.
  - cbn [parseLines length]. pose proof (parseLine_step raw p r0) as Hstep.
    destruct (parseLine raw p r0) as [p1 r1 | p1 r1].
    + destruct Hstep as (Hcfg & _ & Hext & Hlp & Hsucc & Herr & Hinv).
      destruct (IH p1 r1) as (IH1 & IH2 & IH3 & IH4 & IH5).
      repeat split.
      * intros H0. apply IH1, Hinv, H0.
      * lia.
      * intros H0 H1. rewrite IH3 by congruence. lia.
      * apply IH4. congruence.
      * rewrite <- Herr. apply IH4. congruence.
      * now apply (data_extends_trans _ (data_ p1)).
    + destruct Hstep as (Hs & -> & Hlp & Hsucc & _ & Hx & Hc & _).
      cbn [fst snd]. repeat split; try congruence; try lia.
      apply data_extends_refl.
Qed.

(** In strict mode the loop goes on exactly after the lines that get
    through. *)
Lemma parseLine_accepts (raw : string) (p : Parser) (r : ParseResult) :
  match parseLine raw p r with
  | Continue p' r' =>
      strictMode (config_ p) = true → acceptLine raw p r = Some (p', r')
  | Return p' r' =>
      acceptLine raw p r = None
      ∧ (classify (trim raw) (incr_lineNumber p) (incr_linesProcessed r)).1.1
        = false
  end.
Proof.
  unfold parseLine, acceptLine. cbv zeta.
  destruct (trim raw) as [|c t] eqn:Ht; [reflexivity|]. rewrite <- Ht.
  destruct (isComment (trim raw)); [reflexivity|].
  pose proof (classify_step (trim raw) (incr_lineNumber p)
                (incr_linesProcessed r)) as ((Hcfg & _) & _ & _).
  destruct (classify (trim raw) (incr_lineNumber p) (incr_linesProcessed r))
    as [[b q] r2].
  cbn [fst snd] in Hcfg. cbn in Hcfg.
  destruct b; [reflexivity|].
  destruct (strictMode (config_ q)) eqn:Hs; [now split|].
  intros Hp. congruence.
Qed.

(** Where a parse that did not succeed stopped: at the first line that
    does not get through. *)
Lemma parseLines_stop_first (lines : list string) (p : Parser)
    (r0 : ParseResult) :
  success r0 = false →
  success (parseLines lines p r0).2 = false →
  ∃ l1 raw l2 p1 r1,
    lines = l1 ++ raw :: l2
    ∧ strictMode (config_ p) = true
    ∧ acceptLines l1 p r0 = Some (p1, r1)
    ∧ trim raw ≠ "" ∧ isComment (trim raw) = false
    ∧ (classify (trim raw) (incr_lineNumber p1) (incr_linesProcessed r1)).1.1
      = false
    ∧ linesProcessed (parseLines lines p r0).2
      = linesProcessed r0 + S (length l1)
    ∧ errorMessage (parseLines lines p r0).2
      = "Line " +:+ to_string (currentLineNumber_ p + S (length l1))
        +:+ ": Unrecognized line format: " +:+ trim raw
    ∧ data_ (parseLines lines p r0).1 = data_ p1.
Proof.
  revert p r0. induction lines as [|raw rest IH]; intros p r0 H0 Hfail.
  - discriminate Hfail.
  - cbn [parseLines] in *. pose proof (parseLine_step raw p r0) as Hstep.
    pose proof (parseLine_accepts raw p r0) as Hacc.
    destruct (parseLine raw p r0) as [p1 r1 | p1 r1] eqn:E.
    + destruct Hstep as (Hcfg & Hln & _ & Hlp & Hsucc & _).
      destruct (IH p1 r1)
        as (l1 & raw' & l2 & q & r & -> & Hs & Ha & Hne & Hc & Hcl & Hl & He & Hd);
        [congruence | assumption |].
      exists (raw :: l1), raw', l2, q, r. cbn [length app acceptLines].
      rewrite Hacc by congruence.
      repeat split; try assumption; try congruence.
      * rewrite Hl, Hlp. lia.
      * rewrite He, Hln. do 3 f_equal. lia.
    + destruct Hstep as (Hs & -> & Hlp & _ & He & _ & _ & Hne & Hc & _).
      destruct Hacc as [_ Hcl].
      exists [], raw, rest, p, r0. cbn [length app acceptLines fst snd].
      repeat split; try assumption.
      * rewrite Hlp. lia.
      * rewrite He. do 3 f_equal. lia.
Qed.

End ParseLoop.

Section Growth.

Lemma msum_le {V V' : Type} (f : V → nat) (f' : V' → nat)
    (m : gmap string V) (m' : gmap string V') :
  (∀ k v, m !! k = Some v → ∃ v', m' !! k = Some v' ∧ f v ≤ f' v') →
  msum f m ≤ msum f' m'.
Proof.
  revert m'. induction m as [|i x m Hi _ IH] using map_first_key_ind;
    intros m' Hrel.
  - rewrite msum_empty. lia.
  - destruct (Hrel i x) as (x' & Hx' & Hfx); [apply lookup_insert_eq|].
    rewrite (msum_delete f' m' i x' Hx'), msum_insert_None by assumption.
    assert (msum f m ≤ msum f' (delete i m')); [|lia].
    apply IH. intros k v Hk.
    assert (k ≠ i) by (intros ->; congruence).
    destruct (Hrel k v) as (v' & Hv' & Hle).
    { now rewrite lookup_insert_ne by congruence. }
    exists v'. split; [|assumption]. now rewrite lookup_delete_ne by congruence.
Qed.

Lemma size_le_keys {V : Type} (m m' : gmap string V) :
  (∀ k, is_Some (m !! k) → is_Some (m' !! k)) → size m ≤ size m'.
Proof.
  intros Hk. rewrite <- !msum_one. apply msum_le. intros k v Hv.
  destruct (Hk k) as [v' Hv']; [now exists v|]. now exists v'.
Qed.

Lemma records_le_prefix {A : Type} (m m' : gmap string (list A)) :
  (∀ k l, m !! k = Some l → ∃ l', m' !! k = Some (l ++ l')) →
  records m ≤ records m'.
Proof.
  intros Hk. apply msum_le. intros k l Hl. destruct (Hk k l Hl) as [l' Hl'].
  exists (l ++ l'). split; [assumption|]. rewrite length_app. lia.
Qed.

Lemma data_extends_measure (f : ExclusionScope → nat) (d d' : ExclusionData) :
  (∀ s s', scope_extends s s' → f s ≤ f s') →
  data_extends d d' → msum f (scopes d) ≤ msum f (scopes d').
Proof.
  intros Hf Hext. apply msum_le. intros n s Hs.
  destruct (Hext n s Hs) as (s' & Hs' & He). exists s'. split; auto.
Qed.

Lemma data_extends_counts `{Platform} (d d' : ExclusionData) :
  data_extends d d' →
  getScopeCount d ≤ getScopeCount d'
  ∧ getTotalExclusionCount d ≤ getTotalExclusionCount d'.
Proof.
  intros Hext. split.
  - unfold getScopeCount. apply size_le_keys. intros n [s Hs].
    destruct (Hext n s Hs) as (s' & Hs' & _). now exists s'.
  - rewrite !getTotalExclusionCount_spec.
    assert (blockTotal d ≤ blockTotal d').
    { apply data_extends_measure; [|assumption].
      intros s s' (_ & _ & _ & Hb & _). now apply size_le_keys. }
    assert (conditionTotal d ≤ conditionTotal d').
    { apply data_extends_measure; [|assumption].
      intros s s' (_ & _ & _ & _ & _ & _ & Hc). now apply size_le_keys. }
    assert (toggleTotal d ≤ toggleTotal d').
    { apply data_extends_measure; [|assumption].
      intros s s' (_ & _ & _ & _ & Ht & _). now apply records_le_prefix. }
    assert (fsmTotal d ≤ fsmTotal d').
    { apply data_extends_measure; [|assumption].
      intros s s' (_ & _ & _ & _ & _ & Hf & _). now apply records_le_prefix. }
    lia.
Qed.

End Growth.

(* ===================================================================== *)
(** * Properties of the code beside the specification's claims            *)
(* ===================================================================== *)

(** ** The parse loop *)

(** X1.  Whatever text is parsed, the result adds up: [exclusionsParsed] is
    the sum of the four per-kind counters, [linesProcessed] never exceeds
    the number of lines of the text and equals it when the parse succeeded,
    and outside strict mode the parse always succeeds with an empty error
    message. *)
Theorem parseString_accounting (content : string) (p : Parser) :
  let r := (parseString content p).2 in
  exclusionsParsed r = counts_total (exclusionCounts r)
  ∧ linesProcessed r ≤ length (getlines content)
  ∧ (success r = true → linesProcessed r = length (getlines content))
  ∧ (strictMode (config_ p) = false → success r = true ∧ errorMessage r = "").
Proof.
  cbv zeta. unfold parseString, parseStream.
  destruct (parseLines_accounting (getlines content) (resetState p)
              ParseResult_new) as (H1 & H2 & H3 & H4 & _).
  repeat split.
  - now apply H1.
  - exact H2.
  - intros Hs. now apply H3.
  - now apply H4.
  - now apply H4.
Qed.

(** X2.  A parse that does not succeed was stopped by strict mode at the
    first line that is neither blank, nor a comment, nor accepted by a
    classifier: every line before it got through (it is blank, a comment
    or accepted by a classifier), that line is rejected by every
    classifier in the state the lines before it left, the error message
    gives that line's number and its trimmed text, [linesProcessed] is
    that number, the lines after it were not read, and the database holds
    what the lines before it put there. *)
Theorem parseString_strict_stop (content : string) (p : Parser) :
  success (parseString content p).2 = false →
  ∃ l1 raw l2 p1 r1,
    getlines content = l1 ++ raw :: l2
    ∧ strictMode (config_ p) = true
    ∧ acceptLines l1 (resetState p) ParseResult_new = Some (p1, r1)
    ∧ trim raw ≠ "" ∧ isComment (trim raw) = false
    ∧ (classify (trim raw) (incr_lineNumber p1) (incr_linesProcessed r1)).1.1
      = false
    ∧ linesProcessed (parseString content p).2 = S (length l1)
    ∧ errorMessage (parseString content p).2
      = "Line " +:+ to_string (S (length l1))
        +:+ ": Unrecognized line format: " +:+ trim raw
    ∧ data_ (parseString content p).1 = data_ p1.
Proof.
  unfold parseString, parseStream. intros Hfail.
  destruct (parseLines_stop_first (getlines content) (resetState p)
              ParseResult_new eq_refl Hfail)
    as (l1 & raw & l2 & p1 & r1 & Hl & Hs & Ha & Hne & Hc & Hcl & Hn & He & Hd).
  exists l1, raw, l2, p1, r1. repeat split; assumption.
Qed.

Lemma parseString_strict_stop_witness :
  let content := String.append "INSTANCE:top" (String "010" "what is this") in
  let p := setConfig (mkParserConfig true true true false 100) Parser_new in
  ∃ l1 raw l2 p1 r1,
    getlines content = l1 ++ raw :: l2
    ∧ strictMode (config_ p) = true
    ∧ acceptLines l1 (resetState p) ParseResult_new = Some (p1, r1)
    ∧ trim raw ≠ "" ∧ isComment (trim raw) = false
    ∧ (classify (trim raw) (incr_lineNumber p1) (incr_linesProcessed r1)).1.1
      = false
    ∧ linesProcessed (parseString content p).2 = S (length l1)
    ∧ errorMessage (parseString content p).2
      = "Line " +:+ to_string (S (length l1))
        +:+ ": Unrecognized line format: " +:+ trim raw
    ∧ data_ (parseString content p).1 = data_ p1.
Proof.
  apply (parseString_strict_stop
           (String.append "INSTANCE:top" (String "010" "what is this"))
           (setConfig (mkParserConfig true true true false 100) Parser_new)).
  reflexivity.
Defined.

(** X3.  Parsing only adds to the database the parser already holds: every
    scope that was there is still there with its name, checksum and kind,
    with every block and condition identifier it had and with the toggle
    and FSM records it had at the front of their vectors.  The scope count
    and the total exclusion count never go down. *)
Theorem parseString_only_grows `{Platform} (content : string) (p : Parser) :
  let d := data_ p in
  let d' := data_ (parseString content p).1 in
  data_extends d d'
  ∧ getScopeCount d ≤ getScopeCount d'
  ∧ getTotalExclusionCount d ≤ getTotalExclusionCount d'.
Proof.
  cbv zeta. unfold parseString, parseStream.
  destruct (parseLines_accounting (getlines content) (resetState p)
              ParseResult_new) as (_ & _ & _ & _ & Hext).
  split; [exact Hext|]. now apply data_extends_counts.
Qed.

(** ** Strings *)

Section StringScans.
Local Arguments String.append !_ _ / : simpl nomatch.

Lemma split_leading (s : string) :
  ∃ ws r, s = ws +:+ r ∧ all_trim_chars ws = true
          ∧ (r = "" ∨ not_trim_char (front r) = true).
Proof.
  induction s as [|c s (ws & r & -> & Hws & Hr)].
  - exists "", "". repeat split. now left.
  - destruct (mem_char c trim_set) eqn:Hc.
    + exists (String c ws), r. repeat split; [|assumption].
      unfold all_trim_chars in *. cbn [all_chars]. now rewrite Hc.
    + exists "", (String c (ws +:+ r)). repeat split. right.
      unfold not_trim_char, front. now rewrite Hc.
Qed.

Lemma split_trailing (r : string) :
  ∃ core ws, r = core +:+ ws ∧ all_trim_chars ws = true
             ∧ (core = "" ∨ (not_trim_char (back core) = true
                             ∧ front core = front r)).
Proof.
  induction r as [|c r (core & ws & -> & Hws & Hcore)].
  - exists "", "". repeat split. now left.
  - destruct Hcore as [-> | [Hb _]].
    + destruct (mem_char c trim_set) eqn:Hc.
      * exists "", (String c ws). repeat split; [|now left].
        unfold all_trim_chars in *. cbn [all_chars]. now rewrite Hc.
      * exists (String c ""), ws. repeat split; [assumption|]. right.
        split; [|reflexivity]. unfold not_trim_char, back. now rewrite Hc.
    + exists (String c core), ws. repeat split; [assumption|]. right.
      split; [|reflexivity]. destruct core; [discriminate Hb | exact Hb].
Qed.

Lemma trim_all_ws (s : string) : all_trim_chars s = true → trim s = "".
Proof.
  intros Hs. unfold trim.
  pose proof (find_first_not_of_skip s "" trim_set Hs) as Hf.
  rewrite app_empty_r in Hf. now rewrite Hf.
Qed.

Lemma trim_decompose (s : string) :
  ∃ ws1 ws2, s = ws1 +:+ trim s +:+ ws2
             ∧ all_trim_chars ws1 = true ∧ all_trim_chars ws2 = true
             ∧ trim_fixed (trim s) = true.
Proof.
  destruct (split_leading s) as (ws1 & r & -> & Hws1 & Hr).
  destruct (split_trailing r) as (core & ws2 & -> & Hws2 & Hcore).
  destruct Hcore as [-> | [Hb Hf]].
  - assert (Hall : all_trim_chars (ws1 +:+ "" +:+ ws2) = true).
    { unfold all_trim_chars in *. change ("" +:+ ws2) with ws2.
      now rewrite all_chars_app, Hws1, Hws2. }
    rewrite (trim_all_ws _ Hall). now exists ws1, ws2.
  - assert (Ht : trimmed core = true).
    { unfold trimmed. rewrite Hb, andb_true_r.
      destruct Hr as [Hr | Hr]; [|now rewrite Hf].
      destruct core; [discriminate Hb | discriminate Hr]. }
    rewrite (trim_core ws1 core ws2 Hws1 Hws2 Ht).
    exists ws1, ws2. repeat split; try assumption.
    unfold trim_fixed. now rewrite Ht, orb_true_r.
Qed.

Lemma index_char_split (c : ascii) (s : string) (i : nat) :
  index_char c s = Some i →
  ∃ pre post, s = pre +:+ String c post ∧ String.length pre = i
              ∧ no_char c pre = true.
Proof.
  revert i. induction s as [|x s IH]; intros i; cbn [index_char]; [discriminate|].
  destruct (Ascii.eqb x c) eqn:Hx.
  - intros [= <-]. apply Ascii.eqb_eq in Hx as ->. now exists "", s.
  - destruct (index_char c s) as [j|]; [|discriminate]. intros [= <-].
    destruct (IH j eq_refl) as (pre & post & -> & Hl & Hn).
    exists (String x pre), post. repeat split; [now cbn; rewrite Hl|].
    unfold no_char in *. cbn [all_chars]. now rewrite Hx, Hn.
Qed.

Lemma length_take_drop (s : string) (n : nat) (x : ascii) (t : string) :
  drop n s = String x t → String.length (take n s) = n.
Proof.
  revert s. induction n as [|n IH]; intros s; [reflexivity|].
  destruct s as [|y s]; cbn; [discriminate|]. intros Hd. now rewrite (IH s Hd).
Qed.

Lemma find_char_split (s : string) (c : ascii) (pos i : nat) :
  find_char s c pos = Some i →
  ∃ pre post, s = pre +:+ String c post ∧ String.length pre = i
              ∧ pos ≤ i ∧ no_char c (drop pos pre) = true.
Proof.
  unfold find_char. destruct (index_char c (drop pos s)) as [j|] eqn:Hj;
    [|discriminate].
  intros [= <-]. destruct (index_char_split c _ j Hj) as (pre & post & Hd & Hl & Hn).
  assert (Htl : String.length (take pos s) = pos).
  { destruct pre; cbn in Hd; eapply length_take_drop; exact Hd. }
  exists (take pos s +:+ pre), post. repeat split.
  - rewrite app_assoc_str, <- Hd. symmetry. apply take_drop.
  - rewrite length_app_str. lia.
  - lia.
  - rewrite <- Htl at 1. now rewrite drop_app_length.
Qed.

End StringScans.

(** X4.  [trim] takes white space (blank, tab, carriage return, newline)
    off the two ends of a string and nothing else: its result does not
    begin or end with such a character, the argument is the result with
    white space around it, and trimming a second time changes nothing. *)
Theorem trim_idempotent (s : string) :
  trim (trim s) = trim s
  ∧ trim_fixed (trim s) = true
  ∧ ∃ ws1 ws2, s = ws1 +:+ trim s +:+ ws2
               ∧ all_trim_chars ws1 = true ∧ all_trim_chars ws2 = true.
Proof.
  destruct (trim_decompose s) as (ws1 & ws2 & Hs & H1 & H2 & Hf).
  repeat split; [now apply trim_fixed_trim | assumption |].
  now exists ws1, ws2.
Qed.

(** What [extractQuotedString] returns is right: no double quote in the
    text, a position inside the line, and either the empty text with the
    length of the line or the text between two double quotes with nothing
    but the first of them between the start position and the text. *)
Lemma extractQuotedString_found (line : string) (startPos : nat) :
  let '(text, next) := extractQuotedString line startPos in
  no_quote text = true
  ∧ next ≤ String.length line
  ∧ ((text = "" ∧ next = String.length line)
     ∨ ∃ pre post,
         line = pre +:+ QUOTE +:+ text +:+ QUOTE +:+ post
         ∧ next = String.length pre + String.length text + 2
         ∧ startPos ≤ String.length pre
         ∧ no_quote (drop startPos pre) = true).
Proof.
  unfold extractQuotedString.
  destruct (find_char line "034" startPos) as [q1|] eqn:H1;
    [|repeat split; [lia | now left]].
  destruct (find_char_split _ _ _ _ H1) as (pre & post1 & -> & Hl1 & Hle & Hn1).
  assert (Hd : drop (q1 + 1) (pre +:+ String "034" post1) = post1).
  { rewrite <- Hl1.
    change (pre +:+ String "034" post1)
      with (pre +:+ (String "034" "" +:+ post1)).
    rewrite <- app_assoc_str.
    replace (String.length pre + 1)
      with (String.length (pre +:+ String "034" ""))
      by (rewrite length_app_str; reflexivity).
    apply drop_app_length. }
  unfold find_char at 1. rewrite Hd.
  destruct (index_char "034" post1) as [j|] eqn:Hj;
    [|repeat split; [lia | now left]].
  destruct (index_char_split _ _ _ Hj) as (body & post & -> & Hlb & Hnb).
  assert (Hs : substr (pre +:+ String "034" (body +:+ String "034" post))
                      (q1 + 1) (q1 + 1 + j - q1 - 1) = body).
  { unfold substr. rewrite Hd.
    replace (q1 + 1 + j - q1 - 1) with (String.length body) by lia.
    apply take_app_length. }
  rewrite Hs. repeat split.
  - exact Hnb.
  - rewrite length_app_str. cbn. rewrite length_app_str. cbn. lia.
  - right. exists pre, post. repeat split; [lia | lia | exact Hn1].
Qed.

(** X5.  [extractQuotedString] returns the text between the first two
    double quotes at or after the start position, and the position behind
    the second one: whenever the line has two double quotes with no other
    double quote between the start position and the second of them, the
    text between the two and the position behind the second are returned.
    When there is no such pair it returns the empty text and the length of
    the line.  In every case the text has no double quote in it and the
    position is inside the line. *)
Theorem extractQuotedString_spec (line : string) (startPos : nat) :
  (∀ pre text post,
     line = pre +:+ QUOTE +:+ text +:+ QUOTE +:+ post →
     startPos ≤ String.length pre →
     no_quote (drop startPos pre) = true → no_quote text = true →
     extractQuotedString line startPos
     = (text, String.length pre + String.length text + 2))
  ∧ ((∀ pre text post,
        line = pre +:+ QUOTE +:+ text +:+ QUOTE +:+ post →
        startPos ≤ String.length pre →
        no_quote (drop startPos pre) = true → no_quote text = true → False) →
     extractQuotedString line startPos = ("", String.length line))
  ∧ no_quote (extractQuotedString line startPos).1 = true
  ∧ (extractQuotedString line startPos).2 ≤ String.length line.
Proof.
  pose proof (extractQuotedString_found line startPos) as Hf.
  split; [|split].
  - intros pre text post Hl Hpos Hpre Htext.
    now apply (extractQuotedString_shape line pre text post).
  - intros Hnone.
    destruct (extractQuotedString line startPos) as [text next].
    destruct Hf as (Hq & _ & [[-> ->] | (pre & post & Hl & _ & Hpos & Hpre)]);
      [reflexivity|].
    exfalso. exact (Hnone pre text post Hl Hpos Hpre Hq).
  - destruct (extractQuotedString line startPos) as [text next].
    destruct Hf as (Hq & Hn & _). now split.
Qed.

(** ** Single lines, continued *)

Lemma parseHeader_header (line : string) (p : Parser) :
  isHeaderLine line = true →
  (parseHeader line p).1 = true
  ∧ scopes (data_ (parseHeader line p).2) = scopes (data_ p)
  ∧ currentScope_ (parseHeader line p).2 = currentScope_ p
  ∧ pendingAnnotation_ (parseHeader line p).2 = pendingAnnotation_ p
  ∧ currentChecksum_ (parseHeader line p).2 = currentChecksum_ p.
Proof.
  unfold isHeaderLine, parseHeader. intros Hh.
  destruct (find_found line "Generated By User:");
    [destruct (after_colon line); now repeat split|].
  destruct (find_found line "Format Version:");
    [destruct (after_colon line); now repeat split|].
  destruct (find_found line "Date:");
    [destruct (after_colon line); now repeat split|].
  destruct (find_found line "ExclMode:");
    [destruct (after_colon line); now repeat split|].
  discriminate Hh.
Qed.

(** X6.  A line that is not a comment and has one of the four header field
    names anywhere in it is taken for a header line, whatever it begins
    with: it is accepted without a warning, no exclusion is counted, and
    the scopes, the current scope, the buffered checksum and the pending
    annotation are as before.  An exclusion line whose quoted text
    mentions ["Date:"] is therefore not recorded. *)
Theorem header_marker_wins (raw : string) (p : Parser) (r : ParseResult) :
  isHeaderLine (trim raw) = true → isComment (trim raw) = false →
  ∃ p', parseLine raw p r = Continue p' (incr_linesProcessed r)
        ∧ scopes (data_ p') = scopes (data_ p)
        ∧ currentScope_ p' = currentScope_ p
        ∧ pendingAnnotation_ p' = pendingAnnotation_ p
        ∧ currentChecksum_ p' = currentChecksum_ p.
Proof.
  intros Hh Hc.
  destruct (parseHeader_header (trim raw) (incr_lineNumber p) Hh)
    as (Hb & Hs & Hcur & Hpen & Hcs).
  exists (parseHeader (trim raw) (incr_lineNumber p)).2.
  split; [|now repeat split].
  apply parseLine_classified; [|assumption|].
  - intros He. rewrite He in Hh. discriminate Hh.
  - unfold classify.
    destruct (parseHeader (trim raw) (incr_lineNumber p)) as [b q].
    cbn in Hb. now rewrite Hb.
Qed.

Lemma header_marker_wins_witness :
  ∃ p', parseLine (dq "Block 7 `99` `Date: today`")
          (parseString "INSTANCE:top" Parser_new).1 ParseResult_new
        = Continue p' (incr_linesProcessed ParseResult_new)
        ∧ scopes (data_ p')
          = scopes (data_ (parseString "INSTANCE:top" Parser_new).1)
        ∧ currentScope_ p'
          = currentScope_ (parseString "INSTANCE:top" Parser_new).1
        ∧ pendingAnnotation_ p'
          = pendingAnnotation_ (parseString "INSTANCE:top" Parser_new).1
        ∧ currentChecksum_ p'
          = currentChecksum_ (parseString "INSTANCE:top" Parser_new).1.
Proof.
  apply (header_marker_wins (dq "Block 7 `99` `Date: today`")
           (parseString "INSTANCE:top" Parser_new).1 ParseResult_new);
    reflexivity.
Defined.

(** What [parseScope] does with a scope line, whatever follows the
    colon. *)
Lemma parseScope_line (m : bool) (rest : string) (p : Parser) :
  (parseScope (scopeLine m rest) p).2
  = match rest with
    | EmptyString => p
    | _ => set_data (λ d, (getOrCreateScope (trim rest) (currentChecksum_ p)
                                            m d).1)
                    (set_currentScope (trim rest) m p)
    end.
Proof.
  unfold parseScope. rewrite !find_is_0_prefix. destruct m.
  - change (is_prefix "INSTANCE:" (scopeLine true rest)) with false.
    change (is_prefix "MODULE:" (scopeLine true rest)) with true.
    cbv iota.
    change (scopeLine true rest) with ("MODULE" +:+ String ":" rest).
    rewrite (after_colon_keyword "MODULE" rest eq_refl).
    now destruct rest.
  - change (is_prefix "INSTANCE:" (scopeLine false rest)) with true.
    cbv iota.
    change (scopeLine false rest) with ("INSTANCE" +:+ String ":" rest).
    rewrite (after_colon_keyword "INSTANCE" rest eq_refl).
    now destruct rest.
Qed.

(** X7.  A [MODULE:] or [INSTANCE:] line with some text after the colon and
    no header field name in it makes the scope named by that text,
    trimmed, the current one.  A scope that is new is created with the
    checksum of the last [CHECKSUM:] line read, and that checksum stays
    buffered, so that a later scope without a checksum line of its own
    gets it too; a scope that exists already is left as it is, its kind
    included.  The other scopes and the pending annotation are kept. *)
Theorem scope_line_checksum (raw : string) (p : Parser) (r : ParseResult)
    (rest : string) (m : bool) :
  trim raw = scopeLine m rest → rest ≠ "" →
  isHeaderLine (trim raw) = false →
  let name := trim rest in
  ∃ p', parseLine raw p r = Continue p' (incr_linesProcessed r)
        ∧ currentScope_ p' = name ∧ currentIsModule_ p' = m
        ∧ currentChecksum_ p' = currentChecksum_ p
        ∧ pendingAnnotation_ p' = pendingAnnotation_ p
        ∧ scopes (data_ p') !! name
          = Some (default (ExclusionScope_new name (currentChecksum_ p) m)
                          (scopes (data_ p) !! name))
        ∧ ∀ n, n ≠ name → scopes (data_ p') !! n = scopes (data_ p) !! n.
Proof.
  intros Ht Hrest Hh. cbv zeta.
  exists (parseScope (trim raw) (incr_lineNumber p)).2. split.
  - apply parseLine_classified.
    + rewrite Ht. unfold scopeLine. now destruct m.
    + rewrite Ht. unfold isComment. rewrite !find_is_0_prefix.
      unfold scopeLine. now destruct m.
    + apply classify_when_scope; [|assumption].
      rewrite Ht. unfold scopeLine. now destruct m.
  - rewrite Ht, (parseScope_line m rest).
    destruct rest as [|c rest']; [congruence|].
    set (name := trim (String c rest')). cbn.
    repeat split; unfold getOrCreateScope;
      destruct (scopes (data_ p) !! name) as [s|] eqn:Hs; cbn;
      try assumption; try reflexivity.
    + apply lookup_insert_eq.
    + intros n Hn. now apply lookup_insert_ne.
Qed.

Lemma scope_line_checksum_witness :
  let p := (parseString (dq "CHECKSUM: `12345`
INSTANCE:top") Parser_new).1 in
  let name := trim "  fifo" in
  ∃ p', parseLine "MODULE:  fifo" p ParseResult_new
        = Continue p' (incr_linesProcessed ParseResult_new)
        ∧ currentScope_ p' = name ∧ currentIsModule_ p' = true
        ∧ currentChecksum_ p' = currentChecksum_ p
        ∧ pendingAnnotation_ p' = pendingAnnotation_ p
        ∧ scopes (data_ p') !! name
          = Some (default (ExclusionScope_new name (currentChecksum_ p) true)
                          (scopes (data_ p) !! name))
        ∧ ∀ n, n ≠ name → scopes (data_ p') !! n = scopes (data_ p) !! n.
Proof.
  apply (scope_line_checksum "MODULE:  fifo"
           (parseString (dq "CHECKSUM: `12345`
INSTANCE:top") Parser_new).1 ParseResult_new "  fifo" true);
    [reflexivity | discriminate | reflexivity].
Defined.

(** ** What a parse depends on *)

Section History.

Lemma forget_fields (p q : Parser) :
  forget_lastResult p = forget_lastResult q →
  data_ p = data_ q ∧ config_ p = config_ q
  ∧ currentScope_ p = currentScope_ q
  ∧ currentChecksum_ p = currentChecksum_ q
  ∧ currentIsModule_ p = currentIsModule_ q
  ∧ pendingAnnotation_ p = pendingAnnotation_ q
  ∧ currentLineNumber_ p = currentLineNumber_ q.
Proof.
  destruct p, q. unfold forget_lastResult, set_lastResult. cbn.
  intros [= -> -> -> -> -> -> ->]. now repeat split.
Qed.

Lemma forget_eq (p q : Parser) :
  data_ p = data_ q → config_ p = config_ q →
  currentScope_ p = currentScope_ q →
  currentChecksum_ p = currentChecksum_ q →
  currentIsModule_ p = currentIsModule_ q →
  pendingAnnotation_ p = pendingAnnotation_ q →
  currentLineNumber_ p = currentLineNumber_ q →
  forget_lastResult p = forget_lastResult q.
Proof.
  destruct p, q. unfold forget_lastResult, set_lastResult. cbn.
  now intros -> -> -> -> -> -> ->.
Qed.

(** A function of the parser that reads everything but [lastResult_] and
    writes [lastResult_] only by updating it. *)
Ltac forget_tac p q H :=
  destruct (forget_fields p q H) as (Hd & Hc & Hs & Hcs & Hm & Ha & Hn);
  destruct p, q; cbn in Hd, Hc, Hs, Hcs, Hm, Ha, Hn; subst.

Lemma parseHeader_forget (line : string) (p q : Parser) :
  forget_lastResult p = forget_lastResult q →
  (parseHeader line p).1 = (parseHeader line q).1
  ∧ forget_lastResult (parseHeader line p).2
    = forget_lastResult (parseHeader line q).2.
Proof.
  intros H. forget_tac p q H. unfold parseHeader.
  repeat (match goal with
          | |- context [if ?c then _ else _] => destruct c
          end); cbn [fst snd]; try (split; reflexivity);
    destruct (after_colon line); split; reflexivity.
Qed.

Lemma parseChecksum_forget (line : string) (p q : Parser) :
  forget_lastResult p = forget_lastResult q →
  (parseChecksum line p).1 = (parseChecksum line q).1
  ∧ forget_lastResult (parseChecksum line p).2
    = forget_lastResult (parseChecksum line q).2.
Proof.
  intros H. forget_tac p q H. unfold parseChecksum.
  destruct (find_is_0 line "CHECKSUM:"); [|split; reflexivity].
  cbn [fst snd]. destruct (after_colon line) as [v|]; [|split; reflexivity].
  cbn. now destruct (validateChecksums _ && negb (validateChecksum (strip_quotes v))).
Qed.

Lemma parseScope_forget (line : string) (p q : Parser) :
  forget_lastResult p = forget_lastResult q →
  (parseScope line p).1 = (parseScope line q).1
  ∧ forget_lastResult (parseScope line p).2
    = forget_lastResult (parseScope line q).2.
Proof.
  intros H. forget_tac p q H. unfold parseScope.
  repeat (match goal with
          | |- context [if ?c then _ else _] => destruct c
          end); cbn [fst snd]; try (split; reflexivity);
    destruct (after_colon line); split; reflexivity.
Qed.

Lemma parseAnnotation_forget (line : string) (p q : Parser) :
  forget_lastResult p = forget_lastResult q →
  (parseAnnotation line p).1 = (parseAnnotation line q).1
  ∧ forget_lastResult (parseAnnotation line p).2
    = forget_lastResult (parseAnnotation line q).2.
Proof.
  intros H. forget_tac p q H. unfold parseAnnotation.
  repeat (match goal with
          | |- context [if ?c then _ else _] => destruct c
          end); cbn [fst snd]; try (split; reflexivity);
    destruct (after_colon line); split; reflexivity.
Qed.

Lemma add_to_current_scope_forget
    (add : string → ExclusionScope → ExclusionScope) (p q : Parser) :
  forget_lastResult p = forget_lastResult q →
  forget_lastResult (add_to_current_scope add p)
  = forget_lastResult (add_to_current_scope add q).
Proof.
  intros H. forget_tac p q H. unfold add_to_current_scope. cbn.
  now destruct currentScope_1.
Qed.

Lemma classify_forget (line : string) (p q : Parser) (r : ParseResult) :
  forget_lastResult p = forget_lastResult q →
  (classify line p r).1.1 = (classify line q r).1.1
  ∧ forget_lastResult (classify line p r).1.2
    = forget_lastResult (classify line q r).1.2
  ∧ (classify line p r).2 = (classify line q r).2.
Proof.
  intros H. unfold classify.
  destruct (parseHeader_forget line p q H) as [Hb Hq].
  destruct (parseHeader line p) as [b1 p1], (parseHeader line q) as [b1' q1].
  cbn in Hb, Hq. subst b1'. destruct b1; [now repeat split|]. clear Hq.
  destruct (parseChecksum_forget line p q H) as [Hb Hq].
  destruct (parseChecksum line p) as [b2 p2], (parseChecksum line q) as [b2' q2].
  cbn in Hb, Hq. subst b2'. destruct b2; [now repeat split|]. clear Hq.
  destruct (parseScope_forget line p q H) as [Hb Hq].
  destruct (parseScope line p) as [b3 p3], (parseScope line q) as [b3' q3].
  cbn in Hb, Hq. subst b3'. destruct b3; [now repeat split|]. clear Hq.
  destruct (parseAnnotation_forget line p q H) as [Hb Hq].
  destruct (parseAnnotation line p) as [b4 p4], (parseAnnotation line q) as [b4' q4].
  cbn in Hb, Hq. subst b4'. destruct b4; [now repeat split|]. clear Hq.
  unfold parseBlockExclusion. destruct (find_is_0 line "Block ").
  { repeat split. now apply add_to_current_scope_forget. }
  unfold parseToggleExclusion. destruct (find_is_0 line "Toggle ").
  { repeat split. now apply add_to_current_scope_forget. }
  unfold parseFsmExclusion. destruct (find_is_0 line "Fsm ").
  { repeat split. now apply add_to_current_scope_forget. }
  unfold parseConditionExclusion. destruct (find_is_0 line "Condition ").
  { repeat split. now apply add_to_current_scope_forget. }
  unfold parseTransition. destruct (find_is_0 line "Transition ");
    [destruct (transitionOfLine line)|]; repeat split; try assumption.
  now apply add_to_current_scope_forget.
Qed.

Lemma incr_lineNumber_forget (p q : Parser) :
  forget_lastResult p = forget_lastResult q →
  forget_lastResult (incr_lineNumber p) = forget_lastResult (incr_lineNumber q).
Proof. intros H. forget_tac p q H. reflexivity. Qed.

Lemma parseLine_forget (raw : string) (p q : Parser) (r : ParseResult) :
  forget_lastResult p = forget_lastResult q →
  forget_step (parseLine raw p r) = forget_step (parseLine raw q r).
Proof.
  intros H. apply incr_lineNumber_forget in H. unfold parseLine. cbv zeta.
  destruct (trim raw) as [|c t] eqn:Ht; [cbn; now rewrite H|].
  rewrite <- Ht. destruct (isComment (trim raw)); [cbn; now rewrite H|].
  destruct (classify_forget (trim raw) _ _ (incr_linesProcessed r) H)
    as (Hb & Hq & Hr).
  destruct (classify (trim raw) (incr_lineNumber p) (incr_linesProcessed r))
    as [[b p1] r1],
    (classify (trim raw) (incr_lineNumber q) (incr_linesProcessed r))
    as [[b' q1] r1'].
  cbn in Hb, Hq, Hr. subst b' r1'. cbv beta iota.
  destruct (forget_fields _ _ Hq) as (_ & Hc & _ & _ & _ & _ & Hn).
  destruct b; [cbn; now rewrite Hq|].
  rewrite Hc, Hn. unfold createError. rewrite Hn.
  destruct (strictMode (config_ q1)); cbn; now rewrite Hq.
Qed.

Lemma parseLines_forget (lines : list string) (p q : Parser) (r : ParseResult) :
  forget_lastResult p = forget_lastResult q →
  forget_lastResult (parseLines lines p r).1
  = forget_lastResult (parseLines lines q r).1
  ∧ (parseLines lines p r).2 = (parseLines lines q r).2.
Proof.
  revert p q r. induction lines as [|raw rest IH]; intros p q r H.
  - cbn. split; [|reflexivity]. forget_tac p q H. reflexivity.
  - cbn [parseLines]. pose proof (parseLine_forget raw p q r H) as Hstep.
    destruct (parseLine raw p r) as [p1 r1 | p1 r1],
             (parseLine raw q r) as [q1 r1' | q1 r1'];
      cbn [forget_step] in Hstep; try discriminate;
      (assert (forget_lastResult p1 = forget_lastResult q1 ∧ r1 = r1')
         as [Hq <-] by (split; congruence)).
    + now apply IH.
    + now split.
Qed.

End History.

(** X8.  What [parseString] gives depends on the text, on the database the
    parser holds and on its configuration, and on nothing else that an
    earlier parse left behind: two parsers that agree on the database and
    on the configuration return the same result and end with the same
    database, whatever their current scope, buffered checksum, pending
    annotation, line number and last result were. *)
Theorem parseString_history (content : string) (p q : Parser) :
  data_ p = data_ q → config_ p = config_ q →
  (parseString content p).2 = (parseString content q).2
  ∧ data_ (parseString content p).1 = data_ (parseString content q).1.
Proof.
  intros Hd Hc. unfold parseString, parseStream.
  destruct (parseLines_forget (getlines content) (resetState p) (resetState q)
              ParseResult_new) as [Hp Hr].
  { now apply forget_eq. }
  split; [exact Hr|]. now apply forget_fields in Hp.
Qed.

Lemma parseString_history_witness :
  (parseString (dq "Block 1 `2` `x`")
     (parseString (dq "INSTANCE:a
CHECKSUM: `7`
ANNOTATION: `left over`") Parser_new).1).2
  = (parseString (dq "Block 1 `2` `x`")
       (parseString "INSTANCE:a" Parser_new).1).2
  ∧ data_ (parseString (dq "Block 1 `2` `x`")
             (parseString (dq "INSTANCE:a
CHECKSUM: `7`
ANNOTATION: `left over`") Parser_new).1).1
    = data_ (parseString (dq "Block 1 `2` `x`")
               (parseString "INSTANCE:a" Parser_new).1).1.
Proof.
  apply (parseString_history (dq "Block 1 `2` `x`")
           (parseString (dq "INSTANCE:a
CHECKSUM: `7`
ANNOTATION: `left over`") Parser_new).1
           (parseString "INSTANCE:a" Parser_new).1).
  - vm_compute. reflexivity.
  - reflexivity.
Defined.

(** ** Files, continued *)

(** X9.  A file that does not exist or cannot be opened is not parsed:
    [parseFile] returns [success = false] with an error message, no line
    and no exclusion was read, and the parser keeps its database and its
    last result; only the state between lines is reset.  For a missing
    file the message is ["File does not exist: "] and the name. *)
Theorem parseFile_unreadable (fs : FileSystem) (filename : string) (p : Parser) :
  fileExists fs filename = false ∨ open_file fs filename = None →
  let p' := (parseFile fs filename p).1 in
  let r := (parseFile fs filename p).2 in
  success r = false ∧ errorMessage r ≠ ""
  ∧ linesProcessed r = 0 ∧ exclusionsParsed r = 0
  ∧ data_ p' = data_ p ∧ lastResult_ p' = lastResult_ p
  ∧ currentScope_ p' = "" ∧ pendingAnnotation_ p' = ""
  ∧ (fileExists fs filename = false →
     errorMessage r = "File does not exist: " +:+ filename).
Proof.
  intros Hbad. cbv zeta. unfold parseFile. cbv zeta.
  destruct (fileExists fs filename) eqn:He; cbn [negb].
  - destruct Hbad as [Hbad | Hbad]; [discriminate|].
    destruct (maxFileSize (config_ (resetState p)) <? getFileSize fs filename)%N.
    + repeat split; try reflexivity; discriminate.
    + rewrite Hbad. repeat split; try reflexivity; discriminate.
  - repeat split; try reflexivity. discriminate.
Qed.

Lemma parseFile_unreadable_witness :
  let fs := mkFileSystem (λ _, false) (λ _, 0%N) (λ _, None) in
  let p' := (parseFile fs "a.el" Parser_new).1 in
  let r := (parseFile fs "a.el" Parser_new).2 in
  success r = false ∧ errorMessage r ≠ ""
  ∧ linesProcessed r = 0 ∧ exclusionsParsed r = 0
  ∧ data_ p' = data_ Parser_new ∧ lastResult_ p' = lastResult_ Parser_new
  ∧ currentScope_ p' = "" ∧ pendingAnnotation_ p' = ""
  ∧ (fileExists fs "a.el" = false →
     errorMessage r = "File does not exist: " +:+ "a.el").
Proof.
  apply (parseFile_unreadable
           (mkFileSystem (λ _, false) (λ _, 0%N) (λ _, None)) "a.el" Parser_new).
  left. reflexivity.
Defined.

(** A readable file parsed without [mergeOnLoad] by two parsers of the same
    configuration: the parsers end in the same state, their last result
    apart, and return the same result. *)
Lemma parseFile_forget (fs : FileSystem) (filename content : string)
    (p q : Parser) :
  config_ p = config_ q → mergeOnLoad (config_ p) = false →
  fileExists fs filename = true →
  (getFileSize fs filename ≤ maxFileSize (config_ p))%N →
  open_file fs filename = Some content →
  forget_lastResult (parseFile fs filename p).1
  = forget_lastResult (parseFile fs filename q).1
  ∧ (parseFile fs filename p).2 = (parseFile fs filename q).2.
Proof.
  intros Hc Hm He Hsz Ho. unfold parseFile. cbv zeta.
  rewrite He, Ho. cbn [negb].
  change (config_ (resetState p)) with (config_ p).
  change (config_ (resetState q)) with (config_ q).
  rewrite <- Hc, Hm. cbn [negb].
  assert (Hlt : (maxFileSize (config_ p) <? getFileSize fs filename)%N = false)
    by now apply N.ltb_ge.
  rewrite Hlt. unfold parseStream.
  apply parseLines_forget. now apply forget_eq.
Qed.

(** X10.  Without [mergeOnLoad], what [parseFile] makes of a file that it
    can read does not depend on the parser's past: two parsers with the
    same configuration return the same result and end with the same
    database, whatever database and whatever state the earlier parses
    left in them. *)
Theorem parseFile_history (fs : FileSystem) (filename content : string)
    (p q : Parser) :
  config_ p = config_ q → mergeOnLoad (config_ p) = false →
  fileExists fs filename = true →
  (getFileSize fs filename ≤ maxFileSize (config_ p))%N →
  open_file fs filename = Some content →
  (parseFile fs filename p).2 = (parseFile fs filename q).2
  ∧ data_ (parseFile fs filename p).1 = data_ (parseFile fs filename q).1.
Proof.
  intros Hc Hm He Hsz Ho.
  destruct (parseFile_forget fs filename content p q Hc Hm He Hsz Ho)
    as [Hp Hr].
  split; [exact Hr|]. now apply forget_fields in Hp.
Qed.

Lemma parseFile_history_witness :
  let fs := mkFileSystem (λ _, true) (λ _, 12%N) (λ _, Some "INSTANCE:top") in
  (parseFile fs "a.el" Parser_new).2
  = (parseFile fs "a.el" (parseString "MODULE:old" Parser_new).1).2
  ∧ data_ (parseFile fs "a.el" Parser_new).1
    = data_ (parseFile fs "a.el" (parseString "MODULE:old" Parser_new).1).1.
Proof.
  apply (parseFile_history
           (mkFileSystem (λ _, true) (λ _, 12%N) (λ _, Some "INSTANCE:top"))
           "a.el" "INSTANCE:top" Parser_new
           (parseString "MODULE:old" Parser_new).1);
    try reflexivity.
  vm_compute. discriminate.
Defined.

(** X11.  With [mergeOnLoad], [parseFile] only adds to the database the
    parser holds, whether the file could be read or not: every scope that
    was there is still there with its name, checksum and kind, with every
    block and condition identifier it had (the record under an identifier
    may be replaced by one of the file) and with the toggle and FSM
    records it had at the front of their vectors. *)
Theorem parseFile_merge_keeps (fs : FileSystem) (filename : string) (p : Parser) :
  mergeOnLoad (config_ p) = true →
  data_extends (data_ p) (data_ (parseFile fs filename p).1).
Proof.
  intros Hm. unfold parseFile. cbv zeta.
  destruct (fileExists fs filename); cbn [negb]; [|apply data_extends_refl].
  destruct (maxFileSize (config_ (resetState p)) <? getFileSize fs filename)%N;
    [apply data_extends_refl|].
  destruct (open_file fs filename) as [content|]; [|apply data_extends_refl].
  change (config_ (resetState p)) with (config_ p). rewrite Hm. cbn [negb].
  unfold parseStream.
  destruct (parseLines_accounting (getlines content)
              (set_data (set_fileName filename) (resetState p))
              ParseResult_new) as (_ & _ & _ & _ & Hext).
  eapply data_extends_trans; [|exact Hext].
  now apply data_extends_scopes.
Qed.

Lemma parseFile_merge_keeps_witness :
  data_extends
    (data_ (setConfig (mkParserConfig false true true true 100)
              (parseString "MODULE:old" Parser_new).1))
    (data_ (parseFile
              (mkFileSystem (λ _, true) (λ _, 12%N) (λ _, Some "INSTANCE:top"))
              "a.el"
              (setConfig (mkParserConfig false true true true 100)
                 (parseString "MODULE:old" Parser_new).1)).1).
Proof.
  apply (parseFile_merge_keeps
           (mkFileSystem (λ _, true) (λ _, 12%N) (λ _, Some "INSTANCE:top"))
           "a.el"
           (setConfig (mkParserConfig false true true true 100)
              (parseString "MODULE:old" Parser_new).1)).
  reflexivity.
Defined.

(** ** The writer's result *)

Section WriterResult.
Context `{Platform}.
Variable cfg : WriterConfig.

Lemma sum_list_with_fmap {A B : Type} (f : B → nat) (g : A → B) (l : list A) :
  sum_list_with f (g <$> l) = sum_list_with (λ x, f (g x)) l.
Proof. induction l as [|x l IH]; cbn; [reflexivity | now rewrite IH]. Qed.

Lemma sum_list_with_ext_in {A : Type} (f g : A → nat) (l : list A) :
  (∀ x, x ∈ l → f x = g x) → sum_list_with f l = sum_list_with g l.
Proof.
  induction l as [|x l IH]; intros Hfg; cbn; [reflexivity|].
  rewrite Hfg by now left. rewrite IH; [reflexivity|].
  intros y Hy. apply Hfg. now right.
Qed.

(** A sum over the keys of a map, in any order, is the sum over the map. *)
Lemma sum_keys {V : Type} (f : V → nat) (m : gmap string V) (l : list string) :
  l ≡ₚ (map_to_list m).*1 →
  sum_list_with (λ n, from_option f 0 (m !! n)) l = msum f m.
Proof.
  intros Hl. rewrite Hl, sum_list_with_fmap. unfold msum.
  apply sum_list_with_ext_in. intros [k v] Hkv.
  apply elem_of_map_to_list in Hkv. cbn. now rewrite Hkv.
Qed.

Lemma foldl_names_counts (m : gmap string ExclusionScope) (l : list string)
    (c : TypeCounts) :
  foldl (λ c n, match m !! n with
                | Some s => add_scope_counts s c
                | None => c
                end) c l
  = mkCounts
      (n_block c
       + sum_list_with (λ n, from_option (λ s, size (blockExclusions s)) 0 (m !! n)) l)
      (n_toggle c
       + sum_list_with (λ n, from_option (λ s, records (toggleExclusions s)) 0 (m !! n)) l)
      (n_fsm c
       + sum_list_with (λ n, from_option (λ s, records (fsmExclusions s)) 0 (m !! n)) l)
      (n_condition c
       + sum_list_with (λ n, from_option (λ s, size (conditionExclusions s)) 0 (m !! n)) l).
Proof.
  revert c. induction l as [|n l IH]; intros c; cbn [foldl sum_list_with].
  - destruct c; cbn; f_equal; lia.
  - rewrite IH. destruct (m !! n) as [s|]; cbn [from_option].
    + rewrite add_scope_counts_spec. cbn. f_equal; lia.
    + f_equal; lia.
Qed.

Lemma tuple4_eq {A B C D : Type} (a a' : A) (b b' : B) (c c' : C) (d d' : D) :
  a = a' → b = b' → c = c' → d = d' → (a, b, c, d) = (a', b', c', d').
Proof. now intros -> -> -> ->. Qed.

(** The loop of [writeToStream] over the scope names, component by
    component. *)
Lemma writeToStream_fold (data : ExclusionData) (l : list string)
    (out : Stream) (a b : nat) (c : TypeCounts) :
  foldl (λ '(out, scopesW, exclW, counts) scopeName,
           match scopes data !! scopeName with
           | Some scope =>
               (writeScope cfg scopeName scope out, S scopesW,
                exclW + Scope_getTotalExclusionCount scope,
                add_scope_counts scope counts)
           | None => (out, scopesW, exclW, counts)
           end)
        (out, a, b, c) l
  = (emit cfg (flat_map (λ name, match scopes data !! name with
                                 | Some scope => scope_items cfg name scope
                                 | None => []
                                 end) l) out,
     a + sum_list_with (λ n, from_option (λ _, 1) 0 (scopes data !! n)) l,
     b + sum_list_with (λ n, from_option Scope_getTotalExclusionCount 0
                                         (scopes data !! n)) l,
     foldl (λ c n, match scopes data !! n with
                   | Some s => add_scope_counts s c
                   | None => c
                   end) c l).
Proof.
  revert out a b c. induction l as [|n l IH]; intros out a b c.
  - cbn. now rewrite emit_nil, !Nat.add_0_r.
  - cbn [foldl flat_map sum_list_with]. rewrite emit_app.
    destruct (scopes data !! n) as [s|]; cbn [from_option].
    + rewrite IH, writeScope_emit. apply tuple4_eq; [reflexivity | lia | lia | reflexivity].
    + rewrite IH, emit_nil. apply tuple4_eq; [reflexivity | lia | lia | reflexivity].
Qed.

Lemma writeToStream_spec (data : ExclusionData) :
  writeToStream cfg data
  = (render_all cfg (data_items cfg data),
     mkWriteResult true "" (length (data_items cfg data))
       (getTotalExclusionCount data) (getScopeCount data) []
       (getExclusionCountsByType data)).
Proof.
  unfold writeToStream.
  set (out0 := if includeComments cfg then writeHeader cfg data ("", 0)
               else ("", 0)).
  rewrite writeToStream_fold, foldl_names_counts.
  rewrite !sum_keys by apply keyOrder_perm.
  assert (Hout : emit cfg (flat_map (λ name, match scopes data !! name with
                                             | Some scope => scope_items cfg name scope
                                             | None => []
                                             end) (keyOrder cfg (scopes data))) out0
                 = (render_all cfg (data_items cfg data),
                    length (data_items cfg data))).
  { unfold data_items, out0. destruct (includeComments cfg).
    - rewrite writeHeader_emit, <- emit_app. unfold emit. cbn [fst snd].
      reflexivity.
    - unfold emit. cbn [fst snd app]. reflexivity. }
  rewrite Hout. cbn [fst snd]. f_equal. f_equal.
  - rewrite getTotalExclusionCount_spec.
    rewrite (msum_ext _ _ _ Scope_getTotalExclusionCount_spec).
    unfold blockTotal, conditionTotal, toggleTotal, fsmTotal.
    rewrite !msum_plus. lia.
  - unfold getScopeCount. now rewrite msum_one.
  - now rewrite getExclusionCountsByType_spec.
Qed.

End WriterResult.

(** X12.  [writeToStream] always succeeds, and its result agrees with the
    database: [scopesWritten] is the scope count, [exclusionsWritten] the
    total exclusion count, the per-kind counters are those of
    [getExclusionCountsByType], there is no warning and no error message,
    and the text is the one [writeToString] returns. *)
Theorem writeToStream_result `{Platform} (cfg : WriterConfig)
    (data : ExclusionData) :
  let r := (writeToStream cfg data).2 in
  w_success r = true ∧ w_errorMessage r = "" ∧ w_warnings r = []
  ∧ scopesWritten r = getScopeCount data
  ∧ exclusionsWritten r = getTotalExclusionCount data
  ∧ w_exclusionCounts r = getExclusionCountsByType data
  ∧ (writeToStream cfg data).1 = writeToString cfg data.
Proof.
  cbv zeta. rewrite (writeToString_items cfg data), writeToStream_spec.
  now repeat split.
Qed.

(** X13.  For a well-formed database and a writer whose line ending ends
    in a newline, [linesWritten] is the number of lines of the text that
    was written. *)
Theorem linesWritten_counts_lines `{Platform} (cfg : WriterConfig)
    (data : ExclusionData) :
  wf_config cfg → wf_data data = true →
  linesWritten (writeToStream cfg data).2
  = length (getlines (writeToStream cfg data).1).
Proof.
  intros (_ & _ & Hind & e & He & _ & Hone) Hwf.
  rewrite writeToStream_spec. cbn [fst snd linesWritten].
  rewrite (getlines_render_all cfg e _ He Hind Hone (data_items_wf cfg data Hwf)).
  now rewrite length_map.
Qed.

Lemma linesWritten_counts_lines_witness :
  linesWritten (writeToStream (H := reference_platform) WriterConfig_default
                              sample_database).2
  = length (getlines (writeToStream (H := reference_platform)
                                    WriterConfig_default sample_database).1).
Proof.
  apply (linesWritten_counts_lines (H := reference_platform)
           WriterConfig_default sample_database).
  - repeat split; try reflexivity. exists "". repeat split; reflexivity.
  - vm_compute. reflexivity.
Defined.

(** ** Sorted output *)

Section SortedOutput.
Variables P1 P2 : Platform.
Variable cfg : WriterConfig.
Hypothesis cfg_sorted : sortExclusions cfg = true.

Lemma keyOrder_sorted_eq {V : Type} (m : gmap string V) :
  keyOrder (H := P1) cfg m = keyOrder (H := P2) cfg m.
Proof.
  unfold keyOrder. rewrite cfg_sorted.
  apply (Sorted_unique String.le); try apply Sorted_merge_sort; try apply _.
  now rewrite !merge_sort_Permutation, !unordered_iter_perm.
Qed.

Lemma flat_map_ext_elem {A B : Type} (f g : A → list B) (l : list A) :
  (∀ x, x ∈ l → f x = g x) → flat_map f l = flat_map g l.
Proof.
  induction l as [|x l IH]; intros Hfg; cbn; [reflexivity|].
  rewrite Hfg by now left. rewrite IH; [reflexivity|].
  intros y Hy. apply Hfg. now right.
Qed.

Lemma scope_items_sorted_eq (name : string) (s : ExclusionScope) :
  generateChecksums cfg = false ∨ scope_checksum s ≠ "" →
  scope_items (H := P1) cfg name s = scope_items (H := P2) cfg name s.
Proof.
  intros Hcs. unfold scope_items. f_equal; [|f_equal].
  - unfold checksum_items. destruct (scope_checksum s); [|reflexivity].
    destruct Hcs as [-> | Hcs]; [reflexivity | congruence].
  - unfold block_items, toggle_items, fsm_items, condition_items.
    now rewrite !keyOrder_sorted_eq.
Qed.

Lemma data_items_sorted_eq (D : ExclusionData) :
  @local_time_text P1 = @local_time_text P2 →
  (generateChecksums cfg = false
   ∨ ∀ n s, scopes D !! n = Some s → scope_checksum s ≠ "") →
  data_items (H := P1) cfg D = data_items (H := P2) cfg D.
Proof.
  intros Htime Hcs. unfold data_items. f_equal.
  - destruct (includeComments cfg); [|reflexivity].
    unfold header_items. now rewrite Htime.
  - rewrite keyOrder_sorted_eq. apply flat_map_ext_elem. intros n _.
    destruct (scopes D !! n) as [s|] eqn:Hn; [|reflexivity].
    apply scope_items_sorted_eq. destruct Hcs as [Hg | Hcs]; [now left|].
    right. now apply (Hcs n).
Qed.

End SortedOutput.

(** X14.  With [sortExclusions] the text does not depend on the iteration
    order of the hash maps nor on the hash function: on two platforms that
    show the same local time, the writer produces the same text for the
    same database, provided no scope checksum has to be generated (either
    [generateChecksums] is off or every scope has a checksum); the
    generated checksum is the one thing that is computed in iteration
    order. *)
Theorem writer_sorted_deterministic (P1 P2 : Platform) (cfg : WriterConfig)
    (D : ExclusionData) :
  sortExclusions cfg = true →
  @local_time_text P1 = @local_time_text P2 →
  (generateChecksums cfg = false
   ∨ ∀ n s, scopes D !! n = Some s → scope_checksum s ≠ "") →
  writeToString (H := P1) cfg D = writeToString (H := P2) cfg D.
Proof.
  intros Hsort Htime Hcs.
  rewrite (writeToString_items (H := P1)), (writeToString_items (H := P2)).
  now rewrite (data_items_sorted_eq P1 P2 cfg Hsort D Htime Hcs).
Qed.

Lemma writer_sorted_deterministic_witness :
  writeToString (H := reference_platform)
    (mkWriterConfig true true true true true "" (String "010" "") false)
    sample_database
  = writeToString (H := reversed_platform)
      (mkWriterConfig true true true true true "" (String "010" "") false)
      sample_database.
Proof.
  apply (writer_sorted_deterministic reference_platform reversed_platform
           (mkWriterConfig true true true true true "" (String "010" "") false)
           sample_database); try reflexivity.
  right. intros n s Hs.
  assert (Hall : gmap_all (λ _ s, negb (String.eqb (scope_checksum s) ""))
                   (scopes sample_database) = true) by (vm_compute; reflexivity).
  pose proof (gmap_all_at _ _ _ _ Hall Hs) as Hn. cbn in Hn.
  intros He. rewrite He in Hn. discriminate Hn.
Defined.

(** ** Escaping *)

Section Escaping.
Local Arguments String.append !_ _ / : simpl nomatch.

Lemma escapeString_app (a b : string) :
  escapeString (a +:+ b) = escapeString a +:+ escapeString b.
Proof.
  induction a as [|x a IH]; [reflexivity|]. cbn [String.append escapeString].
  rewrite IH. now destruct (Ascii.eqb x "034").
Qed.

Lemma find_char_at (done_ rest : string) (c : ascii) :
  find_char (done_ +:+ rest) c (String.length done_)
  = match index_char c rest with
    | Some i => Some (String.length done_ + i)
    | None => None
    end.
Proof. unfold find_char. now rewrite drop_app_length. Qed.

Lemma escapeString_loop_inv (turns : nat) (done_ rest : string) :
  String.length rest < turns →
  escapeString_loop turns (done_ +:+ rest) (String.length done_)
  = Some (done_ +:+ escapeString rest).
Proof.
  revert done_ rest. induction turns as [|turns IH]; intros done_ rest Hlt; [lia|].
  cbn [escapeString_loop]. rewrite find_char_at.
  destruct (index_char "034" rest) as [j|] eqn:Hj.
  - destruct (index_char_split _ _ _ Hj) as (pre & post & -> & Hl & Hn).
    rewrite escapeString_app, (escapeString_no_quote pre Hn).
    cbn [escapeString Ascii.eqb]. rewrite <- Hl.
    assert (Hrep : replace1 (done_ +:+ pre +:+ String "034" post)
                     (String.length done_ + String.length pre)
                     (String "\" (String "034" ""))
                   = (done_ +:+ pre +:+ String "\" (String "034" "")) +:+ post).
    { unfold replace1. rewrite <- !app_assoc_str.
      rewrite <- (length_app_str done_ pre).
      rewrite take_app_length.
      replace (String.length (done_ +:+ pre) + 1)
        with (String.length ((done_ +:+ pre) +:+ String "034" ""))
        by (rewrite length_app_str; reflexivity).
      change (String "034" post) with (String "034" "" +:+ post).
      rewrite <- (app_assoc_str (done_ +:+ pre)), drop_app_length.
      now rewrite !app_assoc_str. }
    rewrite Hrep.
    replace (String.length done_ + String.length pre + 2)
      with (String.length (done_ +:+ pre +:+ String "\" (String "034" "")))
      by (rewrite !length_app_str; cbn; lia).
    rewrite IH.
    + now rewrite !app_assoc_str.
    + rewrite length_app_str in Hlt. cbn in Hlt. lia.
  - assert (Hn : no_quote rest = true).
    { unfold no_quote, no_char. clear -Hj.
      induction rest as [|x r IHr]; [reflexivity|].
      cbn [index_char] in Hj. cbn [all_chars].
      destruct (Ascii.eqb x "034"); [discriminate|].
      destruct (index_char "034" r); [discriminate|]. now rewrite IHr. }
    now rewrite (escapeString_no_quote rest Hn).
Qed.

Lemma escapeString_length (s : string) :
  String.length s ≤ String.length (escapeString s)
  ∧ String.length (escapeString s) ≤ 2 * String.length s.
Proof.
  induction s as [|x s [IH1 IH2]]; [cbn; lia|]. cbn [escapeString].
  destruct (Ascii.eqb x "034"); cbn [String.length]; lia.
Qed.

Lemma escapeString_fixed (s : string) :
  escapeString s = s → no_quote s = true.
Proof.
  unfold no_quote, no_char. induction s as [|x s IH]; [reflexivity|].
  cbn [escapeString all_chars]. destruct (Ascii.eqb x "034") eqn:Hx.
  - intros He. exfalso.
    assert (Hlen : String.length (String "\" (String "034" (escapeString s)))
                   = String.length (String x s)) by now rewrite He.
    cbn in Hlen. destruct (escapeString_length s). lia.
  - intros [= He]. now rewrite (IH He).
Qed.

End Escaping.

(** ** The round trip and double quotes *)

Section QuotedAnnotation.

Local Arguments String.append !_ _ / : simpl nomatch.

(** The line [writeAnnotation] writes for an annotation. *)
Lemma writeAnnotation_line (cfg : WriterConfig) (a : string) :
  a ≠ "" →
  (writeAnnotation cfg a ("", 0)).1
  = indentation cfg +:+ annotationLine (escapeString a) +:+ lineEnding cfg.
Proof.
  intros Ha. destruct a as [|c a]; [congruence|].
  unfold writeAnnotation, writeLine, annotationLine. reflexivity.
Qed.

End QuotedAnnotation.

(** C1.  The round trip does not hold for an annotation with a double quote
    in it.  The writer puts a backslash before each double quote of an
    annotation, and the parser takes the text between the outer quotes of
    an [ANNOTATION:] line as it is: the line written for an annotation [a]
    is read back as [escapeString a], which is not [a] when [a] has a
    double quote.  The document [quoted_annotation_document] is parsed
    with success and without a warning; the database read back from the
    text written for it has the same counts but another annotation on its
    Block record, and the next pass changes the annotation again. *)
Theorem round_trip_changes_quoted_annotation :
  (∀ (cfg : WriterConfig) (a : string) (p : Parser),
     no_quote a = false →
     (writeAnnotation cfg a ("", 0)).1
     = indentation cfg +:+ annotationLine (escapeString a) +:+ lineEnding cfg
     ∧ pendingAnnotation_ (parseAnnotation (annotationLine (escapeString a)) p).2
       = escapeString a
     ∧ escapeString a ≠ a)
  ∧ let r0 := parseString quoted_annotation_document Parser_new in
    let D := data_ r0.1 in
    let r1 := parseString (writeToString (H := reference_platform)
                             WriterConfig_default D) Parser_new in
    let D' := data_ r1.1 in
    let r2 := parseString (writeToString (H := reference_platform)
                             WriterConfig_default D') Parser_new in
    success r0.2 = true ∧ warnings r0.2 = []
    ∧ success r1.2 = true ∧ warnings r1.2 = []
    ∧ getScopeCount D' = getScopeCount D
    ∧ getTotalExclusionCount (H := reference_platform) D'
      = getTotalExclusionCount (H := reference_platform) D
    ∧ block_annotation <$> lookup_block "top" "1" r0.1
      = Some (dq "say `hi`")
    ∧ block_annotation <$> lookup_block "top" "1" r1.1
      = Some (dq "say \`hi\`")
    ∧ block_annotation <$> lookup_block "top" "1" r2.1
      = Some (dq "say \\`hi\\`").
Proof.
  split.
  - intros cfg a p Hq. split; [|split].
    + apply writeAnnotation_line. intros ->. discriminate Hq.
    + now rewrite parseAnnotation_annotationLine.
    + intros Heq. apply escapeString_fixed in Heq. congruence.
  - vm_compute. repeat split; reflexivity.
Qed.

(** X15.  The replace loop of [escapeString] ends, and what it returns is
    the argument with a backslash put before each of its double quotes,
    every other character as it was: the quote it has just written is
    never escaped again.  The result is at most twice as long as the
    argument, and it is the argument itself exactly when the argument has
    no double quote. *)
Theorem escapeString_loop_correct (s : string) :
  (∀ turns, String.length s < turns →
     escapeString_loop turns s 0 = Some (escapeString s))
  ∧ String.length s ≤ String.length (escapeString s)
  ∧ String.length (escapeString s) ≤ 2 * String.length s
  ∧ (escapeString s = s ↔ no_quote s = true)
  ∧ (∀ a b, escapeString (a +:+ b) = escapeString a +:+ escapeString b).
Proof.
  repeat split.
  - intros turns Hlt. apply (escapeString_loop_inv turns "" s Hlt).
  - apply escapeString_length.
  - apply escapeString_length.
  - apply escapeString_fixed.
  - apply escapeString_no_quote.
  - apply escapeString_app.
Qed.

(* ===================================================================== *)
(** * The data manager                                                    *)
(* ===================================================================== *)

Section SearchLemmas.
Context `{Platform}.

Lemma foldl_hits {X A : Type} (P : X → bool) (a : A) (l : list X)
    (results : list A) :
  foldl (λ results x, if P x then results ++ [a] else results) results l
  = results ++ replicate (sum_list_with (λ x, hit (P x)) l) a.
Proof.
  revert results. induction l as [|x l IH]; intros results; cbn [foldl sum_list_with].
  - cbn. now rewrite app_nil_r.
  - rewrite IH. destruct (P x); cbn [hit].
    + rewrite <- app_assoc. reflexivity.
    + reflexivity.
Qed.

Lemma foldl_hits_nested {K X A : Type} (Q : K * list X → bool) (P : X → bool)
    (a : A) (l : list (K * list X)) (results : list A) :
  foldl (λ results kv,
           if Q kv
           then foldl (λ results x, if P x then results ++ [a] else results)
                      results kv.2
           else results) results l
  = results
    ++ replicate (sum_list_with
                    (λ kv, if Q kv then sum_list_with (λ x, hit (P x)) kv.2 else 0)
                    l) a.
Proof.
  revert results. induction l as [|kv l IH]; intros results; cbn [foldl sum_list_with].
  - cbn. now rewrite app_nil_r.
  - rewrite IH. destruct (Q kv).
    + rewrite foldl_hits, <- app_assoc. now rewrite <- replicate_add.
    + reflexivity.
Qed.

Lemma search_blocks_spec (criteria : SearchCriteria) (n : string)
    (s : ExclusionScope) (results : list (string * ExclusionType)) :
  (if wants criteria BLOCK then
     foldl (λ results kv,
              if passes (c_annotation criteria) (block_annotation kv.2)
              then results ++ [(n, BLOCK)] else results)
           results (unordered_iter (blockExclusions s))
   else results)
  = results ++ replicate (kind_hits criteria s BLOCK) (n, BLOCK).
Proof.
  unfold kind_hits. destruct (wants criteria BLOCK).
  - rewrite (foldl_hits (λ kv, passes (c_annotation criteria)
                                      (block_annotation kv.2))).
    now rewrite unordered_iter_perm.
  - cbn. now rewrite app_nil_r.
Qed.

Lemma search_toggles_spec (criteria : SearchCriteria) (n : string)
    (s : ExclusionScope) (results : list (string * ExclusionType)) :
  (if wants criteria TOGGLE then
     foldl (λ results kv,
              if passes (c_signalName criteria) kv.1 then
                foldl (λ results toggle,
                         if passes (c_annotation criteria) (toggle_annotation toggle)
                         then results ++ [(n, TOGGLE)] else results)
                      results kv.2
              else results)
           results (unordered_iter (toggleExclusions s))
   else results)
  = results ++ replicate (kind_hits criteria s TOGGLE) (n, TOGGLE).
Proof.
  unfold kind_hits. destruct (wants criteria TOGGLE).
  - rewrite (foldl_hits_nested (λ kv, passes (c_signalName criteria) kv.1)
               (λ t, passes (c_annotation criteria) (toggle_annotation t))).
    now rewrite unordered_iter_perm.
  - cbn. now rewrite app_nil_r.
Qed.

Lemma search_fsms_spec (criteria : SearchCriteria) (n : string)
    (s : ExclusionScope) (results : list (string * ExclusionType)) :
  (if wants criteria FSM then
     foldl (λ results kv,
              foldl (λ results fsm,
                       if passes (c_annotation criteria) (fsm_annotation fsm)
                       then results ++ [(n, FSM)] else results)
                    results kv.2)
           results (unordered_iter (fsmExclusions s))
   else results)
  = results ++ replicate (kind_hits criteria s FSM) (n, FSM).
Proof.
  unfold kind_hits. destruct (wants criteria FSM).
  - rewrite (foldl_hits_nested (λ _, true)
               (λ f, passes (c_annotation criteria) (fsm_annotation f))).
    now rewrite unordered_iter_perm.
  - cbn. now rewrite app_nil_r.
Qed.

Lemma search_conditions_spec (criteria : SearchCriteria) (n : string)
    (s : ExclusionScope) (results : list (string * ExclusionType)) :
  (if wants criteria CONDITION then
     foldl (λ results kv,
              if passes (c_annotation criteria) (cond_annotation kv.2)
              then results ++ [(n, CONDITION)] else results)
           results (unordered_iter (conditionExclusions s))
   else results)
  = results ++ replicate (kind_hits criteria s CONDITION) (n, CONDITION).
Proof.
  unfold kind_hits. destruct (wants criteria CONDITION).
  - rewrite (foldl_hits (λ kv, passes (c_annotation criteria)
                                      (cond_annotation kv.2))).
    now rewrite unordered_iter_perm.
  - cbn. now rewrite app_nil_r.
Qed.

Lemma search_scope_spec (criteria : SearchCriteria) (n : string)
    (s : ExclusionScope) (results : list (string * ExclusionType)) :
  search_scope criteria n s results = results ++ scope_hits criteria n s.
Proof.
  unfold search_scope, scope_hits. cbv zeta.
  rewrite search_conditions_spec, search_fsms_spec, search_toggles_spec,
    search_blocks_spec.
  now rewrite <- !app_assoc.
Qed.

Lemma search_spec (criteria : SearchCriteria) (data : ExclusionData) :
  search criteria data
  = flat_map (λ kv, if scope_passes criteria kv.1 kv.2
                    then scope_hits criteria kv.1 kv.2 else [])
             (unordered_iter (scopes data)).
Proof.
  unfold search.
  assert (Hgen : ∀ l results,
    foldl (λ results kv,
             if scope_passes criteria kv.1 kv.2
             then search_scope criteria kv.1 kv.2 results
             else results) results l
    = results ++ flat_map (λ kv, if scope_passes criteria kv.1 kv.2
                                 then scope_hits criteria kv.1 kv.2 else []) l).
  { induction l as [|kv l IH]; intros results; cbn [foldl flat_map].
    - now rewrite app_nil_r.
    - rewrite IH. destruct (scope_passes criteria kv.1 kv.2).
      + now rewrite search_scope_spec, <- app_assoc.
      + reflexivity. }
  apply (Hgen _ []).
Qed.

Lemma length_flat_map {A B : Type} (f : A → list B) (l : list A) :
  length (flat_map f l) = sum_list_with (λ x, length (f x)) l.
Proof.
  induction l as [|x l IH]; cbn; [reflexivity|]. now rewrite length_app, IH.
Qed.

Lemma length_scope_hits (criteria : SearchCriteria) (n : string)
    (s : ExclusionScope) :
  length (scope_hits criteria n s)
  = kind_hits criteria s BLOCK + kind_hits criteria s TOGGLE
    + kind_hits criteria s FSM + kind_hits criteria s CONDITION.
Proof. unfold scope_hits. rewrite !length_app, !length_replicate. lia. Qed.

Lemma sum_hits_le {X : Type} (P : X → bool) (l : list X) :
  sum_list_with (λ x, hit (P x)) l ≤ length l.
Proof.
  induction l as [|x l IH]; cbn; [lia|]. destruct (P x); cbn; lia.
Qed.

Lemma sum_list_with_le {X : Type} (f g : X → nat) (l : list X) :
  (∀ x, f x ≤ g x) → sum_list_with f l ≤ sum_list_with g l.
Proof.
  intros Hfg. induction l as [|x l IH]; cbn; [lia|]. specialize (Hfg x). lia.
Qed.

Lemma sum_ones {X : Type} (l : list X) : sum_list_with (λ _, 1) l = length l.
Proof. induction l as [|x l IH]; cbn; [reflexivity | now rewrite IH]. Qed.

(** The hits of each kind are at most the records of that kind. *)
Lemma kind_hits_le (criteria : SearchCriteria) (s : ExclusionScope) :
  kind_hits criteria s BLOCK ≤ size (blockExclusions s)
  ∧ kind_hits criteria s TOGGLE ≤ records (toggleExclusions s)
  ∧ kind_hits criteria s FSM ≤ records (fsmExclusions s)
  ∧ kind_hits criteria s CONDITION ≤ size (conditionExclusions s).
Proof.
  unfold kind_hits, records, msum. split; [|split; [|split]].
  - destruct (wants criteria BLOCK); [|lia].
    rewrite <- length_map_to_list. apply sum_hits_le.
  - destruct (wants criteria TOGGLE); [|lia].
    apply sum_list_with_le. intros kv.
    destruct (passes _ _); [apply sum_hits_le | lia].
  - destruct (wants criteria FSM); [|lia].
    apply sum_list_with_le. intros kv. apply sum_hits_le.
  - destruct (wants criteria CONDITION); [|lia].
    rewrite <- length_map_to_list. apply sum_hits_le.
Qed.

(** Without an annotation and a signal filter, the hits of a wanted kind
    are all its records. *)
Lemma kind_hits_all (criteria : SearchCriteria) (s : ExclusionScope) :
  c_annotation criteria = None → c_signalName criteria = None →
  kind_hits criteria s BLOCK
  = (if wants criteria BLOCK then size (blockExclusions s) else 0)
  ∧ kind_hits criteria s TOGGLE
    = (if wants criteria TOGGLE then records (toggleExclusions s) else 0)
  ∧ kind_hits criteria s FSM
    = (if wants criteria FSM then records (fsmExclusions s) else 0)
  ∧ kind_hits criteria s CONDITION
    = (if wants criteria CONDITION then size (conditionExclusions s) else 0).
Proof.
  intros Ha Hs. unfold kind_hits, records, msum. rewrite Ha, Hs. cbn [passes hit].
  split; [|split; [|split]].
  - destruct (wants criteria BLOCK); [|reflexivity].
    now rewrite sum_ones, length_map_to_list.
  - destruct (wants criteria TOGGLE); [|reflexivity].
    apply sum_list_with_ext_in. intros kv _. apply sum_ones.
  - destruct (wants criteria FSM); [|reflexivity].
    apply sum_list_with_ext_in. intros kv _. apply sum_ones.
  - destruct (wants criteria CONDITION); [|reflexivity].
    now rewrite sum_ones, length_map_to_list.
Qed.

End SearchLemmas.

Section SearchCounts.
Context `{Platform}.

Lemma length_search (criteria : SearchCriteria) (d : ExclusionData) :
  length (search criteria d)
  = sum_list_with
      (λ kv, if scope_passes criteria kv.1 kv.2
             then kind_hits criteria kv.2 BLOCK + kind_hits criteria kv.2 TOGGLE
                  + kind_hits criteria kv.2 FSM + kind_hits criteria kv.2 CONDITION
             else 0)
      (map_to_list (scopes d)).
Proof.
  rewrite search_spec, length_flat_map, unordered_iter_perm.
  apply sum_list_with_ext_in. intros kv _.
  destruct (scope_passes criteria kv.1 kv.2); [apply length_scope_hits | reflexivity].
Qed.

Lemma total_as_sum (d : ExclusionData) :
  getTotalExclusionCount d
  = sum_list_with
      (λ kv, size (blockExclusions kv.2) + records (toggleExclusions kv.2)
             + records (fsmExclusions kv.2) + size (conditionExclusions kv.2))
      (map_to_list (scopes d)).
Proof.
  rewrite getTotalExclusionCount_spec.
  unfold blockTotal, conditionTotal, toggleTotal, fsmTotal, msum.
  induction (map_to_list (scopes d)) as [|kv l IH]; cbn; lia.
Qed.

End SearchCounts.

(** X16.  [search] with no criterion returns as many entries as the
    database has exclusions; with only a kind as criterion, as many as
    [getExclusionCountsByType] counts for that kind; and with any criteria
    never more than the total exclusion count. *)
Theorem search_counts `{Platform} (d : ExclusionData) :
  length (search SearchCriteria_new d) = getTotalExclusionCount d
  ∧ (∀ t, length (search (mkCriteria (Some t) None None None None) d)
          = count_of t (getExclusionCountsByType d))
  ∧ (∀ criteria, length (search criteria d) ≤ getTotalExclusionCount d).
Proof.
  split; [|split].
  - rewrite length_search, total_as_sum.
    apply sum_list_with_ext_in. intros kv _.
    destruct (kind_hits_all SearchCriteria_new kv.2 eq_refl eq_refl)
      as (-> & -> & -> & ->).
    reflexivity.
  - intros t. rewrite length_search, getExclusionCountsByType_spec.
    unfold blockTotal, toggleTotal, fsmTotal, conditionTotal, msum.
    destruct t; cbn [count_of n_block n_toggle n_fsm n_condition];
      apply sum_list_with_ext_in; intros kv _;
      match goal with
      | |- context [kind_hits ?c _ _] =>
          destruct (kind_hits_all c kv.2 eq_refl eq_refl) as (-> & -> & -> & ->)
      end; cbn; lia.
  - intros criteria. rewrite length_search, total_as_sum.
    apply sum_list_with_le. intros kv.
    destruct (kind_hits_le criteria kv.2) as (Hb & Ht & Hf & Hc).
    destruct (scope_passes criteria kv.1 kv.2); lia.
Qed.

(** X17.  Every entry [search] returns names a scope of the database that
    gets through the scope-name and scope-kind filters, and a kind the
    criteria ask for of which that scope has a matching record.  An entry
    is only the pair of a scope name and a kind: a scope with several
    matching records of a kind appears that many times, and which record
    matched is not told. *)
Theorem search_sound `{Platform} (criteria : SearchCriteria)
    (d : ExclusionData) (n : string) (t : ExclusionType) :
  (n, t) ∈ search criteria d ↔
  ∃ s, scopes d !! n = Some s ∧ scope_passes criteria n s = true
       ∧ wants criteria t = true ∧ 0 < kind_hits criteria s t.
Proof.
  rewrite search_spec, list_elem_of_In, in_flat_map. split.
  - intros ([n' s] & Hin & Hhit). cbn [fst snd] in Hhit.
    apply list_elem_of_In in Hin. rewrite unordered_iter_perm in Hin.
    apply elem_of_map_to_list in Hin.
    destruct (scope_passes criteria n' s) eqn:Hp; [|destruct Hhit].
    apply list_elem_of_In in Hhit. unfold scope_hits in Hhit.
    rewrite !elem_of_app in Hhit.
    assert (Hcase : ∀ k t', (n, t) ∈ replicate k (n', t') →
                            n = n' ∧ t = t' ∧ 0 < k).
    { intros k t' [Heq Hk]%elem_of_replicate. injection Heq as -> ->.
      repeat split. lia. }
    assert (Hw : ∀ t', 0 < kind_hits criteria s t' → wants criteria t' = true).
    { intros t' Hk. unfold kind_hits in Hk.
      destruct (wants criteria t'); [reflexivity | lia]. }
    destruct Hhit as [Hh | [Hh | [Hh | Hh]]];
      apply Hcase in Hh as (-> & -> & Hk); exists s; repeat split; auto.
  - intros (s & Hs & Hp & Hw & Hk). exists (n, s). split.
    + apply list_elem_of_In. rewrite unordered_iter_perm.
      now apply elem_of_map_to_list.
    + cbn [fst snd]. rewrite Hp. apply list_elem_of_In. unfold scope_hits.
      rewrite !elem_of_app.
      destruct t; [left | right; left | right; right; left | right; right; right];
        apply elem_of_replicate; (split; [reflexivity | lia]).
Qed.

Section InsertFolds.
Context {V W : Type}.

Lemma foldl_insert_pairs_lookup (g : V → W) (l : list (string * V))
    (acc : gmap string W) (k : string) :
  NoDup l.*1 →
  foldl (λ acc kv, <[kv.1 := g kv.2]> acc) acc l !! k
  = match (list_to_map l : gmap string V) !! k with
    | Some v => Some (g v)
    | None => acc !! k
    end.
Proof.
  revert acc. induction l as [|[k0 v0] l IH]; intros acc Hnd.
  - cbn. now rewrite lookup_empty.
  - rewrite fmap_cons in Hnd. apply NoDup_cons in Hnd as [Hk0 Hnd].
    cbn [fst] in Hk0. cbn [foldl]. rewrite (IH _ Hnd). cbn [fst snd].
    change (list_to_map ((k0, v0) :: l) : gmap string V)
      with (<[k0 := v0]> (list_to_map l : gmap string V)).
    destruct (decide (k0 = k)) as [->|Hne].
    + rewrite (not_elem_of_list_to_map_1 l k Hk0), !lookup_insert_eq.
      reflexivity.
    + rewrite (lookup_insert_ne (list_to_map l)) by assumption.
      destruct (list_to_map l !! k); [reflexivity|].
      now rewrite lookup_insert_ne.
Qed.

(** Putting the entries of a map into another, in any order. *)
Lemma foldl_insert_pairs (g : V → W) (m : gmap string V)
    (l : list (string * V)) (acc : gmap string W) :
  l ≡ₚ map_to_list m →
  foldl (λ acc kv, <[kv.1 := g kv.2]> acc) acc l = (g <$> m) ∪ acc.
Proof.
  intros Hl. apply map_eq. intros k.
  assert (Hnd : NoDup l.*1) by (rewrite Hl; apply NoDup_fst_map_to_list).
  rewrite (foldl_insert_pairs_lookup g l acc k Hnd).
  rewrite (list_to_map_proper l (map_to_list m) Hnd Hl), list_to_map_to_list.
  rewrite lookup_union, lookup_fmap.
  destruct (m !! k); cbn; [now destruct (acc !! k) | now destruct (acc !! k)].
Qed.

End InsertFolds.

Section Statistics.
Context `{Platform}.

Lemma count_annotated_bounds (a : string) (n : nat) :
  n ≤ count_annotated a n ∧ count_annotated a n ≤ S n.
Proof. destruct a; cbn; lia. Qed.

Lemma foldl_count_annotated {X : Type} (f : X → string) (l : list X) (n : nat) :
  n ≤ foldl (λ n x, count_annotated (f x) n) n l
  ∧ foldl (λ n x, count_annotated (f x) n) n l ≤ n + length l.
Proof.
  revert n. induction l as [|x l IH]; intros n; cbn [foldl length]; [lia|].
  destruct (IH (count_annotated (f x) n)) as [IH1 IH2].
  destruct (count_annotated_bounds (f x) n). lia.
Qed.

Lemma foldl_count_annotated_nested {K X : Type} (f : X → string)
    (l : list (K * list X)) (n : nat) :
  n ≤ foldl (λ n kv, foldl (λ n x, count_annotated (f x) n) n kv.2) n l
  ∧ foldl (λ n kv, foldl (λ n x, count_annotated (f x) n) n kv.2) n l
    ≤ n + sum_list_with (λ kv, length kv.2) l.
Proof.
  revert n. induction l as [|kv l IH]; intros n; cbn [foldl sum_list_with]; [lia|].
  destruct (IH (foldl (λ n x, count_annotated (f x) n) n kv.2)) as [IH1 IH2].
  destruct (foldl_count_annotated f kv.2 n). lia.
Qed.

Lemma length_unordered_iter {V : Type} (m : gmap string V) :
  length (unordered_iter m) = size m.
Proof. rewrite unordered_iter_perm. apply length_map_to_list. Qed.

Lemma count_annotated_scope_bounds (s : ExclusionScope) (n : nat) :
  n ≤ count_annotated_scope s n
  ∧ count_annotated_scope s n ≤ n + Scope_getTotalExclusionCount s.
Proof.
  rewrite Scope_getTotalExclusionCount_spec. unfold count_annotated_scope.
  cbv zeta.
  set (n1 := foldl (λ n kv, count_annotated (block_annotation kv.2) n) n
                   (unordered_iter (blockExclusions s))).
  set (n2 := foldl (λ n kv, foldl (λ n t, count_annotated (toggle_annotation t) n)
                                  n kv.2) n1
                   (unordered_iter (toggleExclusions s))).
  set (n3 := foldl (λ n kv, foldl (λ n f, count_annotated (fsm_annotation f) n)
                                  n kv.2) n2
                   (unordered_iter (fsmExclusions s))).
  destruct (foldl_count_annotated (λ kv : string * BlockExclusion,
                                     block_annotation kv.2)
              (unordered_iter (blockExclusions s)) n) as [A1 A2].
  destruct (foldl_count_annotated_nested toggle_annotation
              (unordered_iter (toggleExclusions s)) n1) as [B1 B2].
  destruct (foldl_count_annotated_nested fsm_annotation
              (unordered_iter (fsmExclusions s)) n2) as [C1 C2].
  destruct (foldl_count_annotated (λ kv : string * ConditionExclusion,
                                     cond_annotation kv.2)
              (unordered_iter (conditionExclusions s)) n3) as [D1 D2].
  fold n1 in A1, A2. fold n2 in B1, B2. fold n3 in C1, C2.
  rewrite (sum_unordered_iter length) in B2.
  rewrite (sum_unordered_iter length) in C2.
  rewrite length_unordered_iter in A2. rewrite length_unordered_iter in D2.
  unfold records. lia.
Qed.

End Statistics.

Lemma sum_hits_split {X : Type} (P : X → bool) (l : list X) :
  sum_list_with (λ x, hit (P x)) l + sum_list_with (λ x, hit (negb (P x))) l
  = length l.
Proof.
  induction l as [|x l IH]; cbn; [reflexivity|].
  destruct (P x); cbn [hit negb]; lia.
Qed.

Section StatisticsFold.
Context `{Platform}.

Lemma getStatistics_fold (l : list (string * ExclusionScope))
    (st : ExclusionStatistics) :
  let st' :=
    foldl (λ stats kv,
             let scopeExclusions := Scope_getTotalExclusionCount kv.2 in
             mkStats (totalScopes stats)
                     (if isModule kv.2 then S (moduleScopes stats)
                      else moduleScopes stats)
                     (if isModule kv.2 then instanceScopes stats
                      else S (instanceScopes stats))
                     (totalExclusions stats + scopeExclusions)
                     (exclusionsByType stats)
                     (<[kv.1 := scopeExclusions]> (exclusionsByScope stats))
                     (count_annotated_scope kv.2 (annotatedExclusions stats)))
          st l in
  totalScopes st' = totalScopes st
  ∧ moduleScopes st'
    = moduleScopes st + sum_list_with (λ kv, hit (isModule kv.2)) l
  ∧ instanceScopes st'
    = instanceScopes st + sum_list_with (λ kv, hit (negb (isModule kv.2))) l
  ∧ totalExclusions st'
    = totalExclusions st
      + sum_list_with (λ kv, Scope_getTotalExclusionCount kv.2) l
  ∧ annotatedExclusions st ≤ annotatedExclusions st'
  ∧ annotatedExclusions st'
    ≤ annotatedExclusions st
      + sum_list_with (λ kv, Scope_getTotalExclusionCount kv.2) l
  ∧ exclusionsByScope st'
    = foldl (λ acc kv, <[kv.1 := Scope_getTotalExclusionCount kv.2]> acc)
            (exclusionsByScope st) l.
Proof.
  cbv zeta. revert st. induction l as [|kv l IH]; intros st.
  - cbn. repeat split; lia.
  - cbn [foldl sum_list_with].
    destruct (IH (mkStats (totalScopes st)
                    (if isModule kv.2 then S (moduleScopes st) else moduleScopes st)
                    (if isModule kv.2 then instanceScopes st
                     else S (instanceScopes st))
                    (totalExclusions st + Scope_getTotalExclusionCount kv.2)
                    (exclusionsByType st)
                    (<[kv.1 := Scope_getTotalExclusionCount kv.2]>
                       (exclusionsByScope st))
                    (count_annotated_scope kv.2 (annotatedExclusions st))))
      as (I1 & I2 & I3 & I4 & I5 & I6 & I7).
    cbn [totalScopes moduleScopes instanceScopes totalExclusions
         annotatedExclusions exclusionsByScope] in I1, I2, I3, I4, I5, I6, I7.
    destruct (count_annotated_scope_bounds kv.2 (annotatedExclusions st))
      as [B1 B2].
    split; [exact I1|]. split; [|split; [|split; [|split; [|split]]]].
    + rewrite I2. destruct (isModule kv.2); cbn [hit]; lia.
    + rewrite I3. destruct (isModule kv.2); cbn [hit negb]; lia.
    + rewrite I4. lia.
    + lia.
    + lia.
    + exact I7.
Qed.

End StatisticsFold.

(** X18.  The statistics agree with the counters of the database and with
    each other: [totalScopes] is the scope count and is the sum of
    [moduleScopes] and [instanceScopes]; [totalExclusions] is the total
    exclusion count and the sum of the four counters of
    [exclusionsByType], which are those of [getExclusionCountsByType];
    [exclusionsByScope] gives for every scope its own total, and nothing
    for other names; and [annotatedExclusions] never exceeds
    [totalExclusions]. *)
Theorem getStatistics_consistent `{Platform} (d : ExclusionData) :
  let st := getStatistics d in
  totalScopes st = getScopeCount d
  ∧ moduleScopes st + instanceScopes st = totalScopes st
  ∧ totalExclusions st = getTotalExclusionCount d
  ∧ exclusionsByType st = getExclusionCountsByType d
  ∧ counts_total (exclusionsByType st) = totalExclusions st
  ∧ annotatedExclusions st ≤ totalExclusions st
  ∧ ∀ n, exclusionsByScope st !! n
         = Scope_getTotalExclusionCount <$> scopes d !! n.
Proof.
  cbv zeta. unfold getStatistics. cbv zeta.
  destruct (getStatistics_fold (unordered_iter (scopes d))
              (mkStats (size (scopes d)) 0 0 0 (mkCounts 0 0 0 0) ∅ 0))
    as (I1 & I2 & I3 & I4 & I5 & I6 & I7).
  cbn [totalScopes moduleScopes instanceScopes totalExclusions
       annotatedExclusions exclusionsByScope exclusionsByType] in *.
  assert (Htot : sum_list_with (λ kv, Scope_getTotalExclusionCount kv.2)
                   (unordered_iter (scopes d))
                 = getTotalExclusionCount d).
  { unfold getTotalExclusionCount.
    now rewrite (foldl_sum Scope_getTotalExclusionCount). }
  split; [exact I1|]. split; [|split; [|split; [|split; [|split]]]].
  - rewrite I1, I2, I3. cbn [Nat.add].
    rewrite <- (length_unordered_iter (scopes d)).
    apply (sum_hits_split (λ kv : string * ExclusionScope, isModule kv.2)).
  - rewrite I4, Htot. reflexivity.
  - reflexivity.
  - rewrite I4, Htot, getExclusionCountsByType_spec, getTotalExclusionCount_spec.
    unfold counts_total. cbn. lia.
  - rewrite I4, Htot in *. lia.
  - intros n. rewrite I7.
    rewrite (foldl_insert_pairs Scope_getTotalExclusionCount (scopes d))
      by apply unordered_iter_perm.
    rewrite lookup_union, lookup_fmap, lookup_empty.
    now destruct (scopes d !! n).
Qed.

(** ** Merging, continued *)

Section MergeScopes.
Context `{Platform}.

Lemma merge_one_other_key (ow : bool) (d : ExclusionData)
    (kv : string * ExclusionScope) (n : string) :
  kv.1 ≠ n → scopes (merge_one ow d kv) !! n = scopes d !! n.
Proof.
  intros Hne. unfold merge_one.
  destruct (scopes d !! kv.1); [destruct ow|]; cbn;
    now rewrite lookup_insert_ne.
Qed.

Lemma merge_fold_other_key (ow : bool) (l : list (string * ExclusionScope))
    (d : ExclusionData) (n : string) :
  n ∉ l.*1 → scopes (foldl (merge_one ow) d l) !! n = scopes d !! n.
Proof.
  revert d. induction l as [|kv l IH]; intros d Hn; [reflexivity|].
  rewrite fmap_cons in Hn. apply not_elem_of_cons in Hn as [Hne Hn].
  cbn [foldl]. rewrite (IH _ Hn). now apply merge_one_other_key.
Qed.

Lemma merge_fold_new_key (l : list (string * ExclusionScope))
    (d : ExclusionData) (n : string) :
  NoDup l.*1 → scopes d !! n = None →
  scopes (foldl (merge_one false) d l) !! n
  = (list_to_map l : gmap string ExclusionScope) !! n.
Proof.
  revert d. induction l as [|[k s] l IH]; intros d Hnd Hn.
  - cbn. now rewrite lookup_empty.
  - rewrite fmap_cons in Hnd. apply NoDup_cons in Hnd as [Hk Hnd].
    cbn [fst] in Hk. cbn [foldl].
    change (list_to_map ((k, s) :: l) : gmap string ExclusionScope)
      with (<[k := s]> (list_to_map l : gmap string ExclusionScope)).
    destruct (decide (k = n)) as [->|Hne].
    + rewrite (merge_fold_other_key false l _ n Hk), lookup_insert_eq.
      unfold merge_one. cbn [fst snd]. rewrite Hn. cbn. apply lookup_insert_eq.
    + rewrite lookup_insert_ne by assumption. apply IH; [assumption|].
      rewrite merge_one_other_key by assumption. exact Hn.
Qed.

Lemma merge_one_header (ow : bool) (d : ExclusionData)
    (kv : string * ExclusionScope) :
  fileName (merge_one ow d kv) = fileName d
  ∧ generatedBy (merge_one ow d kv) = generatedBy d
  ∧ formatVersion (merge_one ow d kv) = formatVersion d
  ∧ generationDate (merge_one ow d kv) = generationDate d
  ∧ exclusionMode (merge_one ow d kv) = exclusionMode d.
Proof.
  unfold merge_one. destruct (scopes d !! kv.1); [destruct ow|];
    now repeat split.
Qed.

End MergeScopes.

(** X19.  What [merge] does to whole scopes.  With [overwriteExisting] the
    scopes of the other database replace the scopes of the same name
    wholesale (the records only the replaced scope had are gone), and the
    other scopes stay: the result has the scopes of the other database
    and, under the remaining names, those of this one.  Without it a scope
    that this database did not have is copied as it is.  In both cases a
    scope the other database does not have is left alone, and the header
    fields are never merged. *)
Theorem merge_scopes `{Platform} (other self : ExclusionData) :
  scopes (merge other true self) = scopes other ∪ scopes self
  ∧ (∀ n, scopes self !! n = None →
          scopes (merge other false self) !! n = scopes other !! n)
  ∧ (∀ ow n, scopes other !! n = None →
             scopes (merge other ow self) !! n = scopes self !! n)
  ∧ (∀ ow, fileName (merge other ow self) = fileName self
           ∧ generatedBy (merge other ow self) = generatedBy self
           ∧ formatVersion (merge other ow self) = formatVersion self
           ∧ generationDate (merge other ow self) = generationDate self
           ∧ exclusionMode (merge other ow self) = exclusionMode self).
Proof.
  assert (Hnd : NoDup (unordered_iter (scopes other)).*1)
    by (rewrite unordered_iter_perm; apply NoDup_fst_map_to_list).
  assert (Hmap : (list_to_map (unordered_iter (scopes other))
                    : gmap string ExclusionScope) = scopes other).
  { rewrite (list_to_map_proper _ (map_to_list (scopes other)) Hnd
               (unordered_iter_perm _ _)).
    apply list_to_map_to_list. }
  split; [|split; [|split]].
  - unfold merge.
    assert (Hfold : ∀ l d,
      scopes (foldl (merge_one true) d l)
      = foldl (λ acc kv, <[kv.1 := id kv.2]> acc) (scopes d) l).
    { induction l as [|kv l IH]; intros d; [reflexivity|].
      cbn [foldl]. rewrite IH. f_equal. unfold merge_one.
      now destruct (scopes d !! kv.1). }
    rewrite Hfold, (foldl_insert_pairs id (scopes other))
      by apply unordered_iter_perm.
    now rewrite map_fmap_id.
  - intros n Hn. unfold merge.
    now rewrite (merge_fold_new_key _ _ n Hnd Hn), Hmap.
  - intros ow n Hn. unfold merge. apply merge_fold_other_key.
    rewrite unordered_iter_perm. intros Hin.
    apply list_elem_of_fmap in Hin as ([k s] & -> & Hks).
    apply elem_of_map_to_list in Hks. cbn in Hn. congruence.
  - intros ow. unfold merge.
    repeat split;
      [apply (foldl_keep fileName) | apply (foldl_keep generatedBy)
      | apply (foldl_keep formatVersion) | apply (foldl_keep generationDate)
      | apply (foldl_keep exclusionMode)];
      intros d kv; apply merge_one_header.
Qed.

(** ** Removing exclusions *)

Section Removal.
Context `{Platform}.

Lemma scope_less_blocks_refl (s : ExclusionScope) : scope_less_blocks s s.
Proof. now repeat split. Qed.

Lemma scope_less_blocks_trans (s1 s2 s3 : ExclusionScope) :
  scope_less_blocks s1 s2 → scope_less_blocks s2 s3 → scope_less_blocks s1 s3.
Proof.
  intros (A1 & A2 & A3 & A4 & A5 & A6 & A7) (B1 & B2 & B3 & B4 & B5 & B6 & B7).
  repeat split; try congruence. now transitivity (blockExclusions s2).
Qed.

Lemma data_less_blocks_refl (d : ExclusionData) : data_less_blocks d d.
Proof.
  intros n. destruct (scopes d !! n) as [s|] eqn:Hs; [|reflexivity].
  exists s. split; [reflexivity | apply scope_less_blocks_refl].
Qed.

Lemma data_less_blocks_trans (d1 d2 d3 : ExclusionData) :
  data_less_blocks d1 d2 → data_less_blocks d2 d3 → data_less_blocks d1 d3.
Proof.
  intros H12 H23 n. specialize (H12 n). specialize (H23 n).
  destruct (scopes d1 !! n) as [s1|].
  - destruct H12 as (s2 & Hs2 & H12). rewrite Hs2 in H23.
    destruct H23 as (s3 & Hs3 & H23). exists s3.
    split; [assumption | now apply (scope_less_blocks_trans s1 s2 s3)].
  - now rewrite H12 in H23.
Qed.

Lemma erase_annotated_blocks_subseteq (a : string)
    (blocks : gmap string BlockExclusion) :
  erase_annotated_blocks a blocks ⊆ blocks.
Proof. apply map_filter_subseteq. Qed.

(** One turn of the loop that erases: the scope [n] loses its annotated
    blocks. *)
Lemma erase_step (a n : string) (s : ExclusionScope) (d : ExclusionData) :
  scopes d !! n = Some s →
  let kept := erase_annotated_blocks a (blockExclusions s) in
  let d' := set_scopes (<[n := set_blockExclusions (λ _, kept) s]>) d in
  data_less_blocks d d'
  ∧ (size (blockExclusions s) - size kept) + blockTotal d' = blockTotal d
  ∧ no_annotated_block a n d'.
Proof.
  intros Hs. cbv zeta. split; [|split].
  - intros k. destruct (decide (n = k)) as [<-|Hne].
    + rewrite Hs. eexists. split; [apply lookup_insert_eq|].
      repeat split. apply erase_annotated_blocks_subseteq.
    + cbn. rewrite lookup_insert_ne by assumption.
      destruct (scopes d !! k) as [s'|] eqn:Hk; [|reflexivity].
      exists s'. split; [reflexivity | apply scope_less_blocks_refl].
  - unfold blockTotal. cbn [scopes set_scopes].
    pose proof (msum_insert (λ s, size (blockExclusions s)) (scopes d) n
                  (set_blockExclusions
                     (λ _, erase_annotated_blocks a (blockExclusions s)) s))
      as Hm.
    rewrite Hs in Hm. cbn in Hm.
    pose proof (map_subseteq_size _ _
                  (erase_annotated_blocks_subseteq a (blockExclusions s))).
    lia.
  - intros s' id b Hs' Hb. cbn in Hs'. rewrite lookup_insert_eq in Hs'.
    injection Hs' as <-. cbn in Hb.
    apply map_lookup_filter_Some in Hb as [_ Hb]. exact Hb.
Qed.

Lemma no_annotated_block_less (a n : string) (d d' : ExclusionData) :
  data_less_blocks d d' → no_annotated_block a n d → no_annotated_block a n d'.
Proof.
  intros Hless Hno s' id b Hs' Hb. specialize (Hless n).
  destruct (scopes d !! n) as [s|] eqn:Hs; [|congruence].
  destruct Hless as (s'' & Hs'' & (_ & _ & _ & Hsub & _)).
  assert (s'' = s') as -> by congruence.
  apply (Hno s id b Hs).
  now apply (lookup_weaken _ _ _ _ Hb).
Qed.

(** The loop of [removeExclusions] over any list of matches. *)
Lemma removeExclusions_fold (criteria : SearchCriteria)
    (l : list (string * ExclusionType)) (d : ExclusionData) (k : nat) :
  let r := foldl (λ '(d, removedCount) '(scopeName, type),
                    match scopes d !! scopeName with
                    | Some scope =>
                        match type, c_annotation criteria with
                        | BLOCK, Some a =>
                            let kept :=
                              erase_annotated_blocks a (blockExclusions scope) in
                            (set_scopes
                               (<[scopeName := set_blockExclusions (λ _, kept) scope]>)
                               d,
                             removedCount
                             + (size (blockExclusions scope) - size kept))
                        | _, _ => (d, removedCount)
                        end
                    | None => (d, removedCount)
                    end) (d, k) l in
  data_less_blocks d r.1
  ∧ r.2 + blockTotal r.1 = k + blockTotal d
  ∧ (c_annotation criteria = None → r = (d, k))
  ∧ (∀ a n, c_annotation criteria = Some a → (n, BLOCK) ∈ l →
            no_annotated_block a n r.1).
Proof.
  cbv zeta. revert d k. induction l as [|[n t] l IH]; intros d k.
  - cbn [foldl fst snd].
    split; [apply data_less_blocks_refl|]. split; [reflexivity|].
    split; [reflexivity|].
    intros a n _ Hin. now apply not_elem_of_nil in Hin.
  - cbn [foldl].
    match goal with
    | |- context [foldl ?f _ l] => set (step := f) in *
    end.
    destruct (scopes d !! n) as [s|] eqn:Hs.
    + assert ((t = BLOCK ∧ is_Some (c_annotation criteria))
              ∨ ¬ (t = BLOCK ∧ is_Some (c_annotation criteria)))
        as [[-> [a Ha]]|Hnot].
      { destruct t; try (right; intros [? _]; discriminate).
        destruct (c_annotation criteria) as [a|].
        - left. split; [reflexivity | now exists a].
        - right. intros [_ [a Ha]]. discriminate. }
      * rewrite Ha.
        destruct (erase_step a n s d Hs) as (E1 & E2 & E3).
        match goal with
        | |- context [foldl step (?d1, ?k1) l] =>
            destruct (IH d1 k1) as (I1 & I2 & I3 & I4)
        end.
        split; [eapply data_less_blocks_trans; [exact E1 | exact I1]|].
        split; [rewrite I2; lia|]. split; [discriminate|].
        intros a' n' Ha' [Heq | Hin]%elem_of_cons.
        -- injection Heq as ->. assert (a' = a) as -> by congruence.
           now apply (no_annotated_block_less a n _ _ I1).
        -- apply (I4 a' n'); [congruence | exact Hin].
      * match goal with
        | |- context [foldl step ?x l] =>
            replace x with (d, k)
              by (destruct t, (c_annotation criteria); try reflexivity;
                  exfalso; apply Hnot; split; [reflexivity | eexists; reflexivity])
        end.
        destruct (IH d k) as (I1 & I2 & I3 & I4).
        split; [exact I1|]. split; [exact I2|]. split; [exact I3|].
        intros a' n' Ha' [Heq | Hin]%elem_of_cons; [|now apply (I4 a' n')].
        injection Heq as -> <-. exfalso. apply Hnot.
        split; [reflexivity | now exists a'].
    + destruct (IH d k) as (I1 & I2 & I3 & I4).
      split; [exact I1|]. split; [exact I2|]. split; [exact I3|].
      intros a' n' Ha' [Heq | Hin]%elem_of_cons; [|now apply (I4 a' n')].
      injection Heq as -> _. intros s' id b Hs' Hb.
      specialize (I1 n). rewrite Hs in I1. congruence.
Qed.

End Removal.

(** X20.  [removeExclusions] only ever removes block exclusions, and only
    when the criteria have an annotation.  Every scope stays, with its
    name, checksum and kind and with all its toggle, FSM and condition
    records, whatever kind the criteria ask for; the count returned is the
    number of blocks that are gone; without an annotation criterion the
    database is unchanged and the count is 0; and with the annotation [a],
    a scope that [search] reports with a block match is left with no block
    whose annotation has [a] in it. *)
Theorem removeExclusions_blocks_only `{Platform} (criteria : SearchCriteria)
    (d : ExclusionData) :
  let d' := (removeExclusions criteria d).1 in
  let removed := (removeExclusions criteria d).2 in
  data_less_blocks d d'
  ∧ removed + blockTotal d' = blockTotal d
  ∧ conditionTotal d' = conditionTotal d
  ∧ (c_annotation criteria = None → d' = d ∧ removed = 0)
  ∧ (∀ a n, c_annotation criteria = Some a →
            (n, BLOCK) ∈ search criteria d → no_annotated_block a n d').
Proof.
  unfold removeExclusions. cbv zeta.
  pose proof (removeExclusions_fold criteria (search criteria d) d 0) as Hf.
  cbv zeta in Hf. destruct Hf as (I1 & I2 & I3 & I4).
  split; [exact I1|]. split; [exact I2|]. split; [|split].
  - unfold conditionTotal. apply msum_related. intros n.
    specialize (I1 n). destruct (scopes d !! n) as [s|]; [|exact I1].
    destruct I1 as (s' & Hs' & (_ & _ & _ & _ & _ & _ & Hc)).
    exists s'. split; [assumption | now rewrite Hc].
  - intros Ha. now rewrite (I3 Ha).
  - exact I4.
Qed.

(** ** Duplicate checksums *)

Section Duplicates.
Context `{Platform}.

(** Putting some of the entries of a list into a map. *)
Lemma foldl_insert_if_lookup {V : Type} (keep : V → bool)
    (l : list (string * V)) (acc : gmap string V) (k : string) :
  NoDup l.*1 →
  foldl (λ acc kv, if keep kv.2 then <[kv.1 := kv.2]> acc else acc) acc l !! k
  = match (list_to_map l : gmap string V) !! k with
    | Some v => if keep v then Some v else acc !! k
    | None => acc !! k
    end.
Proof.
  revert acc. induction l as [|[k0 v0] l IH]; intros acc Hnd.
  - cbn. now rewrite lookup_empty.
  - rewrite fmap_cons in Hnd. apply NoDup_cons in Hnd as [Hk0 Hnd].
    cbn [fst] in Hk0. cbn [foldl]. rewrite (IH _ Hnd). cbn [fst snd].
    change (list_to_map ((k0, v0) :: l) : gmap string V)
      with (<[k0 := v0]> (list_to_map l : gmap string V)).
    destruct (decide (k0 = k)) as [->|Hne].
    + rewrite (not_elem_of_list_to_map_1 l k Hk0), !lookup_insert_eq.
      destruct (keep v0); [now rewrite lookup_insert_eq | reflexivity].
    + rewrite (lookup_insert_ne (list_to_map l)) by assumption.
      destruct (list_to_map l !! k) as [v|]; [destruct (keep v)|];
        destruct (keep v0); try reflexivity;
        now rewrite lookup_insert_ne.
Qed.

(** The first loop, from any map: the scopes with the checksum [c] are
    appended to the entry of [c], in the order of the loop. *)
Lemma checksum_index_fold (l : list (string * ExclusionScope))
    (acc : gmap string (list string)) (c : string) :
  c ≠ "" →
  default [] (foldl (λ m kv,
                       match scope_checksum kv.2 with
                       | EmptyString => m
                       | checksum => push_back_at checksum kv.1 m
                       end) acc l !! c)
  = default [] (acc !! c) ++ (filter (has_checksum c) l).*1.
Proof.
  intros Hc. revert acc. induction l as [|[n s] l IH]; intros acc.
  - cbn. now rewrite app_nil_r.
  - cbn [foldl]. rewrite IH. cbn [fst snd].
    destruct (decide (has_checksum c (n, s))) as [Hd|Hd].
    + rewrite (filter_cons_True _ _ _ Hd). unfold has_checksum in Hd.
      cbn in Hd. rewrite Hd. destruct c as [|a c]; [congruence|].
      unfold push_back_at. rewrite lookup_insert_eq. cbn.
      now rewrite <- app_assoc.
    + rewrite (filter_cons_False _ _ _ Hd). unfold has_checksum in Hd.
      cbn in Hd. destruct (scope_checksum s) as [|a c'] eqn:Hs; [reflexivity|].
      unfold push_back_at. now rewrite lookup_insert_ne.
Qed.

(** The first loop never makes an empty entry, nor one for the empty
    checksum. *)
Lemma checksum_index_entries (l : list (string * ExclusionScope))
    (acc : gmap string (list string)) :
  (∀ k v, acc !! k = Some v → k ≠ "" ∧ v ≠ []) →
  ∀ k v, foldl (λ m kv,
                  match scope_checksum kv.2 with
                  | EmptyString => m
                  | checksum => push_back_at checksum kv.1 m
                  end) acc l !! k = Some v → k ≠ "" ∧ v ≠ [].
Proof.
  revert acc. induction l as [|[n s] l IH]; intros acc Hacc; [exact Hacc|].
  cbn [foldl]. apply IH. cbn [fst snd].
  destruct (scope_checksum s) as [|a c] eqn:Hs; [exact Hacc|].
  intros k v. unfold push_back_at.
  destruct (decide (String a c = k)) as [<-|Hne].
  - rewrite lookup_insert_eq. intros [= <-].
    split; [discriminate|]. now destruct (default [] (acc !! String a c)).
  - rewrite lookup_insert_ne by assumption. apply Hacc.
Qed.

Lemma checksumToScopes_lookup (d : ExclusionData) (c : string)
    (names : list string) :
  checksumToScopes d !! c = Some names
  ↔ c ≠ "" ∧ names ≠ []
    ∧ names = (filter (has_checksum c) (unordered_iter (scopes d))).*1.
Proof.
  unfold checksumToScopes. split.
  - intros Hl.
    destruct (checksum_index_entries (unordered_iter (scopes d)) ∅
                ltac:(intros k v; now rewrite lookup_empty) c names Hl)
      as [Hc Hne].
    split; [exact Hc|]. split; [exact Hne|].
    pose proof (checksum_index_fold (unordered_iter (scopes d)) ∅ c Hc) as Hf.
    rewrite Hl, lookup_empty in Hf. exact Hf.
  - intros (Hc & Hne & Hnames).
    pose proof (checksum_index_fold (unordered_iter (scopes d)) ∅ c Hc) as Hf.
    rewrite lookup_empty in Hf. rewrite <- Hnames in Hf.
    match type of Hf with
    | default [] ?x = _ => destruct x as [v|]
    end; simpl in Hf; [now rewrite Hf | congruence].
Qed.

Lemma findPotentialDuplicates_lookup (d : ExclusionData) (c : string)
    (names : list string) :
  findPotentialDuplicates d !! c = Some names
  ↔ checksumToScopes d !! c = Some names ∧ 1 < length names.
Proof.
  unfold findPotentialDuplicates.
  pose proof (unordered_iter_perm _ (checksumToScopes d)) as Hp.
  assert (Hnd : NoDup (unordered_iter (checksumToScopes d)).*1)
    by (rewrite Hp; apply NoDup_fst_map_to_list).
  rewrite (foldl_insert_if_lookup (λ v, 1 <? length v) _ ∅ c Hnd).
  rewrite (list_to_map_proper _ _ Hnd Hp), list_to_map_to_list.
  rewrite lookup_empty.
  destruct (checksumToScopes d !! c) as [v|];
    [|split; [discriminate | intros [? _]; discriminate]].
  destruct (Nat.ltb_spec 1 (length v)).
  - split; [intros [= <-]; now split | now intros [? _]].
  - split; [discriminate | intros [[= <-] ?]; lia].
Qed.

(** The names filed under a checksum are the scopes that have it. *)
Lemma has_checksum_names (d : ExclusionData) (c n : string) :
  n ∈ (filter (has_checksum c) (unordered_iter (scopes d))).*1
  ↔ ∃ s, scopes d !! n = Some s ∧ scope_checksum s = c.
Proof.
  rewrite list_elem_of_fmap. split.
  - intros ([n' s] & -> & [Hc Hin]%list_elem_of_filter).
    rewrite unordered_iter_perm in Hin. apply elem_of_map_to_list in Hin.
    now exists s.
  - intros (s & Hs & Hc). exists (n, s). split; [reflexivity|].
    apply list_elem_of_filter. split; [exact Hc|].
    rewrite unordered_iter_perm. now apply elem_of_map_to_list.
Qed.

Lemma has_checksum_NoDup (d : ExclusionData) (c : string) :
  NoDup (filter (has_checksum c) (unordered_iter (scopes d))).*1.
Proof.
  apply (sublist_NoDup _ (unordered_iter (scopes d)).*1).
  - rewrite unordered_iter_perm. apply NoDup_fst_map_to_list.
  - apply fmap_sublist. apply sublist_filter.
Qed.

End Duplicates.

(** X21.  [findPotentialDuplicates] reports exactly the non-empty checksums
    that two or more scopes share.  A reported entry never has the empty
    checksum, names at least two scopes, names no scope twice, and names
    precisely the scopes with that checksum; and any two different scopes
    with the same non-empty checksum are reported together under it. *)
Theorem findPotentialDuplicates_spec `{Platform} (d : ExclusionData) :
  (∀ c names, findPotentialDuplicates d !! c = Some names →
     c ≠ "" ∧ 1 < length names ∧ NoDup names
     ∧ ∀ n, n ∈ names ↔ ∃ s, scopes d !! n = Some s ∧ scope_checksum s = c)
  ∧ (∀ n1 n2 s1 s2, n1 ≠ n2 →
       scopes d !! n1 = Some s1 → scopes d !! n2 = Some s2 →
       scope_checksum s1 ≠ "" → scope_checksum s2 = scope_checksum s1 →
       ∃ names, findPotentialDuplicates d !! scope_checksum s1 = Some names
                ∧ n1 ∈ names ∧ n2 ∈ names).
Proof.
  split.
  - intros c names [(Hc & _ & ->)%checksumToScopes_lookup Hlen]%findPotentialDuplicates_lookup.
    split; [exact Hc|]. split; [exact Hlen|].
    split; [apply has_checksum_NoDup|]. intros n. apply has_checksum_names.
  - intros n1 n2 s1 s2 Hne H1 H2 Hc H12.
    set (c := scope_checksum s1) in *.
    set (names := (filter (has_checksum c) (unordered_iter (scopes d))).*1).
    assert (Hn1 : n1 ∈ names) by (apply has_checksum_names; now exists s1).
    assert (Hn2 : n2 ∈ names) by (apply has_checksum_names; now exists s2).
    exists names. split; [|now split].
    apply findPotentialDuplicates_lookup. split.
    + apply checksumToScopes_lookup. split; [exact Hc|]. split; [|reflexivity].
      intros Hnil. rewrite Hnil in Hn1. now apply not_elem_of_nil in Hn1.
    + destruct names as [|a [|b names']]; cbn; try lia.
      * now apply not_elem_of_nil in Hn1.
      * apply list_elem_of_singleton in Hn1, Hn2. congruence.
Qed.

(** ** File names *)

Section FileNames.

Local Arguments String.append !_ _ / : simpl nomatch.

Lemma rfind_char_split (s : string) (c : ascii) (p : nat) :
  rfind_char s c = Some p →
  ∃ a b, s = a +:+ String c b ∧ String.length a = p ∧ no_char c b = true.
Proof.
  revert p. induction s as [|x s IH]; intros p; simpl; [discriminate|].
  destruct (rfind_char s c) as [i|] eqn:Hr.
  - intros [= <-]. destruct (IH i eq_refl) as (a & b & -> & Hlen & Hb).
    exists (String x a), b. simpl. now rewrite Hlen.
  - destruct (Ascii.eqb_spec x c) as [->|Hne]; [|discriminate].
    intros [= <-]. exists "", s. repeat split.
    clear IH. induction s as [|y s IH]; [reflexivity|].
    simpl in Hr. destruct (rfind_char s c); [discriminate|].
    unfold no_char. simpl. destruct (Ascii.eqb y c); [discriminate|].
    now apply IH.
Qed.

Lemma no_char_drop (c : ascii) (s : string) (n : nat) :
  no_char c s = true → no_char c (drop n s) = true.
Proof.
  revert n. induction s as [|x s IH]; intros [|n]; simpl; try easy.
  intros [_ Hs]%andb_true_iff. now apply IH.
Qed.

Lemma no_char_take (c : ascii) (s : string) (n : nat) :
  no_char c s = true → no_char c (take n s) = true.
Proof.
  revert n. induction s as [|x s IH]; intros [|n]; simpl; try easy.
  unfold no_char. simpl. intros [Hx Hs]%andb_true_iff.
  rewrite Hx. now apply IH.
Qed.

(** What is left after the last [c], and anything later, has no [c]. *)
Lemma no_char_after_last (s : string) (c : ascii) (p q : nat) :
  rfind_char s c = Some p → p ≤ q → no_char c (drop (q + 1) s) = true.
Proof.
  intros (a & b & -> & <- & Hb)%rfind_char_split Hq.
  replace (q + 1) with (String.length a + (1 + (q - String.length a))) by lia.
  rewrite drop_app_plus. simpl. now apply no_char_drop.
Qed.

End FileNames.

(** X22.  [getBaseName] strips the directory only when the name has both a
    slash and a backslash.  With one kind of separator missing, the
    directory stays: for a name with a dot, base name, dot and
    [getFileExtension] put together give back the whole name, directory
    included.  With both kinds present the base name has no separator
    left. *)
Theorem getBaseName_separators (filename : string) :
  ((rfind_char filename "/" = None ∨ rfind_char filename "\" = None) →
   is_Some (rfind_char filename ".") →
   getBaseName filename +:+ "." +:+ getFileExtension filename = filename)
  ∧ (is_Some (rfind_char filename "/") →
     is_Some (rfind_char filename "\") →
     no_char "/" (getBaseName filename) = true
     ∧ no_char "\" (getBaseName filename) = true).
Proof.
  unfold getBaseName, getFileExtension. cbv zeta. split.
  - intros Hsep [p Hp].
    assert (npos_max (rfind_char filename "/") (rfind_char filename "\") = None)
      as ->.
    { destruct Hsep as [-> | ->]; [reflexivity|].
      now destruct (rfind_char filename "/"). }
    rewrite Hp.
    destruct (rfind_char_split _ _ _ Hp) as (a & b & -> & <- & _).
    unfold substr, substr_from. simpl drop at 1.
    rewrite take_app_length.
    replace (String.length a + 1) with (String.length a + 1 + 0) by lia.
    rewrite <- Nat.add_assoc, drop_app_plus. reflexivity.
  - intros [p1 H1] [p2 H2]. rewrite H1, H2. cbn [npos_max].
    unfold substr_from, substr.
    assert (no_char "/" (drop (Nat.max p1 p2 + 1) filename) = true
            ∧ no_char "\" (drop (Nat.max p1 p2 + 1) filename) = true)
      as [Hs Hb].
    { split; [apply (no_char_after_last _ _ p1) | apply (no_char_after_last _ _ p2)];
        (assumption || lia). }
    destruct (rfind_char (drop (Nat.max p1 p2 + 1) filename) ".");
      [|now split].
    simpl drop. split; now apply no_char_take.
Qed.

(** ** Quick validation *)

Section WrittenLinesSplit.

Local Arguments String.append !_ _ / : simpl nomatch.

(** The first line of a text that begins with an indented line. *)
Lemma getlines_indented (ind l e rest : string) :
  one_line ind = true → one_line l = true → one_line e = true →
  getlines ((ind +:+ l +:+ e +:+ String "010" "") +:+ rest)
  = (ind +:+ l +:+ e) :: getlines rest.
Proof.
  intros Hind Hl He.
  replace ((ind +:+ l +:+ e +:+ String "010" "") +:+ rest)
    with ((ind +:+ l +:+ e) +:+ String "010" rest)
    by (repeat first [rewrite app_assoc_str | progress simpl]; reflexivity).
  apply getlines_line. unfold one_line. rewrite !no_char_app. fold one_line.
  now rewrite Hind, Hl, He.
Qed.

End WrittenLinesSplit.

(** X23.  [validateFile] accepts every file the writer produces with
    comments.  Whatever the database, when the indentation is white space
    without a newline and the line ending is a newline, possibly after
    such white space, the second line of the text of [writeToString] is
    the marker line, and a file with that text passes the quick check. *)
Theorem validateFile_written `{Platform} (cfg : WriterConfig) (e : string)
    (data : ExclusionData) (fs : FileSystem) (filename : string) :
  includeComments cfg = true →
  all_trim_chars (indentation cfg) = true → one_line (indentation cfg) = true →
  lineEnding cfg = e +:+ String "010" "" →
  all_trim_chars e = true → one_line e = true →
  fileExists fs filename = true →
  open_file fs filename = Some (writeToString cfg data) →
  validateFile fs filename = true.
Proof.
  intros Hc Hind Hind1 Hle He He1 Hex Hopen.
  unfold validateFile. rewrite Hex, Hopen. cbn [negb].
  rewrite (writeToString_items cfg data). unfold data_items. rewrite Hc.
  unfold header_items.
  rewrite <- !app_comm_cons. cbn [render_all foldr].
  unfold render at 1 2. cbn [item_line]. rewrite Hle.
  rewrite !getlines_indented by (assumption || reflexivity).
  cbn [validate_lines].
  rewrite !(trim_core _ _ _ Hind He) by reflexivity.
  reflexivity.
Qed.

Lemma validateFile_written_witness :
  validateFile
    (mkFileSystem (λ _, true) (λ _, 0%N)
       (λ _, Some (writeToString (H := reference_platform)
                     WriterConfig_default sample_database)))
    "a.el" = true.
Proof.
  apply (validateFile_written (H := reference_platform)
           WriterConfig_default "" sample_database); reflexivity.
Defined.

(** ** Parsing several files *)

Section ParseFiles.

Lemma parseLines_config (lines : list string) (p : Parser) (r : ParseResult) :
  config_ (parseLines lines p r).1 = config_ p.
Proof.
  revert p r. induction lines as [|raw rest IH]; intros p r; [reflexivity|].
  cbn [parseLines]. pose proof (parseLine_step raw p r) as Hstep.
  destruct (parseLine raw p r) as [p1 r1 | p1 r1].
  - destruct Hstep as (Hc & _). now rewrite IH.
  - destruct Hstep as (_ & -> & _). reflexivity.
Qed.

Lemma parseFile_config (fs : FileSystem) (filename : string) (p : Parser) :
  config_ (parseFile fs filename p).1 = config_ p.
Proof.
  unfold parseFile. cbv zeta.
  destruct (negb (fileExists fs filename)); [reflexivity|].
  destruct (_ <? _)%N; [reflexivity|].
  destruct (open_file fs filename); [|reflexivity].
  unfold parseStream. rewrite parseLines_config.
  now destruct (negb (mergeOnLoad (config_ (resetState p)))).
Qed.

Lemma parseFile_counts (fs : FileSystem) (filename : string) (p : Parser) :
  exclusionsParsed (parseFile fs filename p).2
  = counts_total (exclusionCounts (parseFile fs filename p).2).
Proof.
  unfold parseFile. cbv zeta.
  destruct (negb (fileExists fs filename)); [reflexivity|].
  destruct (_ <? _)%N; [reflexivity|].
  destruct (open_file fs filename); [|reflexivity].
  unfold parseStream.
  match goal with
  | |- context [parseLines ?l ?q ?r] =>
      destruct (parseLines_accounting l q r) as (Hacc & _)
  end.
  now apply Hacc.
Qed.

(** As long as the loop has not returned early, it goes on with the rest
    of the list. *)
Lemma parseFiles_loop_app (fs : FileSystem) (l1 l2 : list string)
    (continueOnError : bool) (p : Parser) (c : ParseResult) :
  success (parseFiles_loop fs l1 continueOnError p c).2 = true →
  parseFiles_loop fs (l1 ++ l2) continueOnError p c
  = parseFiles_loop fs l2 continueOnError
      (parseFiles_loop fs l1 continueOnError p c).1
      (set_success (success c) (parseFiles_loop fs l1 continueOnError p c).2).
Proof.
  revert p c. induction l1 as [|f l1 IH]; intros p c.
  - intros _. cbn. now destruct c.
  - cbn [parseFiles_loop app].
    destruct (parseFile fs f p) as [p1 r].
    destruct (success r); cbn [negb].
    + intros Hs. now rewrite (IH _ _ Hs).
    + destruct continueOnError; cbn [negb].
      * intros Hs. now rewrite (IH _ _ Hs).
      * cbn. discriminate.
Qed.

(** The loop that goes on after errors. *)
Lemma parseFiles_loop_continue (fs : FileSystem) (l : list string)
    (p : Parser) (c : ParseResult) :
  let r := (parseFiles_loop fs l true p c).2 in
  success r = true ∧ errorMessage r = errorMessage c
  ∧ (exclusionsParsed c = counts_total (exclusionCounts c) →
     exclusionsParsed r = counts_total (exclusionCounts r))
  ∧ (∀ w, w ∈ warnings c → w ∈ warnings r)
  ∧ (∀ f, f ∈ l → fileExists fs f = false →
          ("Failed to parse " +:+ f +:+ ": File does not exist: " +:+ f)
          ∈ warnings r)
  ∧ config_ (parseFiles_loop fs l true p c).1 = config_ p.
Proof.
  cbv zeta. revert p c. induction l as [|f l IH]; intros p c.
  - cbn. repeat split; try tauto. intros f Hf. now apply not_elem_of_nil in Hf.
  - cbn [parseFiles_loop].
    pose proof (parseFile_counts fs f p) as Hcnt.
    pose proof (parseFile_config fs f p) as Hcfg.
    assert (Hmiss : fileExists fs f = false →
                    (parseFile fs f p).2
                    = set_errorMessage ("File does not exist: " +:+ f)
                        ParseResult_new).
    { intros Hf. unfold parseFile. cbv zeta. now rewrite Hf. }
    destruct (parseFile fs f p) as [p1 r]. cbn [fst snd] in Hcnt, Hcfg, Hmiss.
    assert (Hsum : exclusionsParsed c = counts_total (exclusionCounts c) →
                   exclusionsParsed (combine_result c r)
                   = counts_total (exclusionCounts (combine_result c r))).
    { intros Hc. cbn. unfold counts_total in *. cbn. lia. }
    destruct (success r) eqn:Hs; cbn [negb].
    + destruct (IH p1 (combine_result c r)) as (I1 & I2 & I3 & I4 & I5 & I6).
      split; [exact I1|]. split; [exact I2|]. split; [tauto|].
      split; [|split; [|congruence]].
      * intros w Hw. apply I4. cbn. apply elem_of_app. now left.
      * intros f' [->|Hin]%elem_of_cons Hf'; [|now apply I5].
        rewrite (Hmiss Hf') in Hs. discriminate.
    + destruct (IH p1 (push_warning
                         ("Failed to parse " +:+ f +:+ ": " +:+ errorMessage r)
                         (combine_result c r)))
        as (I1 & I2 & I3 & I4 & I5 & I6).
      split; [exact I1|]. split; [exact I2|]. split; [tauto|].
      split; [|split; [|congruence]].
      * intros w Hw. apply I4. cbn. rewrite !elem_of_app. now left; left.
      * intros f' [->|Hin]%elem_of_cons Hf'; [|now apply I5].
        apply I4. cbn. rewrite (Hmiss Hf'). cbn.
        rewrite !elem_of_app. right. now apply list_elem_of_singleton.
Qed.

(** The loop keeps the configuration of the parser. *)
Lemma parseFiles_loop_config (fs : FileSystem) (l : list string)
    (continueOnError : bool) (p : Parser) (c : ParseResult) :
  config_ (parseFiles_loop fs l continueOnError p c).1 = config_ p.
Proof.
  revert p c. induction l as [|f l IH]; intros p c; [reflexivity|].
  cbn [parseFiles_loop]. pose proof (parseFile_config fs f p) as Hcfg.
  destruct (parseFile fs f p) as [p1 r]. cbn [fst] in Hcfg.
  destruct (success r), continueOnError; cbn [negb fst];
    rewrite ?IH; exact Hcfg.
Qed.

End ParseFiles.

(** X24.  With [continueOnError], [parseFiles] always reports success,
    with an empty error message, even when no file could be read: a file
    that does not exist only leaves the warning [Failed to parse <file>:
    File does not exist: <file>].  The combined count of exclusions is
    the sum of the combined per-kind counts. *)
Theorem parseFiles_continue (fs : FileSystem) (filenames : list string)
    (p : Parser) :
  let r := (parseFiles fs filenames true p).2 in
  success r = true ∧ errorMessage r = ""
  ∧ exclusionsParsed r = counts_total (exclusionCounts r)
  ∧ (∀ f, f ∈ filenames → fileExists fs f = false →
          ("Failed to parse " +:+ f +:+ ": File does not exist: " +:+ f)
          ∈ warnings r).
Proof.
  cbv zeta. unfold parseFiles.
  destruct (parseFiles_loop_continue fs filenames p ParseResult_new)
    as (I1 & I2 & I3 & _ & I5 & _).
  split; [exact I1|]. split; [exact I2|]. split; [now apply I3 | exact I5].
Qed.

(** X25.  Without [continueOnError], [parseFiles] stops at the first file
    that fails: the files after it are not looked at, the result is a
    failure, and its message is [Failed to parse <file>: ] followed by the
    message of that file. *)
Theorem parseFiles_first_failure (fs : FileSystem) (l1 l2 : list string)
    (f : string) (p : Parser) :
  success (parseFiles fs l1 false p).2 = true →
  success (parseFile fs f (parseFiles fs l1 false p).1).2 = false →
  parseFiles fs (l1 ++ f :: l2) false p = parseFiles fs (l1 ++ [f]) false p
  ∧ success (parseFiles fs (l1 ++ f :: l2) false p).2 = false
  ∧ errorMessage (parseFiles fs (l1 ++ f :: l2) false p).2
    = "Failed to parse " +:+ f +:+ ": "
      +:+ errorMessage (parseFile fs f (parseFiles fs l1 false p).1).2.
Proof.
  unfold parseFiles. intros Hok Hfail.
  rewrite !(parseFiles_loop_app fs l1 _ false p ParseResult_new Hok).
  cbn [parseFiles_loop].
  destruct (parseFile fs f (parseFiles_loop fs l1 false p ParseResult_new).1)
    as [p1 r].
  cbn [snd] in Hfail. rewrite Hfail. cbn [negb]. now repeat split.
Qed.

Lemma parseFiles_first_failure_witness :
  let fs := mkFileSystem (λ f, String.eqb f "a.el") (λ _, 12%N)
                         (λ _, Some "INSTANCE:top") in
  parseFiles fs (["a.el"] ++ "b.el" :: ["a.el"]) false Parser_new
  = parseFiles fs (["a.el"] ++ ["b.el"]) false Parser_new
  ∧ success (parseFiles fs (["a.el"] ++ "b.el" :: ["a.el"]) false Parser_new).2
    = false
  ∧ errorMessage
      (parseFiles fs (["a.el"] ++ "b.el" :: ["a.el"]) false Parser_new).2
    = "Failed to parse " +:+ "b.el" +:+ ": "
      +:+ errorMessage
            (parseFile fs "b.el" (parseFiles fs ["a.el"] false Parser_new).1).2.
Proof.
  apply (parseFiles_first_failure
           (mkFileSystem (λ f, String.eqb f "a.el") (λ _, 12%N)
                         (λ _, Some "INSTANCE:top"))
           ["a.el"] ["a.el"] "b.el" Parser_new); reflexivity.
Defined.

(** X26.  Without [mergeOnLoad], [parseFiles] leaves only the last file in
    the database while its counters add up all files.  When the loop
    reaches the last file of the list, that is when the files before it
    give a combined result with [success] (which is always so with
    [continueOnError], and without it when none of them failed), and this
    file can be read, the database after the call is the one that parsing
    this file alone gives, and the combined count of exclusions is the
    count of the files before plus the count of the last file. *)
Theorem parseFiles_keeps_last_file (fs : FileSystem) (filenames : list string)
    (f content : string) (continueOnError : bool) (p q : Parser) :
  mergeOnLoad (config_ p) = false → config_ q = config_ p →
  success (parseFiles fs filenames continueOnError p).2 = true →
  fileExists fs f = true →
  (getFileSize fs f ≤ maxFileSize (config_ p))%N →
  open_file fs f = Some content →
  data_ (parseFiles fs (filenames ++ [f]) continueOnError p).1
  = data_ (parseFile fs f q).1
  ∧ exclusionsParsed (parseFiles fs (filenames ++ [f]) continueOnError p).2
    = exclusionsParsed (parseFiles fs filenames continueOnError p).2
      + exclusionsParsed (parseFile fs f q).2.
Proof.
  intros Hm Hq Hok Hex Hsz Hopen. unfold parseFiles in *.
  pose proof (parseFiles_loop_config fs filenames continueOnError p
                ParseResult_new) as Hcfg.
  rewrite (parseFiles_loop_app fs filenames [f] continueOnError p
             ParseResult_new Hok).
  set (p1 := (parseFiles_loop fs filenames continueOnError p
                ParseResult_new).1) in *.
  set (c1 := (parseFiles_loop fs filenames continueOnError p
                ParseResult_new).2) in *.
  destruct (parseFile_forget fs f content p1 q) as [Hd Hr];
    try congruence.
  apply forget_fields in Hd as [Hd _].
  cbn [parseFiles_loop].
  destruct (parseFile fs f p1) as [p2 r2]. cbn [fst snd] in Hr, Hd.
  rewrite <- Hr, <- Hd.
  destruct (success r2), continueOnError; cbn [negb]; split; reflexivity.
Qed.

Lemma parseFiles_keeps_last_file_witness :
  let fs := mkFileSystem (λ _, true) (λ _, 12%N)
              (λ f, if String.eqb f "a.el" then Some (dq "INSTANCE:a
Block 1 `1` `x`")
                    else Some "INSTANCE:b") in
  data_ (parseFiles fs (["a.el"] ++ ["b.el"]) false Parser_new).1
  = data_ (parseFile fs "b.el" Parser_new).1
  ∧ exclusionsParsed (parseFiles fs (["a.el"] ++ ["b.el"]) false Parser_new).2
    = exclusionsParsed (parseFiles fs ["a.el"] false Parser_new).2
      + exclusionsParsed (parseFile fs "b.el" Parser_new).2.
Proof.
  apply (parseFiles_keeps_last_file
           (mkFileSystem (λ _, true) (λ _, 12%N)
              (λ f, if String.eqb f "a.el" then Some (dq "INSTANCE:a
Block 1 `1` `x`")
                    else Some "INSTANCE:b"))
           ["a.el"] "b.el" "INSTANCE:b" false Parser_new Parser_new);
    try reflexivity.
  vm_compute. discriminate.
Defined.

(** ** Preview *)

Section Preview.

Local Arguments String.append !_ _ / : simpl nomatch.

Lemma split_newline_line (l rest : string) :
  one_line l = true → split_newline (l +:+ String "010" rest) = Some (l, rest).
Proof.
  induction l as [|c l IH]; simpl; [reflexivity|].
  intros [Hc Hl]%andb_true_iff. apply negb_true_iff in Hc.
  now rewrite Hc, (IH Hl).
Qed.

Lemma getline_line (l rest line : string) :
  one_line l = true →
  getline (mkIStream (l +:+ String "010" rest) false false) line
  = (mkIStream rest false false, l, true).
Proof. intros Hl. unfold getline. cbn. now rewrite split_newline_line. Qed.

(** The loop on a text of whole lines, with [k] lines still allowed. *)
Lemma preview_loop_lines (lines : list string) (k maxLines lineCount : nat)
    (line pv : string) :
  Forall (λ l, one_line l = true) lines →
  lineCount + k = maxLines →
  preview_loop (S k) maxLines (mkIStream (text_of_lines lines) false false)
               line lineCount pv
  = Some (if length lines <=? k then mkIStream "" true true
          else mkIStream (text_of_lines (List.skipn (S k) lines)) false false,
          lineCount + Nat.min k (length lines),
          pv +:+ text_of_lines (List.firstn k lines)).
Proof.
  intros Hl. revert k lineCount line pv.
  induction Hl as [|l ls Hone _ IH]; intros k lineCount line pv Hk.
  - cbn. rewrite Nat.min_0_r, Nat.add_0_r.
    destruct k; now rewrite app_empty_r.
  - cbn [text_of_lines foldr]. cbn [preview_loop].
    rewrite (getline_line l _ line Hone). cbn [andb].
    destruct k as [|k].
    + assert ((lineCount <? maxLines) = false) as -> by (apply Nat.ltb_ge; lia).
      cbn. now rewrite Nat.add_0_r, app_empty_r.
    + assert ((lineCount <? maxLines) = true) as -> by (apply Nat.ltb_lt; lia).
      fold (text_of_lines ls). rewrite IH by lia.
      cbn [length List.skipn List.firstn text_of_lines foldr Nat.min].
      fold (text_of_lines (List.firstn k ls)).
      change (S (length ls) <=? S k) with (length ls <=? k).
      fold (text_of_lines (List.skipn (S k) ls)).
      f_equal. f_equal; [f_equal; lia|].
      rewrite !app_assoc_str. reflexivity.
Qed.

(** [preview_text] on a text of whole lines. *)
Lemma preview_text_lines (lines : list string) (maxLines : nat) :
  Forall (λ l, one_line l = true) lines →
  preview_text (text_of_lines lines) maxLines
  = Some (text_of_lines (List.firstn maxLines lines)
          +:+ if maxLines + 2 <=? length lines
              then "... (truncated, " +:+ to_string maxLines
                   +:+ " lines shown)" +:+ String "010" ""
              else "").
Proof.
  intros Hl. unfold preview_text.
  rewrite (preview_loop_lines lines maxLines maxLines 0 "" "" Hl eq_refl).
  cbn [Nat.add]. change ("" +:+ ?x) with x.
  destruct (Nat.leb_spec (length lines) maxLines) as [Hle|Hlt].
  - assert ((maxLines + 2 <=? length lines) = false) as ->
      by (apply Nat.leb_gt; lia).
    rewrite app_empty_r.
    destruct (Nat.min maxLines (length lines) =? maxLines); reflexivity.
  - assert (Nat.min maxLines (length lines) = maxLines) as -> by lia.
    rewrite Nat.eqb_refl.
    assert (Hskip : Forall (λ l, one_line l = true)
                           (List.skipn (S maxLines) lines)).
    { now apply Forall_drop. }
    assert (Hlen : length (List.skipn (S maxLines) lines)
                   = length lines - S maxLines) by apply List.length_skipn.
    destruct (List.skipn (S maxLines) lines) as [|l ls] eqn:Hs.
    + assert ((maxLines + 2 <=? length lines) = false) as ->
        by (apply Nat.leb_gt; cbn in Hlen; lia).
      cbn. now rewrite app_empty_r.
    + assert ((maxLines + 2 <=? length lines) = true) as ->
        by (apply Nat.leb_le; cbn in Hlen; lia).
      cbn [text_of_lines foldr].
      apply Forall_cons_1 in Hskip as [Hone _].
      rewrite (getline_line l _ "" Hone). reflexivity.
Qed.

End Preview.

Section PreviewWritten.
Context `{Platform}.

Local Arguments String.append !_ _ / : simpl nomatch.

Lemma render_all_lines (cfg : WriterConfig) (e : string) (its : list Item) :
  lineEnding cfg = e +:+ String "010" "" →
  render_all cfg its
  = text_of_lines (map (λ it, indentation cfg +:+ item_line it +:+ e) its).
Proof.
  intros Hle. induction its as [|it its IH]; [reflexivity|].
  cbn [render_all foldr map text_of_lines].
  fold (render_all cfg its). rewrite IH. unfold render. rewrite Hle.
  fold (text_of_lines (map (λ it, indentation cfg +:+ item_line it +:+ e) its)).
  repeat first [rewrite app_assoc_str | progress simpl]. reflexivity.
Qed.

End PreviewWritten.

(** X27.  For a well-formed database and a writer whose line ending ends
    in a newline, with no other newline in the line ending or in the
    indentation, [preview] shows the first [maxLines] lines of the output
    and adds the truncation note only when the output has at least
    [maxLines + 2] lines: the loop reads a line before it compares the
    count, so with exactly [maxLines + 1] lines the last one is dropped
    and nothing says so.  With at most [maxLines] lines the preview is the
    whole output. *)
Theorem preview_truncation `{Platform} (cfg : WriterConfig) (e : string)
    (data : ExclusionData) (maxLines : nat) :
  lineEnding cfg = e +:+ String "010" "" →
  one_line (indentation cfg) = true → one_line e = true →
  wf_data data = true →
  let lines := data_items cfg data in
  length lines = linesWritten (writeToStream cfg data).2
  ∧ preview cfg data maxLines
    = Some (render_all cfg (List.firstn maxLines lines)
            +:+ if maxLines + 2 <=? length lines
                then "... (truncated, " +:+ to_string maxLines
                     +:+ " lines shown)" +:+ String "010" ""
                else "")
  ∧ (length lines ≤ maxLines →
     preview cfg data maxLines = Some (writeToString cfg data)).
Proof.
  intros Hle Hind He Hwf. cbv zeta.
  assert (Hp : preview cfg data maxLines
               = Some (render_all cfg (List.firstn maxLines (data_items cfg data))
                       +:+ if maxLines + 2 <=? length (data_items cfg data)
                           then "... (truncated, " +:+ to_string maxLines
                                +:+ " lines shown)" +:+ String "010" ""
                           else "")).
  { unfold preview. rewrite (writeToString_items cfg data).
    rewrite !(render_all_lines cfg e _ Hle).
    rewrite preview_text_lines.
    - now rewrite length_map, firstn_map.
    - apply Forall_map.
      eapply Forall_impl; [apply (data_items_wf cfg data Hwf)|].
      intros it Hit. cbn. unfold one_line. rewrite !no_char_app. fold one_line.
      now rewrite Hind, He, (wf_item_one_line _ Hit). }
  split; [now rewrite writeToStream_spec|]. split; [exact Hp|].
  intros Hlen. rewrite Hp, (writeToString_items cfg data).
  rewrite List.firstn_all2 by assumption.
  assert ((maxLines + 2 <=? length (data_items cfg data)) = false) as ->
    by (apply Nat.leb_gt; lia).
  now rewrite app_empty_r.
Qed.

Lemma preview_truncation_witness :
  let lines := data_items (H := reference_platform) WriterConfig_default
                 sample_database in
  length lines
  = linesWritten (writeToStream (H := reference_platform) WriterConfig_default
                    sample_database).2
  ∧ preview (H := reference_platform) WriterConfig_default sample_database 3
    = Some (render_all WriterConfig_default (List.firstn 3 lines)
            +:+ if 3 + 2 <=? length lines
                then "... (truncated, " +:+ to_string 3
                     +:+ " lines shown)" +:+ String "010" ""
                else "")
  ∧ (length lines ≤ 3 →
     preview (H := reference_platform) WriterConfig_default sample_database 3
     = Some (writeToString (H := reference_platform) WriterConfig_default
               sample_database)).
Proof.
  apply (preview_truncation (H := reference_platform)
           WriterConfig_default "" sample_database 3); reflexivity.
Defined.

(** ** Writing files *)

Section WrittenFiles.
Context `{Platform}.

Lemma msum_zero {V : Type} (m : gmap string V) : msum (λ _, 0) m = 0.
Proof. unfold msum. induction (map_to_list m); [reflexivity | assumption]. Qed.

(** The sum of a measure over a map whose values went through [g]. *)
Lemma msum_fmap {V W : Type} (f : W → nat) (g : V → W) (m : gmap string V) :
  msum f (g <$> m) = msum (λ v, f (g v)) m.
Proof.
  apply msum_related. intros k. rewrite lookup_fmap.
  destruct (m !! k) as [v|]; [|reflexivity]. now exists (g v).
Qed.

Lemma records_empty {A : Type} : records (∅ : gmap string (list A)) = 0.
Proof. apply msum_empty. Qed.

(** The per-kind totals of a database whose scopes went through
    [clear_unwanted]. *)
Lemma clear_unwanted_totals (types : list ExclusionType) (d : ExclusionData) :
  let d' := set_scopes (fmap (clear_unwanted types)) d in
  blockTotal d' = (if has_type BLOCK types then blockTotal d else 0)
  ∧ toggleTotal d' = (if has_type TOGGLE types then toggleTotal d else 0)
  ∧ fsmTotal d' = (if has_type FSM types then fsmTotal d else 0)
  ∧ conditionTotal d' = (if has_type CONDITION types then conditionTotal d else 0)
  ∧ getScopeCount d' = getScopeCount d.
Proof.
  cbv zeta. unfold blockTotal, toggleTotal, fsmTotal, conditionTotal,
    getScopeCount.
  cbn [scopes set_scopes]. rewrite !msum_fmap. unfold clear_unwanted.
  cbn [blockExclusions toggleExclusions fsmExclusions conditionExclusions].
  repeat split.
  - destruct (has_type BLOCK types); [reflexivity|].
    rewrite <- (msum_zero (scopes d)). apply msum_ext. intros v. apply map_size_empty.
  - destruct (has_type TOGGLE types); [reflexivity|].
    rewrite <- (msum_zero (scopes d)). apply msum_ext. intros v.
    apply records_empty.
  - destruct (has_type FSM types); [reflexivity|].
    rewrite <- (msum_zero (scopes d)). apply msum_ext. intros v.
    apply records_empty.
  - destruct (has_type CONDITION types); [reflexivity|].
    rewrite <- (msum_zero (scopes d)). apply msum_ext. intros v. apply map_size_empty.
  - apply map_size_fmap.
Qed.

End WrittenFiles.

(** X28.  [writeFilteredByType] writes every scope of the database, also
    the ones the filter leaves empty, and counts only the kinds that were
    asked for: when the file can be created the result is a success,
    [scopesWritten] is the scope count of the whole database, each
    per-kind counter is the total of its kind if the kind is in [types]
    and 0 otherwise, and [exclusionsWritten] is their sum. *)
Theorem writeFilteredByType_counts `{Platform} (cfg : WriterConfig)
    (can_create : string → bool) (filename : string) (data : ExclusionData)
    (types : list ExclusionType) :
  can_create filename = true →
  let r := (writeFilteredByType cfg can_create filename data types).2 in
  let pick t total := if has_type t types then total else 0 in
  w_success r = true
  ∧ scopesWritten r = getScopeCount data
  ∧ w_exclusionCounts r
    = mkCounts (pick BLOCK (blockTotal data)) (pick TOGGLE (toggleTotal data))
               (pick FSM (fsmTotal data))
               (pick CONDITION (conditionTotal data))
  ∧ exclusionsWritten r
    = pick BLOCK (blockTotal data) + pick CONDITION (conditionTotal data)
      + pick TOGGLE (toggleTotal data) + pick FSM (fsmTotal data).
Proof.
  intros Hc. cbv zeta. unfold writeFilteredByType, writeFile. rewrite Hc.
  cbn [negb]. rewrite writeToStream_spec. cbn [fst snd].
  cbn [w_success scopesWritten w_exclusionCounts exclusionsWritten].
  rewrite getExclusionCountsByType_spec, getTotalExclusionCount_spec.
  destruct (clear_unwanted_totals types data) as (-> & -> & -> & -> & ->).
  now repeat split.
Qed.

Lemma writeFilteredByType_counts_witness :
  let r := (writeFilteredByType (H := reference_platform) WriterConfig_default
              (λ _, true) "out.el" sample_database [TOGGLE]).2 in
  let pick t total := if has_type t [TOGGLE] then total else 0 in
  w_success r = true
  ∧ scopesWritten r = getScopeCount sample_database
  ∧ w_exclusionCounts r
    = mkCounts (pick BLOCK (blockTotal sample_database))
               (pick TOGGLE (toggleTotal sample_database))
               (pick FSM (fsmTotal sample_database))
               (pick CONDITION (conditionTotal sample_database))
  ∧ exclusionsWritten r
    = pick BLOCK (blockTotal sample_database)
      + pick CONDITION (conditionTotal sample_database)
      + pick TOGGLE (toggleTotal sample_database)
      + pick FSM (fsmTotal sample_database).
Proof.
  apply (writeFilteredByType_counts (H := reference_platform)
           WriterConfig_default (λ _, true) "out.el" sample_database [TOGGLE]).
  reflexivity.
Defined.

Section MultipleFiles.
Context `{Platform}.

Lemma app_inj_tail_str (x y b : string) : x +:+ b = y +:+ b → x = y.
Proof.
  revert y. induction x as [|c x IH]; intros [|d y] Heq; try reflexivity.
  - exfalso. apply (f_equal String.length) in Heq.
    rewrite !length_app_str in Heq. cbn in Heq. lia.
  - exfalso. apply (f_equal String.length) in Heq.
    rewrite !length_app_str in Heq. cbn in Heq. lia.
  - change (String c (x +:+ b) = String d (y +:+ b)) in Heq.
    injection Heq as -> Heq. f_equal. now apply IH.
Qed.

(** Two indices never give the same file name. *)
Lemma indexed_filename_inj (baseFilename : string) :
  Inj (=) (=) (indexed_filename baseFilename).
Proof.
  intros i j. unfold indexed_filename.
  assert (Hnum : "_" +:+ to_string i = "_" +:+ to_string j → i = j).
  { intros Heq%String.app_inj. unfold to_string, to_string_N in Heq.
    apply pretty_N_inj in Heq. lia. }
  destruct (rfind_char baseFilename ".") as [dotPos|].
  - intros Heq%String.app_inj. apply Hnum. now apply app_inj_tail_str in Heq.
  - intros Heq%String.app_inj. exact (Hnum Heq).
Qed.

(** The loop of [writeMultipleFiles] when every file can be created. *)
Lemma writeMultipleFiles_loop_all (cfg : WriterConfig)
    (can_create : string → bool) (baseFilename : string)
    (dataList : list ExclusionData) (i : nat) (files : list (string * string))
    (c : WriteResult) :
  (∀ f, can_create f = true) →
  let out := writeMultipleFiles_loop cfg can_create baseFilename dataList i
               files c in
  out.1.*1 = files.*1 ++ map (indexed_filename baseFilename)
                             (seq i (length dataList))
  ∧ out.1.*2 = files.*2 ++ map (writeToString cfg) dataList
  ∧ w_success out.2 = true
  ∧ scopesWritten out.2
    = scopesWritten c + sum_list_with getScopeCount dataList
  ∧ exclusionsWritten out.2
    = exclusionsWritten c + sum_list_with getTotalExclusionCount dataList.
Proof.
  intros Hcan. cbv zeta. revert i files c.
  induction dataList as [|d dl IH]; intros i files c.
  - cbn. rewrite !app_nil_r. repeat split; lia.
  - cbn [writeMultipleFiles_loop]. unfold writeFile. rewrite Hcan.
    cbn [negb]. rewrite writeToStream_spec. cbn [w_success negb].
    destruct (IH (S i) (files ++ [(indexed_filename baseFilename i,
                                   render_all cfg (data_items cfg d))])
                 (combine_written c
                    (mkWriteResult true "" (length (data_items cfg d))
                       (getTotalExclusionCount d) (getScopeCount d) []
                       (getExclusionCountsByType d))))
      as (I1 & I2 & I3 & I4 & I5).
    rewrite I1, I2, I3, I4, I5. rewrite !fmap_app. cbn.
    rewrite <- !app_assoc. rewrite (writeToString_items cfg d).
    repeat split; lia.
Qed.

End MultipleFiles.

(** X29.  [writeMultipleFiles] gives every database a file of its own:
    when each file can be created, there is one file per database, in
    order, with the text [writeToString] gives for it, no two files have
    the same name, so that no file overwrites another, and the combined
    result is a success whose scope and exclusion counters are the sums
    over the databases. *)
Theorem writeMultipleFiles_separate `{Platform} (cfg : WriterConfig)
    (can_create : string → bool) (baseFilename : string)
    (dataList : list ExclusionData) :
  (∀ f, can_create f = true) →
  let out := writeMultipleFiles cfg can_create baseFilename dataList in
  NoDup out.1.*1
  ∧ out.1.*2 = map (writeToString cfg) dataList
  ∧ w_success out.2 = true
  ∧ scopesWritten out.2 = sum_list_with getScopeCount dataList
  ∧ exclusionsWritten out.2 = sum_list_with getTotalExclusionCount dataList.
Proof.
  intros Hcan. cbv zeta. unfold writeMultipleFiles.
  destruct (writeMultipleFiles_loop_all cfg can_create baseFilename dataList
              0 [] WriteResult_new Hcan) as (I1 & I2 & I3 & I4 & I5).
  rewrite I1, I2. split; [|now repeat split].
  cbn [fmap list_fmap app].
  apply (NoDup_fmap_2 (indexed_filename baseFilename)
           (Inj0 := indexed_filename_inj baseFilename)).
  apply NoDup_seq.
Qed.

Lemma writeMultipleFiles_separate_witness :
  let out := writeMultipleFiles (H := reference_platform) WriterConfig_default
               (λ _, true) "out.el" [sample_database; sample_database] in
  NoDup out.1.*1
  ∧ out.1.*2 = map (writeToString (H := reference_platform) WriterConfig_default)
                   [sample_database; sample_database]
  ∧ w_success out.2 = true
  ∧ scopesWritten out.2
    = sum_list_with getScopeCount [sample_database; sample_database]
  ∧ exclusionsWritten out.2
    = sum_list_with (getTotalExclusionCount (H := reference_platform))
                    [sample_database; sample_database].
Proof.
  apply (writeMultipleFiles_separate (H := reference_platform)
           WriterConfig_default (λ _, true) "out.el"
           [sample_database; sample_database]).
  reflexivity.
Defined.

(** ** The formatter and the writer *)

Section Formatter.

Ltac peel Heq :=
  repeat first [ apply String.app_inj in Heq
               | apply app_inj_tail_str in Heq ].

Lemma formatBlock_blockLine (b : BlockExclusion) :
  formatBlock b false = blockLine (blockId b) b
  ↔ no_quote (sourceCode b) = true.
Proof.
  unfold formatBlock, blockLine, with_annotation. split.
  - intros Heq. peel Heq. now apply escapeString_fixed.
  - intros Hq. now rewrite (escapeString_no_quote _ Hq).
Qed.

Lemma formatToggle_toggleLine (t : ToggleExclusion) :
  formatToggle t false = toggleLine t
  ↔ no_quote (netDescription t) = true.
Proof.
  unfold formatToggle, toggleLine, with_annotation. cbv zeta. split.
  - intros Heq. peel Heq. now apply escapeString_fixed.
  - intros Hq. now rewrite (escapeString_no_quote _ Hq).
Qed.

Lemma formatCondition_conditionLine (c : ConditionExclusion) :
  formatCondition c false = conditionLine (conditionId c) c
  ↔ no_quote (expression c) = true.
Proof.
  unfold formatCondition, conditionLine, with_annotation. cbv zeta. split.
  - intros Heq. destruct (parameters c), (coverage c); peel Heq;
      now apply escapeString_fixed.
  - intros Hq. now rewrite (escapeString_no_quote _ Hq).
Qed.

End Formatter.

(** X30.  [ExclusionFormatter] never escapes.  Without the annotation, the
    line it gives for a block, a toggle or a condition is the line
    [ExclusionWriter] writes for the same record exactly when the source
    code, the net description or the expression has no double quote; for
    an FSM record the two always agree. *)
Theorem formatter_matches_writer :
  (∀ b, formatBlock b false = blockLine (blockId b) b
        ↔ no_quote (sourceCode b) = true)
  ∧ (∀ t, formatToggle t false = toggleLine t
          ↔ no_quote (netDescription t) = true)
  ∧ (∀ f, formatFsm f false = fsmLine f)
  ∧ (∀ c, formatCondition c false = conditionLine (conditionId c) c
          ↔ no_quote (expression c) = true).
Proof.
  split; [exact formatBlock_blockLine|].
  split; [exact formatToggle_toggleLine|].
  split; [reflexivity | exact formatCondition_conditionLine].
Qed.
